(* ===== verification/_CoqProject ===== *)
-Q . S2P
Prelude.v
GoStd.v
GoStdFacts.v
GoHeap.v
HeapLogic.v
Kube.v
Api.v
DeepCopy.v
Config.v
SpiffeHelper.v
Template.v
GoTemplate.v
Params.v
Selection.v
Plan.v
Mutate.v
MutateFacts.v
Injection.v
MutateHeap.v
Webhook.v
WebhookHeap.v
Startup.v
Readiness.v
Validation.v
Reconcile.v
ReconcileHeap.v
CountHeap.v
ControllerLoop.v
TestUtils.v
System.v
