(* ===== verification/Prelude.v ===== *)
(** * A verification library for the ztwim-oidc-shims operator

    The operator federates SPIFFE identities to cloud providers.  Two custom resources,
    [OIDCShim] and [ClusterOIDCShim], describe how a pod obtains an OIDC token: which pods are
    meant, which parameters to read from the pod, its service account and its namespace, and
    which files and variables to render.  A mutating webhook injects the matching shims when a
    pod is created; a controller validates each shim and reports the result in its status.

    ** The parts and their files

    - GoStd.v, GoStdFacts.v: what the program uses of Go: errors, strings, strconv (with
      [Quote] down to UTF-8 decoding), path, sort.  A Go string is a byte string.  The table
      behind [unicode.IsPrint] is a class parameter.
    - Kube.v: the fields of pods, volumes, containers, selectors and conditions that the
      operator reads or writes; a field [..._Other] stands for the rest.
    - GoHeap.v: Go memory for the parts where sharing matters: cells, pointers, slices over
      shared arrays with [append] and [copy], and the contract [deep_copies].
    - HeapLogic.v: a separation logic on that memory as an instance of Iris's [bi], with a total
      weakest precondition and the rules of cells, slices and [append].
    - Api.v (src/api/v1alpha1): the specs and status, the annotation and label keys, and the
      interface [Shim] as the sum of its two implementations.
    - DeepCopy.v (src/api/v1alpha1/zz_generated.deepcopy.go): the memory layout of every API
      type, the value a layout denotes, and the generated [DeepCopyInto], [DeepCopy] and
      [DeepCopyObject].
    - Config.v (src/internal/config, the options part of src/cmd/main.go): defaults,
      environment, flags, validation, excluded namespaces.
    - SpiffeHelper.v (src/internal/spiffehelper/render.go): [Render] and a reader of the file
      it prints.
    - Template.v (src/internal/params/template.go): [Render], [ReferencedKeys] and [walkNode]
      over the parse tree of text/template; parsing and execution are the class
      [TextTemplate].  GoTemplate.v instantiates the class with an executable core, used by
      the samples and by the theorems that need a template to render.
    - Params.v (src/internal/params/resolve.go, validate.go): [Resolve] folds over the ordered
      parameters; [Validate] is the static check.
    - Selection.v (src/internal/selection): enrollment, selectors, exclusions, opting out.
    - Plan.v (src/internal/injection/plan.go): [BuildPlan] renders a shim to a [Plan].
    - Mutate.v (src/internal/injection/mutate.go, collisions.go): [Apply] and everything it
      calls.  MutateFacts.v proves what the checks and loops compute, and describes the loop
      of [Apply] by the relation [reach]; Injection.v states what [Apply] guarantees.
      MutateHeap.v runs [Apply] on memory, as the code does, and proves that it refines the
      value model.
    - Webhook.v (src/internal/webhook/pod): [Handle] composes the parts for one admission
      request; the informer warm-up.  WebhookHeap.v runs [Handle] on memory.
    - Startup.v (src/cmd/main.go, the [SetupWithManager] functions, scheme registration in
      src/api/v1alpha1): [main] as a program that parses flags, builds TLS options in memory
      and calls the manager; the reference list of calls [wiring].
    - Readiness.v (src/internal/webhook/pod/setup.go): the warm-up, the webhook server and the
      probes of a started replica as a step relation.
    - Validation.v, Reconcile.v (src/internal/controller): static validation, the status
      update and the paged pod count.  ReconcileHeap.v runs the status update on memory, with
      the interface [Shim] as the class [ShimObject]; CountHeap.v runs the pod count on memory,
      with the slice of options each request builds.  ControllerLoop.v puts [Reconcile] into a
      cluster: API server, lagging informer cache, work queue and restarts as a step relation.
    - TestUtils.v (src/test/utils/utils.go): the helpers of the end-to-end tests as programs
      that call the host for commands, files and the environment.
    - System.v: theorems across the webhook and the controller.

    ** How the code is modelled

    Functions that return an error are functions into [result error]; the pod is threaded
    through the operations that mutate it, and a write through a pointer into one of its
    slices is an update of the element that the lookup found (MutateHeap.v justifies this).  Maps
    are [gmap]s: reading a nil
    map and an empty one is the same, and the code creates a map before writing.  The order in
    which Go ranges over a map is never observable in a result, which
    [Config.excluded_namespace_names_spec] states where it could be.  Machine integers appear where
    they can overflow: file modes and the pod count are converted to int32.  The warnings and error
    texts of the operator are modelled to the byte; those of libraries are not.

    Third-party code is a class parameter: [TextTemplate] (text/template), [LabelSelectors]
    (apimachinery), [ClusterAPI] and [PodCodec] (clients, decoder, encoder), [PodCodecMem] (the
    decoder on memory: it fills a pod with memory of its own), [StatusClient] and
    [ConditionsLib] (client, [meta.SetStatusCondition] with its documented laws),
    [ConditionsMem] (the same function on memory),
    [ListOptionsLib] (how a list request reads its options), [FileErrors] ([os.IsNotExist]), [LibLayouts] and [LibCopies] (the layouts and
    deep copies of the apimachinery structs inside the API types), [Runtime] (the manager's
    answers, which may depend on every earlier call, the zap flags, and how far [append] grows
    an array).  What the operating system answers to the test utilities is the parameter [host].
    Every class is instantiated in the samples, on which the definitions are
    evaluated.

    Almost everywhere API objects and pods are values.  DeepCopy.v and ReconcileHeap.v justify
    this for the objects informers share: copies have memory of their own, and the status
    update that works in place on a copy has the outcome of the value model.  MutateHeap.v and
    WebhookHeap.v justify it for the pod and the plans, whose resources and security context
    the helper containers copy: [pod_at] says that a pod owns its maps and the arrays
    of its slices, spare capacity included, and what its containers point to, which a decoded pod does; on such a pod the code on
    memory computes the value model.  [shared_env_clobbered] shows that ownership is needed.

    In ControllerLoop.v the moves of the API server, the watch and the work queue are rules of
    the step relation, after their documentation (optimistic locking by resource version,
    generation raised by spec edits only, events in order but possibly folded, one call per key
    at a time, retries); the call is [reconcile_read] of Reconcile.v with clients that answer as
    the state says, any answers to the pod lists, and writes that fail in any way, even after
    they took effect.

    The only loop without a bound in the source is the paged pod list: [count_loop] takes fuel,
    one unit per request, and [count_matched_pods_pages] shows that the number of pages is
    enough.  The template engine's parser takes the length of the template as fuel.

    ** What is shown

    Injection: [Apply] skips a plan without a trace, installs an applied one completely, adds
    to the pod without changing anything that was there, keeps names and mount paths distinct
    for plans that are consistent in themselves, gives every container exactly the variables
    meant for it, is idempotent, respects the annotation budget and delivers every rendered file to the
    target containers.  Webhook: a patch is always justified by a matching shim, no matching
    shim is lost silently, a pod is refused only for a failing API server, and reinvocation
    does nothing, and the status of a shim never matters.  Parameters and templates: resolution implements its contract, fails only for
    the stated causes, and validation guarantees that referenced keys have values.  Plans and
    helper configuration: distinct paths, size bounds, and a configuration file that reads back
    as the values it was rendered from.  Controller: the Ready condition is exactly the
    validity of the spec, field by field, a valid shim whose templates only depend on the fields
    they mention ([key_safe]) is not skipped for a static reason, reconciliation converges and
    the count is exact.  System: a shim stored as Ready for its current
    generation, in any state of the cluster, that selects a pod and resolves has a plan, which
    is injected when nothing collides with it, and with the default token location a valid pod
    stays valid under the conditions of [default_shim].
    Memory: every generated deep copy denotes the value of its original and shares no cell with
    it, and reconciling a copy refines the value model and leaves the informer's object alone;
    the webhook never panics on a decoded pod, whatever capacities [append] picks, and touches no
    memory but its own; the requests of the pod count do not share their options.
    Control loop: in every interleaving a status that claims to be current tells the truth
    about the stored spec, no spec change is lost, and the loop settles.
    Start-up: [main] makes the calls of [wiring] in order until one fails, starts the manager
    only after all of them, never starts with invalid options, keeps HTTP/2 off unless asked,
    and gives each server its own certificate; the last depends on the growth of a one-element
    slice, which [spare_room_mixes_certificates] shows to be needed.  A replica that reports
    ready has its webhook server running and answers every request as with a synced cache.

    Test utilities: on every host the image archive is removed after its use unless it could
    not be closed, and uncommenting a target of lines changes nothing else in the file.

    Some hypotheses of [apply_valid] are not established by the code; the examples
    [duplicate_target_breaks_pod] and [token_volume_named_like_socket_breaks_pod] show that
    they are needed.  [mode_rules_differ], [dotted_name_passes],
    [root_variable_reference_passes] and [invalid_shim_is_injected] record where the code
    departs from its comments and its README; [uncomment_drops_final_newline] shows a target
    that [UncommentCode] does not restore.

    ** What is not modelled

    Logging other than the line per admitted pod, contexts and deadlines (they do not change a
    result), what the manager does once it is started beyond the rules of Readiness.v and
    ControllerLoop.v (library code), and the commands that the test utilities execute. *)

From stdpp Require Export base tactics numbers list gmap strings pretty sorting.
From Stdlib Require Export Ascii.

(** ** Results of fallible Go code

    A Go function that returns [(T, error)] becomes a function into [result E T].  [E] is
    a parameter here; the library uses the [error] type of [GoStd]. *)

Inductive result (E A : Type) : Type :=
| Ok (a : A)
| Err (e : E).
Arguments Ok {E A} a.
Arguments Err {E A} e.

#[export] Instance result_eq_dec `{EqDecision E, EqDecision A} : EqDecision (result E A).
Proof. solve_decision. Defined.

Definition is_Ok {E A} (r : result E A) : Prop := ∃ a, r = Ok a.

Definition result_bind {E A B} (r : result E A) (k : A → result E B) : result E B :=
  match r with Ok a => k a | Err e => Err e end.

(** Wrap the error of a failing call, as [fmt.Errorf("...: %w", err)] does. *)
Definition result_map_err {E A} (f : E → E) (r : result E A) : result E A :=
  match r with Ok a => Ok a | Err e => Err (f e) end.

Declare Scope go_scope.
Delimit Scope go_scope with go.
Notation "'let!' x := c 'in' k" := (result_bind c (λ x, k))
  (at level 10, x name, c at level 200, k at level 200) : go_scope.
Notation "'let!' ( x , y ) := c 'in' k" := (result_bind c (λ p, match p with (x, y) => k end))
  (at level 10, x name, y name, c at level 200, k at level 200) : go_scope.
Open Scope go_scope.
Open Scope string_scope.
Open Scope list_scope.

Lemma result_bind_Ok {E A B} (r : result E A) (k : A → result E B) b :
  result_bind r k = Ok b ↔ ∃ a, r = Ok a ∧ k a = Ok b.
Proof. destruct r; naive_solver. Qed.

Lemma result_map_err_Ok {E A} (f : E → E) (r : result E A) a :
  result_map_err f r = Ok a ↔ r = Ok a.
Proof. destruct r; naive_solver. Qed.

(** [mapM_result f l] runs [f] over [l] in order, with the index of each element, and
    stops at the first error: the shape of every Go loop
    [for i, x := range l { y, err := f(i, x); if err != nil { return err }; out = append(out, y) }]. *)
Fixpoint mapM_result_from {E A B} (i : nat) (f : nat → A → result E B) (l : list A)
    : result E (list B) :=
  match l with
  | [] => Ok []
  | x :: l' => let! y := f i x in let! ys := mapM_result_from (S i) f l' in Ok (y :: ys)
  end.
Definition mapM_result {E A B} (f : nat → A → result E B) (l : list A) : result E (list B) :=
  mapM_result_from 0 f l.

(** ** Automation *)

Create HintDb shim discriminated.
Create Rewrite HintDb shim.

(** Case analysis on the [match] or [if] that blocks a hypothesis or the goal, keeping the
    equation. *)
Ltac break_match_hyp H :=
  match type of H with
  | context [match ?x with _ => _ end] =>
      lazymatch x with context [match _ with _ => _ end] => fail | _ => destruct x eqn:? end
  end.
Ltac break_match_goal :=
  match goal with
  | |- context [match ?x with _ => _ end] =>
      lazymatch x with context [match _ with _ => _ end] => fail | _ => destruct x eqn:? end
  end.

(** Invert a successful chain of [let!]. *)
Ltac inv_result :=
  repeat match goal with
  | H : result_bind _ _ = Ok _ |- _ =>
      apply result_bind_Ok in H; destruct H as (? & ? & ?)
  | H : result_map_err _ _ = Ok _ |- _ => apply result_map_err_Ok in H
  | H : Ok _ = Ok _ |- _ => injection H as H
  | H : Err _ = Ok _ |- _ => discriminate H
  | H : Ok _ = Err _ |- _ => discriminate H
  end; subst.

Lemma mapM_result_from_Ok {E A B} (f : nat → A → result E B) l : ∀ i ys,
  mapM_result_from i f l = Ok ys ↔
  length ys = length l ∧
  ∀ k x y, l !! k = Some x → ys !! k = Some y → f (i + k) x = Ok y.
Proof.
  induction l as [|x l IH]; intros i ys; simpl.
  - split; [intros [= <-]; done|]. destruct ys; simpl; naive_solver lia.
  - split.
    + intros H. inv_result. apply IH in H0 as [Hlen Hk].
      split; [simpl; lia|]. intros [|k] a b; simpl; intros; simplify_eq.
      * by rewrite Nat.add_0_r.
      * rewrite <- Nat.add_succ_comm. eauto.
    + destruct ys as [|y ys]; simpl; [naive_solver lia|]. intros [Hlen Hk].
      pose proof (Hk 0 x y eq_refl eq_refl) as H0. rewrite Nat.add_0_r in H0.
      rewrite H0. simpl. replace (mapM_result_from (S i) f l) with (@Ok E _ ys); [done|].
      symmetry. apply IH. split; [lia|]. intros k a b Ha Hb.
      rewrite Nat.add_succ_comm. by apply (Hk (S k)).
Qed.

(** ** Byte strings

    A Go string is a sequence of bytes: Rocq's [string] with [ascii] for the byte. *)

#[global] Arguments String.append : simpl nomatch.

(** Go's [len] of a string. *)
Definition len (s : string) : Z := Z.of_nat (String.length s).

Lemma string_app_length s t : String.length (s +:+ t) = String.length s + String.length t.
Proof. induction s; simpl; congruence. Qed.

Lemma len_app s t : len (s +:+ t) = (len s + len t)%Z.
Proof. unfold len. rewrite string_app_length. lia. Qed.

Lemma len_nonneg s : (0 ≤ len s)%Z.
Proof. unfold len. lia. Qed.

Lemma len_pos s : s ≠ "" → (0 < len s)%Z.
Proof. destruct s; [done|]. intros _. unfold len. simpl. lia. Qed.

Lemma string_app_assoc s t u : (s +:+ t) +:+ u = s +:+ (t +:+ u).
Proof. induction s; simpl; congruence. Qed.

Lemma string_app_nil_r s : s +:+ "" = s.
Proof. induction s; simpl; congruence. Qed.

Lemma string_app_inj_l s t u : s +:+ t = s +:+ u → t = u.
Proof. induction s; simpl; naive_solver. Qed.

#[export] Instance string_app_inj s : Inj (=) (=) (String.append s).
Proof. intros t u. apply string_app_inj_l. Qed.

(** All characters of a string satisfy a boolean test. *)
Fixpoint string_forallb (p : ascii → bool) (s : string) : bool :=
  match s with
  | EmptyString => true
  | String c s' => p c && string_forallb p s'
  end.

Lemma string_forallb_app p s t :
  string_forallb p (s +:+ t) = string_forallb p s && string_forallb p t.
Proof. induction s; simpl; [done|]. by rewrite IHs, andb_assoc. Qed.

(** Two decompositions around a separator that the right parts do not contain agree. *)
Lemma string_app_sep_inj (p : ascii → bool) (c : ascii) s1 s2 t1 t2 :
  p c = false →
  string_forallb p t1 = true → string_forallb p t2 = true →
  s1 +:+ String c t1 = s2 +:+ String c t2 → s1 = s2 ∧ t1 = t2.
Proof.
  intros Hc. revert s2. induction s1 as [|a s1 IH]; intros [|b s2] H1 H2 H; simpl in *.
  - by injection H as ->.
  - injection H as -> ->. rewrite string_forallb_app in H1. simpl in H1.
    rewrite Hc in H1. by rewrite andb_false_r in H1.
  - injection H as -> <-. rewrite string_forallb_app in H2. simpl in H2.
    rewrite Hc in H2. by rewrite andb_false_r in H2.
  - injection H as -> H. destruct (IH s2 H1 H2 H) as [-> ->]. done.
Qed.

#[export] Hint Rewrite string_app_assoc string_app_nil_r len_app : shim.

(** ** Lists *)

(** Does some element satisfy the test?  The shape of Go's "find by name" loops. *)
Lemma existsb_elem_of {A} (p : A → bool) l :
  existsb p l = true ↔ ∃ x, x ∈ l ∧ p x = true.
Proof.
  induction l as [|a l IH]; simpl.
  - split; [done|]. intros (x & Hx & _). by apply elem_of_nil in Hx.
  - rewrite orb_true_iff, IH. split.
    + intros [?|(x & ? & ?)]; [exists a|exists x]; split; try done; set_solver.
    + intros (x & [->|?]%elem_of_cons & ?); eauto.
Qed.

Lemma existsb_str_eqb (s : string) l : existsb (String.eqb s) l = true ↔ s ∈ l.
Proof.
  rewrite existsb_elem_of. split.
  - intros (x & ? & ?%String.eqb_eq). by subst.
  - intros. exists s. by rewrite String.eqb_refl.
Qed.

Lemma NoDup_app_singleton {A} (l : list A) x : NoDup l → x ∉ l → NoDup (l ++ [x]).
Proof.
  intros. apply NoDup_app. split_and!; [done| |apply NoDup_singleton]. set_solver.
Qed.

Lemma fmap_nil_iff {A B} (f : A → B) l : f <$> l = [] ↔ l = [].
Proof. split; [apply fmap_nil_inv|by intros ->]. Qed.

Lemma filter_nil_iff {A} (P : A → Prop) `{∀ x, Decision (P x)} l :
  filter P l = [] ↔ ∀ x, x ∈ l → ¬ P x.
Proof.
  split.
  - intros Hf x Hx HP. exact (filter_nil_not_elem_of P l x Hf HP Hx).
  - induction l as [|a l IH]; intros Hall; [done|].
    rewrite filter_cons_False by (apply Hall; set_solver). apply IH. set_solver.
Qed.
