(* ===== verification/GoStd.v ===== *)
(** * The parts of the Go standard library the operator uses

    Go strings are byte strings ([string]).  This file models, executably, what the source
    calls from [errors]/[fmt] (error values and their messages), [strings], [strconv],
    [path], [sort] and [unicode/utf8].  The only thing left abstract is the table behind
    [unicode.IsPrint] for runes outside ASCII: it is data of the Go distribution and enters
    as the class [UnicodeTables]. *)

From S2P Require Import Prelude.

(** ** errors and fmt

    Every error value the operator builds: [errors.New]/[fmt.Errorf] without [%w], an
    [Errorf] that wraps another error at the end of its text, [errors.Join], and the one
    error type the operator declares itself ([params.MissingParameterError]). *)

Inductive error : Type :=
| errorString (s : string)
| wrapError (msg : string) (err : error)
| joinError (errs : list error)
| missingParameterError (name source text : string).

(** [strings.Join]. *)
Fixpoint Join (elems : list string) (sep : string) : string :=
  match elems with
  | [] => ""
  | [x] => x
  | x :: rest => x +:+ sep +:+ Join rest sep
  end.

Definition newline : string := String "010"%char "".

(** The [Error() string] method. *)
Fixpoint Error (e : error) : string :=
  match e with
  | errorString s => s
  | wrapError msg err => msg +:+ Error err
  | joinError errs => Join (map Error errs) newline
  | missingParameterError _ _ text => text
  end.

(** [errors.Join]: nil errors are dropped, and nothing left is nil. *)
Fixpoint non_nil (errs : list (option error)) : list error :=
  match errs with
  | [] => []
  | Some e :: rest => e :: non_nil rest
  | None :: rest => non_nil rest
  end.
Definition errors_Join (errs : list (option error)) : option error :=
  match non_nil errs with
  | [] => None
  | es => Some (joinError es)
  end.

(** [errors.As(err, &missing)] for [missing *MissingParameterError]: the first one in the
    tree of wrapped errors. *)
Fixpoint errors_As_missing (e : error) : option (string * string) :=
  match e with
  | errorString _ => None
  | missingParameterError n s _ => Some (n, s)
  | wrapError _ err => errors_As_missing err
  | joinError errs =>
      (fix go l := match l with
       | [] => None
       | x :: l' => match errors_As_missing x with Some r => Some r | None => go l' end
       end) errs
  end.

Lemma errors_Join_None errs : errors_Join errs = None ↔ ∀ e, e ∈ errs → e = None.
Proof.
  unfold errors_Join. induction errs as [|[e|] errs IH]; simpl.
  - split; [|done]. intros _ e He. by apply elem_of_nil in He.
  - split; [done|]. intros H. specialize (H (Some e)). set_solver.
  - rewrite IH. set_solver.
Qed.

Lemma errors_Join_somes l : errors_Join (Some <$> l) = None ↔ l = [].
Proof.
  rewrite errors_Join_None. split; [|by intros -> ? ?%elem_of_nil].
  destruct l as [|e l]; [done|]. intros H. specialize (H (Some e)).
  cbn in H. set_solver.
Qed.

(** ** strings *)

(** [strings.Split(s, sep)] for a one-byte separator. *)
Fixpoint Split (s : string) (sep : ascii) : list string :=
  match s with
  | EmptyString => [""]
  | String c s' =>
      if Ascii.eqb c sep then "" :: Split s' sep
      else match Split s' sep with
           | [] => [String c ""]
           | x :: rest => String c x :: rest
           end
  end.

Definition ch (n : N) : ascii := ascii_of_N n.
Definition byte_of (c : ascii) : N := N_of_ascii c.

(** [unicode.IsSpace] on the ASCII bytes. *)
Definition is_ascii_space (c : ascii) : bool :=
  let n := byte_of c in ((9 <=? n) && (n <=? 13) || (n =? 32))%N.

(** Second byte of the two-byte white space runes U+0085, U+00A0 (first byte C2). *)
Definition is_space2 (b1 : ascii) : bool :=
  let n := byte_of b1 in ((n =? 0x85) || (n =? 0xA0))%N.

(** Last two bytes of the three-byte white space runes: U+1680 (E1), U+2000..U+200A,
    U+2028, U+2029, U+202F, U+205F (E2) and U+3000 (E3). *)
Definition is_space3 (b0 b1 b2 : ascii) : bool :=
  let n0 := byte_of b0 in let n1 := byte_of b1 in let n2 := byte_of b2 in
  ((n0 =? 0xE1) && (n1 =? 0x9A) && (n2 =? 0x80)
   || (n0 =? 0xE2) && (n1 =? 0x80)
        && ((0x80 <=? n2) && (n2 <=? 0x8A) || (n2 =? 0xA8) || (n2 =? 0xA9) || (n2 =? 0xAF))
   || (n0 =? 0xE2) && (n1 =? 0x81) && (n2 =? 0x9F)
   || (n0 =? 0xE3) && (n1 =? 0x80) && (n2 =? 0x80))%N.

(** Leading white space removed: [strings.TrimLeftFunc(s, unicode.IsSpace)]. *)
Fixpoint TrimLeftSpace (s : string) : string :=
  match s with
  | EmptyString => ""
  | String b0 s0 =>
      if is_ascii_space b0 then TrimLeftSpace s0
      else match s0 with
      | EmptyString => s
      | String b1 s1 =>
          if ((byte_of b0 =? 0xC2)%N && is_space2 b1)%bool then TrimLeftSpace s1
          else match s1 with
          | EmptyString => s
          | String b2 s2 => if is_space3 b0 b1 b2 then TrimLeftSpace s2 else s
          end
      end
  end.

(** Trailing white space removed: the longest suffix that is white space only goes. *)
Fixpoint TrimRightSpace (s : string) : string :=
  match s with
  | EmptyString => ""
  | String c s' =>
      if String.eqb (TrimLeftSpace s) "" then "" else String c (TrimRightSpace s')
  end.

(** [strings.TrimSpace]. *)
Definition TrimSpace (s : string) : string := TrimRightSpace (TrimLeftSpace s).

(** [strings.HasPrefix(s, prefix)]. *)
Definition HasPrefix (s pre : string) : bool := String.prefix pre s.

(** [strings.Contains(s, c)] for a one-byte substring. *)
Fixpoint ContainsByte (s : string) (c : ascii) : bool :=
  match s with
  | EmptyString => false
  | String a s' => Ascii.eqb a c || ContainsByte s' c
  end.

Definition to_lower (c : ascii) : ascii :=
  let n := byte_of c in if ((65 <=? n) && (n <=? 90))%N then ch (n + 32) else c.

(** [strings.EqualFold(s, t)] for an ASCII [t]: Unicode simple folding relates an ASCII
    letter to its other case, and [s] to U+017F (C5 BF) and [k] to U+212A (E2 84 AA). *)
Fixpoint EqualFold (s t : string) : bool :=
  match t with
  | EmptyString => match s with EmptyString => true | _ => false end
  | String d t' =>
      match s with
      | EmptyString => false
      | String c s' =>
          if Ascii.eqb (to_lower c) (to_lower d) then EqualFold s' t'
          else match s' with
          | EmptyString => false
          | String c1 s1 =>
              if ((byte_of c =? 0xC5) && (byte_of c1 =? 0xBF)
                  && (byte_of (to_lower d) =? 115))%N
              then EqualFold s1 t'
              else match s1 with
              | EmptyString => false
              | String c2 s2 =>
                  if ((byte_of c =? 0xE2) && (byte_of c1 =? 0x84) && (byte_of c2 =? 0xAA)
                      && (byte_of (to_lower d) =? 107))%N
                  then EqualFold s2 t' else false
              end
          end
      end
  end.

(** The loop the operator writes three times (enrollment values, the container filter and
    the list flags): split at commas, trim, drop what is empty. *)
Definition split_trim (s : string) : list string :=
  filter (λ x, x ≠ "") (map TrimSpace (Split s ","%char)).

(** ** unicode/utf8

    [DecodeRune s] is [utf8.DecodeRuneInString]: the first rune and its width, or [None]
    for an invalid encoding (Go returns [RuneError] with width 1). *)

Definition is_cont (lo hi : N) (c : ascii) : bool := ((lo <=? byte_of c) && (byte_of c <=? hi))%N.

Definition second_lo (n0 : N) : N := if (n0 =? 0xE0)%N then 0xA0 else if (n0 =? 0xF0)%N then 0x90 else 0x80.
Definition second_hi (n0 : N) : N := if (n0 =? 0xED)%N then 0x9F else if (n0 =? 0xF4)%N then 0x8F else 0xBF.

Definition DecodeRune (s : string) : option (N * nat) :=
  match s with
  | EmptyString => None
  | String b0 s0 =>
      let n0 := byte_of b0 in
      if (n0 <? 0x80)%N then Some (n0, 1)
      else match s0 with
      | EmptyString => None
      | String b1 s1 =>
          let n1 := byte_of b1 in
          if ((0xC2 <=? n0) && (n0 <=? 0xDF))%N then
            if is_cont 0x80 0xBF b1 then Some (((n0 - 0xC0) * 64 + (n1 - 0x80))%N, 2) else None
          else match s1 with
          | EmptyString => None
          | String b2 s2 =>
              let n2 := byte_of b2 in
              if ((0xE0 <=? n0) && (n0 <=? 0xEF))%N then
                if is_cont (second_lo n0) (second_hi n0) b1 && is_cont 0x80 0xBF b2
                then Some ((((n0 - 0xE0) * 64 + (n1 - 0x80)) * 64 + (n2 - 0x80))%N, 3) else None
              else match s2 with
              | EmptyString => None
              | String b3 _ =>
                  let n3 := byte_of b3 in
                  if ((0xF0 <=? n0) && (n0 <=? 0xF4))%N then
                    if is_cont (second_lo n0) (second_hi n0) b1
                       && is_cont 0x80 0xBF b2 && is_cont 0x80 0xBF b3
                    then Some (((((n0 - 0xF0) * 64 + (n1 - 0x80)) * 64 + (n2 - 0x80)) * 64
                                + (n3 - 0x80))%N, 4) else None
                  else None
              end
          end
      end
  end.

(** [utf8.EncodeRune] of a valid rune. *)
Definition EncodeRune (r : N) : string :=
  (if r <? 0x80 then String (ch r) ""
   else if r <? 0x800 then String (ch (0xC0 + r / 64)) (String (ch (0x80 + r mod 64)) "")
   else if r <? 0x10000 then
     String (ch (0xE0 + r / 4096))
       (String (ch (0x80 + (r / 64) mod 64)) (String (ch (0x80 + r mod 64)) ""))
   else
     String (ch (0xF0 + r / 262144))
       (String (ch (0x80 + (r / 4096) mod 64))
          (String (ch (0x80 + (r / 64) mod 64)) (String (ch (0x80 + r mod 64)) ""))))%N.

(** ** strconv *)

(** [strconv.Itoa], and the [%d] verb. *)
Definition Itoa (i : Z) : string := pretty i.

(** The table behind [unicode.IsPrint]/[strconv.IsPrint] outside ASCII. *)
Class UnicodeTables := { IsPrintTable : N → bool }.

Section strconv.
Context `{UnicodeTables}.

(** [strconv.IsPrint]. *)
Definition IsPrint (r : N) : bool :=
  (if r <? 0x80 then (0x20 <=? r) && (r <=? 0x7E) else IsPrintTable r)%N.

Definition hex_digit (n : N) : ascii := ch (if (n <? 10)%N then 48 + n else 87 + n)%N.

(** [k] lower case hex digits of [n]. *)
Fixpoint hex (k : nat) (n : N) : string :=
  match k with
  | 0 => ""
  | S k' => hex k' (n / 16) +:+ String (hex_digit (n mod 16)) ""
  end.

Definition backslash : ascii := "\"%char.
Definition quote_char : ascii := ascii_of_N 34.

(** [appendEscapedRune] of strconv/quote.go with the double quote. *)
Definition escape_rune (r : N) : string :=
  (if (r =? 34) || (r =? 92) then String backslash (String (ch r) "")
   else if IsPrint r then EncodeRune r
   else if r =? 7 then "\a" else if r =? 8 then "\b" else if r =? 12 then "\f"
   else if r =? 10 then "\n" else if r =? 13 then "\r" else if r =? 9 then "\t"
   else if r =? 11 then "\v"
   else if (r <? 32) || (r =? 127) then "\x" +:+ hex 2 r
   else if r <? 0x10000 then "\u" +:+ hex 4 r
   else "\U" +:+ hex 8 r)%N.

(** The loop of [strconv.Quote]; [skip] counts the bytes of the current rune still to pass. *)
Fixpoint quote_body (skip : nat) (s : string) : string :=
  match s with
  | EmptyString => ""
  | String b s' =>
      match skip with
      | S k => quote_body k s'
      | 0 =>
          match DecodeRune s with
          | None => "\x" +:+ hex 2 (byte_of b) +:+ quote_body 0 s'
          | Some (r, w) => escape_rune r +:+ quote_body (pred w) s'
          end
      end
  end.

(** [strconv.Quote], and the [%q] verb. *)
Definition Quote (s : string) : string :=
  String quote_char (quote_body 0 s +:+ String quote_char "").

End strconv.

(** [strconv.ParseUint(s, base, bits)] for [2 <= base <= 36]; [None] is any error. *)
Definition digit_val (c : ascii) : option Z :=
  let n := Z.of_N (byte_of c) in
  (if (48 <=? n) && (n <=? 57) then Some (n - 48)
   else if (97 <=? n) && (n <=? 122) then Some (n - 97 + 10)
   else if (65 <=? n) && (n <=? 90) then Some (n - 65 + 10)
   else None)%Z.

Fixpoint parse_digits (base maxVal n : Z) (s : string) : option Z :=
  match s with
  | EmptyString => Some n
  | String c s' =>
      match digit_val c with
      | Some d =>
          (if (base <=? d) then None
           else if (maxVal <? n * base + d) then None
           else parse_digits base maxVal (n * base + d) s')%Z
      | None => None
      end
  end.

Definition ParseUint (s : string) (base bits : Z) : option Z :=
  if String.eqb s "" then None else parse_digits base (2 ^ bits - 1)%Z 0 s.

(** Conversion to a two's complement integer of [w] bits, as Go's [int32(x)]. *)
Definition to_signed (w x : Z) : Z :=
  ((x + 2 ^ (w - 1)) mod 2 ^ w - 2 ^ (w - 1))%Z.
Definition int32 (x : Z) : Z := to_signed 32 x.

(** ** path *)

(** [path.IsAbs]. *)
Definition IsAbs (p : string) : bool := HasPrefix p "/".

(** One element of the path against the elements kept so far (last first). *)
Definition clean_step (rooted : bool) (acc : list string) (c : string) : list string :=
  if String.eqb c "" || String.eqb c "." then acc
  else if String.eqb c ".." then
    match acc with
    | [] => if rooted then [] else [".."]
    | x :: acc' => if String.eqb x ".." then ".." :: acc else acc'
    end
  else c :: acc.

(** [path.Clean]: the shortest path equivalent to [p] by lexical processing. *)
Definition Clean (p : string) : string :=
  let rooted := IsAbs p in
  let out := Join (reverse (foldl (clean_step rooted) [] (Split p "/"%char))) "/" in
  if rooted then "/" +:+ out else if String.eqb out "" then "." else out.

(** [path.Join]. *)
Fixpoint drop_empty (l : list string) : list string :=
  match l with
  | "" :: l' => drop_empty l'
  | _ => l
  end.
Definition path_Join (elems : list string) : string :=
  match drop_empty elems with
  | [] => ""
  | l => Clean (Join l "/")
  end.

(** ** sort *)

(** Go compares strings bytewise. *)
Definition str_le (a b : string) : Prop := String.leb a b = true.
#[export] Instance str_le_dec a b : Decision (str_le a b).
Proof. unfold str_le. apply _. Defined.

(** [sort.Strings]. *)
Definition sort_Strings (l : list string) : list string := merge_sort str_le l.

(** [sort.Slice(l, less by name)].  Go's sort is not stable; [sort_Slice_unique] below shows
    that with distinct names every sorting routine gives this list. *)
Definition name_le {A} (name : A → string) (x y : A) : Prop := str_le (name x) (name y).
#[export] Instance name_le_dec {A} (name : A → string) x y : Decision (name_le name x y).
Proof. unfold name_le. apply _. Defined.
Definition sort_by_name {A} (name : A → string) (l : list A) : list A := merge_sort (name_le name) l.
