(* ===== verification/GoStdFacts.v ===== *)
(** * Facts about the Go standard library model

    Splitting and joining, the order on strings and the uniqueness of sorted slices, octal
    parsing, and the round trip of [strconv.Quote]: a reader for Go string literals recovers
    exactly the quoted bytes and stops at the closing quote. *)

From S2P Require Import Prelude GoStd.

#[local] Ltac Zify.zify_post_hook ::= Z.div_mod_to_equations.

Lemma ch_byte_of c : ch (byte_of c) = c.
Proof. apply ascii_N_embedding. Qed.

Lemma byte_of_ch n : (n < 256)%N → byte_of (ch n) = n.
Proof. apply N_ascii_embedding. Qed.

Lemma byte_of_lt c : (byte_of c < 256)%N.
Proof. apply N_ascii_bounded. Qed.

(** ** Reading a Go string literal *)

Inductive scan_state := Plain | Escape | Hex (n : nat) (acc : N) (raw : bool).

Definition prepend (p : string) (o : option (string * string)) : option (string * string) :=
  match o with Some (a, b) => Some (p +:+ a, b) | None => None end.

Definition simple_escape (c : ascii) : option string :=
  let n := byte_of c in
  (if (n =? 34) || (n =? 92) then Some (String c "")
   else if n =? 97 then Some (String (ch 7) "") else if n =? 98 then Some (String (ch 8) "")
   else if n =? 102 then Some (String (ch 12) "") else if n =? 110 then Some (String (ch 10) "")
   else if n =? 114 then Some (String (ch 13) "") else if n =? 116 then Some (String (ch 9) "")
   else if n =? 118 then Some (String (ch 11) "") else None)%N.

Definition hex_val (c : ascii) : option N :=
  let n := byte_of c in
  (if (48 <=? n) && (n <=? 57) then Some (n - 48)
   else if (97 <=? n) && (n <=? 102) then Some (n - 87) else None)%N.

(** The rest of a literal after its opening quote: its value and the text after it. *)
Fixpoint scan (st : scan_state) (s : string) : option (string * string) :=
  match s with
  | EmptyString => None
  | String c s' =>
      match st with
      | Plain =>
          if (byte_of c =? 34)%N then Some ("", s')
          else if (byte_of c =? 92)%N then scan Escape s'
          else if (byte_of c =? 10)%N then None
          else prepend (String c "") (scan Plain s')
      | Escape =>
          match simple_escape c with
          | Some d => prepend d (scan Plain s')
          | None =>
              if (byte_of c =? 120)%N then scan (Hex 1 0 true) s'
              else if (byte_of c =? 117)%N then scan (Hex 3 0 false) s'
              else if (byte_of c =? 85)%N then scan (Hex 7 0 false) s'
              else None
          end
      | Hex n acc raw =>
          match hex_val c with
          | None => None
          | Some v =>
              let acc' := (acc * 16 + v)%N in
              match n with
              | 0 => prepend (if raw then String (ch acc') "" else EncodeRune acc') (scan Plain s')
              | S n' => scan (Hex n' acc' raw) s'
              end
          end
      end
  end.

(** A literal at the head of [s]: its value and the text after it. *)
Definition unquote_prefix (s : string) : option (string * string) :=
  match s with
  | String c s' => if (byte_of c =? 34)%N then scan Plain s' else None
  | EmptyString => None
  end.

Lemma prepend_app a b o : prepend a (prepend b o) = prepend (a +:+ b) o.
Proof. destruct o as [[x y]|]; simpl; [|done]. by rewrite string_app_assoc. Qed.

Lemma hex_val_digit n : (n < 16)%N → hex_val (hex_digit n) = Some n.
Proof.
  intros Hn. assert (n ∈ N.of_nat <$> seq 0 16) as Hin.
  { apply list_elem_of_fmap. exists (N.to_nat n). rewrite elem_of_seq. lia. }
  clear Hn. revert n Hin. apply Forall_forall. by repeat constructor.
Qed.

Lemma scan_hex k : ∀ n acc raw t, (n < 16 ^ N.of_nat (S k))%N →
  scan (Hex k acc raw) (hex (S k) n +:+ t) =
  prepend (if raw then String (ch (acc * 16 ^ N.of_nat (S k) + n)) ""
           else EncodeRune (acc * 16 ^ N.of_nat (S k) + n)%N) (scan Plain t).
Proof.
  cut (∀ k j n acc raw t, (n < 16 ^ N.of_nat (S k))%N →
    scan (Hex (k + j) acc raw) (hex (S k) n +:+ t) =
    match j with
    | 0 => prepend (if raw then String (ch (acc * 16 ^ N.of_nat (S k) + n)) ""
                    else EncodeRune (acc * 16 ^ N.of_nat (S k) + n)%N) (scan Plain t)
    | S j' => scan (Hex j' (acc * 16 ^ N.of_nat (S k) + n)%N raw) t
    end).
  { intros H n acc raw t Hn. rewrite <- (Nat.add_0_r k) at 1. by rewrite (H k 0). }
  clear k. induction k as [|k IH]; intros j n acc raw t Hn.
  - change (16 ^ N.of_nat 1)%N with 16%N in *. simpl.
    rewrite N.mod_small, hex_val_digit by done. by destruct j.
  - change (hex (S (S k)) n) with (hex (S k) (n / 16) +:+ String (hex_digit (n mod 16)) "").
    rewrite string_app_assoc. replace (S k + j) with (k + S j) by lia.
    assert (16 ^ N.of_nat (S (S k)) = 16 * 16 ^ N.of_nat (S k))%N as Hp.
    { rewrite (Nat2N.inj_succ (S k)), N.pow_succ_r by lia. done. }
    rewrite (IH (S j) (n / 16)%N) by (apply N.Div0.div_lt_upper_bound; lia).
    simpl scan. rewrite hex_val_digit by (apply N.mod_lt; lia).
    replace ((acc * 16 ^ N.of_nat (S k) + n / 16) * 16 + n mod 16)%N
      with (acc * 16 ^ N.of_nat (S (S k)) + n)%N; [by destruct j|].
    rewrite Hp. pose proof (N.div_mod' n 16). lia.
Qed.

(** ** Decoding a rune and encoding it again *)

Lemma is_cont_spec lo hi c : is_cont lo hi c = true ↔ (lo ≤ byte_of c ≤ hi)%N.
Proof. unfold is_cont. rewrite andb_true_iff, !N.leb_le. done. Qed.

Ltac bool_to_N := repeat match goal with
  | H : (_ <? _)%N = true |- _ => apply N.ltb_lt in H
  | H : (_ <? _)%N = false |- _ => apply N.ltb_ge in H
  | H : (_ <=? _)%N = true |- _ => apply N.leb_le in H
  | H : (_ <=? _)%N = false |- _ => apply N.leb_gt in H
  | H : (_ =? _)%N = true |- _ => apply N.eqb_eq in H
  | H : (_ =? _)%N = false |- _ => apply N.eqb_neq in H
  | H : (_ && _)%bool = true |- _ => apply andb_true_iff in H; destruct H
  | H : (_ || _)%bool = false |- _ => apply orb_false_iff in H; destruct H
  | H : is_cont _ _ _ = true |- _ => apply is_cont_spec in H
  end.

Ltac decide_N := repeat match goal with
  | |- context [(?a <? ?b)%N] =>
      first [rewrite (proj2 (N.ltb_lt a b)) by lia | rewrite (proj2 (N.ltb_ge a b)) by lia]
  end.

Lemma mod64 x y : (y < 64)%N → ((x * 64 + y) mod 64 = y)%N.
Proof. intros. rewrite N.add_comm, N.Div0.mod_add. by apply N.mod_small. Qed.
Lemma div64 x y : (y < 64)%N → ((x * 64 + y) / 64 = x)%N.
Proof. intros. symmetry. apply (N.div_unique _ 64 x y); lia. Qed.
Lemma div4096 r : (r / 4096 = r / 64 / 64)%N.
Proof. rewrite N.Div0.div_div. done. Qed.
Lemma div262144 r : (r / 262144 = r / 64 / 64 / 64)%N.
Proof. rewrite !N.Div0.div_div. done. Qed.

Lemma ch_eq c n : n = byte_of c → ch n = c.
Proof. intros ->. apply ch_byte_of. Qed.

(** Solve the byte equations of an encoding whose parts were read from continuation bytes. *)
Ltac solve_bytes :=
  rewrite ?div262144, ?div4096, ?div64, ?mod64, ?div64, ?mod64 by lia;
  repeat match goal with
  | |- context [ch ?n] =>
      match goal with b : ascii |- _ => rewrite (ch_eq b n) by lia end
  end; done.


Lemma second_lo_range n : (0x80 ≤ second_lo n)%N ∧ (n = 0xE0 → second_lo n = 0xA0)%N
  ∧ (n = 0xF0 → second_lo n = 0x90)%N.
Proof. unfold second_lo. split_and!; [|by intros ->|by intros ->]. repeat case_match; lia. Qed.
Lemma second_hi_range n : (second_hi n ≤ 0xBF)%N ∧ (n = 0xF4 → second_hi n = 0x8F)%N.
Proof. unfold second_hi. split; [|by intros ->]. repeat case_match; lia. Qed.

(** A decoded rune is the encoding of itself at the head of the string. *)
Lemma DecodeRune_spec s r w :
  DecodeRune s = Some (r, w) →
  ∃ rest, s = EncodeRune r +:+ rest ∧ String.length (EncodeRune r) = w ∧ 0 < w ∧ (r < 0x110000)%N.
Proof.
  unfold DecodeRune. destruct s as [|b0 s0]; [done|].
  pose proof (second_lo_range (byte_of b0)). pose proof (second_hi_range (byte_of b0)).
  destruct (_ <? _)%N eqn:E0.
  { intros [= <- <-]. bool_to_N. exists s0. unfold EncodeRune. decide_N.
    split_and!; simpl; try lia. by rewrite ch_byte_of. }
  destruct s0 as [|b1 s1]; [done|]. destruct ((0xC2 <=? byte_of b0) && (byte_of b0 <=? 0xDF))%N eqn:E1.
  { destruct (is_cont _ _ _) eqn:C1; [|done]. intros [= <- <-]. bool_to_N.
    exists s1. unfold EncodeRune. decide_N. split_and!; simpl; try lia.
    solve_bytes. }
  destruct s1 as [|b2 s2]; [done|]. destruct ((0xE0 <=? byte_of b0) && (byte_of b0 <=? 0xEF))%N eqn:E2.
  { destruct (is_cont _ _ _ && _)%bool eqn:C2; [|done]. intros [= <- <-]. bool_to_N.
    exists s2. unfold EncodeRune. decide_N. split_and!; simpl; try lia.
    solve_bytes. }
  destruct s2 as [|b3 s3]; [done|]. destruct ((0xF0 <=? byte_of b0) && (byte_of b0 <=? 0xF4))%N eqn:E3; [|done].
  destruct (is_cont _ _ _ && _ && _)%bool eqn:C3; [|done]. intros [= <- <-]. bool_to_N.
  exists s3. unfold EncodeRune. decide_N. split_and!; simpl; try lia.
  solve_bytes.
Qed.

(** ** Quoting *)

Section quote.
Context `{UnicodeTables}.

(** Bytes outside ASCII pass through the reader unchanged. *)
Lemma scan_plain_byte c t :
  (byte_of c ≠ 34)%N → (byte_of c ≠ 92)%N → (byte_of c ≠ 10)%N →
  scan Plain (String c t) = prepend (String c "") (scan Plain t).
Proof. intros H1 H2 H3. simpl. by rewrite !(proj2 (N.eqb_neq _ _)). Qed.

Lemma scan_encoded r t :
  (r < 0x110000)%N → (r ≠ 34)%N → (r ≠ 92)%N → (r ≠ 10)%N →
  scan Plain (EncodeRune r +:+ t) = prepend (EncodeRune r) (scan Plain t).
Proof.
  intros. pose proof (N.mod_lt r 64 ltac:(done)).
  pose proof (N.mod_lt (r / 64) 64 ltac:(done)). pose proof (N.mod_lt (r / 4096) 64 ltac:(done)).
  assert (r < 0x800 → r / 64 < 32)%N by (intros; apply N.Div0.div_lt_upper_bound; lia).
  assert (r < 0x10000 → r / 4096 < 16)%N by (intros; apply N.Div0.div_lt_upper_bound; lia).
  assert (r / 262144 < 5)%N by (apply N.Div0.div_lt_upper_bound; lia).
  assert (∀ n k, (n < 256 → n ≠ k → byte_of (ch n) ≠ k)%N) as Hne
    by (intros n k ??; by rewrite byte_of_ch).
  unfold EncodeRune. generalize dependent (r mod 64)%N. generalize dependent ((r / 64) mod 64)%N.
  generalize dependent ((r / 4096) mod 64)%N. intros.
  repeat case_match; bool_to_N; cbn [String.append];
    repeat (rewrite scan_plain_byte by (apply Hne; lia)); by rewrite ?prepend_app.
Qed.

Lemma scan_x t : scan Plain ("\x" +:+ t) = scan (Hex 1 0 true) t.
Proof. done. Qed.
Lemma scan_u t : scan Plain ("\u" +:+ t) = scan (Hex 3 0 false) t.
Proof. done. Qed.
Lemma scan_U t : scan Plain ("\U" +:+ t) = scan (Hex 7 0 false) t.
Proof. done. Qed.

Lemma scan_escape_rune r t :
  (r < 0x110000)%N →
  scan Plain (escape_rune r +:+ t) = prepend (EncodeRune r) (scan Plain t).
Proof.
  intros Hr. unfold escape_rune.
  destruct (_ || _)%bool eqn:E; [apply orb_true_iff in E as [->%N.eqb_eq| ->%N.eqb_eq]; done|].
  bool_to_N. destruct (IsPrint r) eqn:Ep.
  { apply scan_encoded; try done. intros ->. done. }
  repeat match goal with
  | |- context [(r =? ?n)%N] =>
      lazymatch n with
      | 127%N => fail
      | _ => destruct (r =? n)%N eqn:?; [bool_to_N; subst r; done|]
      end
  end.
  destruct (_ || _)%bool eqn:E2; [|destruct (r <? 0x10000)%N eqn:E3]; bool_to_N;
    rewrite string_app_assoc.
  - assert (r < 128)%N by (apply orb_true_iff in E2 as [?|?]; bool_to_N; lia).
    rewrite scan_x, scan_hex by (simpl; lia). unfold EncodeRune. by decide_N.
  - rewrite scan_u, scan_hex by (simpl; lia). done.
  - rewrite scan_U, scan_hex by (simpl; lia). done.
Qed.

Lemma quote_body_skip t : ∀ rest, quote_body (String.length t) (t +:+ rest) = quote_body 0 rest.
Proof. induction t; simpl; [done|]. done. Qed.

Lemma scan_quote_body s rest :
  scan Plain (quote_body 0 s +:+ String quote_char rest) = Some (s, rest).
Proof.
  remember (String.length s) as n eqn:Hn. revert s Hn.
  induction n as [n IH] using lt_wf_ind. intros s ->.
  destruct s as [|b s']; [done|]. change (quote_body 0 (String b s')) with
    match DecodeRune (String b s') with
    | None => "\x" +:+ hex 2 (byte_of b) +:+ quote_body 0 s'
    | Some (r, w) => escape_rune r +:+ quote_body (pred w) s'
    end.
  destruct (DecodeRune _) as [[r w]|] eqn:E.
  - apply DecodeRune_spec in E as (t & Hs & Hw & Hpos & Hr).
    rewrite string_app_assoc, scan_escape_rune by done.
    destruct (EncodeRune r) as [|c e] eqn:He; simpl in Hw; [lia|].
    simpl in Hs. injection Hs as -> Hs'. subst s'. rewrite <- Hw. simpl pred.
    rewrite quote_body_skip. rewrite (IH (String.length t)); [done| |done].
    simpl. rewrite string_app_length. lia.
  - rewrite !string_app_assoc, scan_x, scan_hex by (pose proof (byte_of_lt b); simpl; lia).
    rewrite N.mul_0_l, N.add_0_l, ch_byte_of.
    rewrite (IH (String.length s')); [done|simpl; lia|done].
Qed.

(** A quoted string is read back exactly, and nothing of the text after it is consumed. *)
Lemma unquote_prefix_Quote s rest : unquote_prefix (Quote s +:+ rest) = Some (s, rest).
Proof.
  unfold Quote, unquote_prefix. cbn [String.append]. rewrite string_app_assoc.
  cbn [String.append]. apply scan_quote_body.
Qed.

End quote.

(** ** Splitting at a separator and joining again *)

Definition sep_free (c : ascii) (s : string) : bool := negb (ContainsByte s c).

Lemma ContainsByte_app s t c : ContainsByte (s +:+ t) c = ContainsByte s c || ContainsByte t c.
Proof. induction s; simpl; [done|]. by rewrite IHs, orb_assoc. Qed.

Lemma Split_ne_nil s c : Split s c ≠ [].
Proof. destruct s; simpl; [done|]. repeat case_match; done. Qed.

Lemma Join_cons x l sep : l ≠ [] → Join (x :: l) sep = x +:+ sep +:+ Join l sep.
Proof. by destruct l. Qed.

Lemma Split_sep_free s c x : x ∈ Split s c → ContainsByte x c = false.
Proof.
  revert x. induction s as [|a s IH]; cbn [Split]; intros x.
  - by intros ->%list_elem_of_singleton.
  - destruct (Ascii.eqb_spec a c) as [->|Hac].
    + intros [->|Hx]%elem_of_cons; [done|auto].
    + pose proof (Split_ne_nil s c). destruct (Split s c) as [|y rest]; [done|].
      intros [->|Hx]%elem_of_cons; simpl.
      * rewrite IH by set_solver. apply orb_false_iff. split; [|done]. by apply Ascii.eqb_neq.
      * apply IH. set_solver.
Qed.

Lemma Split_free s c : ContainsByte s c = false → Split s c = [s].
Proof.
  induction s as [|a s IH]; [done|]. simpl. intros [-> H]%orb_false_iff. by rewrite IH.
Qed.

Lemma Split_app_sep x s c : ContainsByte x c = false →
  Split (x +:+ String c s) c = x :: Split s c.
Proof.
  induction x as [|a x IH]; simpl.
  - by rewrite Ascii.eqb_refl.
  - intros [-> H]%orb_false_iff. by rewrite IH.
Qed.

Lemma Split_Join l c :
  l ≠ [] → (∀ x, x ∈ l → ContainsByte x c = false) → Split (Join l (String c "")) c = l.
Proof.
  induction l as [|x l IH]; [done|]. intros _ H. destruct l as [|y l].
  - simpl. apply Split_free. set_solver.
  - rewrite Join_cons by done. cbn [String.append].
    rewrite Split_app_sep by set_solver. rewrite IH; [done|done|set_solver].
Qed.

Lemma elem_of_split_trim x s :
  x ∈ split_trim s ↔ x ≠ "" ∧ ∃ part, part ∈ Split s ","%char ∧ x = TrimSpace part.
Proof.
  unfold split_trim. rewrite list_elem_of_filter. setoid_rewrite list_elem_of_fmap. naive_solver.
Qed.

Lemma split_trim_Join l :
  (∀ x, x ∈ l → x ≠ "" ∧ ContainsByte x ","%char = false ∧ TrimSpace x = x) →
  split_trim (Join l ",") = l.
Proof.
  intros Hl. unfold split_trim. destruct (decide (l = [])) as [->|Hne]; [done|].
  rewrite Split_Join by (done || set_solver). clear Hne.
  induction l as [|x l IH]; [done|]. cbn [map]. destruct (Hl x ltac:(set_solver)) as (?&?&->).
  rewrite filter_cons_True by done. rewrite IH by set_solver. done.
Qed.

(** ** The order on strings and sorted slices *)

Lemma str_le_cons c s d t :
  str_le (String c s) (String d t) ↔ (byte_of c < byte_of d)%N ∨ c = d ∧ str_le s t.
Proof.
  unfold str_le, String.leb. simpl. unfold Ascii.compare.
  change N_of_ascii with byte_of. destruct (N.compare_spec (byte_of c) (byte_of d)) as [E|E|E].
  - assert (c = d) as -> by (rewrite <- (ch_byte_of c), E; apply ch_byte_of).
    destruct (String.compare s t); naive_solver lia.
  - naive_solver.
  - split; [done|]. intros [?|[-> _]]; lia.
Qed.

#[export] Instance str_le_trans : Transitive str_le.
Proof.
  intros a. induction a as [|c a IH]; intros [|d b] [|e k]; try done.
  rewrite !str_le_cons. intros [?|[-> ?]] [?|[-> ?]]; eauto using N.lt_trans.
Qed.
#[export] Instance str_le_total : Total str_le.
Proof. intros a b. apply String.leb_total. Qed.
#[export] Instance str_le_antisymm : AntiSymm (=) str_le.
Proof. intros a b. apply String.leb_antisym. Qed.
#[export] Instance name_le_trans {A} (name : A → string) : Transitive (name_le name).
Proof. intros a b c. apply str_le_trans. Qed.
#[export] Instance name_le_total {A} (name : A → string) : Total (name_le name).
Proof. intros a b. apply str_le_total. Qed.

Lemma sort_Strings_perm l : sort_Strings l ≡ₚ l.
Proof. apply merge_sort_Permutation. Qed.
Lemma sort_Strings_sorted l : StronglySorted str_le (sort_Strings l).
Proof. apply StronglySorted_merge_sort; apply _. Qed.
Lemma sort_by_name_perm {A} (name : A → string) l : sort_by_name name l ≡ₚ l.
Proof. apply merge_sort_Permutation. Qed.

(** With distinct names every sorted permutation is the one [sort_by_name] returns: the
    result of Go's unstable [sort.Slice] does not depend on the order it was given. *)
Lemma sort_Slice_unique {A} (name : A → string) l l' :
  NoDup (name <$> l) → l' ≡ₚ l → StronglySorted (name_le name) l' → l' = sort_by_name name l.
Proof.
  intros Hnd Hp Hs. apply (StronglySorted_unique_strong (name_le name)); [|done| |].
  - intros x1 x2 H1 H2 H12 H21. rewrite Hp in H1.
    unfold sort_by_name in H2. rewrite merge_sort_Permutation in H2.
    assert (name x1 = name x2) as E by (by apply (anti_symm str_le)).
    apply list_elem_of_lookup in H1 as [i Hi], H2 as [j Hj].
    assert (i = j); [|congruence].
    apply (NoDup_lookup (name <$> l) i j (name x1)); [done| |];
      rewrite list_lookup_fmap; [by rewrite Hi|rewrite Hj; simpl; congruence].
  - apply StronglySorted_merge_sort; apply _.
  - by rewrite Hp, sort_by_name_perm.
Qed.

(** Sorting by name commutes with a function that keeps the names. *)
Section sort_map.
Context {A B} (name : A → string) (name' : B → string) (f : A → B).
Hypothesis Hname : ∀ x, name' (f x) = name x.

Lemma list_merge_map l1 : ∀ l2,
  list_merge (name_le name') (f <$> l1) (f <$> l2) = f <$> list_merge (name_le name) l1 l2.
Proof.
  induction l1 as [|x l1 IH1]; intros l2; [by destruct l2|].
  induction l2 as [|y l2 IH2]; [done|]. cbn.
  rewrite (decide_ext (name_le name' (f x) (f y)) (name_le name x y))
    by (unfold name_le; by rewrite !Hname).
  case_decide; cbn; f_equal; [apply (IH1 (y :: l2))|apply IH2].
Qed.

Lemma merge_list_to_stack_map st : ∀ l,
  merge_list_to_stack (name_le name') (fmap (M := option) (fmap (M := list) f) <$> st) (f <$> l)
  = fmap (M := option) (fmap (M := list) f) <$> merge_list_to_stack (name_le name) st l.
Proof.
  induction st as [|[l'|] st IH]; intros l; [done| |done].
  cbn. f_equal. rewrite list_merge_map. apply IH.
Qed.

Lemma merge_sort_aux_map l : ∀ st,
  merge_sort_aux (name_le name') (fmap (M := option) (fmap (M := list) f) <$> st) (f <$> l)
  = f <$> merge_sort_aux (name_le name) st l.
Proof.
  induction l as [|x l IH]; intros st.
  - induction st as [|[l'|] st IH]; [done| |done].
    cbn in *. rewrite IH. apply list_merge_map.
  - change (merge_sort_aux (name_le name')
      (merge_list_to_stack (name_le name') (fmap (M := option) (fmap (M := list) f) <$> st)
         (f <$> [x])) (f <$> l)
      = f <$> merge_sort_aux (name_le name) (merge_list_to_stack (name_le name) st [x]) l).
    rewrite merge_list_to_stack_map. apply IH.
Qed.

Lemma sort_by_name_map l : sort_by_name name' (f <$> l) = f <$> sort_by_name name l.
Proof. apply (merge_sort_aux_map l []). Qed.
End sort_map.

#[export] Hint Resolve Split_ne_nil sort_Strings_sorted : shim.

(** A concrete table for evaluating the definitions: no rune outside ASCII is printed raw. *)
Definition ascii_tables : UnicodeTables := {| IsPrintTable _ := false |}.

(** ** Octal numbers *)

Lemma parse_digits_leading_zero base maxVal s :
  (0 < base)%Z → (0 ≤ maxVal)%Z →
  parse_digits base maxVal 0 ("0" +:+ s) = parse_digits base maxVal 0 s.
Proof.
  intros Hb Hm. cbn [String.append parse_digits]. change (digit_val "0") with (Some 0%Z).
  cbn iota beta. rewrite (proj2 (Z.leb_gt base 0)) by lia.
  replace (0 * base + 0)%Z with 0%Z by lia. by rewrite (proj2 (Z.ltb_ge maxVal 0)).
Qed.

(** ** Trimming white space *)

(** Induction over strings that may consume up to three bytes at a time, as the trimming
    functions do. *)
Lemma string_len_ind (P : string → Prop) :
  (∀ s, (∀ t, String.length t < String.length s → P t) → P s) → ∀ s, P s.
Proof.
  intros Hstep s. remember (String.length s) as n eqn:Hn. revert s Hn.
  induction n as [n IH] using lt_wf_ind. intros s ->. apply Hstep. intros t Ht. by apply (IH _ Ht).
Qed.

(** One step of [TrimLeftSpace]: it stops, or it drops a white space rune [w] and goes on. *)
Lemma TrimLeftSpace_cases s :
  TrimLeftSpace s = s ∨
  ∃ w t, s = w +:+ t ∧ w ≠ "" ∧ TrimLeftSpace s = TrimLeftSpace t ∧
    ∀ u, TrimLeftSpace (w +:+ u) = TrimLeftSpace u.
Proof.
  destruct s as [|b0 s0]; [by left|]. destruct (is_ascii_space b0) eqn:E0.
  { right. exists (String b0 ""), s0. simpl. rewrite E0. split_and!; try done. }
  destruct s0 as [|b1 s1]; [left; simpl; by rewrite E0|].
  destruct ((byte_of b0 =? 0xC2)%N && is_space2 b1)%bool eqn:E1.
  { right. exists (String b0 (String b1 "")), s1. simpl. rewrite E0, E1. split_and!; try done. }
  destruct s1 as [|b2 s2]; [left; simpl; by rewrite E0, E1|].
  destruct (is_space3 b0 b1 b2) eqn:E2.
  { right. exists (String b0 (String b1 (String b2 ""))), s2. simpl. rewrite E0, E1, E2.
    split_and!; try done. }
  left. simpl. by rewrite E0, E1, E2.
Qed.

Lemma app_nonempty_length w t : w ≠ "" → String.length t < String.length (w +:+ t).
Proof. destruct w; [done|]. intros _. simpl. rewrite string_app_length. lia. Qed.

Lemma TrimLeftSpace_idem s : TrimLeftSpace (TrimLeftSpace s) = TrimLeftSpace s.
Proof.
  induction s as [s IH] using string_len_ind.
  destruct (TrimLeftSpace_cases s) as [E|(w & t & -> & Hw & E & _)]; rewrite E; [done|].
  apply IH. by apply app_nonempty_length.
Qed.

(** A string of white space only in front of another one is dropped. *)
Lemma TrimLeftSpace_app s u : TrimLeftSpace s = "" → TrimLeftSpace (s +:+ u) = TrimLeftSpace u.
Proof.
  induction s as [s IH] using string_len_ind. intros Hs.
  destruct (TrimLeftSpace_cases s) as [E|(w & t & -> & Hw & E & Hu)].
  - by rewrite <- E, Hs.
  - rewrite string_app_assoc, Hu. apply IH; [by apply app_nonempty_length|]. congruence.
Qed.

(** [TrimRightSpace] cuts off a suffix of white space. *)
Lemma TrimRightSpace_split s : ∃ q, s = TrimRightSpace s +:+ q ∧ TrimLeftSpace q = "".
Proof.
  induction s as [|c s [q [Hs Hq]]]; [by exists ""|]. cbn [TrimRightSpace].
  destruct (String.eqb_spec (TrimLeftSpace (String c s)) "") as [E|E].
  - by exists (String c s).
  - exists q. split; [|done]. simpl. by rewrite <- Hs.
Qed.

Lemma TrimRightSpace_idem s : TrimRightSpace (TrimRightSpace s) = TrimRightSpace s.
Proof.
  induction s as [|c s IH]; [done|]. cbn [TrimRightSpace].
  destruct (String.eqb_spec (TrimLeftSpace (String c s)) "") as [E|E]; [done|].
  cbn [TrimRightSpace]. rewrite IH.
  destruct (String.eqb_spec (TrimLeftSpace (String c (TrimRightSpace s))) "") as [E2|_]; [|done].
  destruct (TrimRightSpace_split s) as (q & Hs & Hq). destruct E. rewrite Hs.
  change (String c (?x +:+ q)) with (String c x +:+ q). by rewrite (TrimLeftSpace_app _ _ E2).
Qed.

(** A prefix of a string that starts with no white space starts with none. *)
Lemma TrimLeftSpace_prefix p q :
  TrimLeftSpace (p +:+ q) = p +:+ q → TrimLeftSpace p = p.
Proof.
  intros H. destruct (TrimLeftSpace_cases p) as [E|(w & t & -> & Hw & _ & Hu)]; [done|].
  exfalso. rewrite string_app_assoc, Hu in H.
  assert (String.length (TrimLeftSpace (t +:+ q)) ≤ String.length (t +:+ q))%nat as Hle.
  { generalize (t +:+ q). intros s. induction s as [s IH] using string_len_ind.
    destruct (TrimLeftSpace_cases s) as [->|(w' & t' & -> & Hw' & -> & _)]; [lia|].
    pose proof (app_nonempty_length w' t' Hw'). specialize (IH t' ltac:(done)). lia. }
  rewrite H in Hle. pose proof (app_nonempty_length w (t +:+ q) Hw). lia.
Qed.

Lemma TrimSpace_idem s : TrimSpace (TrimSpace s) = TrimSpace s.
Proof.
  unfold TrimSpace. destruct (TrimRightSpace_split (TrimLeftSpace s)) as (q & Hs & _).
  rewrite (TrimLeftSpace_prefix (TrimRightSpace (TrimLeftSpace s)) q).
  - apply TrimRightSpace_idem.
  - rewrite <- Hs. apply TrimLeftSpace_idem.
Qed.

(** Trimming only removes bytes at the ends. *)
Lemma TrimSpace_sub s c : ContainsByte s c = false → ContainsByte (TrimSpace s) c = false.
Proof.
  intros Hs. unfold TrimSpace. destruct (TrimRightSpace_split (TrimLeftSpace s)) as (q & Hq & _).
  assert (ContainsByte (TrimLeftSpace s) c = false) as Hl.
  { clear q Hq. induction s as [s IH] using string_len_ind.
    destruct (TrimLeftSpace_cases s) as [->|(w & t & -> & Hw & -> & _)]; [done|].
    rewrite ContainsByte_app in Hs. apply orb_false_iff in Hs as [_ Hs].
    apply IH; [by apply app_nonempty_length|done]. }
  rewrite Hq, ContainsByte_app in Hl. by apply orb_false_iff in Hl as [? _].
Qed.

(** Every name of a comma list is non-empty, trimmed and without commas, so joining the
    names and splitting again changes nothing. *)
Lemma split_trim_elem x s :
  x ∈ split_trim s → x ≠ "" ∧ ContainsByte x ","%char = false ∧ TrimSpace x = x.
Proof.
  intros (Hne & part & Hp & ->)%elem_of_split_trim. split_and!; [done| |apply TrimSpace_idem].
  apply TrimSpace_sub. by eapply Split_sep_free.
Qed.

Lemma split_trim_normal s : split_trim (Join (split_trim s) ",") = split_trim s.
Proof. apply split_trim_Join. intros x. apply split_trim_elem. Qed.
