(* ===== verification/GoHeap.v ===== *)
(** * Go memory: pointers, slices and deep copies

    What the generated deep copies and the process start-up use of the language's memory.  A
    heap maps locations to cells of a type [V] the client chooses; [Storable V T] says how a
    value of type [T] lies in a cell.  A pointer or slice is typed by what it refers to; a
    slice refers to a backing array that other slices may share.  Code that works on memory is
    a function [heap V → option (A * heap V)]; [None] is the panic of a nil dereference or of an
    index out of range.

    [View V M A] gives the value of type [A] that a memory layout of type [M] denotes, and
    [deep_copies] is the contract of a [DeepCopyInto]: it only adds cells, and the copy can
    be read from the added cells alone. *)

From S2P Require Import Prelude.

Abbreviation loc := positive (only parsing).
Abbreviation heap V := (gmap loc V) (only parsing).

(** ** Cells *)

Class Storable (V T : Type) := {
  to_cell : T → V;
  of_cell : V → option T;
  of_to_cell : ∀ x, of_cell (to_cell x) = Some x }.

(** The zero value of a type, which [new] and [make] store. *)
Class GoZero (T : Type) := zero : T.
#[export] Instance GoZero_bool : GoZero bool := false.
#[export] Instance GoZero_Z : GoZero Z := 0%Z.
#[export] Instance GoZero_string : GoZero string := "".

(** ** Pointers and slices *)

Inductive ptr (T : Type) : Type :=
| nil_ptr
| Ptr (l : loc).
Arguments nil_ptr {T}.
Arguments Ptr {T} l.
#[export] Instance GoZero_ptr T : GoZero (ptr T) := nil_ptr.

(** [Slice arr off n c]: [n] elements of the array at [arr] from index [off] on, with room for
    [c]. *)
Inductive slice (T : Type) : Type :=
| nil_slice
| Slice (arr : loc) (off n c : nat).
Arguments nil_slice {T}.
Arguments Slice {T} arr off n c.
#[export] Instance GoZero_slice T : GoZero (slice T) := nil_slice.

Definition slice_len {T} (s : slice T) : nat :=
  match s with nil_slice => 0 | Slice _ _ n _ => n end.

#[export] Instance ptr_eq_dec T : EqDecision (ptr T).
Proof. solve_decision. Defined.
#[export] Instance slice_eq_dec T : EqDecision (slice T).
Proof. solve_decision. Defined.

(** ** Code that works on memory *)

Definition go (V A : Type) : Type := heap V → option (A * heap V).

#[export] Instance go_ret V : MRet (go V) := λ A a h, Some (a, h).
#[export] Instance go_bind V : MBind (go V) := λ A B k c h,
  match c h with Some (a, h') => k a h' | None => None end.

(** A nil dereference or an index out of range. *)
Definition panic {V A} : go V A := λ _, None.

Section memory.
Context {V : Type}.
Implicit Types h : heap V.

(** A read that does not change the memory. *)
Definition reads {A} (f : heap V → option A) : go V A := λ h,
  match f h with Some a => Some (a, h) | None => None end.

Section cells.
Context `{Storable V T}.

Definition lookup_cell h (l : loc) : option T := h !! l ≫= of_cell.

Definition alloc (x : T) : go V loc := λ h,
  let l := fresh (dom h) in Some (l, <[l := to_cell x]> h).
Definition load (l : loc) : go V T := reads (λ h, lookup_cell h l).
Definition store (l : loc) (x : T) : go V () := λ h,
  match lookup_cell h l with
  | Some _ => Some ((), <[l := to_cell x]> h)
  | None => None
  end.

(** [new(T)] and the dereference [*p]. *)
Definition new `{GoZero T} : go V (ptr T) := l ← alloc zero; mret (Ptr l).
Definition deref (p : ptr T) : go V T :=
  match p with nil_ptr => panic | Ptr l => load l end.
Definition assign (p : ptr T) (x : T) : go V () :=
  match p with nil_ptr => panic | Ptr l => store l x end.
End cells.

Section slices.
Context `{Storable V (list T)}.

(** The elements of a slice; an array that is too short is not a slice's. *)
Definition slice_elems h (s : slice T) : option (list T) :=
  match s with
  | nil_slice => Some []
  | Slice arr off n _ =>
      a ← lookup_cell h arr;
      if bool_decide (off + n ≤ length a)%nat then Some (take n (drop off a)) else None
  end.

(** [make([]T, n)] *)
Definition make `{GoZero T} (n : nat) : go V (slice T) :=
  arr ← alloc (replicate n zero); mret (Slice arr 0 n n).

(** [make([]T, n, c)] *)
Definition make_cap `{GoZero T} (n c : nat) : go V (slice T) :=
  arr ← alloc (replicate c zero); mret (Slice arr 0 n c).

(** [s[i]] and [s[i] = x] *)
Definition index (s : slice T) (i : nat) : go V T :=
  reads (λ h, a ← slice_elems h s; a !! i).
Definition set_index (s : slice T) (i : nat) (x : T) : go V () :=
  match s with
  | nil_slice => panic
  | Slice arr off n _ =>
      a ← load arr;
      if bool_decide (i < n ∧ off + n ≤ length a)%nat then store arr (<[off + i := x]> a)
      else panic
  end.

(** The builtin [copy(dst, src)]: as many elements as both have. *)
Definition builtin_copy (dst src : slice T) : go V () :=
  xs ← reads (λ h, slice_elems h src);
  match dst with
  | nil_slice => mret ()
  | Slice arr off n _ =>
      a ← load arr;
      if bool_decide (off + n ≤ length a)%nat
      then store arr (take off a ++ take n xs ++ drop (off + n `min` length xs) a)
      else panic
  end.

(** [append(s, y1, ..., yk)]: within the capacity the elements are written into the shared array,
    beyond it into a new one, whose capacity [growcap n] for [n] elements the language leaves
    open. *)
Definition append_all `{GoZero T} (growcap : nat → nat) (s : slice T) (ys : list T)
    : go V (slice T) :=
  xs ← reads (λ h, slice_elems h s);
  let m := length xs + length ys in
  let grow :=
    arr ← alloc (xs ++ ys ++ replicate (growcap m - m) zero);
    mret (Slice arr 0 m (growcap m)) in
  match s with
  | nil_slice => match ys with [] => mret nil_slice | _ => grow end
  | Slice arr off n c =>
      if bool_decide (m ≤ c)%nat
      then a ← load arr;
           if bool_decide (off + m ≤ length a)%nat
           then _ ← store arr (take (off + n) a ++ ys ++ drop (off + m) a);
                mret (Slice arr off m c)
           else panic
      else grow
  end.

(** [append(s, x)] and [append(s, t...)] *)
Definition append `{GoZero T} (growcap : nat → nat) (s : slice T) (x : T) : go V (slice T) :=
  append_all growcap s [x].
Definition append_slice `{GoZero T} (growcap : nat → nat) (s t : slice T) : go V (slice T) :=
  ys ← reads (λ h, slice_elems h t); append_all growcap s ys.
End slices.
End memory.

(** ** Basic facts *)

Section facts.
Context {V : Type}.
Implicit Types h : heap V.

Lemma go_bind_step {A B} (c : go V A) (k : A → go V B) h a h' :
  c h = Some (a, h') → (c ≫= k) h = k a h'.
Proof. intros Hc. unfold mbind, go_bind. by rewrite Hc. Qed.

Lemma reads_step {A} (f : heap V → option A) h a : f h = Some a → reads f h = Some (a, h).
Proof. unfold reads. by intros ->. Qed.

Lemma lookup_cell_weaken `{Storable V T} h h' l x :
  lookup_cell h l = Some x → h ⊆ h' → lookup_cell h' l = Some x.
Proof.
  unfold lookup_cell. intros (v & Hl & Hv)%bind_Some Hsub.
  by rewrite (lookup_weaken _ _ _ _ Hl Hsub).
Qed.

Lemma lookup_cell_insert `{Storable V T} h l x : lookup_cell (<[l := to_cell x]> h) l = Some x.
Proof. unfold lookup_cell. rewrite lookup_insert_eq. apply of_to_cell. Qed.

Lemma lookup_cell_dom `{Storable V T} h l x : lookup_cell h l = Some x → is_Some (h !! l).
Proof. unfold lookup_cell. intros (v & Hl & _)%bind_Some. eauto. Qed.

Lemma alloc_step `{Storable V T} (x : T) h : ∃ l,
  h !! l = None ∧ alloc x h = Some (l, <[l := to_cell x]> h).
Proof.
  exists (fresh (dom h)). split; [|done]. apply not_elem_of_dom, is_fresh.
Qed.

Lemma load_step `{Storable V T} h l (x : T) :
  lookup_cell h l = Some x → load l h = Some (x, h).
Proof. intros Hl. by apply (reads_step (λ h, lookup_cell h l)). Qed.

Lemma store_step `{Storable V T} h l (x y : T) :
  lookup_cell h l = Some y → store l x h = Some ((), <[l := to_cell x]> h).
Proof. unfold store. by intros ->. Qed.

Lemma slice_elems_weaken `{Storable V (list T)} h h' (s : slice T) xs :
  slice_elems h s = Some xs → h ⊆ h' → slice_elems h' s = Some xs.
Proof.
  destruct s as [|arr off n c]; [done|]. simpl. intros (a & Ha & Hif)%bind_Some Hsub.
  by rewrite (lookup_cell_weaken _ _ _ _ Ha Hsub).
Qed.

Lemma slice_elems_length `{Storable V (list T)} h (s : slice T) xs :
  slice_elems h s = Some xs → length xs = slice_len s.
Proof.
  destruct s as [|arr off n c]; simpl; [by intros [= <-]|].
  intros (a & _ & Ha)%bind_Some. case_bool_decide; simplify_eq.
  rewrite length_take, length_drop. lia.
Qed.
End facts.

(** ** Reading a value out of memory *)

Class View (V M A : Type) := {
  view : heap V → M → option A;
  view_mono : ∀ h h' m a, h ⊆ h' → view h m = Some a → view h' m = Some a }.
#[export] Hint Mode View ! ! - : typeclass_instances.
#[global] Arguments view : simpl never.

(** The contract of a [DeepCopyInto], as a function from what [in] points to to what it stores
    through [out]: whenever the original denotes a value, the copy succeeds, changes no
    existing cell, and denotes the same value in the cells it added. *)
Definition deep_copies {V M A} `{View V M A} (c : M → go V M) : Prop :=
  ∀ h m a, view h m = Some a →
    ∃ m' hn, c m h = Some (m', h ∪ hn) ∧ h ##ₘ hn ∧ view hn m' = Some a.

(** A type without pointers denotes itself. *)
Definition view_plain {V T} : View V T T.
Proof. refine {| view _ m := Some m |}. by intros. Defined.

Section views.
Context {V : Type}.
Implicit Types h : heap V.

Definition view_ptr `{Storable V T, !View V T A} h (p : ptr T) : option (option A) :=
  match p with
  | nil_ptr => Some None
  | Ptr l => x ← lookup_cell h l; a ← view h x; Some (Some a)
  end.
#[export] Instance View_ptr `{Storable V T, !View V T A} : View V (ptr T) (option A).
Proof.
  exists view_ptr. intros h h' [|l] a Hsub; [done|]. simpl.
  intros (x & Hx & (b & Hb & [= <-])%bind_Some)%bind_Some.
  rewrite (lookup_cell_weaken _ _ _ _ Hx Hsub). simpl. by rewrite (view_mono _ _ _ _ Hsub Hb).
Defined.

Lemma mapM_cons_Some {A B} (f : A → option B) x xs ys :
  mapM f (x :: xs) = Some ys ↔ ∃ y ys', ys = y :: ys' ∧ f x = Some y ∧ mapM f xs = Some ys'.
Proof.
  simpl. split.
  - intros (y & Hy & (ys' & Hys & [= <-])%bind_Some)%bind_Some. eauto.
  - intros (y & ys' & -> & -> & ->). done.
Qed.

Lemma mapM_view_mono `{!View V T A} h h' (xs : list T) ys :
  h ⊆ h' → mapM (view h) xs = Some ys → mapM (view h') xs = Some ys.
Proof.
  rewrite !mapM_Some. intros Hsub. induction 1; constructor; eauto using view_mono.
Qed.

Lemma mapM_view_plain {T} h (xs : list T) : mapM (@view V T T view_plain h) xs = Some xs.
Proof. induction xs as [|x xs IH]; [done|]. cbn. by rewrite IH. Qed.

Definition view_slice `{Storable V (list T), !View V T A} h (s : slice T) : option (list A) :=
  xs ← slice_elems h s; mapM (view h) xs.
#[export] Instance View_slice `{Storable V (list T), !View V T A} : View V (slice T) (list A).
Proof.
  exists view_slice. intros h h' s ys Hsub (xs & Hxs & Hys)%bind_Some. unfold view_slice.
  rewrite (slice_elems_weaken _ _ _ _ Hxs Hsub). simpl. eauto using mapM_view_mono.
Defined.
End views.

(** ** Code that only adds cells *)

(** From [h], [c] returns, leaves every cell of [h] as it was, and its result and the cells it
    added satisfy [P]. *)
Definition adds {V A} (h : heap V) (c : go V A) (P : A → heap V → Prop) : Prop :=
  ∃ x hn, c h = Some (x, h ∪ hn) ∧ h ##ₘ hn ∧ P x hn.

(** Disjointness of unions of disjoint parts. *)
Ltac disjoint_parts :=
  repeat match goal with
  | H : _ ∪ _ ##ₘ _ |- _ => apply map_disjoint_union_l in H as [? ?]
  | H : _ ##ₘ _ ∪ _ |- _ => apply map_disjoint_union_r in H as [? ?]
  end;
  repeat first [apply map_disjoint_union_r_2 | apply map_disjoint_union_l_2];
  first [assumption | by apply map_disjoint_empty_r | by apply map_disjoint_empty_l
        | apply map_disjoint_sym; assumption].

(** Inclusion of one of several disjoint parts in their union. *)
Ltac sub_union :=
  lazymatch goal with
  | |- ?h ⊆ ?h => reflexivity
  | |- ?h ⊆ ?h ∪ _ => apply map_union_subseteq_l
  | |- _ ⊆ ?h1 ∪ ?h2 =>
      first [ solve [etrans; [|apply map_union_subseteq_l]; sub_union]
            | etrans; [|apply map_union_subseteq_r; disjoint_parts]; sub_union ]
  end.

Section adding.
Context {V : Type}.
Implicit Types h : heap V.

Lemma heap_union_swap (h1 h2 h3 : heap V) : h1 ##ₘ h2 → h1 ∪ (h2 ∪ h3) = h2 ∪ (h1 ∪ h3).
Proof. intros Hd. by rewrite !(assoc_L (∪)), (map_union_comm h1 h2). Qed.

Lemma adds_ret {A} h (x : A) (P : A → heap V → Prop) : P x ∅ → adds h (mret x) P.
Proof.
  intros HP. exists x, ∅. rewrite (right_id_L ∅ (∪)). split_and!; [done| |done].
  apply map_disjoint_empty_r.
Qed.

Lemma adds_bind {A B} h (c : go V A) (k : A → go V B) P Q :
  adds h c P →
  (∀ x hn, h ##ₘ hn → P x hn → adds (h ∪ hn) (k x) (λ y hn', Q y (hn ∪ hn'))) →
  adds h (c ≫= k) Q.
Proof.
  intros (x & hn & Hc & Hd & HP) Hk.
  destruct (Hk x hn Hd HP) as (y & hn' & Hkx & Hd' & HQ).
  exists y, (hn ∪ hn'). rewrite (go_bind_step _ _ _ _ _ Hc), Hkx.
  rewrite (assoc_L (∪)). split_and!; [done|solve_map_disjoint|done].
Qed.

Lemma deep_copies_intro {M A} `{View V M A} (c : M → go V M) :
  (∀ h m a, view h m = Some a → adds h (c m) (λ m' hn, view hn m' = Some a)) → deep_copies c.
Proof. done. Qed.

Lemma adds_copy {M A B} `{View V M A} (c : M → go V M) h0 h m a (k : M → go V B) Q :
  deep_copies c → view h0 m = Some a → h0 ⊆ h →
  (∀ m' hn, h ##ₘ hn → view hn m' = Some a → adds (h ∪ hn) (k m') (λ y hn', Q y (hn ∪ hn'))) →
  adds h (c m ≫= k) Q.
Proof.
  intros Hc Ha Hsub Hk.
  eapply (adds_bind _ _ _ (λ m' hn, view hn m' = Some a)); [|exact Hk].
  apply (Hc h m a). by eapply view_mono.
Qed.

Lemma adds_weaken {A} h (c : go V A) (P Q : A → heap V → Prop) :
  adds h c P → (∀ x hn, P x hn → Q x hn) → adds h c Q.
Proof. intros (x & hn & ? & ? & ?) ?. exists x, hn. eauto. Qed.

(** [new] and [make]: the only write is to the cell the code itself added first. *)
Lemma adds_alloc_store `{Storable V T} {A B} h (x : T) (f : loc → B) (k : B → go V A)
    (P : A → heap V → Prop) :
  (∀ l, h !! l = None → ∃ r (y : T) hn,
     k (f l) (<[l := to_cell x]> h) = Some (r, <[l := to_cell y]> (h ∪ hn))
     ∧ h ##ₘ hn ∧ hn !! l = None ∧ P r (<[l := to_cell y]> hn)) →
  adds h ((l ← alloc x; mret (f l)) ≫= k) P.
Proof.
  intros Hk. destruct (alloc_step x h) as (l & Hl & Ha).
  destruct (Hk l Hl) as (r & y & hn & Hr & Hd & Hn & HP). exists r, (<[l := to_cell y]> hn).
  rewrite (go_bind_step _ _ _ (f l) (<[l := to_cell x]> h)) by (by rewrite (go_bind_step _ _ _ _ _ Ha)).
  rewrite Hr. split_and!; [|by apply map_disjoint_insert_r_2|done].
  do 2 f_equal. by rewrite insert_union_r.
Qed.
End adding.

(** ** Copying pointers and slices *)

Section copying.
Context {V : Type}.
Implicit Types h : heap V.

(** [*out = *in] of a type without pointers. *)
Definition copy_plain {T} (x : T) : go V T := mret x.

(** [out := new(T)] filled by the copy [c] of what [get] reads. *)
Definition copy_ref `{Storable V T, GoZero T} (c : T → go V T) (get : go V T) : go V (ptr T) :=
  out ← new; x ← get; y ← c x; _ ← assign out y; mret out.

(** [if in != nil { out = new(T); ... }] with [c] the copy of [**in] into [**out]. *)
Definition copy_ptr `{Storable V T, GoZero T} (c : T → go V T) (p : ptr T) : go V (ptr T) :=
  match p with
  | nil_ptr => mret p
  | Ptr _ => copy_ref c (deref p)
  end.

(** [if in != nil { out = make([]T, len(in)); copy(out, in) }] *)
Definition copy_slice_plain `{Storable V (list T), GoZero T} (s : slice T) : go V (slice T) :=
  match s with
  | nil_slice => mret s
  | Slice _ _ _ _ => out ← make (slice_len s); _ ← builtin_copy out s; mret out
  end.

(** [for i := range *in { in[i].DeepCopyInto(&out[i]) }], from index [i] on. *)
Fixpoint copy_elems `{Storable V (list T)} (c : T → go V T) (out s : slice T) (n i : nat)
    : go V () :=
  match n with
  | 0 => mret ()
  | S n' => x ← index s i; y ← c x; _ ← set_index out i y; copy_elems c out s n' (S i)
  end.
Definition copy_slice `{Storable V (list T), GoZero T} (c : T → go V T) (s : slice T)
    : go V (slice T) :=
  match s with
  | nil_slice => mret s
  | Slice _ _ _ _ =>
      out ← make (slice_len s); _ ← copy_elems c out s (slice_len s) 0; mret out
  end.

Lemma copy_plain_deep_copies {T} : deep_copies (H := view_plain) (@copy_plain T).
Proof. intros h m a Hv. by apply adds_ret. Qed.

Lemma copy_ref_adds `{Storable V T, GoZero T} (c : T → go V T) get h x (P : T → heap V → Prop) :
  (∀ h', h ⊆ h' → get h' = Some (x, h')) → (∀ h', h ⊆ h' → adds h' (c x) P) →
  adds h (copy_ref c get) (λ p hn, ∃ l y hn', p = Ptr l ∧ hn = <[l := to_cell y]> hn'
                                              ∧ hn' !! l = None ∧ P y hn').
Proof.
  intros Hget Hc. apply (adds_alloc_store h zero Ptr). intros lo Hlo.
  set (h1 := <[lo := to_cell zero]> h).
  assert (Hsub : h ⊆ h1) by by apply insert_subseteq.
  destruct (Hc h1 Hsub) as (y & hn & Hy & Hd & HP).
  assert (hn !! lo = None) as Hn.
  { eapply map_disjoint_Some_l; [exact Hd|]. apply lookup_insert_eq. }
  exists (Ptr lo), y, hn. split_and!; [|by eapply map_disjoint_weaken_l|done|eauto 10].
  rewrite (go_bind_step _ _ _ x h1) by auto. rewrite (go_bind_step _ _ _ _ _ Hy).
  rewrite (go_bind_step _ _ _ () (<[lo := to_cell y]> (h1 ∪ hn))).
  - unfold mret, go_ret, h1. by rewrite <- insert_union_l, insert_insert_eq.
  - eapply store_step, lookup_cell_weaken; [apply lookup_cell_insert|].
    apply map_union_subseteq_l.
Qed.

Lemma view_Ptr `{Storable V T, !View V T A} h l (a : option A) :
  view h (Ptr l : ptr T) = Some a ↔
  ∃ x b, a = Some b ∧ lookup_cell h l = Some x ∧ view h x = Some b.
Proof.
  unfold view at 1, View_ptr, view_ptr. split.
  - intros (x & Hx & (b & Hb & [= <-])%bind_Some)%bind_Some. eauto.
  - intros (x & b & -> & -> & Hb). simpl. by rewrite Hb.
Qed.

Lemma copy_ref_deep_copies `{Storable V T, GoZero T, !View V T A} (c : T → go V T) get h x a :
  deep_copies c → (∀ h', h ⊆ h' → get h' = Some (x, h')) → view h x = Some a →
  adds h (copy_ref c get) (λ p hn, view hn p = Some (Some a)).
Proof.
  intros Hc Hget Ha. eapply adds_weaken.
  - apply (copy_ref_adds c get h x (λ y hn, view hn y = Some a)); [done|].
    intros h' Hsub. apply (Hc h' x a). by eapply view_mono.
  - intros p hn (l & y & hn' & -> & -> & Hl & Hy). apply view_Ptr. exists y, a.
    split_and!; [done|apply lookup_cell_insert|]. eapply view_mono; [|exact Hy].
    by apply insert_subseteq.
Qed.

Lemma copy_ptr_deep_copies `{Storable V T, GoZero T, !View V T A} (c : T → go V T) :
  deep_copies c → deep_copies (copy_ptr c).
Proof.
  intros Hc h [|l] a; [intros [= <-]; by apply adds_ret|].
  intros (x & b & -> & Hx & Hb)%view_Ptr. apply (copy_ref_deep_copies _ _ _ x); [done| |done].
  intros h' Hsub. apply load_step. by eapply lookup_cell_weaken.
Qed.

(** The elements of a slice that owns its whole array. *)
Lemma slice_elems_whole `{Storable V (list T)} h l (xs : list T) :
  lookup_cell h l = Some xs →
  slice_elems h (Slice l 0 (length xs) (length xs)) = Some xs.
Proof.
  intros Hl. simpl. rewrite Hl. simpl. rewrite bool_decide_true by done.
  by rewrite drop_0, firstn_all.
Qed.

Lemma copy_slice_plain_deep_copies `{Storable V (list T), GoZero T} :
  deep_copies (H := View_slice (View0 := view_plain)) (@copy_slice_plain T _ _).
Proof.
  intros h s a (xs & Hxs & Ha)%bind_Some.
  rewrite mapM_view_plain in Ha. injection Ha as <-.
  destruct s as [|arr off n c]; [injection Hxs as <-; by apply adds_ret|].
  apply (adds_alloc_store h (replicate n zero) (λ l, Slice l 0 n n)). intros lo Hlo.
  set (h1 := <[lo := to_cell (replicate n zero)]> h).
  pose proof (slice_elems_length _ _ _ Hxs) as Hlen. simpl in Hlen.
  exists (Slice lo 0 n n), xs, ∅.
  rewrite (right_id_L ∅ (∪)). split_and!; [|apply map_disjoint_empty_r|done|].
  - rewrite (go_bind_step _ _ _ () (<[lo := to_cell xs]> h)); [done|].
    unfold builtin_copy.
    rewrite (go_bind_step _ _ _ xs h1)
      by (apply reads_step; eapply slice_elems_weaken; [done|by apply insert_subseteq]).
    rewrite (go_bind_step _ _ _ (replicate n zero) h1) by (apply load_step, lookup_cell_insert).
    rewrite bool_decide_true by (rewrite length_replicate; lia).
    rewrite (store_step _ _ _ (replicate n zero)) by apply lookup_cell_insert.
    unfold h1. rewrite insert_insert_eq. do 4 f_equal.
    rewrite take_0, Hlen, Nat.min_id, (take_ge xs) by lia.
    rewrite drop_ge by (rewrite length_replicate; lia). by rewrite app_nil_r.
  - unfold view, View_slice, view_slice. subst n.
    rewrite (slice_elems_whole _ lo xs) by apply lookup_cell_insert. simpl. apply mapM_view_plain.
Qed.

(** The loop over the elements: those before [i] are copied already, as [ys]; the rest of the
    output array [lo] is still zero. *)
Lemma copy_elems_spec `{Storable V (list T), !View V T A} (c : T → go V T) h s lo all :
  deep_copies c → slice_elems h s = Some all → ∀ xs i bs g ys rest,
  drop i all = xs → mapM (view h) xs = Some bs → h ⊆ g → g !! lo = None →
  length ys = i → length rest = length xs →
  ∃ ys' hn, copy_elems c (Slice lo 0 (length all) (length all)) s (length xs) i
              (<[lo := to_cell (ys ++ rest)]> g)
            = Some ((), <[lo := to_cell (ys ++ ys')]> (g ∪ hn))
    ∧ g ##ₘ hn ∧ hn !! lo = None ∧ length ys' = length xs ∧ mapM (view hn) ys' = Some bs.
Proof.
  intros Hc Hall xs. induction xs as [|x xs IH]; intros i bs g ys rest Hdrop Hbs Hsub Hlo Hys Hrest.
  - destruct rest; [|done]. injection Hbs as <-. exists [], ∅. rewrite (right_id_L ∅ (∪)).
    split_and!; [done|apply map_disjoint_empty_r|done..].
  - destruct rest as [|r rest]; [done|]. injection Hrest as Hrest.
    apply mapM_cons_Some in Hbs as (b & bs' & -> & Hb & Hbs).
    assert (Hx : all !! i = Some x) by (rewrite <- (Nat.add_0_r i), <- lookup_drop, Hdrop; done).
    assert (Hdrop' : drop (S i) all = xs) by (rewrite <- Nat.add_1_r, <- drop_drop, Hdrop; done).
    pose proof (lookup_lt_Some _ _ _ Hx) as Hi.
    assert (Hlen : length all = i + S (length rest)).
    { rewrite Hrest. change (S (length xs)) with (length (x :: xs)).
      rewrite <- Hdrop, length_drop. lia. }
    set (g1 := <[lo := to_cell (ys ++ r :: rest)]> g).
    assert (Hsub1 : g ⊆ g1) by by apply insert_subseteq.
    assert (h ⊆ g1) by (by etrans).
    destruct (Hc g1 x b) as (y & hy & Hy & Hdy & Hvy); [by eapply view_mono|].
    assert (Hylo : hy !! lo = None).
    { eapply map_disjoint_Some_l; [exact Hdy|]. apply lookup_insert_eq. }
    assert (g ##ₘ hy) by (by eapply map_disjoint_weaken_l).
    destruct (IH (S i) bs' (g ∪ hy) (ys ++ [y]) rest) as (ys' & hn & Hrun & Hd & Hnlo & Hl & Hv);
      [done|done|by etrans; [|apply map_union_subseteq_l]|by apply lookup_union_None
      |rewrite length_app; simpl; lia|done|].
    exists (y :: ys'), (hy ∪ hn). split_and!.
    + simpl. rewrite (go_bind_step _ _ _ x g1).
      2: { apply reads_step. by rewrite (slice_elems_weaken _ _ _ _ Hall) by done. }
      rewrite (go_bind_step _ _ _ _ _ Hy).
      rewrite (go_bind_step _ _ _ () (<[lo := to_cell ((ys ++ [y]) ++ rest)]> (g ∪ hy))).
      * rewrite Hrun, (assoc_L (∪)), <- (assoc_L (++)). done.
      * assert (Hcell : lookup_cell (g1 ∪ hy) lo = Some (ys ++ r :: rest)).
        { eapply lookup_cell_weaken; [apply lookup_cell_insert|apply map_union_subseteq_l]. }
        unfold set_index. rewrite (go_bind_step _ _ _ _ _ (load_step _ _ _ Hcell)).
        rewrite bool_decide_true by (rewrite length_app; simpl; lia).
        rewrite (store_step _ _ _ _ Hcell). unfold g1. simpl.
        rewrite <- insert_union_l, insert_insert_eq. do 4 f_equal.
        rewrite insert_app_r_alt by lia. rewrite Hys, Nat.sub_diag, <- (assoc_L (++)). done.
    + solve_map_disjoint.
    + by apply lookup_union_None.
    + simpl. lia.
    + apply mapM_cons_Some. exists b, bs'. split_and!; [done| |].
      * eapply view_mono; [|done]. apply map_union_subseteq_l.
      * eapply mapM_view_mono; [|done]. apply map_union_subseteq_r. solve_map_disjoint.
Qed.

Lemma copy_slice_deep_copies `{Storable V (list T), GoZero T, !View V T A} (c : T → go V T) :
  deep_copies c → deep_copies (copy_slice c).
Proof.
  intros Hc h s bs (all & Hall & Hbs)%bind_Some.
  destruct s as [|arr off n k]; [injection Hall as <-; injection Hbs as <-; by apply adds_ret|].
  apply (adds_alloc_store h (replicate n zero) (λ l, Slice l 0 n n)). intros lo Hlo.
  pose proof (slice_elems_length _ _ _ Hall) as Hlen. simpl in Hlen. subst n.
  destruct (copy_elems_spec c h _ lo all Hc Hall all 0 bs h [] (replicate (length all) zero))
    as (ys & hn & Hrun & Hd & Hn & Hl & Hv); [done..|apply length_replicate|].
  exists (Slice lo 0 (length all) (length all)), ys, hn. split_and!; [|done..|].
  - rewrite (go_bind_step _ _ _ _ _ Hrun). done.
  - unfold view, View_slice, view_slice. rewrite <- Hl.
    rewrite (slice_elems_whole _ lo ys) by apply lookup_cell_insert. simpl.
    eapply mapM_view_mono; [|done]. by apply insert_subseteq.
Qed.
End copying.

(** ** Appending *)

Section appending.
Context {V : Type} `{Storable V (list T), GoZero T}.
Implicit Types h : heap V.

(** A slice without room. *)
Definition slice_full (s : slice T) : Prop :=
  match s with nil_slice => True | Slice _ _ n c => c ≤ n end%nat.

Lemma append_all_grow g (s : slice T) ys h xs :
  slice_elems h s = Some xs → slice_full s → ys ≠ [] →
  let m := length xs + length ys in
  ∃ l, h !! l = None
    ∧ append_all g s ys h
      = Some (Slice l 0 m (g m), <[l := to_cell (xs ++ ys ++ replicate (g m - m) zero)]> h).
Proof.
  intros Hxs Hfull Hys m. pose proof (slice_elems_length _ _ _ Hxs) as Hlen.
  unfold append_all. rewrite (go_bind_step _ _ _ _ _ (reads_step _ _ _ Hxs)). fold m.
  destruct (alloc_step (xs ++ ys ++ replicate (g m - m) zero) h) as (l & Hl & Ha).
  exists l. split; [done|].
  destruct s as [|arr off n c]; [destruct ys; [done|]; by rewrite (go_bind_step _ _ _ _ _ Ha)|].
  simpl in Hfull, Hlen. assert (length ys ≠ 0) by (by destruct ys).
  rewrite bool_decide_false by (unfold m; lia). by rewrite (go_bind_step _ _ _ _ _ Ha).
Qed.

Lemma append_all_in_place g arr off n c ys h a :
  lookup_cell h arr = Some a → (n + length ys ≤ c)%nat → (off + (n + length ys) ≤ length a)%nat →
  append_all g (Slice arr off n c) ys h
  = Some (Slice arr off (n + length ys) c,
          <[arr := to_cell (take (off + n) a ++ ys ++ drop (off + (n + length ys)) a)]> h).
Proof.
  intros Ha Hn Hlen. unfold append_all.
  assert (Hxs : slice_elems h (Slice arr off n c) = Some (take n (drop off a))).
  { simpl. rewrite Ha. simpl. by rewrite bool_decide_true by lia. }
  rewrite (go_bind_step _ _ _ _ _ (reads_step _ _ _ Hxs)).
  rewrite (slice_elems_length _ _ _ Hxs). cbn [slice_len].
  rewrite bool_decide_true by done. rewrite (go_bind_step _ _ _ _ _ (load_step _ _ _ Ha)).
  rewrite bool_decide_true by done. by rewrite (go_bind_step _ _ _ _ _ (store_step _ _ _ _ Ha)).
Qed.

Lemma append_grow g (s : slice T) x h xs :
  slice_elems h s = Some xs → slice_full s →
  ∃ l, h !! l = None
    ∧ append g s x h
      = Some (Slice l 0 (S (length xs)) (g (S (length xs))),
              <[l := to_cell (xs ++ [x] ++ replicate (g (S (length xs)) - S (length xs)) zero)]> h).
Proof.
  intros Hxs Hfull. rewrite <- Nat.add_1_r. by apply append_all_grow.
Qed.

Lemma append_in_place g arr off n c x h a :
  lookup_cell h arr = Some a → (n < c)%nat → (off + n < length a)%nat →
  append g (Slice arr off n c) x h
  = Some (Slice arr off (S n) c, <[arr := to_cell (<[off + n := x]> a)]> h).
Proof.
  intros Ha Hn Hlen. unfold append.
  rewrite (append_all_in_place _ _ _ _ _ _ _ a) by (simpl; done || lia). simpl.
  rewrite Nat.add_1_r, Nat.add_succ_r. do 4 f_equal.
  by rewrite insert_take_drop by done.
Qed.
End appending.
