(* ===== verification/HeapLogic.v ===== *)
(** * A separation logic for code that works on memory

    Predicates on a heap of [GoHeap], closed under larger heaps, form a logic of bunched
    implications in the sense of Iris, so that its proof mode can be used on them.  [l ↦ x] owns
    the cell at [l]; [s ↦∗ xs] owns the whole backing array of a slice, its spare capacity
    included, so that two slices owned side by side never write into each other's array.

    [wp c Φ] is total: in every heap that extends the one it owns, [c] returns (it does not
    panic), its result satisfies [Φ] and the rest of the heap stays as it was ([wp_run]). *)

From iris.proofmode Require Import proofmode.
From S2P Require Import Prelude GoHeap.

(** ** The logic *)

Record hProp (V : Type) := HProp {
  holds : heap V → Prop;
  holds_mono : ∀ h h', holds h → h ⊆ h' → holds h' }.
Arguments HProp {V}.
Arguments holds {V}.
Arguments holds_mono {V}.

Section connectives.
Context {V : Type}.
Implicit Types P Q : hProp V.

Inductive hProp_equiv' P Q : Prop := { hProp_in_equiv : ∀ h, holds P h ↔ holds Q h }.
#[local] Instance hProp_equiv : Equiv (hProp V) := hProp_equiv'.
#[local] Instance hProp_equivalence : Equivalence (≡@{hProp V}).
Proof.
  split; [done| |].
  - intros P Q [HPQ]. split. naive_solver.
  - intros P Q R [HPQ] [HQR]. split. naive_solver.
Qed.
Canonical Structure hPropO := discreteO (hProp V).

Inductive hProp_entails P Q : Prop := { hProp_in_entails : ∀ h, holds P h → holds Q h }.

Definition hProp_emp : hProp V := HProp (λ _, True) (λ _ _ _ _, I).
Definition hProp_pure (φ : Prop) : hProp V := HProp (λ _, φ) (λ _ _ H _, H).
Program Definition hProp_and P Q := HProp (λ h, holds P h ∧ holds Q h) _.
Next Obligation. naive_solver eauto using holds_mono. Qed.
Program Definition hProp_or P Q := HProp (λ h, holds P h ∨ holds Q h) _.
Next Obligation. naive_solver eauto using holds_mono. Qed.
Program Definition hProp_impl P Q := HProp (λ h, ∀ h', h ⊆ h' → holds P h' → holds Q h') _.
Next Obligation. intros P Q h h' H Hs h2 Hs2. apply H. by etrans. Qed.
Program Definition hProp_forall A (Ψ : A → hProp V) := HProp (λ h, ∀ a, holds (Ψ a) h) _.
Next Obligation. naive_solver eauto using holds_mono. Qed.
Program Definition hProp_exist A (Ψ : A → hProp V) := HProp (λ h, ∃ a, holds (Ψ a) h) _.
Next Obligation. naive_solver eauto using holds_mono. Qed.
Program Definition hProp_sep P Q :=
  HProp (λ h, ∃ h1 h2, h = h1 ∪ h2 ∧ h1 ##ₘ h2 ∧ holds P h1 ∧ holds Q h2) _.
Next Obligation.
  intros P Q h h' (h1 & h2 & -> & Hd & HP & HQ) Hs.
  assert (Hs1 : h1 ⊆ h') by (etrans; [apply map_union_subseteq_l|done]).
  assert (Hs2 : h2 ⊆ h' ∖ h1).
  { apply map_subseteq_spec. intros l x Hl. apply lookup_difference_Some. split.
    - eapply lookup_weaken; [|exact Hs]. by rw lookup_union_r; [|eapply map_disjoint_Some_r].
    - by eapply map_disjoint_Some_r. }
  exists h1, (h' ∖ h1). split_and!; [by rw map_difference_union| |done|].
  - by apply map_disjoint_difference_r1.
  - by eapply holds_mono.
Qed.
Program Definition hProp_wand P Q :=
  HProp (λ h, ∀ h', h ##ₘ h' → holds P h' → holds Q (h ∪ h')) _.
Next Obligation.
  intros P Q h h2 HPQ Hs h' Hd HP. eapply holds_mono; [apply HPQ; [|exact HP]|].
  - by eapply map_disjoint_weaken_l.
  - by apply map_union_mono_r.
Qed.
Definition hProp_persistently P : hProp V := hProp_pure (hProp_entails hProp_emp P).
Definition hProp_later P : hProp V := P.
End connectives.
Arguments hPropO : clear implicits.

Section mixins.
Context {V : Type}.

Lemma hProp_bi_mixin :
  BiMixin (PROP := hProp V) hProp_entails hProp_emp hProp_pure hProp_and hProp_or hProp_impl
    hProp_forall hProp_exist hProp_sep hProp_wand.
Proof.
  split.
  - split; [by split|]. intros P Q R [HPQ] [HQR]. split. auto.
  - intros P Q. split.
    + intros [HPQ]. split; split; naive_solver.
    + intros [[HPQ] [HQP]]. split. naive_solver.
  - intros n φ ψ Hφ. by split.
  - intros n P P' [HP] Q Q' [HQ]. split. intros h. simpl. by rw HP HQ.
  - intros n P P' [HP] Q Q' [HQ]. split. intros h. simpl. by rw HP HQ.
  - intros n P P' [HP] Q Q' [HQ]. split. intros h. simpl.
    by setoid_rewrite HP; setoid_rewrite HQ.
  - intros A n Φ Ψ HΦ. split. intros h. simpl.
    split; intros H a; by apply (hProp_in_equiv _ _ (HΦ a)).
  - intros A n Φ Ψ HΦ. split. intros h. simpl.
    split; intros [a H]; exists a; by apply (hProp_in_equiv _ _ (HΦ a)).
  - intros n P P' [HP] Q Q' [HQ]. split. intros h. simpl.
    by setoid_rewrite HP; setoid_rewrite HQ.
  - intros n P P' [HP] Q Q' [HQ]. split. intros h. simpl.
    by setoid_rewrite HP; setoid_rewrite HQ.
  - intros φ P Hφ. by split.
  - intros φ P HP. split. intros h Hφ. destruct (HP Hφ) as [HP']. by apply HP'.
  - intros P Q. split. by intros h [??].
  - intros P Q. split. by intros h [??].
  - intros P Q R [HQ] [HR]. split. intros h HP. split; auto.
  - intros P Q. split. by left.
  - intros P Q. split. by right.
  - intros P Q R [HP] [HQ]. split. intros h [?|?]; auto.
  - intros P Q R [HR]. split. intros h HP h' Hs HQ. apply HR. split; [|done].
    by eapply holds_mono.
  - intros P Q R [HR]. split. intros h [HP HQ]. by apply (HR h).
  - intros A P Ψ HΨ. split. intros h HP a. by apply (HΨ a).
  - intros A Ψ a. split. intros h H. apply H.
  - intros A Ψ a. split. intros h H. by exists a.
  - intros A Φ Q HΦ. split. intros h [a H]. by apply (HΦ a).
  - intros P P' Q Q' [HPQ] [HPQ']. split. intros h (h1 & h2 & -> & Hd & H1 & H2).
    exists h1, h2. auto.
  - intros P. split. intros h HP. exists ∅, h. rw left_id_L. split_and!; [done| |done|done].
    apply map_disjoint_empty_l.
  - intros P. split. intros h (h1 & h2 & -> & Hd & _ & HP). eapply holds_mono; [done|].
    by apply map_union_subseteq_r.
  - intros P Q. split. intros h (h1 & h2 & -> & Hd & HP & HQ). exists h2, h1.
    rw map_union_comm //.
  - intros P Q R. split. intros h (h' & h3 & -> & Hd & (h1 & h2 & -> & Hd' & HP & HQ) & HR).
    apply map_disjoint_union_l in Hd as [??].
    exists h1, (h2 ∪ h3). rw (assoc_L (∪)). split_and!; [done| |done|].
    + by apply map_disjoint_union_r_2.
    + by exists h2, h3.
  - intros P Q R [HR]. split. intros h HP h' Hd HQ. apply HR. by exists h, h'.
  - intros P Q R [HR]. split. intros h (h1 & h2 & -> & Hd & HP & HQ). by apply (HR h1).
Qed.

Lemma hProp_bi_persistently_mixin :
  BiPersistentlyMixin (PROP := hProp V) hProp_entails hProp_emp hProp_and hProp_exist hProp_sep
    hProp_persistently.
Proof.
  eapply bi_persistently_mixin_discrete; [done| |done|apply hProp_bi_mixin].
  intros A Φ [H]. destruct (H ∅ I) as [x Hx]. exists x. split. intros h _.
  eapply holds_mono; [exact Hx|apply map_empty_subseteq].
Qed.

Lemma hProp_bi_later_mixin :
  BiLaterMixin (PROP := hProp V) hProp_entails hProp_pure hProp_or hProp_impl hProp_forall
    hProp_exist hProp_sep hProp_persistently hProp_later.
Proof. eapply bi_later_mixin_id; [done|apply hProp_bi_mixin]. Qed.
End mixins.

Canonical Structure hPropI (V : Type) : bi :=
  {| bi_ofe_mixin := ofe_mixin_of (hProp V); bi_bi_mixin := hProp_bi_mixin;
     bi_bi_persistently_mixin := hProp_bi_persistently_mixin;
     bi_bi_later_mixin := hProp_bi_later_mixin |}.

#[export] Instance hProp_affine V : BiAffine (hPropI V).
Proof. intros P. by split. Qed.

(** ** Owning a cell, running code *)

Section ownership.
Context {V : Type}.
Implicit Types h : heap V.

Program Definition points_to `{Storable V T} (l : loc) (x : T) : hProp V :=
  HProp (λ h, lookup_cell h l = Some x ∧ h !! l = Some (to_cell x)) _.
Next Obligation.
  intros T HT l x h h' [Hl Hc] Hs. split; [by eapply lookup_cell_weaken|by eapply lookup_weaken].
Qed.

Program Definition wp {A} (c : go V A) (Φ : A → hProp V) : hProp V :=
  HProp (λ h, ∀ hf, h ##ₘ hf → ∃ x h',
    c (h ∪ hf) = Some (x, h' ∪ hf) ∧ h' ##ₘ hf ∧ holds (Φ x) h') _.
Next Obligation.
  intros A c Φ h h1 Hwp Hs hf Hd.
  assert (Hh1 : h1 = h ∪ h1 ∖ h) by by rw map_difference_union.
  assert (Hd1 : h ##ₘ h1 ∖ h) by by apply map_disjoint_difference_r1.
  set (r := h1 ∖ h) in *. clearbody r. subst h1. apply map_disjoint_union_l in Hd as [Hd Hr].
  destruct (Hwp (r ∪ hf)) as (x & h' & Hc & Hd' & HΦ); [by apply map_disjoint_union_r_2|].
  apply map_disjoint_union_r in Hd' as [Hd2 Hd3].
  exists x, (h' ∪ r). rw -!(assoc_L (∪)) Hc. split_and!; [done| |].
  - by apply map_disjoint_union_l_2.
  - eapply holds_mono; [done|apply map_union_subseteq_l].
Qed.

(** The owned cells are enough for [f] to read [a]. *)
Program Definition reads_as {A} (f : heap V → option A) (a : A) : hProp V :=
  HProp (λ h, ∀ h', h ⊆ h' → f h' = Some a) _.
Next Obligation. intros A f a h h1 Hf Hs h' Hs'. apply Hf. by etrans. Qed.
End ownership.

Notation "l ↦ x" := (points_to l x) (at level 20, format "l  ↦  x") : bi_scope.

Section rules.
Context {V : Type}.
Implicit Types h : heap V.

(** What [wp] says of a run in a whole heap. *)
Lemma wp_run {A} (c : go V A) (P : hProp V) Φ h hf :
  (P ⊢ wp c Φ) → holds P h → h ##ₘ hf →
  ∃ x h', c (h ∪ hf) = Some (x, h' ∪ hf) ∧ h' ##ₘ hf ∧ holds (Φ x) h'.
Proof. intros [Hwp] HP. exact (Hwp h HP hf). Qed.

Lemma holds_sep_pure (P : hProp V) (φ : Prop) h : holds (P ∗ ⌜φ⌝)%I h → holds P h ∧ φ.
Proof.
  intros (h1 & h2 & -> & _ & HP & Hφ). split; [|exact Hφ].
  eapply holds_mono; [exact HP|apply map_union_subseteq_l].
Qed.

Lemma wp_ret {A} (x : A) (Φ : A → hProp V) : Φ x ⊢ wp (mret x) Φ.
Proof. split. intros h HΦ hf Hd. by exists x, h. Qed.

Lemma wp_wand {A} (c : go V A) (Φ Ψ : A → hProp V) :
  wp c Φ -∗ (∀ x, Φ x -∗ Ψ x) -∗ wp c Ψ.
Proof.
  apply bi.entails_wand, bi.wand_intro_r. split.
  intros h (h1 & h2 & -> & Hd & Hwp & HΨ) hf Hdf.
  apply map_disjoint_union_l in Hdf as [Hd1 Hd2].
  destruct (Hwp (h2 ∪ hf)) as (x & h' & Hc & Hd' & HΦ); [by apply map_disjoint_union_r_2|].
  apply map_disjoint_union_r in Hd' as [Hd3 Hd4].
  exists x, (h' ∪ h2). rw -!(assoc_L (∪)) Hc. split_and!; [done|by apply map_disjoint_union_l_2|].
  rw map_union_comm //. by apply HΨ.
Qed.

Lemma wp_bind {A B} (c : go V A) (k : A → go V B) Φ : wp c (λ x, wp (k x) Φ) ⊢ wp (c ≫= k) Φ.
Proof.
  split. intros h Hwp hf Hd. destruct (Hwp hf Hd) as (x & h' & Hc & Hd' & Hk).
  rw (go_bind_step _ _ _ _ _ Hc). by apply Hk.
Qed.

Lemma reads_as_intro {A} (f : heap V → option A) (P : hProp V) a :
  (∀ h, holds P h → f h = Some a) → P ⊢ reads_as f a.
Proof. intros Hf. split. intros h HP h' Hs. apply Hf. by eapply holds_mono. Qed.

Lemma reads_as_pure {A} (f : heap V → option A) a : (∀ h, f h = Some a) → ⊢ reads_as f a.
Proof. intros Hf. apply reads_as_intro. auto. Qed.

Lemma reads_as_holds {A} (f : heap V → option A) (P : hProp V) a h :
  (P ⊢ reads_as f a) → holds P h → f h = Some a.
Proof. intros [Hf] HP. by apply (Hf h HP h). Qed.

(** One read after another: both may look at the same cells. *)
Lemma reads_as_bind {A B} (f : heap V → option A) (k : heap V → A → option B) a b :
  reads_as f a ∧ reads_as (λ h, k h a) b ⊢ reads_as (λ h, f h ≫= k h) b.
Proof. apply reads_as_intro. intros h [Hf Hk]. rw (Hf h) //=. by apply Hk. Qed.

Lemma reads_as_mapM {A B} (f : heap V → A → option B) (R : A → B → hProp V) xs ys :
  (∀ x y, R x y ⊢ reads_as (λ h, f h x) y) →
  ([∗ list] x;y ∈ xs;ys, R x y) ⊢ reads_as (λ h, mapM (f h) xs) ys.
Proof.
  intros HR. revert ys. induction xs as [|x xs IH]; intros [|y ys]; simpl.
  - iIntros "_". by iApply reads_as_pure.
  - iIntros "[]".
  - iIntros "[]".
  - iIntros "[Hx Hxs]". iApply (reads_as_bind _ (λ h b, k ← mapM (f h) xs; mret (b :: k))).
    iSplit; [by iApply HR|]. iApply (reads_as_bind _ (λ h k, mret (y :: k))).
    iSplit; [by iApply IH|]. by iApply reads_as_pure.
Qed.

Lemma wp_reads {A} (f : heap V → option A) (P : hProp V) a Φ :
  (P ⊢ reads_as f a) → P -∗ (P -∗ Φ a) -∗ wp (reads f) Φ.
Proof.
  intros Hf. apply bi.entails_wand, bi.wand_intro_r. split.
  intros h (h1 & h2 & -> & Hd & HP & HΦ) hf Hdf.
  exists a, (h1 ∪ h2). split_and!; [|done|].
  - apply reads_step. destruct Hf as [Hf]. apply (Hf h1 HP).
    rw -(assoc_L (∪)). apply map_union_subseteq_l.
  - rw map_union_comm //. by apply HΦ.
Qed.

Section cells.
Context `{Storable V T}.

Lemma wp_alloc (x : T) Φ : (∀ l, l ↦ x -∗ Φ l) ⊢ wp (alloc x) Φ.
Proof.
  split. intros h HΦ hf Hd. destruct (alloc_step x (h ∪ hf)) as (l & Hl & Ha).
  apply lookup_union_None in Hl as [Hlh Hlf].
  assert (Hdl : h ##ₘ {[l := to_cell x]}) by by apply map_disjoint_singleton_r.
  exists l, (h ∪ {[l := to_cell x]}). rw Ha. split_and!.
  - rw (map_union_comm h {[l := _]}) // -(assoc_L (∪)) -insert_union_singleton_l //.
  - apply map_disjoint_union_l_2; [done|by apply map_disjoint_singleton_l].
  - apply HΦ; [done|]. split; [|apply lookup_singleton_eq].
    rw /lookup_cell lookup_singleton_eq /= of_to_cell //.
Qed.

Lemma points_to_reads l (x : T) : l ↦ x ⊢ reads_as (λ h, lookup_cell h l) x.
Proof. apply reads_as_intro. by intros h [Hl _]. Qed.

Lemma wp_load l (x : T) Φ : l ↦ x -∗ (l ↦ x -∗ Φ x) -∗ wp (load l) Φ.
Proof. apply wp_reads, points_to_reads. Qed.

Lemma wp_store l (x y : T) Φ : l ↦ x -∗ (l ↦ y -∗ Φ ()) -∗ wp (store l y) Φ.
Proof.
  apply bi.entails_wand, bi.wand_intro_r. split.
  intros h (h1 & h2 & -> & Hd & [Hl Hc] & HΦ) hf Hdf.
  exists tt, (<[l := to_cell y]> h1 ∪ h2). split_and!.
  - rw (store_step _ _ _ x); last first.
    { eapply lookup_cell_weaken; [exact Hl|]. rw -(assoc_L (∪)). apply map_union_subseteq_l. }
    rw -!(assoc_L (∪)) insert_union_l //.
  - rw -insert_union_l. apply map_disjoint_insert_l_2; [|done].
    eapply map_disjoint_Some_l; [exact Hdf|]. by eapply lookup_union_Some_l.
  - assert (Hd' : <[l := to_cell y]> h1 ##ₘ h2).
    { apply map_disjoint_insert_l_2; [|done]. by eapply map_disjoint_Some_l. }
    rw map_union_comm //. apply HΦ; [done|]. split; [apply lookup_cell_insert|apply lookup_insert_eq].
Qed.
End cells.
End rules.

(** ** Pointers *)

Section pointers.
Context {V : Type} `{Storable V T, GoZero T}.

(** A pointer that is nil or owns the cell it points to. *)
Definition ptr_at (p : ptr T) (x : option T) : hProp V :=
  match p with nil_ptr => ⌜x = None⌝ | Ptr l => ∃ v, ⌜x = Some v⌝ ∗ l ↦ v end%I.

(** [*p], or nothing for nil. *)
Definition read_ptr (h : heap V) (p : ptr T) : option (option T) :=
  match p with nil_ptr => Some None | Ptr l => Some <$> lookup_cell h l end.

Lemma ptr_at_reads p x : ptr_at p x ⊢ reads_as (λ h, read_ptr h p) x.
Proof.
  destruct p as [|l]; [iIntros (->); by iApply reads_as_pure|].
  iDestruct 1 as (v ->) "Hl". iRevert "Hl". iApply bi.entails_wand.
  apply reads_as_intro. intros h [Hl _]. simpl. by rw Hl.
Qed.

(** A deep copy points to a cell of its own. *)
Lemma wp_copy_ptr p x Φ :
  ptr_at p x -∗ (∀ p', ptr_at p' x -∗ ptr_at p x -∗ Φ p') -∗ wp (copy_ptr copy_plain p) Φ.
Proof.
  iIntros "Hp HΦ". destruct p as [|l]; [iDestruct "Hp" as %->; iApply wp_ret; by iApply "HΦ"|].
  iDestruct "Hp" as (v ->) "Hl". rw /copy_ptr /copy_ref.
  iApply wp_bind. iApply wp_bind. iApply wp_alloc. iIntros (l') "Hl'". iApply wp_ret.
  iApply wp_bind. iApply (wp_load with "Hl"). iIntros "Hl".
  iApply wp_bind. iApply wp_ret. iApply wp_bind. iApply (wp_store with "Hl'"). iIntros "Hl'".
  iApply wp_ret. iApply ("HΦ" with "[Hl'] [Hl]"); iExists v; by iFrame.
Qed.
End pointers.

(** ** Slices *)

Section slices.
Context {V : Type} `{Storable V (list T), GoZero T}.
Implicit Types h : heap V.

(** The array [a] of a slice with elements [xs], with room for its capacity. *)
Definition slice_fits (off n c : nat) (a xs : list T) : Prop :=
  take n (drop off a) = xs ∧ (off + n ≤ length a)%nat ∧ (off + c ≤ length a ∨ c ≤ n)%nat.

Definition slice_at (s : slice T) (xs : list T) : hProp V :=
  match s with
  | nil_slice => ⌜xs = []⌝
  | Slice arr off n c => ∃ a, arr ↦ a ∗ ⌜slice_fits off n c a xs⌝
  end%I.

Lemma slice_at_reads s xs : slice_at s xs ⊢ reads_as (λ h, slice_elems h s) xs.
Proof.
  apply reads_as_intro. intros h.
  destruct s as [|arr off n c]; [by intros ->|].
  intros (a & h1 & h2 & -> & Hd & [Ha _] & (<- & Hlen & _)).
  rw /= (lookup_cell_weaken _ _ _ _ Ha (map_union_subseteq_l _ _)) /= bool_decide_true //.
Qed.

Lemma slice_fits_length off n c a xs : slice_fits off n c a xs → length xs = n.
Proof. intros (<- & ? & _). rw length_take length_drop. lia. Qed.

Lemma slice_fits_new xs rest c : length (xs ++ rest) = c ∨ (c ≤ length xs)%nat →
  slice_fits 0 (length xs) c (xs ++ rest) xs.
Proof.
  intros Hc. rw /slice_fits drop_0 take_app_length length_app. split_and!; [done|lia|].
  destruct Hc as [Hc|Hc]; [left; by rw -Hc length_app|by right].
Qed.

Lemma slice_at_len s xs : slice_at s xs ⊢ ⌜slice_len s = length xs⌝.
Proof.
  destruct s as [|arr off n c]; [by iIntros (->)|]. iDestruct 1 as (a) "[_ %Hfits]".
  by rw (slice_fits_length _ _ _ _ _ Hfits).
Qed.

Lemma wp_elems s xs Φ :
  slice_at s xs -∗ (slice_at s xs -∗ Φ xs) -∗ wp (reads (λ h, slice_elems h s)) Φ.
Proof. apply wp_reads, slice_at_reads. Qed.

Lemma wp_index s xs i x Φ : xs !! i = Some x →
  slice_at s xs -∗ (slice_at s xs -∗ Φ x) -∗ wp (index s i) Φ.
Proof.
  intros Hx. apply wp_reads, reads_as_intro. intros h Hh.
  by rw (reads_as_holds _ _ _ _ (slice_at_reads s xs) Hh).
Qed.

Lemma wp_set_index s xs i x Φ : (i < length xs)%nat →
  slice_at s xs -∗ (slice_at s (<[i := x]> xs) -∗ Φ ()) -∗ wp (set_index s i x) Φ.
Proof.
  iIntros (Hi) "Hs HΦ". destruct s as [|arr off n c].
  { iDestruct "Hs" as %->. simpl in Hi. lia. }
  iDestruct "Hs" as (a) "[Ha %Hfits]". pose proof (slice_fits_length _ _ _ _ _ Hfits) as Hlen.
  destruct Hfits as (<- & Hle & Hc). iApply wp_bind. iApply (wp_load with "Ha"). iIntros "Ha".
  rw bool_decide_true; [|lia]. iApply (wp_store with "Ha"). iIntros "Ha". iApply "HΦ".
  iExists _. iFrame "Ha". iPureIntro. rw /slice_fits length_insert. split_and!; [|done|done].
  rw drop_insert_ge; [|lia]. rw take_insert_lt; [|lia]. do 2 f_equal. lia.
Qed.

(** A new array, with its spare capacity zero. *)
Lemma slice_at_new l xs c :
  l ↦ (xs ++ replicate (c - length xs) zero) ⊢ slice_at (Slice l 0 (length xs) c) xs.
Proof.
  iIntros "Hl". iExists _. iFrame "Hl". iPureIntro. apply slice_fits_new.
  rw length_app length_replicate. lia.
Qed.

Lemma slice_fits_append off n c a xs ys :
  slice_fits off n c a xs → (n + length ys ≤ c)%nat →
  (off + (n + length ys) ≤ length a)%nat
  ∧ slice_fits off (n + length ys) c (take (off + n) a ++ ys ++ drop (off + (n + length ys)) a)
      (xs ++ ys).
Proof.
  intros (<- & Hle & Hc) Hroom.
  assert (Hroom' : (off + (n + length ys) ≤ length a)%nat) by (destruct ys; simpl in *; lia).
  split; [done|]. rw /slice_fits !length_app length_take length_drop. split_and!; [|lia|lia].
  rw drop_app_le; [|rw length_take; lia]. rw -take_drop_commute.
  rw take_app. f_equal.
  - rw take_ge // length_take length_drop. lia.
  - rw length_take length_drop take_app_le; [|lia]. rw take_ge //. lia.
Qed.

Lemma wp_append_all g s xs ys Φ :
  slice_at s xs -∗ (∀ s', slice_at s' (xs ++ ys) -∗ Φ s') -∗ wp (append_all g s ys) Φ.
Proof.
  iIntros "Hs HΦ". iApply wp_bind. iApply (wp_elems with "Hs"). iIntros "Hs".
  iAssert (wp (arr ← alloc (xs ++ ys ++ replicate (g (length xs + length ys)
               - (length xs + length ys)) zero);
             mret (Slice arr 0 (length xs + length ys) (g (length xs + length ys)))) Φ
           ∧ (∀ s', slice_at s' (xs ++ ys) -∗ Φ s'))%I with "[HΦ]" as "Hgrow".
  { iSplit; [|done]. iApply wp_bind. iApply wp_alloc. iIntros (l) "Hl". iApply wp_ret.
    iApply "HΦ". rw (assoc_L (++)) -length_app. by iApply slice_at_new. }
  destruct s as [|arr off n c].
  - destruct ys as [|y ys]; [|by iDestruct "Hgrow" as "[$ _]"].
    iDestruct "Hs" as %->. iDestruct "Hgrow" as "[_ HΦ]". iApply wp_ret. by iApply "HΦ".
  - case_bool_decide as Hroom; [|by iDestruct "Hgrow" as "[$ _]"].
    iDestruct "Hs" as (a) "[Ha %Hfits]". iDestruct "Hgrow" as "[_ HΦ]".
    rw (slice_fits_length _ _ _ _ _ Hfits) in Hroom |- *.
    destruct (slice_fits_append _ _ _ _ _ _ Hfits Hroom) as [Hle Hfits'].
    iApply wp_bind. iApply (wp_load with "Ha"). iIntros "Ha". rw bool_decide_true //.
    iApply wp_bind. iApply (wp_store with "Ha"). iIntros "Ha". iApply wp_ret.
    iApply "HΦ". iExists _. by iFrame "Ha".
Qed.

Lemma wp_make_cap n c Φ : (n ≤ c)%nat →
  (∀ s, slice_at s (replicate n zero) -∗ Φ s) ⊢ wp (make_cap n c) Φ.
Proof.
  iIntros (Hle) "HΦ". iApply wp_bind. iApply wp_alloc. iIntros (l) "Hl". iApply wp_ret.
  iApply "HΦ". iExists _. iFrame "Hl". iPureIntro. rw /slice_fits drop_0 take_replicate.
  rw length_replicate Nat.min_l //. split_and!; [done|lia|by left].
Qed.

(** A copy into a slice of the same length, which keeps its array and its capacity. *)
Lemma wp_builtin_copy dst src ys xs Φ : length ys = length xs →
  slice_at dst ys -∗ slice_at src xs -∗
  (slice_at dst xs -∗ slice_at src xs -∗ Φ ()) -∗ wp (builtin_copy dst src) Φ.
Proof.
  iIntros (Hlen) "Hd Hs HΦ". iApply wp_bind. iApply (wp_elems with "Hs"). iIntros "Hs".
  destruct dst as [|arr off n c].
  { iDestruct "Hd" as %->. destruct xs; [|done]. iApply wp_ret. by iApply ("HΦ" with "[] Hs"). }
  iDestruct "Hd" as (a) "[Ha %Hfits]". pose proof (slice_fits_length _ _ _ _ _ Hfits) as Hn.
  destruct Hfits as (_ & Hle & Hc). iApply wp_bind. iApply (wp_load with "Ha"). iIntros "Ha".
  rw bool_decide_true //. iApply (wp_store with "Ha"). iIntros "Ha".
  iApply ("HΦ" with "[Ha] Hs"). iExists _. iFrame "Ha". iPureIntro.
  rw (take_ge xs) ?Nat.min_l; [|lia|lia]. rw /slice_fits !length_app length_take length_drop.
  split_and!; [|lia|lia]. rw drop_app_length'; [|rw length_take; lia].
  rw take_app_length' //. lia.
Qed.

Lemma wp_append g s xs x Φ :
  slice_at s xs -∗ (∀ s', slice_at s' (xs ++ [x]) -∗ Φ s') -∗ wp (append g s x) Φ.
Proof. apply wp_append_all. Qed.

Lemma wp_append_slice g s t xs ys Φ :
  slice_at s xs -∗ slice_at t ys -∗
  (∀ s', slice_at s' (xs ++ ys) -∗ slice_at t ys -∗ Φ s') -∗ wp (append_slice g s t) Φ.
Proof.
  iIntros "Hs Ht HΦ". iApply wp_bind. iApply (wp_elems with "Ht"). iIntros "Ht".
  iApply (wp_append_all with "Hs"). iIntros (s') "Hs". iApply ("HΦ" with "Hs Ht").
Qed.
End slices.
Notation "s ↦∗ xs" := (slice_at s xs) (at level 20, format "s  ↦∗  xs") : bi_scope.
