(* ===== verification/Kube.v ===== *)
(** * Kubernetes API types and library calls the operator uses

    The types of k8s.io/api and k8s.io/apimachinery are third-party: the records below carry
    the fields the operator reads or writes, and one field [..._Other] for everything it
    never touches (as name/JSON pairs), so that frame properties can speak about it.  A Go
    map that may be nil is a [gmap]: reading a nil map and an empty map is the same, and the
    operator initialises nil maps before writing.  Pointers to scalars and structs are
    [option].  Library functions that the source only calls are class methods. *)

From S2P Require Import Prelude GoStd.

(** Fields outside the model: name and JSON text. *)
Abbreviation Fields := (list (string * string)) (only parsing).

(** ** corev1: volumes *)

Record CSIVolumeSource := {
  CSI_Driver : string;
  CSI_ReadOnly : option bool;
  CSI_Other : Fields }.

Record ObjectFieldSelector := { FieldPath : string; OFS_Other : Fields }.

Record DownwardAPIVolumeFile := {
  Item_Path : string;
  Item_FieldRef : option ObjectFieldSelector;
  Item_Mode : option Z;
  Item_Other : Fields }.

Record EmptyDirVolumeSource := { Medium : string; EmptyDir_Other : Fields }.

Record DownwardAPIVolumeSource := {
  Items : list DownwardAPIVolumeFile;
  DownwardAPI_Other : Fields }.

Record VolumeSource := {
  VS_CSI : option CSIVolumeSource;
  VS_EmptyDir : option EmptyDirVolumeSource;
  VS_DownwardAPI : option DownwardAPIVolumeSource;
  VS_Other : Fields }.

Record Volume := { Volume_Name : string; Volume_Source : VolumeSource }.

Definition StorageMediumMemory : string := "Memory".

(** ** corev1: containers *)

Record VolumeMount := {
  Mount_Name : string;
  MountPath : string;
  SubPath : string;
  ReadOnly : bool;
  Mount_Other : Fields }.

Record EnvVar := { Env_Name : string; Env_Value : string; Env_Other : Fields }.

Record SecurityContext := {
  RunAsNonRoot : option bool;
  AllowPrivilegeEscalation : option bool;
  ReadOnlyRootFilesystem : option bool;
  Capabilities_Drop : option (list string);
  SeccompProfile_Type : option string;
  SecurityContext_Other : Fields }.

Abbreviation ResourceRequirements := Fields (only parsing).
Abbreviation PullPolicy := string (only parsing).
Definition PullAlways : PullPolicy := "Always".
Definition PullIfNotPresent : PullPolicy := "IfNotPresent".
Definition PullNever : PullPolicy := "Never".
Definition SeccompProfileTypeRuntimeDefault : string := "RuntimeDefault".
Definition ContainerRestartPolicyAlways : string := "Always".

Record Container := {
  C_Name : string;
  C_Image : string;
  C_ImagePullPolicy : PullPolicy;
  C_Args : list string;
  C_Env : list EnvVar;
  C_VolumeMounts : list VolumeMount;
  C_Resources : ResourceRequirements;
  C_SecurityContext : option SecurityContext;
  C_RestartPolicy : option string;
  C_Other : Fields }.

Definition C_set_VolumeMounts (v : list VolumeMount) (c : Container) : Container :=
  {| C_Name := C_Name c; C_Image := C_Image c; C_ImagePullPolicy := C_ImagePullPolicy c;
     C_Args := C_Args c; C_Env := C_Env c; C_VolumeMounts := v; C_Resources := C_Resources c;
     C_SecurityContext := C_SecurityContext c; C_RestartPolicy := C_RestartPolicy c;
     C_Other := C_Other c |}.
Definition C_set_Env (v : list EnvVar) (c : Container) : Container :=
  {| C_Name := C_Name c; C_Image := C_Image c; C_ImagePullPolicy := C_ImagePullPolicy c;
     C_Args := C_Args c; C_Env := v; C_VolumeMounts := C_VolumeMounts c;
     C_Resources := C_Resources c; C_SecurityContext := C_SecurityContext c;
     C_RestartPolicy := C_RestartPolicy c; C_Other := C_Other c |}.

(** ** corev1: pods and the objects a pod belongs to *)

Record Pod := {
  Pod_Name : string;
  Pod_GenerateName : string;
  Pod_Namespace : string;
  Pod_Annotations : gmap string string;
  Pod_Labels : gmap string string;
  Pod_ServiceAccountName : string;
  Pod_Volumes : list Volume;
  Pod_InitContainers : list Container;
  Pod_Containers : list Container;
  Pod_Other : Fields }.

Definition Pod_set_Annotations (v : gmap string string) (p : Pod) : Pod :=
  {| Pod_Name := Pod_Name p; Pod_GenerateName := Pod_GenerateName p;
     Pod_Namespace := Pod_Namespace p; Pod_Annotations := v; Pod_Labels := Pod_Labels p;
     Pod_ServiceAccountName := Pod_ServiceAccountName p; Pod_Volumes := Pod_Volumes p;
     Pod_InitContainers := Pod_InitContainers p; Pod_Containers := Pod_Containers p;
     Pod_Other := Pod_Other p |}.
Definition Pod_set_Labels (v : gmap string string) (p : Pod) : Pod :=
  {| Pod_Name := Pod_Name p; Pod_GenerateName := Pod_GenerateName p;
     Pod_Namespace := Pod_Namespace p; Pod_Annotations := Pod_Annotations p; Pod_Labels := v;
     Pod_ServiceAccountName := Pod_ServiceAccountName p; Pod_Volumes := Pod_Volumes p;
     Pod_InitContainers := Pod_InitContainers p; Pod_Containers := Pod_Containers p;
     Pod_Other := Pod_Other p |}.
Definition Pod_set_Volumes (v : list Volume) (p : Pod) : Pod :=
  {| Pod_Name := Pod_Name p; Pod_GenerateName := Pod_GenerateName p;
     Pod_Namespace := Pod_Namespace p; Pod_Annotations := Pod_Annotations p;
     Pod_Labels := Pod_Labels p; Pod_ServiceAccountName := Pod_ServiceAccountName p;
     Pod_Volumes := v; Pod_InitContainers := Pod_InitContainers p;
     Pod_Containers := Pod_Containers p; Pod_Other := Pod_Other p |}.
Definition Pod_set_InitContainers (v : list Container) (p : Pod) : Pod :=
  {| Pod_Name := Pod_Name p; Pod_GenerateName := Pod_GenerateName p;
     Pod_Namespace := Pod_Namespace p; Pod_Annotations := Pod_Annotations p;
     Pod_Labels := Pod_Labels p; Pod_ServiceAccountName := Pod_ServiceAccountName p;
     Pod_Volumes := Pod_Volumes p; Pod_InitContainers := v;
     Pod_Containers := Pod_Containers p; Pod_Other := Pod_Other p |}.
Definition Pod_set_Containers (v : list Container) (p : Pod) : Pod :=
  {| Pod_Name := Pod_Name p; Pod_GenerateName := Pod_GenerateName p;
     Pod_Namespace := Pod_Namespace p; Pod_Annotations := Pod_Annotations p;
     Pod_Labels := Pod_Labels p; Pod_ServiceAccountName := Pod_ServiceAccountName p;
     Pod_Volumes := Pod_Volumes p; Pod_InitContainers := Pod_InitContainers p;
     Pod_Containers := v; Pod_Other := Pod_Other p |}.

(** A [corev1.Namespace] or [corev1.ServiceAccount]: the operator reads their metadata. *)
Record KubeObject := {
  Obj_Annotations : gmap string string;
  Obj_Labels : gmap string string }.

(** ** metav1 *)

Record LabelSelectorRequirement := {
  LSR_Key : string;
  LSR_Operator : string;
  LSR_Values : list string }.
Record LabelSelector := {
  MatchLabels : gmap string string;
  MatchExpressions : list LabelSelectorRequirement }.

Record Condition := {
  Cond_Type : string;
  Cond_Status : string;
  Cond_ObservedGeneration : Z;
  Cond_LastTransitionTime : Z;
  Cond_Reason : string;
  Cond_Message : string }.
Definition ConditionTrue : string := "True".
Definition ConditionFalse : string := "False".

(** [metav1.LabelSelectorAsSelector] and [labels.Selector.Matches]. *)
Class LabelSelectors := {
  Selector : Type;
  LabelSelectorAsSelector : LabelSelector → result error Selector;
  Selector_Matches : Selector → gmap string string → bool }.

#[export] Instance CSIVolumeSource_eq_dec : EqDecision CSIVolumeSource.
Proof. solve_decision. Defined.
#[export] Instance ObjectFieldSelector_eq_dec : EqDecision ObjectFieldSelector.
Proof. solve_decision. Defined.
#[export] Instance DownwardAPIVolumeFile_eq_dec : EqDecision DownwardAPIVolumeFile.
Proof. solve_decision. Defined.
#[export] Instance EmptyDirVolumeSource_eq_dec : EqDecision EmptyDirVolumeSource.
Proof. solve_decision. Defined.
#[export] Instance DownwardAPIVolumeSource_eq_dec : EqDecision DownwardAPIVolumeSource.
Proof. solve_decision. Defined.
#[export] Instance VolumeSource_eq_dec : EqDecision VolumeSource.
Proof. solve_decision. Defined.
#[export] Instance Volume_eq_dec : EqDecision Volume.
Proof. solve_decision. Defined.
#[export] Instance VolumeMount_eq_dec : EqDecision VolumeMount.
Proof. solve_decision. Defined.
#[export] Instance EnvVar_eq_dec : EqDecision EnvVar.
Proof. solve_decision. Defined.
#[export] Instance SecurityContext_eq_dec : EqDecision SecurityContext.
Proof. solve_decision. Defined.
#[export] Instance Container_eq_dec : EqDecision Container.
Proof. solve_decision. Defined.
#[export] Instance Pod_eq_dec : EqDecision Pod.
Proof. solve_decision. Defined.
#[export] Instance Condition_eq_dec : EqDecision Condition.
Proof. solve_decision. Defined.
