(* ===== verification/Api.v ===== *)
(** * The v1alpha1 API: OIDCShim and ClusterOIDCShim (src/api/v1alpha1) *)

From S2P Require Import Prelude GoStd Kube.

(** ** Annotation and label keys *)

Definition GroupPrefix : string := "oidcshim.kemo.dev".
Definition EnrollmentKey : string := GroupPrefix +:+ "/shim".
Definition InjectAnnotation : string := GroupPrefix +:+ "/inject".
Definition StatusAnnotation : string := GroupPrefix +:+ "/status".
Definition ShimsAnnotation : string := GroupPrefix +:+ "/shims".
Definition ContainersAnnotation : string := GroupPrefix +:+ "/containers".
Definition HelperConfAnnotationPrefix : string := GroupPrefix +:+ "/helper-conf-".
Definition FileAnnotationPrefix : string := GroupPrefix +:+ "/file-".
Definition ShimLabelPrefix : string := GroupPrefix +:+ "/shim-".
Definition StatusInjected : string := "injected".
Definition ShimLabelValueNamespaced : string := "namespaced".
Definition ShimLabelValueCluster : string := "cluster".
(** The label and value by which the webhook's namespace selector leaves a namespace out. *)
Definition WebhookNamespaceLabel : string := GroupPrefix +:+ "/webhook".
Definition WebhookDisabled : string := "disabled".

(** The values of the informational [spec.provider]. *)
Definition ProviderGoogle : string := "google".
Definition ProviderAWS : string := "aws".
Definition ProviderAzure : string := "azure".
Definition ProviderGeneric : string := "generic".
Definition ConditionReady : string := "Ready".
Definition ReasonValid : string := "Valid".
Definition ReasonInvalidSpec : string := "InvalidSpec".

Definition ShimLabelKey (shimName : string) : string := ShimLabelPrefix +:+ shimName.
Definition HelperConfAnnotation (shimName : string) : string :=
  HelperConfAnnotationPrefix +:+ shimName.

(** ** The spec *)

Record EnrollmentSpec := {
  Enrollment_Namespaces : option bool;
  Enrollment_ServiceAccounts : option bool;
  Enrollment_Pods : option bool }.

Record SelectionSpec := {
  Enrollment : option EnrollmentSpec;
  NamespaceSelector : option LabelSelector;
  ServiceAccountSelector : option LabelSelector;
  PodSelector : option LabelSelector }.

Record ConfigMapKeySelector := { CMKS_Name : string; CMKS_Key : string }.

Record ParameterSource := {
  Static : option string;
  Annotation : string;
  Label : string;
  ConfigMapKeyRef : option ConfigMapKeySelector;
  Template : string }.

Record ShimParameter := {
  Param_Name : string;
  ValueFrom : ParameterSource;
  Default : option string;
  Required : bool }.

Record TokenSpec := {
  TokenSpec_VolumeName : string;
  TokenSpec_MountPath : string;
  TokenSpec_FileName : string;
  TokenSpec_FileMode : string }.

(** [v1alpha1.EnvVar]: a templated environment variable. *)
Record EnvVarSpec := { EnvSpec_Name : string; EnvSpec_Value : string }.

Record FileSpec := { File_Path : string; File_Content : string; File_Mode : string }.

Record InjectSpec := {
  Inject_Env : list EnvVarSpec;
  Inject_Files : list FileSpec;
  Inject_Containers : list string }.

Record SPIFFESpec := {
  SPIFFE_CSIDriver : string;
  SPIFFE_SocketMountPath : string;
  SPIFFE_SocketFile : string }.

Record HelperSpec := {
  Helper_Image : string;
  Helper_ImagePullPolicy : PullPolicy;
  Helper_Resources : option ResourceRequirements;
  Helper_SecurityContext : option SecurityContext }.

Record OIDCShimSpec := {
  Provider : string;
  Selection : SelectionSpec;
  Spec_Parameters : list ShimParameter;
  Audience : string;
  ExtraAudiences : list string;
  Spec_Token : TokenSpec;
  Inject : InjectSpec;
  SPIFFE : option SPIFFESpec;
  Helper : option HelperSpec }.

Record OIDCShimStatus := {
  Conditions : list Condition;
  ObservedGeneration : Z;
  MatchedPods : option Z }.

#[export] Instance OIDCShimStatus_eq_dec : EqDecision OIDCShimStatus.
Proof. solve_decision. Defined.

(** ** The two kinds *)

Record ObjectMeta := {
  Meta_Name : string;
  Meta_Namespace : string;
  Meta_Generation : Z }.

Record OIDCShim := {
  OIDCShim_Meta : ObjectMeta;
  OIDCShim_Spec : OIDCShimSpec;
  OIDCShim_Status : OIDCShimStatus }.

Record ClusterOIDCShimSpec := {
  Cluster_OIDCShimSpec : OIDCShimSpec;
  ConfigMapNamespace : string }.

Record ClusterOIDCShim := {
  ClusterOIDCShim_Meta : ObjectMeta;
  ClusterOIDCShim_Spec : ClusterOIDCShimSpec;
  ClusterOIDCShim_Status : OIDCShimStatus }.

(** The interface [Shim] and its two implementations. *)
Inductive Shim :=
| ShimNamespaced (s : OIDCShim)
| ShimCluster (s : ClusterOIDCShim).

Definition Shim_Meta (s : Shim) : ObjectMeta :=
  match s with
  | ShimNamespaced s => OIDCShim_Meta s
  | ShimCluster s => ClusterOIDCShim_Meta s
  end.
Definition GetName (s : Shim) : string := Meta_Name (Shim_Meta s).
Definition GetNamespace (s : Shim) : string := Meta_Namespace (Shim_Meta s).
Definition GetGeneration (s : Shim) : Z := Meta_Generation (Shim_Meta s).

Definition ShimSpec (s : Shim) : OIDCShimSpec :=
  match s with
  | ShimNamespaced s => OIDCShim_Spec s
  | ShimCluster s => Cluster_OIDCShimSpec (ClusterOIDCShim_Spec s)
  end.

Definition ShimStatus (s : Shim) : OIDCShimStatus :=
  match s with
  | ShimNamespaced s => OIDCShim_Status s
  | ShimCluster s => ClusterOIDCShim_Status s
  end.

(** The write through the pointer [ShimStatus()] returns. *)
Definition set_ShimStatus (st : OIDCShimStatus) (s : Shim) : Shim :=
  match s with
  | ShimNamespaced s =>
      ShimNamespaced {| OIDCShim_Meta := OIDCShim_Meta s; OIDCShim_Spec := OIDCShim_Spec s;
                        OIDCShim_Status := st |}
  | ShimCluster s =>
      ShimCluster {| ClusterOIDCShim_Meta := ClusterOIDCShim_Meta s;
                     ClusterOIDCShim_Spec := ClusterOIDCShim_Spec s;
                     ClusterOIDCShim_Status := st |}
  end.

Definition IsClusterScoped (s : Shim) : bool :=
  match s with ShimNamespaced _ => false | ShimCluster _ => true end.

Definition ConfigMapNamespaceFor (s : Shim) (podNamespace : string) : string :=
  match s with
  | ShimNamespaced s => Meta_Namespace (OIDCShim_Meta s)
  | ShimCluster s =>
      if negb (String.eqb (ConfigMapNamespace (ClusterOIDCShim_Spec s)) "")
      then ConfigMapNamespace (ClusterOIDCShim_Spec s)
      else podNamespace
  end.

Definition ShimKey (s : Shim) : string :=
  match s with
  | ShimNamespaced s =>
      "OIDCShim/" +:+ Meta_Namespace (OIDCShim_Meta s) +:+ "/" +:+ Meta_Name (OIDCShim_Meta s)
  | ShimCluster s => "ClusterOIDCShim/" +:+ Meta_Name (ClusterOIDCShim_Meta s)
  end.

(** ** Keys written for different purposes never coincide *)

Lemma ShimLabelKey_inj a b : ShimLabelKey a = ShimLabelKey b → a = b.
Proof. apply string_app_inj_l. Qed.

Lemma HelperConfAnnotation_inj a b : HelperConfAnnotation a = HelperConfAnnotation b → a = b.
Proof. apply string_app_inj_l. Qed.

