(* ===== verification/DeepCopy.v ===== *)
(** * The generated deep copies (src/api/v1alpha1/zz_generated.deepcopy.go)

    The other files treat an API object as a value.  In memory it is a tree of structs linked
    by pointers and slices, informers share one tree per object among all readers, and the
    value semantics rests on the generated [DeepCopyInto] functions.  Here every type has its
    memory layout (a [..._mem] record: the source's struct with pointers and slices as they
    are; a struct without pointers is its own layout), the value it denotes ([View] into the
    records of [Api]), and its three functions as written.  [X_DeepCopyInto] takes what [in]
    points to and returns what the call leaves in the memory [out] points to, starting from
    the assignment [*out = *in].  The structs of apimachinery that the layouts contain are
    third-party: a class gives their layouts, their copies and the contract of these. *)

From S2P Require Import Prelude GoHeap Kube Api.

(** ** Layouts *)

(** Layouts and zero values of the third-party structs, and the cells their own pointers,
    slices and maps refer to. *)
Class LibLayouts := {
  LabelSelector_mem : Type;
  ResourceRequirements_mem : Type;
  SecurityContext_mem : Type;
  ObjectMeta_mem : Type;
  ListMeta_mem : Type;
  Condition_mem : Type;
  lib_cell : Type;
  LabelSelector_zero :: GoZero LabelSelector_mem;
  ResourceRequirements_zero :: GoZero ResourceRequirements_mem;
  SecurityContext_zero :: GoZero SecurityContext_mem;
  ObjectMeta_zero :: GoZero ObjectMeta_mem;
  ListMeta_zero :: GoZero ListMeta_mem;
  Condition_zero :: GoZero Condition_mem }.

Record TypeMeta := { Kind : string; APIVersion : string }.

Section layouts.
Context `{LibLayouts}.

Record EnrollmentSpec_mem := {
  m_Namespaces : ptr bool;
  m_ServiceAccounts : ptr bool;
  m_Pods : ptr bool }.

Record SelectionSpec_mem := {
  m_Enrollment : ptr EnrollmentSpec_mem;
  m_NamespaceSelector : ptr LabelSelector_mem;
  m_ServiceAccountSelector : ptr LabelSelector_mem;
  m_PodSelector : ptr LabelSelector_mem }.

Record ParameterSource_mem := {
  m_Static : ptr string;
  m_Annotation : string;
  m_Label : string;
  m_ConfigMapKeyRef : ptr ConfigMapKeySelector;
  m_Template : string }.

Record Parameter_mem := {
  m_Name : string;
  m_ValueFrom : ParameterSource_mem;
  m_Default : ptr string;
  m_Required : bool }.

Record InjectSpec_mem := {
  m_Env : slice EnvVarSpec;
  m_Files : slice FileSpec;
  m_Containers : slice string }.

Record HelperSpec_mem := {
  m_Image : string;
  m_ImagePullPolicy : PullPolicy;
  m_Resources : ptr ResourceRequirements_mem;
  m_SecurityContext : ptr SecurityContext_mem }.

Record OIDCShimSpec_mem := {
  m_Provider : string;
  m_Selection : SelectionSpec_mem;
  m_Parameters : slice Parameter_mem;
  m_Audience : string;
  m_ExtraAudiences : slice string;
  m_Token : TokenSpec;
  m_Inject : InjectSpec_mem;
  m_SPIFFE : ptr SPIFFESpec;
  m_Helper : ptr HelperSpec_mem }.

Record OIDCShimStatus_mem := {
  m_Conditions : slice Condition_mem;
  m_ObservedGeneration : Z;
  m_MatchedPods : ptr Z }.

Record OIDCShim_mem := {
  n_TypeMeta : TypeMeta;
  n_ObjectMeta : ObjectMeta_mem;
  n_Spec : OIDCShimSpec_mem;
  n_Status : OIDCShimStatus_mem }.

Record OIDCShimList_mem := {
  nl_TypeMeta : TypeMeta;
  nl_ListMeta : ListMeta_mem;
  nl_Items : slice OIDCShim_mem }.

Record ClusterOIDCShimSpec_mem := {
  m_OIDCShimSpec : OIDCShimSpec_mem;
  m_ConfigMapNamespace : string }.

Record ClusterOIDCShim_mem := {
  c_TypeMeta : TypeMeta;
  c_ObjectMeta : ObjectMeta_mem;
  c_Spec : ClusterOIDCShimSpec_mem;
  c_Status : OIDCShimStatus_mem }.

Record ClusterOIDCShimList_mem := {
  cl_TypeMeta : TypeMeta;
  cl_ListMeta : ListMeta_mem;
  cl_Items : slice ClusterOIDCShim_mem }.

(** ** Cells *)

(** The types of which a cell can hold one value, or an array. *)
Inductive cell_type :=
| Tbool | Tint32 | Tstring
| TConfigMapKeySelector | TTokenSpec | TEnvVar | TFileSpec | TSPIFFESpec
| TEnrollmentSpec | TSelectionSpec | TParameterSource | TParameter | TInjectSpec | THelperSpec
| TOIDCShimSpec | TOIDCShimStatus | TOIDCShim | TOIDCShimList
| TClusterOIDCShimSpec | TClusterOIDCShim | TClusterOIDCShimList
| TLabelSelector | TResourceRequirements | TSecurityContext | TCondition
| Tlib
| Tarray (t : cell_type).
#[global] Instance cell_type_eq_dec : EqDecision cell_type.
Proof. solve_decision. Defined.

Fixpoint cell_value (t : cell_type) : Type :=
  match t with
  | Tbool => bool | Tint32 => Z | Tstring => string
  | TConfigMapKeySelector => ConfigMapKeySelector | TTokenSpec => TokenSpec
  | TEnvVar => EnvVarSpec | TFileSpec => FileSpec | TSPIFFESpec => SPIFFESpec
  | TEnrollmentSpec => EnrollmentSpec_mem | TSelectionSpec => SelectionSpec_mem
  | TParameterSource => ParameterSource_mem | TParameter => Parameter_mem
  | TInjectSpec => InjectSpec_mem | THelperSpec => HelperSpec_mem
  | TOIDCShimSpec => OIDCShimSpec_mem | TOIDCShimStatus => OIDCShimStatus_mem
  | TOIDCShim => OIDCShim_mem | TOIDCShimList => OIDCShimList_mem
  | TClusterOIDCShimSpec => ClusterOIDCShimSpec_mem
  | TClusterOIDCShim => ClusterOIDCShim_mem | TClusterOIDCShimList => ClusterOIDCShimList_mem
  | TLabelSelector => LabelSelector_mem | TResourceRequirements => ResourceRequirements_mem
  | TSecurityContext => SecurityContext_mem | TCondition => Condition_mem
  | Tlib => lib_cell
  | Tarray t => list (cell_value t)
  end.

Definition cell : Type := { t : cell_type & cell_value t }.

Definition cell_get (t : cell_type) (c : cell) : option (cell_value t) :=
  match decide (projT1 c = t) with
  | left e => Some (eq_rect _ cell_value (projT2 c) _ e)
  | right _ => None
  end.

Lemma cell_get_put t x : cell_get t (existT t x) = Some x.
Proof.
  unfold cell_get. simpl. destruct (decide (t = t)) as [e|]; [|done].
  by rewrite (Eqdep_dec.UIP_dec cell_type_eq_dec e eq_refl).
Qed.

Definition cell_storable (t : cell_type) : Storable cell (cell_value t) :=
  {| to_cell x := existT t x; of_cell := cell_get t; of_to_cell := cell_get_put t |}.

#[global] Instance bool_cell : Storable cell bool := cell_storable Tbool.
#[global] Instance int32_cell : Storable cell Z := cell_storable Tint32.
#[global] Instance string_cell : Storable cell string := cell_storable Tstring.
#[global] Instance ConfigMapKeySelector_cell : Storable cell ConfigMapKeySelector :=
  cell_storable TConfigMapKeySelector.
#[global] Instance TokenSpec_cell : Storable cell TokenSpec := cell_storable TTokenSpec.
#[global] Instance EnvVar_cell : Storable cell EnvVarSpec := cell_storable TEnvVar.
#[global] Instance FileSpec_cell : Storable cell FileSpec := cell_storable TFileSpec.
#[global] Instance SPIFFESpec_cell : Storable cell SPIFFESpec := cell_storable TSPIFFESpec.
#[global] Instance EnrollmentSpec_cell : Storable cell EnrollmentSpec_mem :=
  cell_storable TEnrollmentSpec.
#[global] Instance SelectionSpec_cell : Storable cell SelectionSpec_mem :=
  cell_storable TSelectionSpec.
#[global] Instance ParameterSource_cell : Storable cell ParameterSource_mem :=
  cell_storable TParameterSource.
#[global] Instance Parameter_cell : Storable cell Parameter_mem := cell_storable TParameter.
#[global] Instance InjectSpec_cell : Storable cell InjectSpec_mem := cell_storable TInjectSpec.
#[global] Instance HelperSpec_cell : Storable cell HelperSpec_mem := cell_storable THelperSpec.
#[global] Instance OIDCShimSpec_cell : Storable cell OIDCShimSpec_mem :=
  cell_storable TOIDCShimSpec.
#[global] Instance OIDCShimStatus_cell : Storable cell OIDCShimStatus_mem :=
  cell_storable TOIDCShimStatus.
#[global] Instance OIDCShim_cell : Storable cell OIDCShim_mem := cell_storable TOIDCShim.
#[global] Instance OIDCShimList_cell : Storable cell OIDCShimList_mem :=
  cell_storable TOIDCShimList.
#[global] Instance ClusterOIDCShimSpec_cell : Storable cell ClusterOIDCShimSpec_mem :=
  cell_storable TClusterOIDCShimSpec.
#[global] Instance ClusterOIDCShim_cell : Storable cell ClusterOIDCShim_mem :=
  cell_storable TClusterOIDCShim.
#[global] Instance ClusterOIDCShimList_cell : Storable cell ClusterOIDCShimList_mem :=
  cell_storable TClusterOIDCShimList.
#[global] Instance LabelSelector_cell : Storable cell LabelSelector_mem :=
  cell_storable TLabelSelector.
#[global] Instance ResourceRequirements_cell : Storable cell ResourceRequirements_mem :=
  cell_storable TResourceRequirements.
#[global] Instance SecurityContext_cell : Storable cell SecurityContext_mem :=
  cell_storable TSecurityContext.
#[global] Instance lib_cell_cell : Storable cell lib_cell := cell_storable Tlib.
#[global] Instance string_array : Storable cell (list string) := cell_storable (Tarray Tstring).
#[global] Instance EnvVar_array : Storable cell (list EnvVarSpec) := cell_storable (Tarray TEnvVar).
#[global] Instance FileSpec_array : Storable cell (list FileSpec) :=
  cell_storable (Tarray TFileSpec).
#[global] Instance Parameter_array : Storable cell (list Parameter_mem) :=
  cell_storable (Tarray TParameter).
#[global] Instance Condition_array : Storable cell (list Condition_mem) :=
  cell_storable (Tarray TCondition).
#[global] Instance OIDCShim_array : Storable cell (list OIDCShim_mem) :=
  cell_storable (Tarray TOIDCShim).
#[global] Instance ClusterOIDCShim_array : Storable cell (list ClusterOIDCShim_mem) :=
  cell_storable (Tarray TClusterOIDCShim).
End layouts.

(** ** Zero values *)

Section zeros.
Context `{LibLayouts}.
#[global] Instance ConfigMapKeySelector_zero : GoZero ConfigMapKeySelector :=
  Build_ConfigMapKeySelector zero zero.
#[global] Instance TokenSpec_zero : GoZero TokenSpec := Build_TokenSpec zero zero zero zero.
#[global] Instance EnvVar_zero : GoZero EnvVarSpec := Build_EnvVarSpec zero zero.
#[global] Instance FileSpec_zero : GoZero FileSpec := Build_FileSpec zero zero zero.
#[global] Instance SPIFFESpec_zero : GoZero SPIFFESpec := Build_SPIFFESpec zero zero zero.
#[global] Instance TypeMeta_zero : GoZero TypeMeta := Build_TypeMeta zero zero.
#[global] Instance EnrollmentSpec_zero : GoZero EnrollmentSpec_mem :=
  Build_EnrollmentSpec_mem zero zero zero.
#[global] Instance SelectionSpec_zero : GoZero SelectionSpec_mem :=
  Build_SelectionSpec_mem zero zero zero zero.
#[global] Instance ParameterSource_zero : GoZero ParameterSource_mem :=
  Build_ParameterSource_mem zero zero zero zero zero.
#[global] Instance Parameter_zero : GoZero Parameter_mem := Build_Parameter_mem zero zero zero zero.
#[global] Instance InjectSpec_zero : GoZero InjectSpec_mem := Build_InjectSpec_mem zero zero zero.
#[global] Instance HelperSpec_zero : GoZero HelperSpec_mem :=
  Build_HelperSpec_mem zero zero zero zero.
#[global] Instance OIDCShimSpec_zero : GoZero OIDCShimSpec_mem :=
  Build_OIDCShimSpec_mem zero zero zero zero zero zero zero zero zero.
#[global] Instance OIDCShimStatus_zero : GoZero OIDCShimStatus_mem :=
  Build_OIDCShimStatus_mem zero zero zero.
#[global] Instance OIDCShim_zero : GoZero OIDCShim_mem := Build_OIDCShim_mem zero zero zero zero.
#[global] Instance OIDCShimList_zero : GoZero OIDCShimList_mem :=
  Build_OIDCShimList_mem zero zero zero.
#[global] Instance ClusterOIDCShimSpec_zero : GoZero ClusterOIDCShimSpec_mem :=
  Build_ClusterOIDCShimSpec_mem zero zero.
#[global] Instance ClusterOIDCShim_zero : GoZero ClusterOIDCShim_mem :=
  Build_ClusterOIDCShim_mem zero zero zero zero.
#[global] Instance ClusterOIDCShimList_zero : GoZero ClusterOIDCShimList_mem :=
  Build_ClusterOIDCShimList_mem zero zero zero.
End zeros.

(** ** The third-party copies and their contract *)

Class LibCopies `{LibLayouts} := {
  View_LabelSelector :: View cell LabelSelector_mem LabelSelector;
  View_ResourceRequirements :: View cell ResourceRequirements_mem ResourceRequirements;
  View_SecurityContext :: View cell SecurityContext_mem SecurityContext;
  View_ObjectMeta :: View cell ObjectMeta_mem ObjectMeta;
  View_ListMeta :: View cell ListMeta_mem Fields;
  View_Condition :: View cell Condition_mem Condition;
  LabelSelector_DeepCopyInto : LabelSelector_mem → go cell LabelSelector_mem;
  ResourceRequirements_DeepCopyInto : ResourceRequirements_mem → go cell ResourceRequirements_mem;
  SecurityContext_DeepCopyInto : SecurityContext_mem → go cell SecurityContext_mem;
  ObjectMeta_DeepCopyInto : ObjectMeta_mem → go cell ObjectMeta_mem;
  ListMeta_DeepCopyInto : ListMeta_mem → go cell ListMeta_mem;
  Condition_DeepCopyInto : Condition_mem → go cell Condition_mem;
  LabelSelector_DeepCopyInto_ok : deep_copies LabelSelector_DeepCopyInto;
  ResourceRequirements_DeepCopyInto_ok : deep_copies ResourceRequirements_DeepCopyInto;
  SecurityContext_DeepCopyInto_ok : deep_copies SecurityContext_DeepCopyInto;
  ObjectMeta_DeepCopyInto_ok : deep_copies ObjectMeta_DeepCopyInto;
  ListMeta_DeepCopyInto_ok : deep_copies ListMeta_DeepCopyInto;
  Condition_DeepCopyInto_ok : deep_copies Condition_DeepCopyInto }.

(** The values the two list types denote. *)
Record OIDCShimList := {
  OSL_TypeMeta : TypeMeta;
  OSL_ListMeta : Fields;
  OSL_Items : list (TypeMeta * OIDCShim) }.
Record ClusterOIDCShimList := {
  COSL_TypeMeta : TypeMeta;
  COSL_ListMeta : Fields;
  COSL_Items : list (TypeMeta * ClusterOIDCShim) }.

(** ** The values layouts denote *)

(** Invert the reads of a struct's fields; redo them in a larger heap. *)
Ltac inv_reads H :=
  repeat (let x := fresh "a" in let Hx := fresh "Ha" in
          apply bind_Some in H; destruct H as (x & Hx & H)).
Ltac struct_mono :=
  let Hsub := fresh "Hsub" in let H := fresh "H" in
  intros ???? Hsub H; inv_reads H;
  repeat match goal with
  | Ha : view ?h ?m = Some ?a |- context [view ?h' ?m] =>
      rewrite (view_mono h h' m a Hsub Ha); cbn [mbind option_bind]; clear Ha
  end; exact H.

Section copies.
Context `{LibCopies}.

#[global] Instance View_bool : View cell bool bool := view_plain.
#[global] Instance View_int32 : View cell Z Z := view_plain.
#[global] Instance View_string : View cell string string := view_plain.
#[global] Instance View_ConfigMapKeySelector : View cell ConfigMapKeySelector ConfigMapKeySelector :=
  view_plain.
#[global] Instance View_TokenSpec : View cell TokenSpec TokenSpec := view_plain.
#[global] Instance View_EnvVar : View cell EnvVarSpec EnvVarSpec := view_plain.
#[global] Instance View_FileSpec : View cell FileSpec FileSpec := view_plain.
#[global] Instance View_SPIFFESpec : View cell SPIFFESpec SPIFFESpec := view_plain.

Definition view_EnrollmentSpec (h : heap cell) (m : EnrollmentSpec_mem) : option EnrollmentSpec :=
  namespaces ← view h (m_Namespaces m);
  serviceAccounts ← view h (m_ServiceAccounts m);
  pods ← view h (m_Pods m);
  Some (Build_EnrollmentSpec namespaces serviceAccounts pods).
#[global] Instance View_EnrollmentSpec : View cell EnrollmentSpec_mem EnrollmentSpec.
Proof. exists view_EnrollmentSpec. unfold view_EnrollmentSpec. struct_mono. Defined.

Definition view_SelectionSpec (h : heap cell) (m : SelectionSpec_mem) : option SelectionSpec :=
  enrollment ← view h (m_Enrollment m);
  namespaceSelector ← view h (m_NamespaceSelector m);
  serviceAccountSelector ← view h (m_ServiceAccountSelector m);
  podSelector ← view h (m_PodSelector m);
  Some (Build_SelectionSpec enrollment namespaceSelector serviceAccountSelector podSelector).
#[global] Instance View_SelectionSpec : View cell SelectionSpec_mem SelectionSpec.
Proof. exists view_SelectionSpec. unfold view_SelectionSpec. struct_mono. Defined.

Definition view_ParameterSource (h : heap cell) (m : ParameterSource_mem) : option ParameterSource :=
  static ← view h (m_Static m);
  configMapKeyRef ← view h (m_ConfigMapKeyRef m);
  Some (Build_ParameterSource static (m_Annotation m) (m_Label m) configMapKeyRef (m_Template m)).
#[global] Instance View_ParameterSource : View cell ParameterSource_mem ParameterSource.
Proof. exists view_ParameterSource. unfold view_ParameterSource. struct_mono. Defined.

Definition view_Parameter (h : heap cell) (m : Parameter_mem) : option ShimParameter :=
  valueFrom ← view h (m_ValueFrom m);
  default ← view h (m_Default m);
  Some (Build_ShimParameter (m_Name m) valueFrom default (m_Required m)).
#[global] Instance View_Parameter : View cell Parameter_mem ShimParameter.
Proof. exists view_Parameter. unfold view_Parameter. struct_mono. Defined.

Definition view_InjectSpec (h : heap cell) (m : InjectSpec_mem) : option InjectSpec :=
  env ← view h (m_Env m);
  files ← view h (m_Files m);
  containers ← view h (m_Containers m);
  Some (Build_InjectSpec env files containers).
#[global] Instance View_InjectSpec : View cell InjectSpec_mem InjectSpec.
Proof. exists view_InjectSpec. unfold view_InjectSpec. struct_mono. Defined.

Definition view_HelperSpec (h : heap cell) (m : HelperSpec_mem) : option HelperSpec :=
  resources ← view h (m_Resources m);
  securityContext ← view h (m_SecurityContext m);
  Some (Build_HelperSpec (m_Image m) (m_ImagePullPolicy m) resources securityContext).
#[global] Instance View_HelperSpec : View cell HelperSpec_mem HelperSpec.
Proof. exists view_HelperSpec. unfold view_HelperSpec. struct_mono. Defined.

Definition view_OIDCShimSpec (h : heap cell) (m : OIDCShimSpec_mem) : option OIDCShimSpec :=
  selection ← view h (m_Selection m);
  parameters ← view h (m_Parameters m);
  extraAudiences ← view h (m_ExtraAudiences m);
  inject ← view h (m_Inject m);
  spiffe ← view h (m_SPIFFE m);
  helper ← view h (m_Helper m);
  Some (Build_OIDCShimSpec (m_Provider m) selection parameters (m_Audience m) extraAudiences (m_Token m) inject spiffe helper).
#[global] Instance View_OIDCShimSpec : View cell OIDCShimSpec_mem OIDCShimSpec.
Proof. exists view_OIDCShimSpec. unfold view_OIDCShimSpec. struct_mono. Defined.

Definition view_OIDCShimStatus (h : heap cell) (m : OIDCShimStatus_mem) : option OIDCShimStatus :=
  conditions ← view h (m_Conditions m);
  matchedPods ← view h (m_MatchedPods m);
  Some (Build_OIDCShimStatus conditions (m_ObservedGeneration m) matchedPods).
#[global] Instance View_OIDCShimStatus : View cell OIDCShimStatus_mem OIDCShimStatus.
Proof. exists view_OIDCShimStatus. unfold view_OIDCShimStatus. struct_mono. Defined.

Definition view_OIDCShim (h : heap cell) (m : OIDCShim_mem) : option (TypeMeta * OIDCShim) :=
  objectMeta ← view h (n_ObjectMeta m);
  spec ← view h (n_Spec m);
  status ← view h (n_Status m);
  Some (n_TypeMeta m, Build_OIDCShim objectMeta spec status).
#[global] Instance View_OIDCShim : View cell OIDCShim_mem (TypeMeta * OIDCShim).
Proof. exists view_OIDCShim. unfold view_OIDCShim. struct_mono. Defined.

Definition view_OIDCShimList (h : heap cell) (m : OIDCShimList_mem) : option OIDCShimList :=
  listMeta ← view h (nl_ListMeta m);
  items ← view h (nl_Items m);
  Some (Build_OIDCShimList (nl_TypeMeta m) listMeta items).
#[global] Instance View_OIDCShimList : View cell OIDCShimList_mem OIDCShimList.
Proof. exists view_OIDCShimList. unfold view_OIDCShimList. struct_mono. Defined.

Definition view_ClusterOIDCShimSpec (h : heap cell) (m : ClusterOIDCShimSpec_mem) : option ClusterOIDCShimSpec :=
  spec ← view h (m_OIDCShimSpec m);
  Some (Build_ClusterOIDCShimSpec spec (m_ConfigMapNamespace m)).
#[global] Instance View_ClusterOIDCShimSpec : View cell ClusterOIDCShimSpec_mem ClusterOIDCShimSpec.
Proof. exists view_ClusterOIDCShimSpec. unfold view_ClusterOIDCShimSpec. struct_mono. Defined.

Definition view_ClusterOIDCShim (h : heap cell) (m : ClusterOIDCShim_mem) : option (TypeMeta * ClusterOIDCShim) :=
  objectMeta ← view h (c_ObjectMeta m);
  spec ← view h (c_Spec m);
  status ← view h (c_Status m);
  Some (c_TypeMeta m, Build_ClusterOIDCShim objectMeta spec status).
#[global] Instance View_ClusterOIDCShim : View cell ClusterOIDCShim_mem (TypeMeta * ClusterOIDCShim).
Proof. exists view_ClusterOIDCShim. unfold view_ClusterOIDCShim. struct_mono. Defined.

Definition view_ClusterOIDCShimList (h : heap cell) (m : ClusterOIDCShimList_mem) : option ClusterOIDCShimList :=
  listMeta ← view h (cl_ListMeta m);
  items ← view h (cl_Items m);
  Some (Build_ClusterOIDCShimList (cl_TypeMeta m) listMeta items).
#[global] Instance View_ClusterOIDCShimList : View cell ClusterOIDCShimList_mem ClusterOIDCShimList.
Proof. exists view_ClusterOIDCShimList. unfold view_ClusterOIDCShimList. struct_mono. Defined.

(** ** DeepCopyInto *)

(** Structs without pointers: [*out = *in] is all. *)
Definition ConfigMapKeySelector_DeepCopyInto (in_ : ConfigMapKeySelector) : go cell ConfigMapKeySelector :=
  copy_plain in_.
Definition EnvVar_DeepCopyInto (in_ : EnvVarSpec) : go cell EnvVarSpec := copy_plain in_.
Definition FileSpec_DeepCopyInto (in_ : FileSpec) : go cell FileSpec := copy_plain in_.
Definition SPIFFESpec_DeepCopyInto (in_ : SPIFFESpec) : go cell SPIFFESpec := copy_plain in_.
Definition TokenSpec_DeepCopyInto (in_ : TokenSpec) : go cell TokenSpec := copy_plain in_.

Definition EnrollmentSpec_DeepCopyInto (in_ : EnrollmentSpec_mem) : go cell EnrollmentSpec_mem :=
  namespaces ← copy_ptr copy_plain (m_Namespaces in_);
  serviceAccounts ← copy_ptr copy_plain (m_ServiceAccounts in_);
  pods ← copy_ptr copy_plain (m_Pods in_);
  mret {| m_Namespaces := namespaces; m_ServiceAccounts := serviceAccounts; m_Pods := pods |}.

Definition SelectionSpec_DeepCopyInto (in_ : SelectionSpec_mem) : go cell SelectionSpec_mem :=
  enrollment ← copy_ptr EnrollmentSpec_DeepCopyInto (m_Enrollment in_);
  namespaceSelector ← copy_ptr LabelSelector_DeepCopyInto (m_NamespaceSelector in_);
  serviceAccountSelector ← copy_ptr LabelSelector_DeepCopyInto (m_ServiceAccountSelector in_);
  podSelector ← copy_ptr LabelSelector_DeepCopyInto (m_PodSelector in_);
  mret {| m_Enrollment := enrollment; m_NamespaceSelector := namespaceSelector;
          m_ServiceAccountSelector := serviceAccountSelector; m_PodSelector := podSelector |}.

Definition ParameterSource_DeepCopyInto (in_ : ParameterSource_mem) : go cell ParameterSource_mem :=
  static ← copy_ptr copy_plain (m_Static in_);
  configMapKeyRef ← copy_ptr copy_plain (m_ConfigMapKeyRef in_);
  mret {| m_Static := static; m_Annotation := m_Annotation in_; m_Label := m_Label in_;
          m_ConfigMapKeyRef := configMapKeyRef; m_Template := m_Template in_ |}.

Definition Parameter_DeepCopyInto (in_ : Parameter_mem) : go cell Parameter_mem :=
  valueFrom ← ParameterSource_DeepCopyInto (m_ValueFrom in_);
  default ← copy_ptr copy_plain (m_Default in_);
  mret {| m_Name := m_Name in_; m_ValueFrom := valueFrom; m_Default := default;
          m_Required := m_Required in_ |}.

Definition InjectSpec_DeepCopyInto (in_ : InjectSpec_mem) : go cell InjectSpec_mem :=
  env ← copy_slice_plain (m_Env in_);
  files ← copy_slice_plain (m_Files in_);
  containers ← copy_slice_plain (m_Containers in_);
  mret {| m_Env := env; m_Files := files; m_Containers := containers |}.

Definition HelperSpec_DeepCopyInto (in_ : HelperSpec_mem) : go cell HelperSpec_mem :=
  resources ← copy_ptr ResourceRequirements_DeepCopyInto (m_Resources in_);
  securityContext ← copy_ptr SecurityContext_DeepCopyInto (m_SecurityContext in_);
  mret {| m_Image := m_Image in_; m_ImagePullPolicy := m_ImagePullPolicy in_;
          m_Resources := resources; m_SecurityContext := securityContext |}.

Definition OIDCShimSpec_DeepCopyInto (in_ : OIDCShimSpec_mem) : go cell OIDCShimSpec_mem :=
  selection ← SelectionSpec_DeepCopyInto (m_Selection in_);
  parameters ← copy_slice Parameter_DeepCopyInto (m_Parameters in_);
  extraAudiences ← copy_slice_plain (m_ExtraAudiences in_);
  inject ← InjectSpec_DeepCopyInto (m_Inject in_);
  spiffe ← copy_ptr copy_plain (m_SPIFFE in_);
  helper ← copy_ptr HelperSpec_DeepCopyInto (m_Helper in_);
  mret {| m_Provider := m_Provider in_; m_Selection := selection; m_Parameters := parameters;
          m_Audience := m_Audience in_; m_ExtraAudiences := extraAudiences;
          m_Token := m_Token in_; m_Inject := inject; m_SPIFFE := spiffe; m_Helper := helper |}.

Definition OIDCShimStatus_DeepCopyInto (in_ : OIDCShimStatus_mem) : go cell OIDCShimStatus_mem :=
  conditions ← copy_slice Condition_DeepCopyInto (m_Conditions in_);
  matchedPods ← copy_ptr copy_plain (m_MatchedPods in_);
  mret {| m_Conditions := conditions; m_ObservedGeneration := m_ObservedGeneration in_;
          m_MatchedPods := matchedPods |}.

Definition OIDCShim_DeepCopyInto (in_ : OIDCShim_mem) : go cell OIDCShim_mem :=
  meta ← ObjectMeta_DeepCopyInto (n_ObjectMeta in_);
  spec ← OIDCShimSpec_DeepCopyInto (n_Spec in_);
  status ← OIDCShimStatus_DeepCopyInto (n_Status in_);
  mret {| n_TypeMeta := n_TypeMeta in_; n_ObjectMeta := meta; n_Spec := spec; n_Status := status |}.

Definition OIDCShimList_DeepCopyInto (in_ : OIDCShimList_mem) : go cell OIDCShimList_mem :=
  meta ← ListMeta_DeepCopyInto (nl_ListMeta in_);
  items ← copy_slice OIDCShim_DeepCopyInto (nl_Items in_);
  mret {| nl_TypeMeta := nl_TypeMeta in_; nl_ListMeta := meta; nl_Items := items |}.

Definition ClusterOIDCShimSpec_DeepCopyInto (in_ : ClusterOIDCShimSpec_mem)
    : go cell ClusterOIDCShimSpec_mem :=
  spec ← OIDCShimSpec_DeepCopyInto (m_OIDCShimSpec in_);
  mret {| m_OIDCShimSpec := spec; m_ConfigMapNamespace := m_ConfigMapNamespace in_ |}.

Definition ClusterOIDCShim_DeepCopyInto (in_ : ClusterOIDCShim_mem) : go cell ClusterOIDCShim_mem :=
  meta ← ObjectMeta_DeepCopyInto (c_ObjectMeta in_);
  spec ← ClusterOIDCShimSpec_DeepCopyInto (c_Spec in_);
  status ← OIDCShimStatus_DeepCopyInto (c_Status in_);
  mret {| c_TypeMeta := c_TypeMeta in_; c_ObjectMeta := meta; c_Spec := spec; c_Status := status |}.

Definition ClusterOIDCShimList_DeepCopyInto (in_ : ClusterOIDCShimList_mem)
    : go cell ClusterOIDCShimList_mem :=
  meta ← ListMeta_DeepCopyInto (cl_ListMeta in_);
  items ← copy_slice ClusterOIDCShim_DeepCopyInto (cl_Items in_);
  mret {| cl_TypeMeta := cl_TypeMeta in_; cl_ListMeta := meta; cl_Items := items |}.

(** ** DeepCopy

    [if in == nil { return nil }; out := new(T); in.DeepCopyInto(out); return out] *)

Definition ClusterOIDCShim_DeepCopy (in_ : ptr ClusterOIDCShim_mem) : go cell (ptr ClusterOIDCShim_mem) :=
  copy_ptr ClusterOIDCShim_DeepCopyInto in_.
Definition ClusterOIDCShimList_DeepCopy (in_ : ptr ClusterOIDCShimList_mem) : go cell (ptr ClusterOIDCShimList_mem) :=
  copy_ptr ClusterOIDCShimList_DeepCopyInto in_.
Definition ClusterOIDCShimSpec_DeepCopy (in_ : ptr ClusterOIDCShimSpec_mem) : go cell (ptr ClusterOIDCShimSpec_mem) :=
  copy_ptr ClusterOIDCShimSpec_DeepCopyInto in_.
Definition ConfigMapKeySelector_DeepCopy (in_ : ptr ConfigMapKeySelector) : go cell (ptr ConfigMapKeySelector) :=
  copy_ptr ConfigMapKeySelector_DeepCopyInto in_.
Definition EnrollmentSpec_DeepCopy (in_ : ptr EnrollmentSpec_mem) : go cell (ptr EnrollmentSpec_mem) :=
  copy_ptr EnrollmentSpec_DeepCopyInto in_.
Definition EnvVar_DeepCopy (in_ : ptr EnvVarSpec) : go cell (ptr EnvVarSpec) :=
  copy_ptr EnvVar_DeepCopyInto in_.
Definition FileSpec_DeepCopy (in_ : ptr FileSpec) : go cell (ptr FileSpec) :=
  copy_ptr FileSpec_DeepCopyInto in_.
Definition HelperSpec_DeepCopy (in_ : ptr HelperSpec_mem) : go cell (ptr HelperSpec_mem) :=
  copy_ptr HelperSpec_DeepCopyInto in_.
Definition InjectSpec_DeepCopy (in_ : ptr InjectSpec_mem) : go cell (ptr InjectSpec_mem) :=
  copy_ptr InjectSpec_DeepCopyInto in_.
Definition OIDCShim_DeepCopy (in_ : ptr OIDCShim_mem) : go cell (ptr OIDCShim_mem) :=
  copy_ptr OIDCShim_DeepCopyInto in_.
Definition OIDCShimList_DeepCopy (in_ : ptr OIDCShimList_mem) : go cell (ptr OIDCShimList_mem) :=
  copy_ptr OIDCShimList_DeepCopyInto in_.
Definition OIDCShimSpec_DeepCopy (in_ : ptr OIDCShimSpec_mem) : go cell (ptr OIDCShimSpec_mem) :=
  copy_ptr OIDCShimSpec_DeepCopyInto in_.
Definition OIDCShimStatus_DeepCopy (in_ : ptr OIDCShimStatus_mem) : go cell (ptr OIDCShimStatus_mem) :=
  copy_ptr OIDCShimStatus_DeepCopyInto in_.
Definition Parameter_DeepCopy (in_ : ptr Parameter_mem) : go cell (ptr Parameter_mem) :=
  copy_ptr Parameter_DeepCopyInto in_.
Definition ParameterSource_DeepCopy (in_ : ptr ParameterSource_mem) : go cell (ptr ParameterSource_mem) :=
  copy_ptr ParameterSource_DeepCopyInto in_.
Definition SPIFFESpec_DeepCopy (in_ : ptr SPIFFESpec) : go cell (ptr SPIFFESpec) :=
  copy_ptr SPIFFESpec_DeepCopyInto in_.
Definition SelectionSpec_DeepCopy (in_ : ptr SelectionSpec_mem) : go cell (ptr SelectionSpec_mem) :=
  copy_ptr SelectionSpec_DeepCopyInto in_.
Definition TokenSpec_DeepCopy (in_ : ptr TokenSpec) : go cell (ptr TokenSpec) :=
  copy_ptr TokenSpec_DeepCopyInto in_.

(** ** DeepCopyObject *)

(** A [runtime.Object]: the nil interface is [None]; an interface that holds a nil pointer is
    not nil. *)
Inductive Object :=
| Object_OIDCShim (p : ptr OIDCShim_mem)
| Object_OIDCShimList (p : ptr OIDCShimList_mem)
| Object_ClusterOIDCShim (p : ptr ClusterOIDCShim_mem)
| Object_ClusterOIDCShimList (p : ptr ClusterOIDCShimList_mem).

Definition to_object {T} (mk : ptr T → Object) (c : ptr T) : option Object :=
  match c with nil_ptr => None | Ptr _ => Some (mk c) end.

Definition OIDCShim_DeepCopyObject (in_ : ptr OIDCShim_mem) : go cell (option Object) :=
  c ← OIDCShim_DeepCopy in_; mret (to_object Object_OIDCShim c).
Definition OIDCShimList_DeepCopyObject (in_ : ptr OIDCShimList_mem) : go cell (option Object) :=
  c ← OIDCShimList_DeepCopy in_; mret (to_object Object_OIDCShimList c).
Definition ClusterOIDCShim_DeepCopyObject (in_ : ptr ClusterOIDCShim_mem) : go cell (option Object) :=
  c ← ClusterOIDCShim_DeepCopy in_; mret (to_object Object_ClusterOIDCShim c).
Definition ClusterOIDCShimList_DeepCopyObject (in_ : ptr ClusterOIDCShimList_mem)
    : go cell (option Object) :=
  c ← ClusterOIDCShimList_DeepCopy in_; mret (to_object Object_ClusterOIDCShimList c).

End copies.

(** ** Every copy keeps the contract *)

Create HintDb deepcopy discriminated.
#[export] Hint Resolve LabelSelector_DeepCopyInto_ok ResourceRequirements_DeepCopyInto_ok
  SecurityContext_DeepCopyInto_ok ObjectMeta_DeepCopyInto_ok ListMeta_DeepCopyInto_ok
  Condition_DeepCopyInto_ok copy_ptr_deep_copies copy_slice_deep_copies : deepcopy.
#[export] Hint Extern 1 (deep_copies copy_plain) => apply copy_plain_deep_copies : deepcopy.
#[export] Hint Extern 1 (deep_copies copy_slice_plain) => apply copy_slice_plain_deep_copies : deepcopy.

(** A struct: copy the fields one after the other, then read them back from the added
    cells. *)
Ltac copy_field :=
  eapply adds_copy; [by eauto with deepcopy|eassumption|sub_union|intros ? ? ? ?].
Tactic Notation "struct_deep_copies" reference(inst) reference(read) reference(copy) :=
  let Hv := fresh "Hv" in
  apply deep_copies_intro; intros ? ? ? Hv; unfold view, inst at 1 in Hv; unfold read in Hv;
  inv_reads Hv; injection Hv as <-;
  unfold copy; repeat copy_field; apply adds_ret; unfold view, inst at 1; unfold read; simpl;
  repeat match goal with
  | Ha : view ?h ?m = Some ?a |- context [view ?h' ?m] =>
      rewrite (view_mono h h' m a ltac:(sub_union) Ha); simpl
  end; reflexivity.

Section contracts.
Context `{LibCopies}.

Lemma EnrollmentSpec_DeepCopyInto_ok : deep_copies EnrollmentSpec_DeepCopyInto.
Proof. struct_deep_copies View_EnrollmentSpec view_EnrollmentSpec EnrollmentSpec_DeepCopyInto. Qed.
Hint Resolve EnrollmentSpec_DeepCopyInto_ok : deepcopy.

Lemma SelectionSpec_DeepCopyInto_ok : deep_copies SelectionSpec_DeepCopyInto.
Proof. struct_deep_copies View_SelectionSpec view_SelectionSpec SelectionSpec_DeepCopyInto. Qed.
Hint Resolve SelectionSpec_DeepCopyInto_ok : deepcopy.

Lemma ParameterSource_DeepCopyInto_ok : deep_copies ParameterSource_DeepCopyInto.
Proof. struct_deep_copies View_ParameterSource view_ParameterSource ParameterSource_DeepCopyInto. Qed.
Hint Resolve ParameterSource_DeepCopyInto_ok : deepcopy.

Lemma Parameter_DeepCopyInto_ok : deep_copies Parameter_DeepCopyInto.
Proof. struct_deep_copies View_Parameter view_Parameter Parameter_DeepCopyInto. Qed.
Hint Resolve Parameter_DeepCopyInto_ok : deepcopy.

Lemma InjectSpec_DeepCopyInto_ok : deep_copies InjectSpec_DeepCopyInto.
Proof. struct_deep_copies View_InjectSpec view_InjectSpec InjectSpec_DeepCopyInto. Qed.
Hint Resolve InjectSpec_DeepCopyInto_ok : deepcopy.

Lemma HelperSpec_DeepCopyInto_ok : deep_copies HelperSpec_DeepCopyInto.
Proof. struct_deep_copies View_HelperSpec view_HelperSpec HelperSpec_DeepCopyInto. Qed.
Hint Resolve HelperSpec_DeepCopyInto_ok : deepcopy.

Lemma OIDCShimSpec_DeepCopyInto_ok : deep_copies OIDCShimSpec_DeepCopyInto.
Proof. struct_deep_copies View_OIDCShimSpec view_OIDCShimSpec OIDCShimSpec_DeepCopyInto. Qed.
Hint Resolve OIDCShimSpec_DeepCopyInto_ok : deepcopy.

Lemma OIDCShimStatus_DeepCopyInto_ok : deep_copies OIDCShimStatus_DeepCopyInto.
Proof. struct_deep_copies View_OIDCShimStatus view_OIDCShimStatus OIDCShimStatus_DeepCopyInto. Qed.
Hint Resolve OIDCShimStatus_DeepCopyInto_ok : deepcopy.

Lemma OIDCShim_DeepCopyInto_ok : deep_copies OIDCShim_DeepCopyInto.
Proof. struct_deep_copies View_OIDCShim view_OIDCShim OIDCShim_DeepCopyInto. Qed.
Hint Resolve OIDCShim_DeepCopyInto_ok : deepcopy.

Lemma OIDCShimList_DeepCopyInto_ok : deep_copies OIDCShimList_DeepCopyInto.
Proof. struct_deep_copies View_OIDCShimList view_OIDCShimList OIDCShimList_DeepCopyInto. Qed.
Hint Resolve OIDCShimList_DeepCopyInto_ok : deepcopy.

Lemma ClusterOIDCShimSpec_DeepCopyInto_ok : deep_copies ClusterOIDCShimSpec_DeepCopyInto.
Proof. struct_deep_copies View_ClusterOIDCShimSpec view_ClusterOIDCShimSpec ClusterOIDCShimSpec_DeepCopyInto. Qed.
Hint Resolve ClusterOIDCShimSpec_DeepCopyInto_ok : deepcopy.

Lemma ClusterOIDCShim_DeepCopyInto_ok : deep_copies ClusterOIDCShim_DeepCopyInto.
Proof. struct_deep_copies View_ClusterOIDCShim view_ClusterOIDCShim ClusterOIDCShim_DeepCopyInto. Qed.
Hint Resolve ClusterOIDCShim_DeepCopyInto_ok : deepcopy.

Lemma ClusterOIDCShimList_DeepCopyInto_ok : deep_copies ClusterOIDCShimList_DeepCopyInto.
Proof. struct_deep_copies View_ClusterOIDCShimList view_ClusterOIDCShimList ClusterOIDCShimList_DeepCopyInto. Qed.
Hint Resolve ClusterOIDCShimList_DeepCopyInto_ok : deepcopy.

(** ** The generated functions, together *)

(** [generated copy]: [copy] is the [DeepCopy] of one of the API types. *)
Inductive generated : ∀ {T A} `{Storable cell T} `{View cell T A}, (ptr T → go cell (ptr T)) → Prop :=
| gen_ClusterOIDCShim : generated ClusterOIDCShim_DeepCopy
| gen_ClusterOIDCShimList : generated ClusterOIDCShimList_DeepCopy
| gen_ClusterOIDCShimSpec : generated ClusterOIDCShimSpec_DeepCopy
| gen_ConfigMapKeySelector : generated ConfigMapKeySelector_DeepCopy
| gen_EnrollmentSpec : generated EnrollmentSpec_DeepCopy
| gen_EnvVar : generated EnvVar_DeepCopy
| gen_FileSpec : generated FileSpec_DeepCopy
| gen_HelperSpec : generated HelperSpec_DeepCopy
| gen_InjectSpec : generated InjectSpec_DeepCopy
| gen_OIDCShim : generated OIDCShim_DeepCopy
| gen_OIDCShimList : generated OIDCShimList_DeepCopy
| gen_OIDCShimSpec : generated OIDCShimSpec_DeepCopy
| gen_OIDCShimStatus : generated OIDCShimStatus_DeepCopy
| gen_Parameter : generated Parameter_DeepCopy
| gen_ParameterSource : generated ParameterSource_DeepCopy
| gen_SPIFFESpec : generated SPIFFESpec_DeepCopy
| gen_SelectionSpec : generated SelectionSpec_DeepCopy
| gen_TokenSpec : generated TokenSpec_DeepCopy.

Lemma generated_deep_copies {T A} `{Storable cell T} `{!View cell T A} (copy : ptr T → go cell (ptr T)) :
  generated copy → deep_copies copy.
Proof.
  destruct 1; unfold ClusterOIDCShim_DeepCopy, ClusterOIDCShimList_DeepCopy,
    ClusterOIDCShimSpec_DeepCopy, ConfigMapKeySelector_DeepCopy, EnrollmentSpec_DeepCopy,
    EnvVar_DeepCopy, FileSpec_DeepCopy, HelperSpec_DeepCopy, InjectSpec_DeepCopy,
    OIDCShim_DeepCopy, OIDCShimList_DeepCopy, OIDCShimSpec_DeepCopy, OIDCShimStatus_DeepCopy,
    Parameter_DeepCopy, ParameterSource_DeepCopy, SPIFFESpec_DeepCopy, SelectionSpec_DeepCopy,
    TokenSpec_DeepCopy; apply copy_ptr_deep_copies;
    first [apply copy_plain_deep_copies | eauto with deepcopy].
Qed.

(** C20. Every [DeepCopy] is the identity on values: nil gives nil, and a pointer to an object gives a
    pointer to a new object that denotes the same value, without changing a cell that existed
    before. *)
Theorem deep_copy_same_value {T A} `{Storable cell T} `{!View cell T A}
    (copy : ptr T → go cell (ptr T)) h p a :
  generated copy → view h p = Some a →
  ∃ p' hn, copy p h = Some (p', h ∪ hn) ∧ h ##ₘ hn
    ∧ view (h ∪ hn) p' = Some a ∧ view (h ∪ hn) p = Some a
    ∧ (p' = nil_ptr ↔ p = nil_ptr).
Proof.
  intros Hg Ha. destruct (generated_deep_copies _ Hg h p a Ha) as (p' & hn & Hrun & Hd & Hv).
  exists p', hn. split_and!; [done|done| | |].
  - eapply view_mono; [|exact Hv]. by apply map_union_subseteq_r.
  - eapply view_mono; [|exact Ha]. apply map_union_subseteq_l.
  - split; intros ->.
    + destruct p as [|l]; [done|]. apply view_Ptr in Ha as (x & b & -> & _). by injection Hv.
    + injection Ha as <-. destruct p' as [|l']; [done|]. by apply view_Ptr in Hv as (? & ? & ? & _).
Qed.

(** C19. Copy and original do not share memory: whatever is later written to cells that existed
    before the copy, the copy denotes the value it was made from; and whatever is written to
    the cells the copy added, the original denotes what it did. *)
Theorem deep_copy_isolated {T A} `{Storable cell T} `{!View cell T A}
    (copy : ptr T → go cell (ptr T)) h p a p' h' :
  generated copy → view h p = Some a → copy p h = Some (p', h') →
  ∀ h2,
  ((∀ l, (l ∉ dom h) → h2 !! l = h' !! l) → view h2 p' = Some a)
  ∧ ((∀ l, l ∈ dom h → h2 !! l = h' !! l) → view h2 p = Some a).
Proof.
  intros Hg Ha Hrun h2.
  destruct (generated_deep_copies _ Hg h p a Ha) as (p1 & hn & Hrun1 & Hd & Hv). simplify_eq.
  split; intros Hsame.
  - eapply view_mono; [|exact Hv]. apply map_subseteq_spec. intros l v Hl.
    rewrite Hsame; [by apply lookup_union_Some_r|].
    apply not_elem_of_dom. by eapply map_disjoint_Some_r.
  - eapply view_mono; [|exact Ha]. apply map_subseteq_spec. intros l v Hl.
    rewrite Hsame; [|by apply elem_of_dom_2 in Hl]. by apply lookup_union_Some_l.
Qed.

(** The [DeepCopyObject] that belongs to a [DeepCopy], and the type its result carries. *)
Inductive generated_object : ∀ {T}, (ptr T → go cell (ptr T)) → (ptr T → go cell (option Object)) →
    (ptr T → Object) → Prop :=
| gen_object_OIDCShim :
    generated_object OIDCShim_DeepCopy OIDCShim_DeepCopyObject Object_OIDCShim
| gen_object_OIDCShimList :
    generated_object OIDCShimList_DeepCopy OIDCShimList_DeepCopyObject Object_OIDCShimList
| gen_object_ClusterOIDCShim :
    generated_object ClusterOIDCShim_DeepCopy ClusterOIDCShim_DeepCopyObject Object_ClusterOIDCShim
| gen_object_ClusterOIDCShimList :
    generated_object ClusterOIDCShimList_DeepCopy ClusterOIDCShimList_DeepCopyObject
      Object_ClusterOIDCShimList.

Lemma generated_object_eq {T} (copy : ptr T → go cell (ptr T)) copyObject mk p :
  generated_object copy copyObject mk → copyObject p = (c ← copy p; mret (to_object mk c)).
Proof. by destruct 1. Qed.

(** C36. [DeepCopyObject] of a nil pointer is the nil interface, never an interface that holds a nil
    pointer; otherwise it is an object of the receiver's type that denotes the receiver's
    value in memory of its own. *)
Theorem deep_copy_object_typed {T A} `{Storable cell T} `{!View cell T A}
    (copy : ptr T → go cell (ptr T)) copyObject mk h p a :
  generated copy → generated_object copy copyObject mk → view h p = Some a →
  ∃ o h', copyObject p h = Some (o, h') ∧ h ⊆ h'
    ∧ (p = nil_ptr → o = None)
    ∧ (p ≠ nil_ptr → ∃ l, o = Some (mk (Ptr l)) ∧ h !! l = None
                          ∧ view h' (Ptr l : ptr T) = Some a).
Proof.
  intros Hg Ho Ha. rewrite (generated_object_eq _ _ _ _ Ho).
  destruct (generated_deep_copies _ Hg h p a Ha) as (p' & hn & Hrun & Hd & Hv).
  exists (to_object mk p'), (h ∪ hn). rewrite (go_bind_step _ _ _ _ _ Hrun).
  assert (Hsub : hn ⊆ h ∪ hn) by by apply map_union_subseteq_r.
  split_and!; [done|apply map_union_subseteq_l| |].
  - intros ->. injection Ha as <-. destruct p' as [|l']; [done|].
    by apply view_Ptr in Hv as (? & ? & ? & _).
  - intros Hp. destruct p as [|l]; [done|]. apply view_Ptr in Ha as (x & b & -> & _).
    destruct p' as [|l']; [done|]. exists l'. split_and!; [done| |by eapply view_mono].
    apply view_Ptr in Hv as (y & ? & _ & Hy & _).
    destruct (lookup_cell_dom _ _ _ Hy) as [v Hl]. by eapply map_disjoint_Some_r.
Qed.
End contracts.

(** ** Concrete library layouts and an object in memory *)

(** A label selector keeps its labels in a map that is a cell of its own; the other structs
    are laid out flat. *)
Definition flat_layouts : LibLayouts :=
  {| LabelSelector_mem := ptr (gmap string string) * list LabelSelectorRequirement;
     ResourceRequirements_mem := Fields;
     SecurityContext_mem := SecurityContext;
     ObjectMeta_mem := ObjectMeta;
     ListMeta_mem := Fields;
     Condition_mem := Condition;
     lib_cell := gmap string string;
     LabelSelector_zero := (nil_ptr, []);
     ResourceRequirements_zero := [];
     SecurityContext_zero := Build_SecurityContext None None None None None [];
     ObjectMeta_zero := Build_ObjectMeta "" "" 0;
     ListMeta_zero := [];
     Condition_zero := Build_Condition "" "" 0 0 "" "" |}.

Section flat.
Local Existing Instance flat_layouts.

Definition labels_view : View (@cell flat_layouts) (gmap string string) (gmap string string) :=
  view_plain.
Definition labels_cell : Storable (@cell flat_layouts) (gmap string string) := lib_cell_cell.
Local Existing Instances labels_view labels_cell.

Definition view_selector (h : heap (@cell flat_layouts)) (m : LabelSelector_mem) : option LabelSelector :=
  labels ← view h m.1; Some {| MatchLabels := default ∅ labels; MatchExpressions := m.2 |}.
Definition selector_view : View (@cell flat_layouts) LabelSelector_mem LabelSelector.
Proof. exists view_selector. unfold view_selector. struct_mono. Defined.

Definition copy_selector (in_ : LabelSelector_mem) : go (@cell flat_layouts) LabelSelector_mem :=
  labels ← copy_ptr (H0 := (∅ : gmap string string)) copy_plain in_.1; mret (labels, in_.2).

Lemma copy_selector_ok : deep_copies (H := selector_view) copy_selector.
Proof.
  intros h m a (labels & Hl & [= <-])%bind_Some.
  refine (adds_copy _ _ _ _ _ _ (λ m' hn, view_selector hn m' = _) _ Hl _ _).
  - apply copy_ptr_deep_copies, copy_plain_deep_copies.
  - done.
  - intros m' hn _ Hv. apply adds_ret. unfold view_selector. simpl.
    by rewrite (right_id_L ∅ (∪)), Hv.
Qed.

Definition flat_copies : LibCopies.
Proof.
  refine {| View_LabelSelector := selector_view; View_ResourceRequirements := view_plain;
            View_SecurityContext := view_plain; View_ObjectMeta := view_plain;
            View_ListMeta := view_plain; View_Condition := view_plain;
            LabelSelector_DeepCopyInto := copy_selector;
            ResourceRequirements_DeepCopyInto := copy_plain;
            SecurityContext_DeepCopyInto := copy_plain; ObjectMeta_DeepCopyInto := copy_plain;
            ListMeta_DeepCopyInto := copy_plain; Condition_DeepCopyInto := copy_plain |};
    [apply copy_selector_ok|apply copy_plain_deep_copies..].
Defined.
Local Existing Instance flat_copies.

(** A shim with a stale Ready condition (cell 2), a count (3), a parameter (4) with a default
    (5), a pod selector (6) with its labels (7), and an environment variable (8), which shares
    its array with nothing but has room for one more. *)
Definition stale_condition : Condition :=
  {| Cond_Type := ConditionReady; Cond_Status := ConditionFalse; Cond_ObservedGeneration := 1;
     Cond_LastTransitionTime := 11; Cond_Reason := ReasonInvalidSpec; Cond_Message := "bad" |}.

Definition stored_shim : OIDCShim_mem :=
  {| n_TypeMeta := {| Kind := "OIDCShim"; APIVersion := "oidcshim.kemo.dev/v1alpha1" |};
     n_ObjectMeta := {| Meta_Name := "gcp"; Meta_Namespace := "my-app"; Meta_Generation := 2 |};
     n_Spec := {| m_Provider := "google";
                  m_Selection := {| m_Enrollment := nil_ptr; m_NamespaceSelector := nil_ptr;
                                    m_ServiceAccountSelector := nil_ptr; m_PodSelector := Ptr 6 |};
                  m_Parameters := Slice 4 0 1 1; m_Audience := "{{ .audience }}";
                  m_ExtraAudiences := nil_slice; m_Token := zero;
                  m_Inject := {| m_Env := Slice 8 0 1 2; m_Files := nil_slice;
                                 m_Containers := nil_slice |};
                  m_SPIFFE := nil_ptr; m_Helper := nil_ptr |};
     n_Status := {| m_Conditions := Slice 2 0 1 1; m_ObservedGeneration := 1;
                    m_MatchedPods := Ptr 3 |} |}.

Definition stored_parameter : Parameter_mem :=
  {| m_Name := "audience"; m_ValueFrom := zero; m_Default := Ptr 5; m_Required := true |}.
Definition stored_env : EnvVarSpec := {| EnvSpec_Name := "A"; EnvSpec_Value := "b" |}.

Definition cache_heap : heap (@cell flat_layouts) :=
  {[ 1%positive := existT TOIDCShim stored_shim;
     2%positive := existT (Tarray TCondition) [stale_condition];
     3%positive := existT Tint32 7%Z;
     4%positive := existT (Tarray TParameter) [stored_parameter];
     5%positive := existT Tstring "sts.example.com";
     6%positive := existT TLabelSelector (Ptr 7, []);
     7%positive := existT Tlib {[ "app" := "web" ]};
     8%positive := existT (Tarray TEnvVar) [stored_env; zero] ]}.

(** What it denotes. *)
Definition stored_value : TypeMeta * OIDCShim :=
  ({| Kind := "OIDCShim"; APIVersion := "oidcshim.kemo.dev/v1alpha1" |},
   {| OIDCShim_Meta := {| Meta_Name := "gcp"; Meta_Namespace := "my-app"; Meta_Generation := 2 |};
      OIDCShim_Spec :=
        {| Provider := "google";
           Selection := {| Enrollment := None; NamespaceSelector := None;
                           ServiceAccountSelector := None;
                           PodSelector := Some {| MatchLabels := {[ "app" := "web" ]};
                                                  MatchExpressions := [] |} |};
           Spec_Parameters := [ {| Param_Name := "audience";
                                   ValueFrom := Build_ParameterSource None "" "" None "";
                                   Default := Some "sts.example.com"; Required := true |} ];
           Audience := "{{ .audience }}"; ExtraAudiences := []; Spec_Token := zero;
           Inject := {| Inject_Env := [stored_env]; Inject_Files := []; Inject_Containers := [] |};
           SPIFFE := None; Helper := None |};
      OIDCShim_Status := {| Conditions := [stale_condition]; ObservedGeneration := 1;
                            MatchedPods := Some 7%Z |} |}).

Lemma cache_heap_denotes : view cache_heap (Ptr 1 : ptr OIDCShim_mem) = Some (Some stored_value).
Proof. vm_compute. reflexivity. Qed.

Lemma deep_copy_same_value_witness : ∃ p' hn,
  OIDCShim_DeepCopy (Ptr 1) cache_heap = Some (p', cache_heap ∪ hn)
  ∧ cache_heap ##ₘ hn ∧ view (cache_heap ∪ hn) p' = Some (Some stored_value)
  ∧ view (cache_heap ∪ hn) (Ptr 1) = Some (Some stored_value) ∧ (p' = nil_ptr ↔ Ptr 1 = (nil_ptr : ptr OIDCShim_mem)).
Proof.
  apply (deep_copy_same_value OIDCShim_DeepCopy); [apply gen_OIDCShim|apply cache_heap_denotes].
Defined.

(** Emptying the cached object's condition array does not reach the copy. *)
Lemma deep_copy_isolated_witness : ∃ p' h',
  OIDCShim_DeepCopy (Ptr 1) cache_heap = Some (p', h')
  ∧ view (<[2%positive := existT (Tarray TCondition) []]> h') p' = Some (Some stored_value).
Proof.
  destruct (generated_deep_copies OIDCShim_DeepCopy gen_OIDCShim cache_heap (Ptr 1) _
              cache_heap_denotes) as (p' & hn & Hrun & _).
  exists p', (cache_heap ∪ hn). split; [exact Hrun|].
  apply (deep_copy_isolated OIDCShim_DeepCopy cache_heap (Ptr 1) _ p' (cache_heap ∪ hn));
    [apply gen_OIDCShim|apply cache_heap_denotes|exact Hrun|].
  intros l Hl. apply lookup_insert_ne. intros <-. apply Hl. apply elem_of_dom.
  eexists. vm_compute. reflexivity.
Defined.

Lemma deep_copy_object_typed_witness : ∃ o h',
  OIDCShim_DeepCopyObject nil_ptr cache_heap = Some (o, h') ∧ cache_heap ⊆ h'
  ∧ (nil_ptr = (nil_ptr : ptr OIDCShim_mem) → o = None)
  ∧ (nil_ptr ≠ (nil_ptr : ptr OIDCShim_mem) → ∃ l, o = Some (Object_OIDCShim (Ptr l))
       ∧ cache_heap !! l = None ∧ view h' (Ptr l : ptr OIDCShim_mem) = Some None).
Proof.
  apply (deep_copy_object_typed OIDCShim_DeepCopy);
    [apply gen_OIDCShim|apply gen_object_OIDCShim|reflexivity].
Defined.
End flat.
