(* ===== verification/Config.v ===== *)
(** * Manager options (src/internal/config/options.go) and how main.go assembles them

    Defaults, environment, flags, validation and the set of excluded namespaces. *)

From S2P Require Import Prelude GoStd GoStdFacts Kube.

Record Options := {
  SpiffeHelperImage : string;
  SpiffeHelperImagePullPolicy : PullPolicy;
  SpiffeCSIDriver : string;
  SpiffeSocketMountPath : string;
  SpiffeSocketFile : string;
  ExcludedNamespaces : list string;
  ExcludedNamespacePrefixes : list string;
  ZTWIMNamespace : string;
  OperatorNamespace : string;
  MaxRenderedBytes : Z }.

#[export] Instance Options_eq_dec : EqDecision Options.
Proof. solve_decision. Defined.

Definition DefaultSpiffeHelperImage : string := "ghcr.io/spiffe/spiffe-helper:0.10.0".
Definition DefaultSpiffeCSIDriver : string := "csi.spiffe.io".
Definition DefaultSpiffeSocketMountPath : string := "/spiffe-workload-api".
Definition DefaultSpiffeSocketFile : string := "spire-agent.sock".
Definition DefaultZTWIMNamespace : string := "zero-trust-workload-identity-manager".
Definition DefaultMaxRenderedBytes : Z := 64 * 1024.

Definition EnvSpiffeHelperImage : string := "SPIFFE_HELPER_IMAGE".
Definition EnvRelatedImageSpiffeHelper : string := "RELATED_IMAGE_SPIFFE_HELPER".
Definition EnvPodNamespace : string := "POD_NAMESPACE".

Definition Options_Defaults : Options :=
  {| SpiffeHelperImage := DefaultSpiffeHelperImage;
     SpiffeHelperImagePullPolicy := PullIfNotPresent;
     SpiffeCSIDriver := DefaultSpiffeCSIDriver;
     SpiffeSocketMountPath := DefaultSpiffeSocketMountPath;
     SpiffeSocketFile := DefaultSpiffeSocketFile;
     ExcludedNamespaces := [];
     ExcludedNamespacePrefixes := ["kube-"];
     ZTWIMNamespace := DefaultZTWIMNamespace;
     OperatorNamespace := "";
     MaxRenderedBytes := DefaultMaxRenderedBytes |}.

(** ** Assignment to one field *)

Definition set_image v (o : Options) : Options :=
  {| SpiffeHelperImage := v; SpiffeHelperImagePullPolicy := SpiffeHelperImagePullPolicy o;
     SpiffeCSIDriver := SpiffeCSIDriver o; SpiffeSocketMountPath := SpiffeSocketMountPath o;
     SpiffeSocketFile := SpiffeSocketFile o; ExcludedNamespaces := ExcludedNamespaces o;
     ExcludedNamespacePrefixes := ExcludedNamespacePrefixes o; ZTWIMNamespace := ZTWIMNamespace o;
     OperatorNamespace := OperatorNamespace o; MaxRenderedBytes := MaxRenderedBytes o |}.
Definition set_pull_policy v (o : Options) : Options :=
  {| SpiffeHelperImage := SpiffeHelperImage o; SpiffeHelperImagePullPolicy := v;
     SpiffeCSIDriver := SpiffeCSIDriver o; SpiffeSocketMountPath := SpiffeSocketMountPath o;
     SpiffeSocketFile := SpiffeSocketFile o; ExcludedNamespaces := ExcludedNamespaces o;
     ExcludedNamespacePrefixes := ExcludedNamespacePrefixes o; ZTWIMNamespace := ZTWIMNamespace o;
     OperatorNamespace := OperatorNamespace o; MaxRenderedBytes := MaxRenderedBytes o |}.
Definition set_csi_driver v (o : Options) : Options :=
  {| SpiffeHelperImage := SpiffeHelperImage o;
     SpiffeHelperImagePullPolicy := SpiffeHelperImagePullPolicy o;
     SpiffeCSIDriver := v; SpiffeSocketMountPath := SpiffeSocketMountPath o;
     SpiffeSocketFile := SpiffeSocketFile o; ExcludedNamespaces := ExcludedNamespaces o;
     ExcludedNamespacePrefixes := ExcludedNamespacePrefixes o; ZTWIMNamespace := ZTWIMNamespace o;
     OperatorNamespace := OperatorNamespace o; MaxRenderedBytes := MaxRenderedBytes o |}.
Definition set_socket_mount_path v (o : Options) : Options :=
  {| SpiffeHelperImage := SpiffeHelperImage o;
     SpiffeHelperImagePullPolicy := SpiffeHelperImagePullPolicy o;
     SpiffeCSIDriver := SpiffeCSIDriver o; SpiffeSocketMountPath := v;
     SpiffeSocketFile := SpiffeSocketFile o; ExcludedNamespaces := ExcludedNamespaces o;
     ExcludedNamespacePrefixes := ExcludedNamespacePrefixes o; ZTWIMNamespace := ZTWIMNamespace o;
     OperatorNamespace := OperatorNamespace o; MaxRenderedBytes := MaxRenderedBytes o |}.
Definition set_socket_file v (o : Options) : Options :=
  {| SpiffeHelperImage := SpiffeHelperImage o;
     SpiffeHelperImagePullPolicy := SpiffeHelperImagePullPolicy o;
     SpiffeCSIDriver := SpiffeCSIDriver o; SpiffeSocketMountPath := SpiffeSocketMountPath o;
     SpiffeSocketFile := v; ExcludedNamespaces := ExcludedNamespaces o;
     ExcludedNamespacePrefixes := ExcludedNamespacePrefixes o; ZTWIMNamespace := ZTWIMNamespace o;
     OperatorNamespace := OperatorNamespace o; MaxRenderedBytes := MaxRenderedBytes o |}.
Definition set_excluded v (o : Options) : Options :=
  {| SpiffeHelperImage := SpiffeHelperImage o;
     SpiffeHelperImagePullPolicy := SpiffeHelperImagePullPolicy o;
     SpiffeCSIDriver := SpiffeCSIDriver o; SpiffeSocketMountPath := SpiffeSocketMountPath o;
     SpiffeSocketFile := SpiffeSocketFile o; ExcludedNamespaces := v;
     ExcludedNamespacePrefixes := ExcludedNamespacePrefixes o; ZTWIMNamespace := ZTWIMNamespace o;
     OperatorNamespace := OperatorNamespace o; MaxRenderedBytes := MaxRenderedBytes o |}.
Definition set_excluded_prefixes v (o : Options) : Options :=
  {| SpiffeHelperImage := SpiffeHelperImage o;
     SpiffeHelperImagePullPolicy := SpiffeHelperImagePullPolicy o;
     SpiffeCSIDriver := SpiffeCSIDriver o; SpiffeSocketMountPath := SpiffeSocketMountPath o;
     SpiffeSocketFile := SpiffeSocketFile o; ExcludedNamespaces := ExcludedNamespaces o;
     ExcludedNamespacePrefixes := v; ZTWIMNamespace := ZTWIMNamespace o;
     OperatorNamespace := OperatorNamespace o; MaxRenderedBytes := MaxRenderedBytes o |}.
Definition set_ztwim_namespace v (o : Options) : Options :=
  {| SpiffeHelperImage := SpiffeHelperImage o;
     SpiffeHelperImagePullPolicy := SpiffeHelperImagePullPolicy o;
     SpiffeCSIDriver := SpiffeCSIDriver o; SpiffeSocketMountPath := SpiffeSocketMountPath o;
     SpiffeSocketFile := SpiffeSocketFile o; ExcludedNamespaces := ExcludedNamespaces o;
     ExcludedNamespacePrefixes := ExcludedNamespacePrefixes o; ZTWIMNamespace := v;
     OperatorNamespace := OperatorNamespace o; MaxRenderedBytes := MaxRenderedBytes o |}.
Definition set_operator_namespace v (o : Options) : Options :=
  {| SpiffeHelperImage := SpiffeHelperImage o;
     SpiffeHelperImagePullPolicy := SpiffeHelperImagePullPolicy o;
     SpiffeCSIDriver := SpiffeCSIDriver o; SpiffeSocketMountPath := SpiffeSocketMountPath o;
     SpiffeSocketFile := SpiffeSocketFile o; ExcludedNamespaces := ExcludedNamespaces o;
     ExcludedNamespacePrefixes := ExcludedNamespacePrefixes o; ZTWIMNamespace := ZTWIMNamespace o;
     OperatorNamespace := v; MaxRenderedBytes := MaxRenderedBytes o |}.
Definition set_max_rendered v (o : Options) : Options :=
  {| SpiffeHelperImage := SpiffeHelperImage o;
     SpiffeHelperImagePullPolicy := SpiffeHelperImagePullPolicy o;
     SpiffeCSIDriver := SpiffeCSIDriver o; SpiffeSocketMountPath := SpiffeSocketMountPath o;
     SpiffeSocketFile := SpiffeSocketFile o; ExcludedNamespaces := ExcludedNamespaces o;
     ExcludedNamespacePrefixes := ExcludedNamespacePrefixes o; ZTWIMNamespace := ZTWIMNamespace o;
     OperatorNamespace := OperatorNamespace o; MaxRenderedBytes := v |}.

(** ** The flag values *)

(** [pullPolicyValue.String], [Set] and [stringSliceValue.String], [Set]; neither [Set] fails. *)
Definition pullPolicyValue_String (p : option PullPolicy) : string :=
  match p with None => "" | Some v => v end.
Definition pullPolicyValue_Set (v : string) : PullPolicy := v.
Definition stringSliceValue_String (target : list string) : string := Join target ",".
Definition stringSliceValue_Set (v : string) : list string :=
  filter (λ p, p ≠ "") (map TrimSpace (Split v ","%char)).

(** [strconv.ParseInt(s, 0, 64)], which [flag.IntVar] uses: an optional sign, a base prefix
    (0b, 0o, 0x, or 0 for octal), and underscores only between digits. *)
Definition underscore : ascii := "_"%char.

Definition base_prefix (s : string) : Z * string :=
  match s with
  | String "0" (String c (String d s')) =>
      if Ascii.eqb (to_lower c) "b" then (2, String d s')
      else if Ascii.eqb (to_lower c) "o" then (8, String d s')
      else if Ascii.eqb (to_lower c) "x" then (16, String d s')
      else (8, String c (String d s'))
  | String "0" s' => (8, s')
  | _ => (10, s)
  end%Z.

Fixpoint drop_underscores (s : string) : string :=
  match s with
  | EmptyString => ""
  | String c s' => if Ascii.eqb c underscore then drop_underscores s'
                   else String c (drop_underscores s')
  end.

(** The scan of [underscoreOK] over the digits; [last] says what the previous character was. *)
Inductive last_seen := Begin | Digit | Underscore | Other.
Fixpoint underscores_between (hex : bool) (last : last_seen) (s : string) : bool :=
  match s with
  | EmptyString => match last with Underscore => false | _ => true end
  | String c s' =>
      let n := byte_of (to_lower c) in
      if (((48 <=? n) && (n <=? 57)) || (hex && (97 <=? n) && (n <=? 102)))%N
      then underscores_between hex Digit s'
      else if Ascii.eqb c underscore then
        match last with Digit => underscores_between hex Underscore s' | _ => false end
      else match last with Underscore => false | _ => underscores_between hex Other s' end
  end.
Definition underscoreOK (s : string) : bool :=
  match s with
  | String "0" (String c s') =>
      if Ascii.eqb (to_lower c) "x" then underscores_between true Digit s'
      else if Ascii.eqb (to_lower c) "b" || Ascii.eqb (to_lower c) "o"
      then underscores_between false Digit s'
      else underscores_between false Begin s
  | _ => underscores_between false Begin s
  end.

Definition ParseUint0 (s : string) : option Z :=
  if String.eqb s "" then None
  else
    let '(base, digits) := base_prefix s in
    match parse_digits base (2 ^ 64 - 1) 0 (drop_underscores digits) with
    | Some n => if ContainsByte digits underscore && negb (underscoreOK s) then None else Some n
    | None => None
    end.

Definition ParseInt0 (s : string) : option Z :=
  let '(neg, digits) := match s with
                        | String "+" s' => (false, s')
                        | String "-" s' => (true, s')
                        | _ => (false, s)
                        end in
  match ParseUint0 digits with
  | Some n =>
      (if neg then (if 2 ^ 63 <? n then None else Some (- n))
       else (if 2 ^ 63 <=? n then None else Some n))%Z
  | None => None
  end.

Example parse_int_samples :
  (ParseInt0 <$> ["65536"; "0x10"; "0"; "-0b11"; "1_000"; "1__0"; "_1"; "0_7"; "9223372036854775808"; ""; "08"])
  = [Some 65536; Some 16; Some 0; Some (-3); Some 1000; None; None; Some 7; None; None; None]%Z.
Proof. vm_compute. reflexivity. Qed.

(** ** BindFlags: the effect of each flag on the options *)

Definition flag_setter (name : string) : option (string → Options → result error Options) :=
  if String.eqb name "spiffe-helper-image" then Some (λ v o, Ok (set_image v o))
  else if String.eqb name "spiffe-helper-image-pull-policy"
  then Some (λ v o, Ok (set_pull_policy (pullPolicyValue_Set v) o))
  else if String.eqb name "spiffe-csi-driver" then Some (λ v o, Ok (set_csi_driver v o))
  else if String.eqb name "spiffe-socket-mount-path"
  then Some (λ v o, Ok (set_socket_mount_path v o))
  else if String.eqb name "spiffe-socket-file" then Some (λ v o, Ok (set_socket_file v o))
  else if String.eqb name "excluded-namespaces"
  then Some (λ v o, Ok (set_excluded (stringSliceValue_Set v) o))
  else if String.eqb name "excluded-namespace-prefixes"
  then Some (λ v o, Ok (set_excluded_prefixes (stringSliceValue_Set v) o))
  else if String.eqb name "ztwim-namespace" then Some (λ v o, Ok (set_ztwim_namespace v o))
  else if String.eqb name "max-rendered-bytes"
  then Some (λ v o, match ParseInt0 v with
                    | Some n => Ok (set_max_rendered n o)
                    | None => Err (errorString "parse error")
                    end)
  else None.

(** The assignments of the command line, in order; a flag of another component is not an
    option of this one. *)
Fixpoint parse_flags (args : list (string * string)) (o : Options) : result error Options :=
  match args with
  | [] => Ok o
  | (name, v) :: rest =>
      match flag_setter name with
      | Some set => let! o' := set v o in parse_flags rest o'
      | None => parse_flags rest o
      end
  end.

Definition ApplyEnv (getenv : string → string) (o : Options) : Options :=
  let o := if negb (String.eqb (getenv EnvSpiffeHelperImage) "")
           then set_image (getenv EnvSpiffeHelperImage) o
           else if negb (String.eqb (getenv EnvRelatedImageSpiffeHelper) "")
           then set_image (getenv EnvRelatedImageSpiffeHelper) o else o in
  if negb (String.eqb (getenv EnvPodNamespace) "")
  then set_operator_namespace (getenv EnvPodNamespace) o else o.

Section validate.
Context `{UnicodeTables}.

Definition Options_problems (o : Options) : list error :=
  (if String.eqb (SpiffeHelperImage o) ""
   then [errorString "spiffe helper image must not be empty"] else [])
  ++ (if existsb (String.eqb (SpiffeHelperImagePullPolicy o)) [PullAlways; PullIfNotPresent; PullNever]
      then []
      else [errorString ("spiffe helper image pull policy must be one of Always, IfNotPresent, Never: "
                         +:+ Quote (SpiffeHelperImagePullPolicy o))])
  ++ (if String.eqb (SpiffeCSIDriver o) ""
      then [errorString "spiffe CSI driver must not be empty"] else [])
  ++ (if negb (IsAbs (SpiffeSocketMountPath o))
      then [errorString ("spiffe socket mount path must be absolute: "
                         +:+ Quote (SpiffeSocketMountPath o))] else [])
  ++ (if String.eqb (SpiffeSocketFile o) ""
      then [errorString "spiffe socket file must not be empty"]
      else if ContainsByte (SpiffeSocketFile o) "/"%char
      then [errorString ("spiffe socket file must not contain '/': " +:+ Quote (SpiffeSocketFile o))]
      else [])
  ++ (if (MaxRenderedBytes o <=? 0)%Z
      then [errorString ("max rendered bytes must be positive: " +:+ Itoa (MaxRenderedBytes o))]
      else []).
Definition Options_Validate (o : Options) : option error :=
  errors_Join (Some <$> Options_problems o).

Definition SocketPath (o : Options) : string :=
  path_Join [SpiffeSocketMountPath o; SpiffeSocketFile o].

(** The set of names; ranging over a Go map gives its keys in any order. *)
Definition excluded_set (o : Options) : gset string :=
  list_to_set (filter (λ n, n ≠ "")
    (ExcludedNamespaces o ++ [OperatorNamespace o; ZTWIMNamespace o])).
Definition ExcludedNamespaceNames (o : Options) : list string :=
  sort_Strings (elements (excluded_set o)).

(** main.go: defaults, then the environment, then the flags, then validation. *)
Definition load_options (getenv : string → string) (args : list (string * string))
    : result error Options :=
  let! o := parse_flags args (ApplyEnv getenv Options_Defaults) in
  match Options_Validate o with
  | Some e => Err e
  | None => Ok o
  end.

(** ** Validation *)

(** What makes the options usable. *)
Record options_ok (o : Options) : Prop := {
  oo_image : SpiffeHelperImage o ≠ "";
  oo_policy : SpiffeHelperImagePullPolicy o ∈ [PullAlways; PullIfNotPresent; PullNever];
  oo_driver : SpiffeCSIDriver o ≠ "";
  oo_mount : ∃ p, SpiffeSocketMountPath o = "/" +:+ p;
  oo_file : SpiffeSocketFile o ≠ "";
  oo_slash : ContainsByte (SpiffeSocketFile o) "/"%char = false;
  oo_max : (0 < MaxRenderedBytes o)%Z }.

Lemma app_nil_iff {A} (l l' : list A) : l ++ l' = [] ↔ l = [] ∧ l' = [].
Proof. destruct l; naive_solver. Qed.

Lemma IsAbs_spec p : IsAbs p = true ↔ ∃ q, p = "/" +:+ q.
Proof.
  unfold IsAbs, HasPrefix. destruct p as [|c p]; [split; [done|by intros [? ?]]|].
  change (String.prefix "/" (String c p))
    with (if ascii_dec "/" c then String.prefix "" p else false).
  destruct (ascii_dec "/" c) as [<-|Hne].
  - split; [by exists p|]. by destruct p.
  - split; [done|]. intros [q [= -> _]]. done.
Qed.

Lemma problem_nil {A} (b : bool) (x : A) : (if b then [x] else []) = [] ↔ b = false.
Proof. by destruct b. Qed.
Lemma no_problem_nil {A} (b : bool) (x : A) : (if b then [] else [x]) = [] ↔ b = true.
Proof. by destruct b. Qed.

Lemma options_validate_ok o : Options_Validate o = None ↔ options_ok o.
Proof.
  unfold Options_Validate. rewrite errors_Join_somes. unfold Options_problems.
  rewrite !app_nil_iff, no_problem_nil, existsb_str_eqb, !problem_nil.
  rewrite negb_false_iff, IsAbs_spec, Z.leb_gt.
  assert (Hfile : (if String.eqb (SpiffeSocketFile o) ""
      then [errorString "spiffe socket file must not be empty"]
      else if ContainsByte (SpiffeSocketFile o) "/"%char
      then [errorString ("spiffe socket file must not contain '/': " +:+ Quote (SpiffeSocketFile o))]
      else []) = [] ↔ SpiffeSocketFile o ≠ "" ∧ ContainsByte (SpiffeSocketFile o) "/"%char = false).
  { destruct (String.eqb_spec (SpiffeSocketFile o) ""); [naive_solver|].
    rewrite problem_nil. tauto. }
  rewrite Hfile, !String.eqb_neq. split.
  - by intros (? & ? & ? & ? & (? & ?) & ?).
  - by intros [].
Qed.

(** The options pass validation exactly when the helper image and CSI driver are set, the
    pull policy is one of the three, the socket mount path is absolute, the socket file is a
    plain name and the size bound is positive. *)
Theorem options_validate_iff o : Options_Validate o = None ↔ options_ok o.
Proof. apply options_validate_ok. Qed.

Lemma ApplyEnv_ok getenv o : options_ok o → options_ok (ApplyEnv getenv o).
Proof.
  intros [? ? ? ? ? ? ?]. unfold ApplyEnv.
  destruct (String.eqb_spec (getenv EnvSpiffeHelperImage) "");
  destruct (String.eqb_spec (getenv EnvRelatedImageSpiffeHelper) "");
  destruct (String.eqb_spec (getenv EnvPodNamespace) ""); by split.
Qed.

Lemma defaults_ok : options_ok Options_Defaults.
Proof. apply options_validate_ok. reflexivity. Qed.

(** The helper image after the environment. *)
Definition env_image (getenv : string → string) : string :=
  if decide (getenv EnvSpiffeHelperImage = "") then
    if decide (getenv EnvRelatedImageSpiffeHelper = "") then DefaultSpiffeHelperImage
    else getenv EnvRelatedImageSpiffeHelper
  else getenv EnvSpiffeHelperImage.

(** C37. Start-up: without flags every environment gives valid options, with the helper image
    taken from the first of the two variables that is set; options that are accepted are
    valid; and a flag overrides what the environment set, the last one winning. *)
Theorem load_options_spec getenv :
  (∃ o, load_options getenv [] = Ok o ∧ options_ok o ∧ SpiffeHelperImage o = env_image getenv
        ∧ OperatorNamespace o = getenv EnvPodNamespace)
  ∧ (∀ args o, load_options getenv args = Ok o → options_ok o)
  ∧ (∀ args image o, load_options getenv (args ++ [("spiffe-helper-image", image)]) = Ok o →
       SpiffeHelperImage o = image).
Proof.
  split_and!.
  - exists (ApplyEnv getenv Options_Defaults).
    pose proof (ApplyEnv_ok getenv _ defaults_ok) as Hok. unfold load_options. simpl.
    rewrite (proj2 (options_validate_ok _) Hok). split_and!; [done|done| |].
    + unfold ApplyEnv, env_image. repeat case_decide;
        repeat match goal with |- context [String.eqb ?x ""] =>
          destruct (String.eqb_spec x "") end; simpl; congruence.
    + unfold ApplyEnv.
        repeat match goal with |- context [String.eqb ?x ""] =>
          destruct (String.eqb_spec x "") end; simpl; congruence.
  - intros args o Hl. unfold load_options in Hl. inv_result.
    destruct (Options_Validate x) eqn:Hv; [done|]. injection H1 as ->.
    by apply options_validate_ok.
  - intros args image o Hl. unfold load_options in Hl. inv_result.
    destruct (Options_Validate x) eqn:Hv; [done|]. injection H1 as ->. clear Hv.
    revert H0. generalize (ApplyEnv getenv Options_Defaults) as o0.
    induction args as [|[n v] args IH]; intros o0 Hp; simpl in Hp.
    + by injection Hp as <-.
    + destruct (flag_setter n) as [set|]; [|by eapply IH].
      inv_result. by eapply IH.
Qed.

End validate.

(** The excluded namespaces: the list has no duplicates, is sorted, and holds exactly the
    non-empty names among the configured ones, the operator's and ZTWIM's own; and it does not
    depend on the order in which the map was ranged over. *)
Theorem excluded_namespace_names_spec o :
  StronglySorted str_le (ExcludedNamespaceNames o)
  ∧ NoDup (ExcludedNamespaceNames o)
  ∧ (∀ n, n ∈ ExcludedNamespaceNames o ↔
       n ≠ "" ∧ (n ∈ ExcludedNamespaces o ∨ n = OperatorNamespace o ∨ n = ZTWIMNamespace o))
  ∧ (∀ ranged, ranged ≡ₚ elements (excluded_set o) →
       sort_Strings ranged = ExcludedNamespaceNames o).
Proof.
  unfold ExcludedNamespaceNames. split_and!.
  - apply sort_Strings_sorted.
  - rewrite sort_Strings_perm. apply NoDup_elements.
  - intros n. rewrite sort_Strings_perm, elem_of_elements. unfold excluded_set.
    rewrite elem_of_list_to_set, list_elem_of_filter, elem_of_app, !elem_of_cons, elem_of_nil.
    naive_solver.
  - intros ranged Hp. apply (StronglySorted_unique str_le);
      [apply sort_Strings_sorted|apply sort_Strings_sorted|].
    by rewrite !sort_Strings_perm.
Qed.

(** A list flag survives printing: setting it to the text it prints gives the list back,
    whatever it was set to before. *)
Theorem string_slice_flag_roundtrip v :
  stringSliceValue_Set (stringSliceValue_String (stringSliceValue_Set v))
  = stringSliceValue_Set v.
Proof. apply split_trim_normal. Qed.
