(* ===== verification/SpiffeHelper.v ===== *)
(** * Rendering the spiffe-helper configuration (src/internal/spiffehelper/render.go)

    [Render] checks its input and prints the HCL file.  [parse_conf] is an independent reader
    of that file; the round trip shows that no field value (audiences come from pod and
    namespace annotations) can escape its string literal and inject configuration. *)

From S2P Require Import Prelude GoStd GoStdFacts.

Record Config := {
  AgentAddress : string;
  CertDir : string;
  JWTAudience : string;
  JWTExtraAudiences : list string;
  JWTSVIDFileName : string;
  JWTSVIDFileMode : string }.

Definition is_octal_digit (c : ascii) : bool := ((48 <=? byte_of c) && (byte_of c <=? 55))%N.

(** The regular expression [^0?[0-7]{3}$]. *)
Definition ModePattern (s : string) : bool :=
  match s with
  | String a (String b (String c "")) =>
      is_octal_digit a && is_octal_digit b && is_octal_digit c
  | String z (String a (String b (String c ""))) =>
      Ascii.eqb z "0"%char && is_octal_digit a && is_octal_digit b && is_octal_digit c
  | _ => false
  end.

(** The mode as it is printed: an octal literal has a leading zero. *)
Definition normalise_mode (mode : string) : string :=
  if negb (String.eqb mode "") && negb (HasPrefix mode "0") then "0" +:+ mode else mode.

Section render.
Context `{UnicodeTables}.

(** The text of [configTemplate] with its actions replaced by their values. *)
Definition conf_text (c : Config) (extraAudiences mode : string) : string :=
  "agent_address = " +:+ Quote (AgentAddress c) +:+ newline +:+
  "cert_dir = " +:+ Quote (CertDir c) +:+ newline +:+
  "jwt_svids = [{jwt_audience = " +:+ Quote (JWTAudience c) +:+
  ", jwt_extra_audiences = [" +:+ extraAudiences +:+
  "], jwt_svid_file_name = " +:+ Quote (JWTSVIDFileName c) +:+ "}]" +:+
  (if String.eqb mode "" then "" else newline +:+ "jwt_svid_file_mode = " +:+ mode) +:+
  newline.

Definition Render (c : Config) : result error string :=
  if String.eqb (AgentAddress c) "" then
    Err (errorString "spiffehelper: AgentAddress must not be empty")
  else if String.eqb (CertDir c) "" then
    Err (errorString "spiffehelper: CertDir must not be empty")
  else if String.eqb (JWTAudience c) "" then
    Err (errorString "spiffehelper: JWTAudience must not be empty")
  else if String.eqb (JWTSVIDFileName c) "" then
    Err (errorString "spiffehelper: JWTSVIDFileName must not be empty")
  else if negb (String.eqb (JWTSVIDFileMode c) "") && negb (ModePattern (JWTSVIDFileMode c)) then
    Err (errorString ("spiffehelper: JWTSVIDFileMode " +:+ Quote (JWTSVIDFileMode c)
                      +:+ " is not a valid octal mode"))
  else
    let quotedExtras := map Quote (JWTExtraAudiences c) in
    Ok (conf_text c (Join quotedExtras ", ") (normalise_mode (JWTSVIDFileMode c))).

(** ** A reader of the printed file *)

(** Strip the literal text [lit] from the head of [s]. *)
Fixpoint eat (lit s : string) : option string :=
  match lit, s with
  | EmptyString, _ => Some s
  | String a lit', String b s' => if Ascii.eqb a b then eat lit' s' else None
  | String _ _, EmptyString => None
  end.

(** A comma separated list of literals up to the closing bracket. *)
Fixpoint read_list (fuel : nat) (s : string) : option (list string * string) :=
  match fuel with
  | 0 => None
  | S fuel' =>
      '(x, s1) ← unquote_prefix s;
      match eat ", " s1 with
      | Some s2 => '(xs, s3) ← read_list fuel' s2; Some (x :: xs, s3)
      | None => Some ([x], s1)
      end
  end.
Definition read_extras (s : string) : option (list string * string) :=
  match s with
  | String c _ => if (byte_of c =? 93)%N then Some ([], s) else read_list (String.length s) s
  | EmptyString => None
  end.

(** The mode is everything up to the final newline. *)
Definition read_mode (s : string) : option string :=
  if String.eqb s newline then Some ""
  else rest ← eat (newline +:+ "jwt_svid_file_mode = ") s;
       match Split rest "010"%char with
       | [mode; ""] => Some mode
       | _ => None
       end.

Definition parse_conf (s : string) : option Config :=
  s ← eat "agent_address = " s; '(agent, s) ← unquote_prefix s;
  s ← eat (newline +:+ "cert_dir = ") s; '(dir, s) ← unquote_prefix s;
  s ← eat (newline +:+ "jwt_svids = [{jwt_audience = ") s; '(aud, s) ← unquote_prefix s;
  s ← eat ", jwt_extra_audiences = [" s; '(extras, s) ← read_extras s;
  s ← eat "], jwt_svid_file_name = " s; '(file, s) ← unquote_prefix s;
  s ← eat "}]" s; mode ← read_mode s;
  Some {| AgentAddress := agent; CertDir := dir; JWTAudience := aud;
          JWTExtraAudiences := extras; JWTSVIDFileName := file; JWTSVIDFileMode := mode |}.

Lemma eat_app lit s : eat lit (lit +:+ s) = Some s.
Proof. induction lit; simpl; [done|]. by rewrite Ascii.eqb_refl. Qed.

Lemma read_list_Join l rest fuel :
  l ≠ [] → (length l ≤ fuel)%nat → eat ", " rest = None →
  read_list fuel (Join (map Quote l) ", " +:+ rest) = Some (l, rest).
Proof.
  revert fuel. induction l as [|x l IH]; intros [|fuel]; [done..|simpl; lia|].
  intros _ Hf Hrest. cbn [map]. destruct l as [|y l].
  - cbn [map Join read_list]. rewrite unquote_prefix_Quote. cbn [mbind option_bind]. by rewrite Hrest.
  - rewrite Join_cons by done. rewrite !string_app_assoc. cbn [read_list].
    rewrite unquote_prefix_Quote. cbn [mbind option_bind].
    rewrite eat_app, IH; [done|done|simpl in *; lia|done].
Qed.

Lemma Join_Quote_length l : (length l ≤ String.length (Join (map Quote l) ", "))%nat.
Proof.
  induction l as [|x l IH]; [simpl; lia|]. destruct l as [|y l].
  - simpl. lia.
  - cbn [map]. rewrite Join_cons by done. rewrite !string_app_length. simpl in *. lia.
Qed.

Lemma read_extras_Join l rest :
  read_extras (Join (map Quote l) ", " +:+ "]" +:+ rest) = Some (l, "]" +:+ rest).
Proof.
  destruct l as [|x l]; [done|]. unfold read_extras.
  destruct (Join (map Quote (x :: l)) ", " +:+ "]" +:+ rest) as [|c s] eqn:E.
  { by destruct l. }
  assert ((byte_of c =? 93)%N = false) as ->.
  { destruct l; cbn in E; by injection E as <- _. }
  rewrite <- E. apply read_list_Join; [done| |done].
  rewrite string_app_length. pose proof (Join_Quote_length (x :: l)). lia.
Qed.

Lemma ModePattern_no_newline m : ModePattern m = true → ContainsByte m "010"%char = false.
Proof.
  intros Hm. assert (string_forallb is_octal_digit m = true) as Ho.
  { destruct m as [|a [|b [|c [|d [|]]]]]; simpl in *; try done.
    - rewrite !andb_true_iff in *. naive_solver.
    - rewrite !andb_true_iff, Ascii.eqb_eq in *. naive_solver. }
  clear Hm. induction m as [|a m IH]; [done|]. simpl in *.
  apply andb_true_iff in Ho as [Ha Hm]. rewrite IH by done. apply orb_false_iff. split; [|done].
  apply Ascii.eqb_neq. by intros ->.
Qed.

Lemma normalise_mode_no_newline m :
  m = "" ∨ ModePattern m = true → ContainsByte (normalise_mode m) "010"%char = false.
Proof.
  intros Hm. assert (ContainsByte m "010"%char = false) as Hc.
  { destruct Hm as [->|Hm]; [done|]. by apply ModePattern_no_newline. }
  unfold normalise_mode. case_match; [|done]. by rewrite ContainsByte_app, Hc.
Qed.

Lemma read_mode_text mode :
  ContainsByte mode "010"%char = false →
  read_mode ((if String.eqb mode "" then "" else newline +:+ "jwt_svid_file_mode = " +:+ mode)
             +:+ newline) = Some mode.
Proof.
  intros Hm. destruct (String.eqb_spec mode "") as [->|Hne]; [done|]. unfold read_mode.
  rewrite !string_app_assoc.
  replace (String.eqb _ newline) with false by (symmetry; by apply String.eqb_neq).
  rewrite <- string_app_assoc, eat_app. cbn [mbind option_bind].
  unfold newline. rewrite Split_app_sep by done. done.
Qed.

Definition with_mode (c : Config) (mode : string) : Config :=
  {| AgentAddress := AgentAddress c; CertDir := CertDir c; JWTAudience := JWTAudience c;
     JWTExtraAudiences := JWTExtraAudiences c; JWTSVIDFileName := JWTSVIDFileName c;
     JWTSVIDFileMode := mode |}.

Lemma parse_conf_text c mode :
  ContainsByte mode "010"%char = false →
  parse_conf (conf_text c (Join (map Quote (JWTExtraAudiences c)) ", ") mode)
  = Some (with_mode c mode).
Proof.
  intros Hm. unfold parse_conf, conf_text.
  rewrite eat_app. cbn [mbind option_bind]. rewrite unquote_prefix_Quote. cbn [mbind option_bind].
  rewrite <- (string_app_assoc newline), eat_app. cbn [mbind option_bind].
  rewrite unquote_prefix_Quote. cbn [mbind option_bind].
  rewrite <- (string_app_assoc newline), eat_app. cbn [mbind option_bind].
  rewrite unquote_prefix_Quote. cbn [mbind option_bind]. rewrite eat_app. cbn [mbind option_bind].
  change ("], jwt_svid_file_name = " +:+ ?x) with ("]" +:+ (", jwt_svid_file_name = " +:+ x)).
  rewrite read_extras_Join. cbn [mbind option_bind].
  change ("]" +:+ (", jwt_svid_file_name = " +:+ ?x)) with ("], jwt_svid_file_name = " +:+ x).
  rewrite eat_app. cbn [mbind option_bind]. rewrite unquote_prefix_Quote. cbn [mbind option_bind].
  rewrite eat_app. cbn [mbind option_bind]. by rewrite read_mode_text.
Qed.

(** What [Render] accepts. *)
Definition config_ok (c : Config) : Prop :=
  AgentAddress c ≠ "" ∧ CertDir c ≠ "" ∧ JWTAudience c ≠ "" ∧ JWTSVIDFileName c ≠ ""
  ∧ (JWTSVIDFileMode c = "" ∨ ModePattern (JWTSVIDFileMode c) = true).

(** The outcome of [Render] on every branch. *)
Lemma Render_Ok_iff c text :
  Render c = Ok text ↔
  config_ok c ∧
  text = conf_text c (Join (map Quote (JWTExtraAudiences c)) ", ")
           (normalise_mode (JWTSVIDFileMode c)).
Proof.
  unfold Render, config_ok.
  destruct (String.eqb_spec (AgentAddress c) ""); [naive_solver|].
  destruct (String.eqb_spec (CertDir c) ""); [naive_solver|].
  destruct (String.eqb_spec (JWTAudience c) ""); [naive_solver|].
  destruct (String.eqb_spec (JWTSVIDFileName c) ""); [naive_solver|].
  destruct (String.eqb_spec (JWTSVIDFileMode c) "") as [->|]; simpl; [naive_solver|].
  destruct (ModePattern _); simpl; naive_solver.
Qed.

End render.

(** ** Properties *)

(** C28. Round trip and absence of injection: whatever text [Render] returns, the reader gets
    back exactly the configured address, directory, audiences and file name, and the mode in
    its octal spelling.  In particular two different configurations never print the same
    file, and no quote, newline or escape inside a value changes another field. *)
Theorem render_roundtrip `{UnicodeTables} c text :
  Render c = Ok text →
  parse_conf text = Some (with_mode c (normalise_mode (JWTSVIDFileMode c))).
Proof.
  intros [(_ & _ & _ & _ & Hm) ->]%Render_Ok_iff.
  apply parse_conf_text. by apply normalise_mode_no_newline.
Qed.

Definition sample_config : Config :=
  {| AgentAddress := "/spiffe-workload-api/spire-agent.sock";
     CertDir := "/var/run/secrets/oidcshim/gcp";
     JWTAudience := "a" +:+ String quote_char ("}]" +:+ newline +:+ "cmd = /bin/sh");
     JWTExtraAudiences := ["x, y"; "]"]; JWTSVIDFileName := "token"; JWTSVIDFileMode := "644" |}.

Definition sample_text : string :=
  match @Render ascii_tables sample_config with Ok t => t | Err _ => "" end.

Lemma render_roundtrip_witness :
  @Render ascii_tables sample_config = Ok sample_text
  ∧ @parse_conf sample_text = Some (with_mode sample_config "0644").
Proof.
  split; [reflexivity|].
  apply (@render_roundtrip ascii_tables sample_config sample_text). reflexivity.
Defined.

(** Error behaviour: [Render] succeeds exactly on a non-empty address, directory,
    audience and file name with an empty or three-digit octal mode; everything else is an
    error value, never a partial file. *)
Theorem render_ok_iff_config_ok `{UnicodeTables} c : is_Ok (Render c) ↔ config_ok c.
Proof.
  split.
  - intros [t Ht]. by apply Render_Ok_iff in Ht as [Hc _].
  - intros Hc. eexists. by apply Render_Ok_iff.
Qed.

Lemma octal_digit_val c : is_octal_digit c = true →
  ∃ d, digit_val c = Some d ∧ (0 ≤ d < 8)%Z.
Proof.
  unfold is_octal_digit, digit_val. intros H. bool_to_N.
  rewrite (proj2 (Z.leb_le _ _)), (proj2 (Z.leb_le _ _)) by lia.
  eexists. split; [reflexivity|]. lia.
Qed.

Lemma parse_three_octal a b c :
  is_octal_digit a = true → is_octal_digit b = true → is_octal_digit c = true →
  ∃ v, parse_digits 8 (2 ^ 32 - 1) 0 (String a (String b (String c ""))) = Some v
       ∧ (0 ≤ v ≤ 511)%Z.
Proof.
  intros (x & Hx & ?)%octal_digit_val (y & Hy & ?)%octal_digit_val (z & Hz & ?)%octal_digit_val.
  exists ((x * 8 + y) * 8 + z)%Z. split; [|lia]. cbn [parse_digits].
  rewrite Hx, Hy, Hz. cbn iota.
  rewrite !(proj2 (Z.leb_gt _ _)) by lia. rewrite !(proj2 (Z.ltb_ge _ _)) by lia.
  f_equal; lia.
Qed.

(** A mode the pattern accepts is an octal number of at most nine permission bits. *)
Lemma ModePattern_parses m :
  ModePattern m = true → ∃ v, ParseUint m 8 32 = Some v ∧ (0 ≤ v ≤ 511)%Z.
Proof.
  unfold ParseUint. destruct m as [|a [|b [|c [|d [|]]]]]; try done; simpl ModePattern; intros Hm.
  - apply andb_true_iff in Hm as [[? ?]%andb_true_iff ?]. by apply parse_three_octal.
  - apply andb_true_iff in Hm as [[[Ha%Ascii.eqb_eq ?]%andb_true_iff ?]%andb_true_iff ?].
    subst a. cbn [String.eqb Ascii.eqb]. 
    destruct (parse_three_octal b c d) as (v & Hv & ?); [done..|]. exists v. split; [|done].
    rewrite <- Hv. apply (parse_digits_leading_zero 8 _ (String b (String c (String d ""))));
      [lia|]. apply Z.leb_le. reflexivity.
Qed.

(** The normalised mode is printed with a leading zero and denotes the same number: HCL
    would otherwise read ["644"] as a decimal. *)
Theorem normalise_mode_octal m :
  ModePattern m = true →
  HasPrefix (normalise_mode m) "0" = true
  ∧ ModePattern (normalise_mode m) = true
  ∧ ParseUint (normalise_mode m) 8 32 = ParseUint m 8 32.
Proof.
  intros Hm. unfold normalise_mode. destruct (String.eqb_spec m "") as [->|Hne]; [done|]. cbn [negb andb].
  destruct (HasPrefix m "0") eqn:Hp; cbn [negb]; [done|].
  split; [by destruct m|]. split.
  - destruct m as [|a [|b [|c [|d [|]]]]]; try done.
    simpl in Hm. destruct (Ascii.eqb_spec a "0") as [->|]; done.
  - unfold ParseUint. apply String.eqb_neq in Hne. rewrite Hne. cbn [String.eqb String.append].
    apply (parse_digits_leading_zero 8 _ m); [lia|]. apply Z.leb_le. reflexivity.
Qed.

Lemma normalise_mode_octal_witness :
  ModePattern "644" = true ∧ ParseUint (normalise_mode "644") 8 32 = ParseUint "644" 8 32.
Proof. split; [reflexivity|]. apply (normalise_mode_octal "644"). reflexivity. Defined.
