(* ===== verification/Template.v ===== *)
(** * Templates of a shim (src/internal/params/template.go)

    The syntax tree is that of Go's text/template/parse.  Parsing and executing a template
    are the two calls the operator makes into text/template; they enter as the class
    [TextTemplate], so everything proved about the operator holds for any engine with this
    interface.  [GoTemplate] builds an executable engine for a core of the template language
    and instantiates the class with it. *)

From S2P Require Import Prelude GoStd.

(** ** text/template/parse *)

(** The node types; the branch nodes carry the pipeline, the list and the else list of their
    [BranchNode], and a pointer that may be nil is an [option]. *)
Inductive Node : Type :=
| ListNode (Nodes : list Node)
| TextNode (Text : string)
| CommentNode (Text : string)
| ActionNode (Pipe : Node)
| PipeNode (IsAssign : bool) (Decl : list string) (Cmds : list Node)
| CommandNode (Args : list Node)
| IdentifierNode (Ident : string)
| VariableNode (Idents : list string)
| DotNode
| NilNode
| FieldNode (Idents : list string)
| ChainNode (node : Node) (Field : list string)
| BoolNode (b : bool)
| NumberNode (Text : string)
| StringNode (Text : string)
| IfNode (Pipe : Node) (List : Node) (ElseList : option Node)
| RangeNode (Pipe : Node) (List : Node) (ElseList : option Node)
| WithNode (Pipe : Node) (List : Node) (ElseList : option Node)
| TemplateNode (Name : string) (Pipe : option Node)
| BreakNode
| ContinueNode.

(** A parsed [*template.Template]: the tree of the template itself ([t.Tree.Root], nil for a
    nil tree) and the templates it defines. *)
Record ParsedTemplate := {
  Tmpl_Root : option Node;
  Tmpl_Defs : list (string * Node) }.

(** [params.Values]: the template context. *)
Abbreviation Values := (gmap string string) (only parsing).

(** [template.New(name).Option("missingkey=error").Parse(text)] and [t.Execute(&sb, values)]
    with the output collected in a [strings.Builder]. *)
Class TextTemplate := {
  Parse : string → string → result error ParsedTemplate;
  Execute : ParsedTemplate → Values → result error string }.

Section template.
Context `{TextTemplate}.

Definition parseTemplate (name tmpl : string) : result error ParsedTemplate := Parse name tmpl.

Definition Render (name tmpl : string) (values : Values) : result error string :=
  let! t := parseTemplate name tmpl in Execute t values.

(** ** Referenced keys *)

(** [walkNode] and [walkBranch]; the state the [visit] closure updates is threaded through. *)
Fixpoint walkNode {S} (visit : S → string → S) (n : Node) (s : S) : S :=
  match n with
  | ListNode nodes => foldl (λ s c, walkNode visit c s) s nodes
  | ActionNode pipe => walkNode visit pipe s
  | PipeNode _ _ cmds => foldl (λ s c, walkNode visit c s) s cmds
  | CommandNode args => foldl (λ s c, walkNode visit c s) s args
  | FieldNode idents => match idents with i :: _ => visit s i | [] => s end
  | ChainNode node _ => walkNode visit node s
  | IfNode pipe list elseList | RangeNode pipe list elseList | WithNode pipe list elseList =>
      let s := walkNode visit pipe s in
      let s := walkNode visit list s in
      match elseList with Some l => walkNode visit l s | None => s end
  | TemplateNode _ pipe => match pipe with Some p => walkNode visit p s | None => s end
  | _ => s
  end.

(** The closure of [ReferencedKeys]: append the field unless it was seen. *)
Definition visit_key (s : list string * gset string) (field : string)
    : list string * gset string :=
  let '(keys, seen) := s in
  if decide (field ∈ seen) then (keys, seen) else (keys ++ [field], {[field]} ∪ seen).

Definition ReferencedKeys (tmpl : string) : result error (list string) :=
  let! t := parseTemplate "template" tmpl in
  match Tmpl_Root t with
  | None => Ok []
  | Some root => Ok (fst (walkNode visit_key root ([], ∅)))
  end.

End template.

(** ** The fields of a tree, in order of appearance

    The reference definition for [walkNode]: the list of visited fields, duplicates
    included. *)
Fixpoint node_fields (n : Node) : list string :=
  match n with
  | ListNode l | CommandNode l | PipeNode _ _ l => concat (map node_fields l)
  | ActionNode p => node_fields p
  | FieldNode idents => match idents with i :: _ => [i] | [] => [] end
  | ChainNode node _ => node_fields node
  | IfNode p l e | RangeNode p l e | WithNode p l e =>
      node_fields p ++ node_fields l ++ match e with Some n => node_fields n | None => [] end
  | TemplateNode _ (Some p) => node_fields p
  | _ => []
  end.

(** Induction over the tree with its lists and optional branches. *)
Section node_ind.
Variable P : Node → Prop.
Definition P_opt (o : option Node) : Prop := match o with Some n => P n | None => True end.
Hypothesis H_list : ∀ l, Forall P l → P (ListNode l).
Hypothesis H_action : ∀ p, P p → P (ActionNode p).
Hypothesis H_pipe : ∀ a d l, Forall P l → P (PipeNode a d l).
Hypothesis H_command : ∀ l, Forall P l → P (CommandNode l).
Hypothesis H_chain : ∀ n f, P n → P (ChainNode n f).
Hypothesis H_if : ∀ p l e, P p → P l → P_opt e → P (IfNode p l e).
Hypothesis H_range : ∀ p l e, P p → P l → P_opt e → P (RangeNode p l e).
Hypothesis H_with : ∀ p l e, P p → P l → P_opt e → P (WithNode p l e).
Hypothesis H_template : ∀ s p, P_opt p → P (TemplateNode s p).
Hypothesis H_leaf : ∀ n,
  match n with
  | TextNode _ | CommentNode _ | IdentifierNode _ | VariableNode _ | DotNode | NilNode
  | FieldNode _ | BoolNode _ | NumberNode _ | StringNode _ | BreakNode | ContinueNode => True
  | _ => False
  end → P n.

Fixpoint Node_induction (n : Node) : P n :=
  let all := fix go (l : list Node) : Forall P l :=
    match l with
    | [] => Forall_nil_2 P
    | x :: l' => Forall_cons_2 P x l' (Node_induction x) (go l')
    end in
  let opt o := match o as o' return P_opt o' with Some n => Node_induction n | None => I end in
  match n as n' return P n' with
  | ListNode l => H_list l (all l)
  | ActionNode p => H_action p (Node_induction p)
  | PipeNode a d l => H_pipe a d l (all l)
  | CommandNode l => H_command l (all l)
  | ChainNode m f => H_chain m f (Node_induction m)
  | IfNode p l e => H_if p l e (Node_induction p) (Node_induction l) (opt e)
  | RangeNode p l e => H_range p l e (Node_induction p) (Node_induction l) (opt e)
  | WithNode p l e => H_with p l e (Node_induction p) (Node_induction l) (opt e)
  | TemplateNode s p => H_template s p (opt p)
  | m => H_leaf m I
  end.
End node_ind.

(** [k] is the first name of a field chain somewhere in the tree: [.k], [.k.x], an argument of
    a command, the subject of a chain, the pipeline or a branch of a control structure.  A
    chain that starts at a variable, such as [$.k], is not among them. *)
Inductive mentions (k : string) : Node → Prop :=
| mentions_field rest : mentions k (FieldNode (k :: rest))
| mentions_list l n : n ∈ l → mentions k n → mentions k (ListNode l)
| mentions_action p : mentions k p → mentions k (ActionNode p)
| mentions_pipe a d cmds n : n ∈ cmds → mentions k n → mentions k (PipeNode a d cmds)
| mentions_command args n : n ∈ args → mentions k n → mentions k (CommandNode args)
| mentions_chain n f : mentions k n → mentions k (ChainNode n f)
| mentions_if p l e n : n ∈ [p; l] ∨ e = Some n → mentions k n → mentions k (IfNode p l e)
| mentions_range p l e n : n ∈ [p; l] ∨ e = Some n → mentions k n → mentions k (RangeNode p l e)
| mentions_with p l e n : n ∈ [p; l] ∨ e = Some n → mentions k n → mentions k (WithNode p l e)
| mentions_template s p : mentions k p → mentions k (TemplateNode s (Some p)).

Lemma concat_fields k l :
  k ∈ concat (map node_fields l) ↔ ∃ n, n ∈ l ∧ k ∈ node_fields n.
Proof.
  induction l as [|n l IH]; simpl; [set_solver|]. rewrite elem_of_app, IH. set_solver.
Qed.

Lemma branch_fields k p l e :
  k ∈ node_fields p ++ node_fields l ++ match e with Some n => node_fields n | None => [] end
  ↔ ∃ n, (n ∈ [p; l] ∨ e = Some n) ∧ k ∈ node_fields n.
Proof.
  rewrite !elem_of_app. split.
  - intros [Hk|[Hk|Hk]].
    + exists p. split; [left; left|done].
    + exists l. split; [left; right; left|done].
    + destruct e as [n|]; [exists n; auto|by apply elem_of_nil in Hk].
  - intros (n & [Hn| ->] & Hk); [|auto].
    rewrite !elem_of_cons, elem_of_nil in Hn. destruct Hn as [->|[->|[]]]; auto.
Qed.

Lemma mentions_fields k n : mentions k n ↔ k ∈ node_fields n.
Proof.
  assert (Hl : ∀ l, Forall (λ n, mentions k n ↔ k ∈ node_fields n) l →
    k ∈ concat (map node_fields l) ↔ ∃ n, n ∈ l ∧ mentions k n).
  { intros l Hall. rewrite concat_fields, Forall_forall in *. naive_solver. }
  assert (Hb : ∀ p l e, (mentions k p ↔ k ∈ node_fields p) → (mentions k l ↔ k ∈ node_fields l) →
    P_opt (λ n, mentions k n ↔ k ∈ node_fields n) e →
    k ∈ node_fields p ++ node_fields l ++ match e with Some n => node_fields n | None => [] end
    ↔ ∃ n, (n ∈ [p; l] ∨ e = Some n) ∧ mentions k n).
  { intros p l e Hp Hl' He. rewrite branch_fields. apply exist_proper. intros m.
    rewrite !elem_of_cons, elem_of_nil. destruct e; simpl in He; naive_solver. }
  induction n using Node_induction; cbn [node_fields].
  - rewrite Hl by done. split; [inversion 1; eauto|intros (?&?&?); by econstructor].
  - rewrite <- IHn. split; [by inversion 1|by constructor].
  - rewrite Hl by done. split; [inversion 1; eauto|intros (?&?&?); by econstructor].
  - rewrite Hl by done. split; [inversion 1; eauto|intros (?&?&?); by econstructor].
  - rewrite <- IHn. split; [by inversion 1|by constructor].
  - rewrite Hb by done. split; [inversion 1; eauto|intros (?&?&?); by econstructor].
  - rewrite Hb by done. split; [inversion 1; eauto|intros (?&?&?); by econstructor].
  - rewrite Hb by done. split; [inversion 1; eauto|intros (?&?&?); by econstructor].
  - destruct p as [p|]; simpl in *; [|split; [by inversion 1|by intros ?%elem_of_nil]].
    rewrite <- H. split; [by inversion 1|by constructor].
  - destruct n; try done; cbn [node_fields];
      try (split; [by inversion 1|by intros ?%elem_of_nil]).
    destruct Idents as [|i rest]; [split; [by inversion 1|by intros ?%elem_of_nil]|].
    rewrite list_elem_of_singleton. split; [by inversion 1|intros ->; constructor].
Qed.

(** [walkNode] is the left fold of its callback over the fields of the tree. *)
Lemma walkNode_fields {S} (visit : S → string → S) n : ∀ s,
  walkNode visit n s = foldl visit s (node_fields n).
Proof.
  assert (∀ l, Forall (λ n, ∀ s, walkNode visit n s = foldl visit s (node_fields n)) l → ∀ s,
    foldl (λ s c, walkNode visit c s) s l = foldl visit s (concat (map node_fields l))) as Hl.
  { induction 1 as [|x l Hx _ IH]; intros s; simpl; [done|]. by rewrite foldl_app, Hx, IH. }
  induction n using Node_induction; intros st; simpl; auto.
  - destruct e; simpl in *; rewrite ?foldl_app, ?IHn1, ?IHn2; simpl; auto.
  - destruct e; simpl in *; rewrite ?foldl_app, ?IHn1, ?IHn2; simpl; auto.
  - destruct e; simpl in *; rewrite ?foldl_app, ?IHn1, ?IHn2; simpl; auto.
  - destruct p; simpl in *; auto.
  - destruct n; try done. by destruct Idents.
Qed.

(** Duplicates after the first appearance removed. *)
Fixpoint dedup (seen : gset string) (l : list string) : list string :=
  match l with
  | [] => []
  | x :: l' => if decide (x ∈ seen) then dedup seen l' else x :: dedup ({[x]} ∪ seen) l'
  end.

Lemma elem_of_dedup x l : ∀ seen, x ∈ dedup seen l ↔ x ∈ l ∧ x ∉ seen.
Proof.
  induction l as [|y l IH]; intros seen; simpl; [set_solver|].
  case_decide; rewrite ?elem_of_cons, IH; [set_solver|].
  destruct (decide (x = y)) as [->|]; set_solver.
Qed.

Lemma dedup_NoDup l : ∀ seen, NoDup (dedup seen l).
Proof.
  induction l as [|x l IH]; intros seen; simpl; [constructor|]. case_decide; [done|].
  constructor; [|done]. rewrite elem_of_dedup. set_solver.
Qed.

Lemma visit_key_dedup l : ∀ keys seen,
  fst (foldl visit_key (keys, seen) l) = keys ++ dedup seen l.
Proof.
  induction l as [|x l IH]; intros keys seen; simpl; [by rewrite app_nil_r|].
  case_decide; rewrite IH; [done|]. by rewrite <- app_assoc.
Qed.

Section referenced.
Context `{TextTemplate}.

(** The keys the operator checks: those of the fields of the template's own tree. *)
Lemma ReferencedKeys_Ok tmpl keys :
  ReferencedKeys tmpl = Ok keys →
  ∃ t, Parse "template" tmpl = Ok t ∧
    keys = dedup ∅ (match Tmpl_Root t with Some n => node_fields n | None => [] end).
Proof.
  unfold ReferencedKeys, parseTemplate. intros Hr. inv_result. exists x. split; [done|].
  destruct (Tmpl_Root x); inv_result; [|done]. by rewrite walkNode_fields, visit_key_dedup.
Qed.

(** What the check of a template establishes: it parses, and every field its tree mentions
    satisfies [known]. *)
Definition template_names (known : string → Prop) (tmpl : string) : Prop :=
  ∃ t, Parse "template" tmpl = Ok t ∧ ∀ root k, Tmpl_Root t = Some root → mentions k root → known k.

Lemma template_names_keys known tmpl :
  template_names known tmpl ↔ ∃ keys, ReferencedKeys tmpl = Ok keys ∧ ∀ k, k ∈ keys → known k.
Proof.
  unfold template_names, ReferencedKeys, parseTemplate. setoid_rewrite mentions_fields.
  destruct (Parse "template" tmpl) as [t|e]; simpl; [|naive_solver].
  destruct (Tmpl_Root t) as [root|] eqn:Hroot.
  - rewrite walkNode_fields, visit_key_dedup. simpl. split.
    + intros (? & [= <-] & Hall). eexists. split; [done|]. intros k [Hk _]%elem_of_dedup. eauto.
    + intros (keys & [= <-] & Hall). exists t. split; [done|]. intros r k ? Hk.
      apply Hall, elem_of_dedup. split; [congruence|set_solver].
  - split; [|naive_solver]. intros _. exists []. split; [done|]. by intros k ?%elem_of_nil.
Qed.

(** [ReferencedKeys] lists the first identifier of every field reference the walk
    reaches, each exactly once and in order of first appearance, and fails exactly when the
    template does not parse. *)
Theorem referenced_keys_spec tmpl :
  match Parse "template" tmpl with
  | Err e => ReferencedKeys tmpl = Err e
  | Ok t => ∃ keys, ReferencedKeys tmpl = Ok keys ∧ NoDup keys ∧
      let fields := match Tmpl_Root t with Some n => node_fields n | None => [] end in
      keys = dedup ∅ fields ∧ ∀ k, k ∈ keys ↔ k ∈ fields
  end.
Proof.
  unfold ReferencedKeys, parseTemplate. destruct (Parse "template" tmpl) as [t|e]; [|done]. simpl.
  destruct (Tmpl_Root t) as [root|].
  - eexists. split; [done|]. rewrite walkNode_fields, visit_key_dedup. simpl.
    split_and!; [apply dedup_NoDup|done|]. intros k. rewrite elem_of_dedup. set_solver.
  - exists []. split_and!; [done|constructor|done|done].
Qed.
End referenced.
