(* ===== verification/GoTemplate.v ===== *)
(** * An executable engine for a core of Go's text/template

    Text, comments, the trim markers, actions that print an operand, and the [if], [with] and
    [range] blocks with their [else], over operands that are the dot, a field chain, the root
    variable with a field chain, a boolean or a double-quoted string: the constructs the
    sample shims use.  A template outside the core (function calls, pipelines, declared
    variables, [define]/[template]) is refused by [parse_core], where Go would go on.  The
    evaluator follows text/template/exec.go with the option missingkey=error and a
    [map[string]string] as data.  Error texts are shortened to their last part. *)

From S2P Require Import Prelude GoStd GoStdFacts Template.

(** ** Lexing *)

Inductive quoting := Outside | InString | InStringEscape | InRaw.

(** The text of an action up to the closing braces, which do not count inside quotes. *)
Fixpoint find_close (q : quoting) (s : string) : option (string * string) :=
  match s with
  | EmptyString => None
  | String c s' =>
      match q with
      | Outside =>
          match s' with
          | String d s'' =>
              if ((byte_of c =? 125) && (byte_of d =? 125))%N then Some ("", s'')
              else prepend (String c "")
                     (find_close (if (byte_of c =? 34)%N then InString
                                  else if (byte_of c =? 96)%N then InRaw else Outside) s')
          | EmptyString => None
          end
      | InString =>
          prepend (String c "")
            (find_close (if (byte_of c =? 92)%N then InStringEscape
                         else if (byte_of c =? 34)%N then Outside else InString) s')
      | InStringEscape => prepend (String c "") (find_close InString s')
      | InRaw => prepend (String c "") (find_close (if (byte_of c =? 96)%N then Outside else InRaw) s')
      end
  end.

(** The text before the next opening braces, and the text after them if there are any. *)
Fixpoint find_open (s : string) : string * option string :=
  match s with
  | EmptyString => ("", None)
  | String c s' =>
      match s' with
      | String d s'' =>
          if ((byte_of c =? 123) && (byte_of d =? 123))%N then ("", Some s'')
          else let '(a, b) := find_open s' in (String c a, b)
      | EmptyString => (s, None)
      end
  end.

(** The white space of the lexer: space, tab, carriage return, newline. *)
Definition is_tmpl_space (c : ascii) : bool :=
  let n := byte_of c in ((n =? 32) || (n =? 9) || (n =? 13) || (n =? 10))%N.
Fixpoint trim_left (s : string) : string :=
  match s with
  | String c s' => if is_tmpl_space c then trim_left s' else s
  | EmptyString => ""
  end.
Fixpoint trim_right (s : string) : string :=
  match s with
  | EmptyString => ""
  | String c s' => if string_forallb is_tmpl_space s then "" else String c (trim_right s')
  end.

Inductive item := IText (s : string) | IAction (body : string).

(** A leading dash followed by space, a trailing dash after space. *)
Definition left_trim (body : string) : option string :=
  match body with
  | String c (String d rest) =>
      if ((byte_of c =? 45)%N && is_tmpl_space d)%bool then Some (String d rest) else None
  | _ => None
  end.
Definition right_trim (body : string) : option string :=
  match String.rev body with
  | String c (String d rest) =>
      if ((byte_of c =? 45)%N && is_tmpl_space d)%bool
      then Some (String.rev (String d rest)) else None
  | _ => None
  end.

Definition item_text (s : string) : list item := if String.eqb s "" then [] else [IText s].

(** Text and actions in order.  [fuel] bounds the number of actions: each one consumes at
    least four bytes, so the length of the template is enough. *)
Fixpoint lex (fuel : nat) (trim : bool) (s : string) : option (list item) :=
  match fuel with
  | 0 => None
  | S fuel' =>
      let '(text0, after) := find_open s in
      let text := if trim then trim_left text0 else text0 in
      match after with
      | None => Some (item_text text)
      | Some s1 =>
          '(body0, s2) ← find_close Outside s1;
          let '(text', body1) :=
            match left_trim body0 with
            | Some b => (trim_right text, b)
            | None => (text, body0)
            end in
          let '(body, trim') :=
            match right_trim body1 with Some b => (b, true) | None => (body1, false) end in
          rest ← lex fuel' trim' s2;
          Some (item_text text' ++ IAction (trim_right (trim_left body)) :: rest)
      end
  end.

(** ** Parsing *)

Definition is_alnum (c : ascii) : bool :=
  let n := byte_of c in
  ((48 <=? n) && (n <=? 57) || (65 <=? n) && (n <=? 90) || (97 <=? n) && (n <=? 122)
   || (n =? 95))%N.
Definition is_ident (s : string) : bool := negb (String.eqb s "") && string_forallb is_alnum s.

(** The identifiers of a chain [.a.b.c]; the text starts with the dot. *)
Definition chain_idents (s : string) : option (list string) :=
  match Split s "."%char with
  | "" :: i :: rest => if forallb is_ident (i :: rest) then Some (i :: rest) else None
  | _ => None
  end.

Definition parse_operand (w : string) : option Node :=
  if String.eqb w "." then Some DotNode
  else if String.eqb w "$" then Some (VariableNode ["$"])
  else if String.eqb w "true" then Some (BoolNode true)
  else if String.eqb w "false" then Some (BoolNode false)
  else match w with
  | String c w' =>
      if (byte_of c =? 46)%N then FieldNode <$> chain_idents w
      else if (byte_of c =? 36)%N then (λ l, VariableNode ("$" :: l)) <$> chain_idents w'
      else match unquote_prefix w with
      | Some (v, "") => Some (StringNode v)
      | _ => None
      end
  | EmptyString => None
  end.

Definition parse_pipe (w : string) : option Node :=
  (λ o, PipeNode false [] [CommandNode [o]]) <$> parse_operand w.

Inductive keyword := KIf | KWith | KRange.
Inductive action :=
| AOpen (k : keyword) (pipe : Node)
| AElse
| AEnd
| AComment (s : string)
| APrint (pipe : Node).

(** The word [kw], white space and an operand. *)
Definition strip_keyword (kw body : string) : option string :=
  if HasPrefix body kw then
    match String.substring (String.length kw) (String.length body) body with
    | String c rest => if is_tmpl_space c then Some (trim_left rest) else None
    | EmptyString => None
    end
  else None.

Definition classify (body : string) : option action :=
  if String.eqb body "end" then Some AEnd
  else if String.eqb body "else" then Some AElse
  else if HasPrefix body "/*" then Some (AComment body)
  else match strip_keyword "if" body with
  | Some w => AOpen KIf <$> parse_pipe w
  | None => match strip_keyword "with" body with
  | Some w => AOpen KWith <$> parse_pipe w
  | None => match strip_keyword "range" body with
  | Some w => AOpen KRange <$> parse_pipe w
  | None => APrint <$> parse_pipe body
  end end end.

Definition branch (k : keyword) (p l : Node) (e : option Node) : Node :=
  match k with KIf => IfNode p l e | KWith => WithNode p l e | KRange => RangeNode p l e end.

(** How a list of nodes ended. *)
Inductive stop := SEof | SElse | SEnd.

(** [fuel] bounds the number of items: one is consumed per step. *)
Fixpoint parse_list (fuel : nat) (items : list item) : option (list Node * stop * list item) :=
  match fuel with
  | 0 => None
  | S fuel' =>
      match items with
      | [] => Some ([], SEof, [])
      | IText s :: rest =>
          '(ns, st, r) ← parse_list fuel' rest; Some (TextNode s :: ns, st, r)
      | IAction body :: rest =>
          a ← classify body;
          match a with
          | AEnd => Some ([], SEnd, rest)
          | AElse => Some ([], SElse, rest)
          | AComment _ => parse_list fuel' rest
          | APrint p => '(ns, st, r) ← parse_list fuel' rest; Some (ActionNode p :: ns, st, r)
          | AOpen k p =>
              '(l, st, r) ← parse_list fuel' rest;
              '(e, r2) ← (match st with
                          | SEnd => Some (None, r)
                          | SElse =>
                              '(el, st2, r2) ← parse_list fuel' r;
                              match st2 with SEnd => Some (Some (ListNode el), r2) | _ => None end
                          | SEof => None
                          end);
              '(ns, st3, r3) ← parse_list fuel' r2;
              Some (branch k p (ListNode l) e :: ns, st3, r3)
          end
      end
  end.

Definition parse_core (name text : string) : result error ParsedTemplate :=
  match (items ← lex (S (String.length text)) false text;
         parse_list (S (length items)) items) with
  | Some (nodes, SEof, []) => Ok {| Tmpl_Root := Some (ListNode nodes); Tmpl_Defs := [] |}
  | _ => Err (errorString ("template: " +:+ name +:+ ": not in the core language"))
  end.

(** ** Evaluation *)

Inductive Value := VMap (m : gmap string string) | VStr (s : string) | VBool (b : bool).

(** Keys of a map in the order fmt and range use. *)
Definition sorted_entries (m : gmap string string) : list (string * string) :=
  sort_by_name fst (map_to_list m).

(** [fmt.Fprint] of a value. *)
Definition print_value (v : Value) : string :=
  match v with
  | VStr s => s
  | VBool b => if b then "true" else "false"
  | VMap m => "map[" +:+ Join ((λ '(k, x), k +:+ ":" +:+ x) <$> sorted_entries m) " " +:+ "]"
  end.

(** [template.IsTrue]. *)
Definition truth (v : Value) : bool :=
  match v with
  | VStr s => negb (String.eqb s "")
  | VBool b => b
  | VMap m => bool_decide (m ≠ ∅)
  end.

(** [evalField] along a chain, with missingkey=error. *)
Fixpoint eval_chain (v : Value) (idents : list string) : result error Value :=
  match idents with
  | [] => Ok v
  | i :: rest =>
      match v with
      | VMap m =>
          match m !! i with
          | Some s => eval_chain (VStr s) rest
          | None => Err (errorString ("map has no entry for key " +:+ i))
          end
      | VStr _ => Err (errorString ("can't evaluate field " +:+ i +:+ " in type string"))
      | VBool _ => Err (errorString ("can't evaluate field " +:+ i +:+ " in type bool"))
      end
  end.

Definition eval_arg (root dot : Value) (n : Node) : result error Value :=
  match n with
  | DotNode => Ok dot
  | FieldNode idents => eval_chain dot idents
  | VariableNode (v :: idents) =>
      if String.eqb v "$" then eval_chain root idents
      else Err (errorString ("undefined variable: " +:+ v))
  | StringNode s => Ok (VStr s)
  | BoolNode b => Ok (VBool b)
  | _ => Err (errorString "operand outside the core language")
  end.

Definition eval_pipe (root dot : Value) (n : Node) : result error Value :=
  match n with
  | PipeNode false [] [CommandNode [arg]] => eval_arg root dot arg
  | _ => Err (errorString "pipeline outside the core language")
  end.

(** Output of a sequence of steps. *)
Fixpoint concatM (l : list (result error string)) : result error string :=
  match l with
  | [] => Ok ""
  | x :: l' => let! a := x in let! b := concatM l' in Ok (a +:+ b)
  end.

Fixpoint exec (root dot : Value) (n : Node) : result error string :=
  match n with
  | TextNode s => Ok s
  | CommentNode _ => Ok ""
  | ListNode ns => concatM (map (exec root dot) ns)
  | ActionNode p => let! v := eval_pipe root dot p in Ok (print_value v)
  | IfNode p l e =>
      let! v := eval_pipe root dot p in
      if truth v then exec root dot l
      else match e with Some n' => exec root dot n' | None => Ok "" end
  | WithNode p l e =>
      let! v := eval_pipe root dot p in
      if truth v then exec root v l
      else match e with Some n' => exec root dot n' | None => Ok "" end
  | RangeNode p l e =>
      let! v := eval_pipe root dot p in
      match v with
      | VMap m =>
          if decide (m = ∅)
          then match e with Some n' => exec root dot n' | None => Ok "" end
          else concatM ((λ kv, exec root (VStr kv.2) l) <$> sorted_entries m)
      | VStr _ => Err (errorString "range can't iterate over a string")
      | VBool _ => Err (errorString "range can't iterate over a bool")
      end
  | _ => Err (errorString "node outside the core language")
  end.

Definition execute_core (t : ParsedTemplate) (values : Values) : result error string :=
  match Tmpl_Root t with
  | Some n => exec (VMap values) (VMap values) n
  | None => Err (errorString "incomplete or empty template")
  end.

#[export] Instance core_templates : TextTemplate :=
  {| Parse := parse_core; Execute := execute_core |}.

(** ** Templates whose keys the static check sees

    A template is [simple] when it refers to values only through single-identifier fields of
    the root ([{{ .key }}]), in actions and [if] conditions.  For these the list of
    [ReferencedKeys] is complete: defined keys mean a successful execution. *)

Definition simple_pipe (n : Node) : bool :=
  match n with
  | PipeNode false [] [CommandNode [FieldNode [_]]]
  | PipeNode false [] [CommandNode [DotNode]]
  | PipeNode false [] [CommandNode [StringNode _]]
  | PipeNode false [] [CommandNode [BoolNode _]] => true
  | _ => false
  end.

Fixpoint simple (n : Node) : bool :=
  match n with
  | TextNode _ | CommentNode _ => true
  | ListNode l => forallb simple l
  | ActionNode p => simple_pipe p
  | IfNode p l e =>
      simple_pipe p && simple l && match e with Some n' => simple n' | None => true end
  | _ => false
  end.

Definition simple_template (tmpl : string) : bool :=
  match parse_core "template" tmpl with
  | Ok t => match Tmpl_Root t with Some n => simple n | None => false end
  | Err _ => false
  end.

Lemma simple_pipe_ok values p :
  simple_pipe p = true → (∀ k, k ∈ node_fields p → is_Some (values !! k)) →
  ∃ v, eval_pipe (VMap values) (VMap values) p = Ok v.
Proof.
  intros Hp Hk. unfold simple_pipe in Hp. repeat case_match; try done; subst; simpl in *; eauto.
  match goal with |- context [values !! ?k] =>
    destruct (Hk k ltac:(set_solver)) as [v Hv]; rewrite Hv; eauto end.
Qed.

Lemma concatM_ok l : (∀ r, r ∈ l → is_Ok r) → is_Ok (concatM l).
Proof.
  induction l as [|x l IH]; intros Hall; [by eexists|]. simpl.
  destruct (Hall x ltac:(set_solver)) as [a ->]. simpl.
  destruct IH as [b ->]; [set_solver|]. by eexists.
Qed.

Lemma exec_simple_ok values n :
  simple n = true → (∀ k, k ∈ node_fields n → is_Some (values !! k)) →
  is_Ok (exec (VMap values) (VMap values) n).
Proof.
  induction n using Node_induction; simpl; intros Hs Hk; try done.
  - apply concatM_ok. intros r (c & -> & Hc)%list_elem_of_fmap.
    rewrite Forall_forall in H. apply H; [done| |].
    + rewrite forallb_forall in Hs. apply Hs. by apply list_elem_of_In.
    + intros k Hkc. apply Hk. apply list_elem_of_In, in_concat. exists (node_fields c).
      split; [apply in_map|]; by apply list_elem_of_In.
  - destruct (simple_pipe_ok values n Hs Hk) as [v ->]. simpl. by eexists.
  - apply andb_true_iff in Hs as [[Hp Hl]%andb_true_iff He].
    destruct (simple_pipe_ok values n1 Hp ltac:(set_solver)) as [v ->]. simpl.
    destruct (truth v); [apply IHn2; [done|set_solver]|].
    destruct e as [n'|]; [|by eexists]. apply H; [done|set_solver].
  - destruct n; done || by eexists.
Qed.

(** The name of a template does not decide whether a core template parses. *)
Lemma parse_core_name n1 n2 tmpl t : parse_core n1 tmpl = Ok t → parse_core n2 tmpl = Ok t.
Proof. unfold parse_core. by repeat case_match. Qed.

(** A simple template whose referenced keys all have values renders. *)
Lemma render_simple_ok name tmpl keys (values : gmap string string) :
  simple_template tmpl = true → ReferencedKeys tmpl = Ok keys →
  (∀ k, k ∈ keys → is_Some (values !! k)) → is_Ok (Render name tmpl values).
Proof.
  intros Hs Hr Hk. apply ReferencedKeys_Ok in Hr as (t & Hp & ->). simpl in Hp.
  unfold simple_template in Hs. rewrite Hp in Hs. unfold Render, parseTemplate. simpl.
  rewrite (parse_core_name "template" name _ _ Hp). simpl. unfold execute_core.
  destruct (Tmpl_Root t) as [n|]; [|done]. apply exec_simple_ok; [done|].
  intros k Hkn. apply Hk, elem_of_dedup. set_solver.
Qed.
