(* ===== verification/Params.v ===== *)
(** * Parameter resolution and validation (src/internal/params/resolve.go, validate.go)

    [Resolve] folds over the ordered parameter list with the values resolved so far;
    [Validate] is the static check the controller runs.  The theorems relate the two. *)

From S2P Require Import Prelude GoStd GoStdFacts Kube Api Template GoTemplate.

(** ** Data *)

Record Metadata := { Annotations : gmap string string; Labels : gmap string string }.
Record Lookup := { L_Pod : Metadata; L_ServiceAccount : Metadata; L_Namespace : Metadata }.

Record Builtins := {
  PodNamespace : string;
  ServiceAccountName : string;
  ShimName : string;
  TokenDir : string;
  TokenPath : string }.

Definition KeyPodNamespace : string := "podNamespace".
Definition KeyServiceAccountName : string := "serviceAccountName".
Definition KeyShimName : string := "shimName".
Definition KeyTokenDir : string := "tokenDir".
Definition KeyTokenPath : string := "tokenPath".
Definition builtinKeys : list string :=
  [KeyPodNamespace; KeyServiceAccountName; KeyShimName; KeyTokenDir; KeyTokenPath].

(** [ConfigMapGetter]: the data of a ConfigMap, empty when it does not exist. *)
Abbreviation ConfigMapGetter := (string → string → result error (gmap string string)) (only parsing).

Record Input := {
  In_Parameters : list ShimParameter;
  In_Lookup : Lookup;
  In_Builtins : Builtins;
  In_ConfigMapNamespace : string;
  In_GetConfigMap : option ConfigMapGetter }.

Section params.
Context `{UnicodeTables} `{TextTemplate}.

(** ** resolve.go *)

(** The error value with the text of its [Error] method. *)
Definition MissingParameterError (name source : string) : error :=
  missingParameterError name source
    ("required parameter " +:+ Quote name +:+ " has no value: " +:+ source
     +:+ " yielded nothing and no default is set").

(** The first value present in Pod, then ServiceAccount, then Namespace. *)
Definition lookupMetadata (l : Lookup) (key : string) (pick : Metadata → gmap string string)
    : string * bool :=
  (fix go (ms : list Metadata) : string * bool :=
     match ms with
     | [] => ("", false)
     | m :: rest => match pick m !! key with Some v => (v, true) | None => go rest end
     end) [L_Pod l; L_ServiceAccount l; L_Namespace l].

Definition sourceDescription (src : ParameterSource) : string :=
  match Static src with
  | Some _ => "static value"
  | None =>
      if negb (String.eqb (Annotation src) "") then "annotation " +:+ Quote (Annotation src)
      else if negb (String.eqb (Label src) "") then "label " +:+ Quote (Label src)
      else match ConfigMapKeyRef src with
      | Some ref => "key " +:+ Quote (CMKS_Key ref) +:+ " of ConfigMap " +:+ Quote (CMKS_Name ref)
      | None => if negb (String.eqb (Template src) "") then "template" else "no source"
      end
  end.

Definition resolveOne (inp : Input) (p : ShimParameter) (sofar : Values)
    : result error (string * bool) :=
  let src := ValueFrom p in
  match Static src with
  | Some v => Ok (v, true)
  | None =>
      if negb (String.eqb (Annotation src) "") then
        Ok (lookupMetadata (In_Lookup inp) (Annotation src) Annotations)
      else if negb (String.eqb (Label src) "") then
        Ok (lookupMetadata (In_Lookup inp) (Label src) Labels)
      else match ConfigMapKeyRef src with
      | Some ref =>
          match In_GetConfigMap inp with
          | None => Err (errorString ("parameter " +:+ Quote (Param_Name p)
                                      +:+ ": configMapKeyRef requires a ConfigMap getter"))
          | Some get =>
              let! data := result_map_err
                (wrapError ("parameter " +:+ Quote (Param_Name p) +:+ ": reading ConfigMap "
                            +:+ Quote (CMKS_Name ref) +:+ ": "))
                (get (In_ConfigMapNamespace inp) (CMKS_Name ref)) in
              Ok (match data !! CMKS_Key ref with Some v => (v, true) | None => ("", false) end)
          end
      | None =>
          if negb (String.eqb (Template src) "") then
            let! v := result_map_err (wrapError ("parameter " +:+ Quote (Param_Name p) +:+ ": "))
                        (Template.Render (Param_Name p) (Template src) sofar) in
            Ok (v, negb (String.eqb v ""))
          else Ok ("", false)
      end
  end.

(** The body of the loop of [Resolve]: the value stored for [p]. *)
Definition resolve_param (inp : Input) (p : ShimParameter) (sofar : Values)
    : result error string :=
  let! (value, found) := resolveOne inp p sofar in
  if (found : bool) then Ok value
  else match Default p with
  | Some d => Ok d
  | None =>
      if Required p
      then Err (MissingParameterError (Param_Name p) (sourceDescription (ValueFrom p)))
      else Ok ""
  end.

Fixpoint resolve_loop (inp : Input) (ps : list ShimParameter) (values : Values)
    : result error Values :=
  match ps with
  | [] => Ok values
  | p :: rest =>
      let! v := resolve_param inp p values in
      resolve_loop inp rest (<[Param_Name p := v]> values)
  end.

Definition builtin_values (b : Builtins) : Values :=
  <[KeyPodNamespace := PodNamespace b]>
  (<[KeyServiceAccountName := ServiceAccountName b]>
  (<[KeyShimName := ShimName b]>
  (<[KeyTokenDir := TokenDir b]>
  (<[KeyTokenPath := TokenPath b]> ∅)))).

Definition Resolve (inp : Input) : result error Values :=
  resolve_loop inp (In_Parameters inp) (builtin_values (In_Builtins inp)).

(** ** validate.go *)

Definition isBuiltinKey (name : string) : bool := existsb (String.eqb name) builtinKeys.

Definition countSources (src : ParameterSource) : nat :=
  length (filter (λ b, b = true)
    [bool_decide (is_Some (Static src)); negb (String.eqb (Annotation src) "");
     negb (String.eqb (Label src) ""); bool_decide (is_Some (ConfigMapKeyRef src));
     negb (String.eqb (Template src) "")]).

(** The problems of one parameter, given the names seen and the keys defined before it. *)
Definition param_problems (defined seen : gset string) (p : ShimParameter) : list error :=
  let q := "parameter " +:+ Quote (Param_Name p) in
  (if decide (Param_Name p ∈ seen) then [errorString (q +:+ ": duplicate name")] else []) ++
  (if isBuiltinKey (Param_Name p)
   then [errorString (q +:+ ": name is reserved for a builtin value")] else []) ++
  (let n := countSources (ValueFrom p) in
   if decide (n ≠ 1)
   then [errorString (q +:+ ": exactly one of static, annotation, label, configMapKeyRef or template must be set, got "
                      +:+ Itoa (Z.of_nat n))] else []) ++
  (if negb (String.eqb (Template (ValueFrom p)) "") then
     match ReferencedKeys (Template (ValueFrom p)) with
     | Err e => [wrapError (q +:+ ": invalid template: ") e]
     | Ok keys =>
         (λ key, errorString (q +:+ ": template references " +:+ Quote key
            +:+ ", which is not a builtin or a parameter defined before it"))
           <$> filter (λ key, key ∉ defined) keys
     end
   else []).

Fixpoint validate_loop (defined seen : gset string) (ps : list ShimParameter) : list error :=
  match ps with
  | [] => []
  | p :: rest =>
      param_problems defined seen p ++
      validate_loop ({[Param_Name p]} ∪ defined) ({[Param_Name p]} ∪ seen) rest
  end.

Definition Validate (parameters : list ShimParameter) : option error :=
  errors_Join (Some <$> validate_loop (list_to_set builtinKeys) ∅ parameters).

End params.

(** ** Validation: what the absence of problems means *)

Section validate_facts.
Context `{UnicodeTables} `{TextTemplate}.

(** The keys a template refers to exist and are all in [avail]. *)
Definition template_ok (avail : string → Prop) (tmpl : string) : Prop :=
  ∃ keys, ReferencedKeys tmpl = Ok keys ∧ ∀ k, k ∈ keys → avail k.

(** The documented rules: unique names, none of them a builtin, exactly one source each, and
    a template refers to builtins or to parameters before it only. *)
Definition params_wf (ps : list ShimParameter) : Prop :=
  NoDup (Param_Name <$> ps) ∧
  ∀ i p, ps !! i = Some p →
    (Param_Name p ∉ builtinKeys) ∧
    countSources (ValueFrom p) = 1 ∧
    (Template (ValueFrom p) ≠ "" →
     template_ok (λ k, k ∈ builtinKeys ∨ ∃ j q, j < i ∧ ps !! j = Some q ∧ Param_Name q = k)
       (Template (ValueFrom p))).

Lemma isBuiltinKey_spec n : isBuiltinKey n = true ↔ n ∈ builtinKeys.
Proof. apply existsb_str_eqb. Qed.

Lemma param_problems_nil defined seen p :
  param_problems defined seen p = [] ↔
  (Param_Name p ∉ seen) ∧ (Param_Name p ∉ builtinKeys) ∧ countSources (ValueFrom p) = 1 ∧
  (Template (ValueFrom p) ≠ "" → template_ok (λ k, k ∈ defined) (Template (ValueFrom p))).
Proof.
  unfold param_problems, template_ok. rewrite !app_nil. rewrite <- isBuiltinKey_spec.
  destruct (String.eqb_spec (Template (ValueFrom p)) "") as [E|E]; simpl.
  - repeat case_decide; destruct (isBuiltinKey _); naive_solver.
  - assert (∀ (keys : list string) (f : string → error), f <$> filter (λ key, key ∉ defined) keys = []
       ↔ ∀ k : string, k ∈ keys → k ∈ defined) as Hf.
    { intros keys f. rewrite fmap_nil_iff, filter_nil_iff. split.
      - intros Hn k Hk. specialize (Hn k Hk). by apply dec_stable.
      - naive_solver. }
    destruct (ReferencedKeys _) as [keys|e]; [rewrite Hf|];
      repeat case_decide; destruct (isBuiltinKey _); naive_solver.
Qed.

Lemma validate_loop_nil ps : ∀ defined seen,
  validate_loop defined seen ps = [] ↔
  NoDup (Param_Name <$> ps) ∧
  ∀ i p, ps !! i = Some p →
    (Param_Name p ∉ seen) ∧ (Param_Name p ∉ builtinKeys) ∧ countSources (ValueFrom p) = 1 ∧
    (Template (ValueFrom p) ≠ "" →
     template_ok (λ k, k ∈ defined ∨ ∃ j q, j < i ∧ ps !! j = Some q ∧ Param_Name q = k)
       (Template (ValueFrom p))).
Proof.
  induction ps as [|p ps IH]; intros defined seen; simpl.
  { split; [|done]. intros _. split; [constructor|]. intros i q Hq. done. }
  rewrite app_nil, param_problems_nil, IH, NoDup_cons. split.
  - intros ((Hs & Hb & Hc & Ht) & Hnd & Hrest). split_and!; [|done|].
    + intros (q & Hn & Hq)%list_elem_of_fmap. apply list_elem_of_lookup in Hq as [i Hi].
      destruct (Hrest i q Hi) as (? & _). set_solver.
    + intros [|i] q Hq; simpl in Hq; simplify_eq.
      * split_and!; [done..|]. intros Hne. destruct (Ht Hne) as (keys & ? & ?).
        exists keys. eauto.
      * destruct (Hrest i q Hq) as (Hs' & Hb' & Hc' & Ht'). split_and!; [set_solver|done..|].
        intros Hne. destruct (Ht' Hne) as (keys & Hk & Hin). exists keys. split; [done|].
        intros k Hkk. destruct (Hin k Hkk) as [Hd|(j & r & ? & ? & ?)].
        -- apply elem_of_union in Hd as [->%elem_of_singleton|?]; [|by left].
           right. exists 0, p. split_and!; [lia|done|done].
        -- right. exists (S j), r. split_and!; [lia|done|done].
  - intros ((Hnin & Hnd) & Hall). split; [|split; [done|]].
    + destruct (Hall 0 p eq_refl) as (? & ? & ? & Ht). split_and!; [done..|].
      intros Hne. destruct (Ht Hne) as (keys & ? & Hin). exists keys. split; [done|].
      intros k Hk. destruct (Hin k Hk) as [?|(j & ? & ? & _)]; [done|lia].
    + intros i q Hq. destruct (Hall (S i) q Hq) as (? & ? & ? & Ht). split_and!; [|done..|].
      * apply not_elem_of_union. split; [|done]. intros Heq%elem_of_singleton. apply Hnin.
        rewrite <- Heq. apply list_elem_of_fmap. exists q. split; [done|]. by eapply list_elem_of_lookup_2.
      * intros Hne. destruct (Ht Hne) as (keys & ? & Hin). exists keys. split; [done|].
        intros k Hk. destruct (Hin k Hk) as [?|([|j] & r & ? & Hr & ?)]; [set_solver| |].
        -- simpl in Hr. simplify_eq. set_solver.
        -- right. exists j, r. split_and!; [lia|done|done].
Qed.

Lemma Validate_None_iff ps : Validate ps = None ↔ params_wf ps.
Proof.
  unfold Validate. rewrite errors_Join_somes, validate_loop_nil. unfold params_wf.
  split; intros [Hnd Hall]; (split; [done|]); intros i p Hi; pose proof (Hall i p Hi) as HH.
  - destruct HH as (_ & ? & ? & Ht). split_and!; [done..|]. intros Hne.
    destruct (Ht Hne) as (keys & ? & Hin). exists keys. split; [done|]. intros k Hk.
    destruct (Hin k Hk) as [?%elem_of_list_to_set|?]; eauto.
  - destruct HH as (? & ? & Ht). split_and!; [set_solver|done..|]. intros Hne.
    destruct (Ht Hne) as (keys & ? & Hin). exists keys. split; [done|]. intros k Hk.
    destruct (Hin k Hk) as [?|?]; [left; by apply elem_of_list_to_set|eauto].
Qed.
End validate_facts.

(** ** Resolution *)

Section resolve_facts.
Context `{UnicodeTables} `{TextTemplate}.

Lemma resolve_loop_app inp ps1 : ∀ ps2 v,
  resolve_loop inp (ps1 ++ ps2) v
  = let! v1 := resolve_loop inp ps1 v in resolve_loop inp ps2 v1.
Proof.
  induction ps1 as [|p ps1 IH]; intros ps2 v; simpl; [done|].
  destruct (resolve_param inp p v); simpl; [apply IH|done].
Qed.

(** Names that no later parameter carries keep their value. *)
Lemma resolve_loop_frame inp ps : ∀ v v' k,
  resolve_loop inp ps v = Ok v' → k ∉ Param_Name <$> ps → v' !! k = v !! k.
Proof.
  induction ps as [|p ps IH]; intros v v' k Hr Hk; simpl in Hr; inv_result; [done|].
  rewrite fmap_cons, not_elem_of_cons in Hk. destruct Hk as [Hne Hk].
  rewrite (IH _ _ _ H2 Hk). by rewrite lookup_insert_ne.
Qed.

Lemma resolve_loop_dom inp ps : ∀ v v',
  resolve_loop inp ps v = Ok v' → dom v' = dom v ∪ list_to_set (Param_Name <$> ps).
Proof.
  induction ps as [|p ps IH]; intros v v' Hr; simpl in Hr; inv_result; [set_solver|].
  rewrite (IH _ _ H2), dom_insert_L, fmap_cons. set_solver.
Qed.

Lemma builtin_values_dom b : dom (builtin_values b) = list_to_set builtinKeys.
Proof. unfold builtin_values, builtinKeys. rewrite !dom_insert_L, dom_empty_L. set_solver. Qed.

(** The values [Resolve] has when it reaches the [i]-th parameter. *)
Definition values_before (inp : Input) (i : nat) : result error Values :=
  resolve_loop inp (take i (In_Parameters inp)) (builtin_values (In_Builtins inp)).

Lemma Resolve_split inp i p values :
  In_Parameters inp !! i = Some p → Resolve inp = Ok values →
  ∃ sofar v, values_before inp i = Ok sofar ∧ resolve_param inp p sofar = Ok v ∧
    resolve_loop inp (drop (S i) (In_Parameters inp)) (<[Param_Name p := v]> sofar) = Ok values.
Proof.
  intros Hi Hr. unfold Resolve in Hr. rewrite <- (take_drop_middle _ _ _ Hi) in Hr.
  rewrite resolve_loop_app in Hr. simpl in Hr. inv_result. unfold values_before. eauto.
Qed.

Lemma values_before_dom inp i sofar :
  values_before inp i = Ok sofar →
  dom sofar = list_to_set builtinKeys ∪ list_to_set (Param_Name <$> take i (In_Parameters inp)).
Proof. intros Hb. by rewrite (resolve_loop_dom _ _ _ _ Hb), builtin_values_dom. Qed.

(** Where the value of a parameter comes from when its source yields nothing. *)
Definition fallback (p : ShimParameter) : option string :=
  match Default p with
  | Some d => Some d
  | None => if Required p then None else Some ""
  end.

(** What a metadata source yields: the first object, in the order Pod, ServiceAccount,
    Namespace, that carries the key. *)
Definition metadata_value (l : Lookup) (key : string) (pick : Metadata → gmap string string)
    : option string :=
  match pick (L_Pod l) !! key with
  | Some v => Some v
  | None =>
      match pick (L_ServiceAccount l) !! key with
      | Some v => Some v
      | None => pick (L_Namespace l) !! key
      end
  end.

Lemma lookupMetadata_spec l key pick :
  lookupMetadata l key pick
  = match metadata_value l key pick with Some v => (v, true) | None => ("", false) end.
Proof. unfold lookupMetadata, metadata_value. repeat case_match; congruence. Qed.

(** The abstract contract of one parameter: [yields inp p sofar o] when the source of [p]
    yields the value [o], or nothing. *)
Inductive yields (inp : Input) (p : ShimParameter) (sofar : Values) : option string → Prop :=
| yields_static v :
    Static (ValueFrom p) = Some v → yields inp p sofar (Some v)
| yields_annotation :
    Static (ValueFrom p) = None → Annotation (ValueFrom p) ≠ "" →
    yields inp p sofar (metadata_value (In_Lookup inp) (Annotation (ValueFrom p)) Annotations)
| yields_label :
    Static (ValueFrom p) = None → Annotation (ValueFrom p) = "" → Label (ValueFrom p) ≠ "" →
    yields inp p sofar (metadata_value (In_Lookup inp) (Label (ValueFrom p)) Labels)
| yields_configMap ref get data :
    Static (ValueFrom p) = None → Annotation (ValueFrom p) = "" → Label (ValueFrom p) = "" →
    ConfigMapKeyRef (ValueFrom p) = Some ref → In_GetConfigMap inp = Some get →
    get (In_ConfigMapNamespace inp) (CMKS_Name ref) = Ok data →
    yields inp p sofar (data !! CMKS_Key ref)
| yields_template text :
    Static (ValueFrom p) = None → Annotation (ValueFrom p) = "" → Label (ValueFrom p) = "" →
    ConfigMapKeyRef (ValueFrom p) = None → Template (ValueFrom p) ≠ "" →
    Template.Render (Param_Name p) (Template (ValueFrom p)) sofar = Ok text →
    yields inp p sofar (if String.eqb text "" then None else Some text)
| yields_no_source :
    Static (ValueFrom p) = None → Annotation (ValueFrom p) = "" → Label (ValueFrom p) = "" →
    ConfigMapKeyRef (ValueFrom p) = None → Template (ValueFrom p) = "" →
    yields inp p sofar None.

Lemma resolveOne_yields inp p sofar v found :
  resolveOne inp p sofar = Ok (v, found) →
  yields inp p sofar (if found then Some v else None).
Proof.
  unfold resolveOne. destruct (Static _) eqn:Hs; [intros [= <- <-]; by constructor|].
  destruct (String.eqb_spec (Annotation (ValueFrom p)) "") as [Ha|Ha]; simpl.
  2: { rewrite lookupMetadata_spec. intros [= Hm]. pose proof (yields_annotation inp p sofar Hs Ha).
       destruct (metadata_value _ _ _); by injection Hm as <- <-. }
  destruct (String.eqb_spec (Label (ValueFrom p)) "") as [Hl|Hl]; simpl.
  2: { rewrite lookupMetadata_spec. intros [= Hm]. pose proof (yields_label inp p sofar Hs Ha Hl).
       destruct (metadata_value _ _ _); by injection Hm as <- <-. }
  destruct (ConfigMapKeyRef _) as [ref|] eqn:Hc.
  - destruct (In_GetConfigMap inp) as [get|] eqn:Hg; [|done].
    intros (data & Hd%result_map_err_Ok & [= Hv])%result_bind_Ok.
    pose proof (yields_configMap inp p sofar ref get data Hs Ha Hl Hc Hg Hd).
    destruct (data !! CMKS_Key ref); by simplify_eq.
  - destruct (String.eqb_spec (Template (ValueFrom p)) "") as [Ht|Ht]; simpl.
    + intros [= <- <-]. by apply yields_no_source.
    + intros (text & Hr%result_map_err_Ok & [= -> <-])%result_bind_Ok.
      pose proof (yields_template inp p sofar v Hs Ha Hl Hc Ht Hr) as Hy.
      by destruct (String.eqb_spec v "").
Qed.

Lemma resolve_param_Ok inp p sofar v :
  resolve_param inp p sofar = Ok v →
  ∃ o, yields inp p sofar o ∧ match o with Some w => v = w | None => fallback p = Some v end.
Proof.
  unfold resolve_param, fallback. intros Hr. inv_result. destruct x as [w found].
  exists (if found then Some w else None). split; [by apply resolveOne_yields|].
  repeat case_match; inv_result; congruence.
Qed.
End resolve_facts.

(** ** Properties *)

Section params_properties.
Context `{UnicodeTables} `{TextTemplate}.

(** [Validate] returns nil exactly on the parameter lists that follow the documented
    rules: unique names, none reserved for a builtin, exactly one source each, and every
    template parses and refers to builtins or earlier parameters only. *)
Theorem validate_parameters_iff ps : Validate ps = None ↔ params_wf ps.
Proof. apply Validate_None_iff. Qed.

Lemma NoDup_lookup_drop ps i p :
  NoDup (Param_Name <$> ps) → ps !! i = Some p →
  Param_Name p ∉ Param_Name <$> drop (S i) ps.
Proof.
  intros Hnd Hi. rewrite <- (take_drop_middle _ _ _ Hi), fmap_app, fmap_cons in Hnd.
  apply NoDup_app in Hnd as (_ & _ & [Hnin _]%NoDup_cons). done.
Qed.

(** C13. Refinement of resolution to its contract: for a valid parameter list the result
    holds exactly the builtins and the parameters, the builtins with their own values, and
    each parameter with what its source yields at that point of the list (over the values
    of the builtins and the earlier parameters), or else its default, or else the empty
    string when it is not required. *)
Theorem resolve_refines_contract inp values :
  Validate (In_Parameters inp) = None → Resolve inp = Ok values →
  dom values = list_to_set builtinKeys ∪ list_to_set (Param_Name <$> In_Parameters inp) ∧
  (∀ k, k ∈ builtinKeys → values !! k = builtin_values (In_Builtins inp) !! k) ∧
  ∀ i p, In_Parameters inp !! i = Some p →
    ∃ sofar o v, values_before inp i = Ok sofar ∧ yields inp p sofar o ∧
      values !! Param_Name p = Some v ∧
      match o with Some w => v = w | None => fallback p = Some v end.
Proof.
  intros [Hnd Hwf]%Validate_None_iff Hr. split_and!.
  - unfold Resolve in Hr. by rewrite (resolve_loop_dom _ _ _ _ Hr), builtin_values_dom.
  - intros k Hk. apply (resolve_loop_frame _ _ _ _ _ Hr).
    intros (p & -> & [i Hi]%list_elem_of_lookup)%list_elem_of_fmap.
    by destruct (Hwf i p Hi) as [? _].
  - intros i p Hi. destruct (Resolve_split _ _ _ _ Hi Hr) as (sofar & v & Hb & Hp & Hrest).
    apply resolve_param_Ok in Hp as (o & Hy & Hv). exists sofar, o, v.
    split_and!; [done..| |done].
    rewrite (resolve_loop_frame _ _ _ _ _ Hrest) by (by apply NoDup_lookup_drop).
    apply lookup_insert_eq.
Qed.

Lemma template_ok_mono (P Q : string → Prop) tmpl :
  (∀ k, P k → Q k) → template_ok P tmpl → template_ok Q tmpl.
Proof. intros HPQ (keys & ? & Hk). exists keys. auto. Qed.

Lemma template_keys_defined inp i p sofar :
  Validate (In_Parameters inp) = None → In_Parameters inp !! i = Some p →
  Template (ValueFrom p) ≠ "" → values_before inp i = Ok sofar →
  ∃ keys, ReferencedKeys (Template (ValueFrom p)) = Ok keys ∧
    ∀ k, k ∈ keys → is_Some (sofar !! k).
Proof.
  intros [Hnd Hwf]%Validate_None_iff Hi Hne Hb. destruct (Hwf i p Hi) as (_ & _ & Ht).
  apply (template_ok_mono _ _ _) with (2 := Ht Hne). intros k Hk.
  apply elem_of_dom. rewrite (values_before_dom _ _ _ Hb), elem_of_union, !elem_of_list_to_set.
  destruct Hk as [?|(j & q & Hj & Hq & <-)]; [by left|right].
  apply list_elem_of_fmap. exists q. split; [done|].
  apply list_elem_of_lookup. exists j. by rewrite lookup_take_lt.
Qed.

(** The static check matches what resolution has available: when a valid list is
    resolved up to the [i]-th parameter, every key the template of that parameter
    references already has a value. *)
Theorem validated_template_keys_defined inp i p sofar :
  Validate (In_Parameters inp) = None → In_Parameters inp !! i = Some p →
  Template (ValueFrom p) ≠ "" → values_before inp i = Ok sofar →
  ∃ keys, ReferencedKeys (Template (ValueFrom p)) = Ok keys ∧
    ∀ k, k ∈ keys → is_Some (sofar !! k).
Proof. apply template_keys_defined. Qed.

(** What can go wrong with one parameter. *)
Inductive param_failure (inp : Input) (p : ShimParameter) (sofar : Values) : error → Prop :=
| failure_missing :
    Required p = true → Default p = None → yields inp p sofar None →
    param_failure inp p sofar
      (MissingParameterError (Param_Name p) (sourceDescription (ValueFrom p)))
| failure_no_getter msg ref :
    ConfigMapKeyRef (ValueFrom p) = Some ref → In_GetConfigMap inp = None →
    param_failure inp p sofar (errorString msg)
| failure_read msg ref get e :
    ConfigMapKeyRef (ValueFrom p) = Some ref → In_GetConfigMap inp = Some get →
    get (In_ConfigMapNamespace inp) (CMKS_Name ref) = Err e →
    param_failure inp p sofar (wrapError msg e)
| failure_render msg e :
    Template (ValueFrom p) ≠ "" →
    Template.Render (Param_Name p) (Template (ValueFrom p)) sofar = Err e →
    param_failure inp p sofar (wrapError msg e).

Lemma resolve_param_Err inp p sofar e :
  resolve_param inp p sofar = Err e → param_failure inp p sofar e.
Proof.
  unfold resolve_param. destruct (resolveOne inp p sofar) as [[v found]|e'] eqn:Ho; simpl.
  - apply resolveOne_yields in Ho. destruct found; [done|]. destruct (Default p) eqn:Hd; [done|].
    destruct (Required p) eqn:Hq; [|done]. intros [= <-]. by constructor.
  - intros [= <-]. unfold resolveOne in Ho.
    destruct (Static _); [done|]. destruct (negb _); [done|]. destruct (negb _); [done|].
    destruct (ConfigMapKeyRef _) as [ref|] eqn:Hc.
    + destruct (In_GetConfigMap inp) as [get|] eqn:Hg; [|injection Ho as <-; by econstructor].
      destruct (get _ _) as [data|e0] eqn:Hget; simpl in Ho; [done|].
      injection Ho as <-. by econstructor.
    + destruct (String.eqb_spec (Template (ValueFrom p)) "") as [Ht|Ht]; simpl in Ho; [done|].
      destruct (Template.Render _ _ _) eqn:Hren; simpl in Ho; [done|].
      injection Ho as <-. by econstructor.
Qed.

Lemma Resolve_Err inp e :
  Resolve inp = Err e →
  ∃ i p sofar, In_Parameters inp !! i = Some p ∧ values_before inp i = Ok sofar ∧
    param_failure inp p sofar e.
Proof.
  unfold Resolve, values_before. generalize (builtin_values (In_Builtins inp)).
  induction (In_Parameters inp) as [|p ps IH]; intros v Hr; simpl in Hr; [done|].
  destruct (resolve_param inp p v) as [w|e'] eqn:Hp; simpl in Hr.
  - apply IH in Hr as (i & q & sofar & Hi & Hb & Hf). exists (S i), q, sofar.
    split_and!; [done| |done]. simpl. by rewrite Hp.
  - injection Hr as ->. exists 0, p, v. split_and!; [done..|]. by apply resolve_param_Err.
Qed.

(** C35. Every error of [Resolve] has a cause at the first parameter that fails: a required
    parameter without default whose source yields nothing, a ConfigMap read that failed (or
    no reader), or a template that does not render over the values so far.  Nothing after
    that parameter is looked at. *)
Theorem resolve_error_cause inp e :
  Resolve inp = Err e →
  ∃ i p sofar, In_Parameters inp !! i = Some p ∧ values_before inp i = Ok sofar ∧
    param_failure inp p sofar e.
Proof. apply Resolve_Err. Qed.
End params_properties.

(** Success: with the core engine, a valid parameter list whose templates are simple,
    whose required parameters have defaults and whose ConfigMap reads do not fail always
    resolves.  The validation of the controller therefore rules out every template failure
    of such a shim at admission time. *)
Theorem resolve_succeeds `{UnicodeTables} inp get :
  Validate (In_Parameters inp) = None →
  (∀ p, p ∈ In_Parameters inp →
     (Template (ValueFrom p) ≠ "" → simple_template (Template (ValueFrom p)) = true) ∧
     (Required p = true → Default p ≠ None)) →
  In_GetConfigMap inp = Some get → (∀ ns name, is_Ok (get ns name)) →
  is_Ok (Resolve inp).
Proof.
  intros Hval Hps Hget Hok. destruct (Resolve inp) as [v|e] eqn:Hr; [by eexists|]. exfalso.
  apply Resolve_Err in Hr as (i & p & sofar & Hi & Hb & Hf).
  destruct (Hps p) as [Hsimple Hdef]; [by eapply list_elem_of_lookup_2|].
  destruct Hf as [Hq Hd _|msg ref _ Hn|msg ref get' e _ Hg He|msg e Ht He].
  - by apply Hdef.
  - congruence.
  - simplify_eq. destruct (Hok (In_ConfigMapNamespace inp) (CMKS_Name ref)). congruence.
  - destruct (template_keys_defined inp i p sofar Hval Hi Ht Hb) as (keys & Hk & Hall).
    destruct (render_simple_ok (Param_Name p) _ _ _ (Hsimple Ht) Hk Hall). congruence.
Qed.

(** ** A concrete parameter list (the shape of the GCP sample) *)

Definition no_source : ParameterSource :=
  {| Static := None; Annotation := ""; Label := ""; ConfigMapKeyRef := None; Template := "" |}.
Definition from_annotation (a : string) : ParameterSource :=
  {| Static := None; Annotation := a; Label := ""; ConfigMapKeyRef := None; Template := "" |}.
Definition from_template (t : string) : ParameterSource :=
  {| Static := None; Annotation := ""; Label := ""; ConfigMapKeyRef := None; Template := t |}.

Definition sample_parameters : list ShimParameter :=
  [ {| Param_Name := "project"; ValueFrom := from_annotation "iam.gke.io/gcp-project-number";
       Default := Some "1"; Required := true |};
    {| Param_Name := "location"; ValueFrom := from_annotation "iam.gke.io/gcp-wid-pool-location";
       Default := Some "global"; Required := false |};
    {| Param_Name := "audience";
       ValueFrom := from_template "//iam/projects/{{ .project }}/locations/{{ .location }}";
       Default := None; Required := false |} ].

Definition sample_metadata : Metadata := {| Annotations := ∅; Labels := ∅ |}.
Definition sample_input : Input :=
  {| In_Parameters := sample_parameters;
     In_Lookup := {| L_Pod := sample_metadata;
                     L_ServiceAccount := sample_metadata;
                     L_Namespace := {| Annotations := {["iam.gke.io/gcp-project-number" := "42"]};
                                       Labels := ∅ |} |};
     In_Builtins := {| PodNamespace := "my-app"; ServiceAccountName := "default";
                       ShimName := "gcp"; TokenDir := "/t"; TokenPath := "/t/token" |};
     In_ConfigMapNamespace := "my-app";
     In_GetConfigMap := Some (λ _ _, Ok ∅) |}.

Definition sample_values : Values :=
  match @Resolve ascii_tables core_templates sample_input with Ok v => v | Err _ => ∅ end.

Example sample_audience :
  sample_values !! "audience" = Some "//iam/projects/42/locations/global".
Proof. vm_compute. reflexivity. Qed.

Lemma resolve_refines_contract_witness :
  @Validate ascii_tables core_templates sample_parameters = None ∧
  @Resolve ascii_tables core_templates sample_input = Ok sample_values ∧
  dom sample_values = list_to_set builtinKeys ∪ list_to_set (Param_Name <$> sample_parameters).
Proof.
  split; [vm_compute; reflexivity|]. split; [vm_compute; reflexivity|].
  apply (@resolve_refines_contract ascii_tables core_templates sample_input sample_values);
    vm_compute; reflexivity.
Defined.

Definition sample_before : Values :=
  match @values_before ascii_tables core_templates sample_input 2 with Ok v => v | Err _ => ∅ end.

Lemma validated_template_keys_defined_witness :
  ∃ keys, @ReferencedKeys core_templates "//iam/projects/{{ .project }}/locations/{{ .location }}"
            = Ok keys ∧ ∀ k, k ∈ keys → is_Some (sample_before !! k).
Proof.
  apply (@validated_template_keys_defined ascii_tables core_templates sample_input 2
           {| Param_Name := "audience";
              ValueFrom := from_template "//iam/projects/{{ .project }}/locations/{{ .location }}";
              Default := None; Required := false |} sample_before).
  - vm_compute. reflexivity.
  - reflexivity.
  - discriminate.
  - vm_compute. reflexivity.
Defined.

(** Without the default the annotation is mandatory. *)
Definition sample_missing_input : Input :=
  {| In_Parameters := [ {| Param_Name := "p"; ValueFrom := from_annotation "a";
                           Default := None; Required := true |} ];
     In_Lookup := In_Lookup sample_input; In_Builtins := In_Builtins sample_input;
     In_ConfigMapNamespace := ""; In_GetConfigMap := None |}.
Definition sample_missing_error : error :=
  @MissingParameterError ascii_tables "p" ("annotation " +:+ @Quote ascii_tables "a").

Lemma resolve_error_cause_witness :
  @Resolve ascii_tables core_templates sample_missing_input = Err sample_missing_error ∧
  ∃ i p sofar, In_Parameters sample_missing_input !! i = Some p ∧
    @values_before ascii_tables core_templates sample_missing_input i = Ok sofar ∧
    @param_failure ascii_tables core_templates sample_missing_input p sofar sample_missing_error.
Proof.
  split; [vm_compute; reflexivity|].
  apply (@resolve_error_cause ascii_tables core_templates sample_missing_input).
  vm_compute. reflexivity.
Defined.

Lemma resolve_succeeds_witness : is_Ok (@Resolve ascii_tables core_templates sample_input).
Proof.
  apply (@resolve_succeeds ascii_tables sample_input (λ _ _, Ok ∅)).
  - vm_compute. reflexivity.
  - intros p Hp. repeat (apply elem_of_cons in Hp as [->|Hp]);
      [split; [done|done]..|by apply elem_of_nil in Hp].
  - reflexivity.
  - intros ns name. by eexists.
Defined.
