(* ===== verification/Selection.v ===== *)
(** * Selecting the pods of a shim (src/internal/selection) *)

From S2P Require Import Prelude GoStd GoStdFacts Kube Api.

(** ** exclusions.go *)

Record Exclusions := { Names : list string; Prefixes : list string }.

Definition Excluded (e : Exclusions) (namespace : string) : bool :=
  if existsb (String.eqb namespace) (Names e) then true
  else existsb (HasPrefix namespace) (Prefixes e).

(** ** match.go *)

(** The pod being admitted and the objects it belongs to; [None] is a nil pointer. *)
Record Target := {
  T_Pod : option Pod;
  T_ServiceAccount : option KubeObject;
  T_Namespace : option KubeObject }.

Definition ParseEnrollment (value : string) : list string :=
  filter (λ name, name ≠ "") (map TrimSpace (Split value ","%char)).

Definition kindEnabled (toggle : option bool) : bool :=
  match toggle with None => true | Some b => b end.

(** A missing key reads as the empty string, as Go's map index does. *)
Definition map_get (m : gmap string string) (k : string) : string := default "" (m !! k).

Definition enrolls (shimName : string) (annotations objectLabels : gmap string string) : bool :=
  existsb (λ m, existsb (λ name, String.eqb name shimName) (ParseEnrollment (map_get m EnrollmentKey)))
    [annotations; objectLabels].

Definition Enrolled (shimName : string) (enrollment : option EnrollmentSpec) (t : Target) : bool :=
  let '(namespaces, serviceAccounts, pods) :=
    match enrollment with
    | Some e => (Enrollment_Namespaces e, Enrollment_ServiceAccounts e, Enrollment_Pods e)
    | None => (None, None, None)
    end in
  if kindEnabled namespaces
     && match T_Namespace t with
        | Some o => enrolls shimName (Obj_Annotations o) (Obj_Labels o) | None => false end
  then true
  else if kindEnabled serviceAccounts
     && match T_ServiceAccount t with
        | Some o => enrolls shimName (Obj_Annotations o) (Obj_Labels o) | None => false end
  then true
  else if kindEnabled pods
     && match T_Pod t with
        | Some p => enrolls shimName (Pod_Annotations p) (Pod_Labels p) | None => false end
  then true
  else false.

Definition namespaceLabels (t : Target) : option (gmap string string) := Obj_Labels <$> T_Namespace t.
Definition serviceAccountLabels (t : Target) : option (gmap string string) :=
  Obj_Labels <$> T_ServiceAccount t.
Definition podLabels (t : Target) : option (gmap string string) := Pod_Labels <$> T_Pod t.

Definition OptedOut (pod : option Pod) : bool :=
  match pod with
  | None => false
  | Some p =>
      match Pod_Annotations p !! InjectAnnotation with
      | Some value => EqualFold (TrimSpace value) "false"
      | None => false
      end
  end.

Section selection.
Context `{LabelSelectors}.

Record compiledSelector := {
  selector : Selector;
  target : Target → option (gmap string string) }.

(** The three selector fields with the object each applies to. *)
Definition sources (sel : SelectionSpec)
    : list (string * option LabelSelector * (Target → option (gmap string string))) :=
  [ ("namespaceSelector", NamespaceSelector sel, namespaceLabels);
    ("serviceAccountSelector", ServiceAccountSelector sel, serviceAccountLabels);
    ("podSelector", PodSelector sel, podLabels) ].

(** The loop of [compile]: the converted selectors and the errors, both in order. *)
Fixpoint compile_loop
    (srcs : list (string * option LabelSelector * (Target → option (gmap string string))))
    : list compiledSelector * list error :=
  match srcs with
  | [] => ([], [])
  | (field, s, tgt) :: rest =>
      let '(compiled, errs) := compile_loop rest in
      match s with
      | None => (compiled, errs)
      | Some ls =>
          match LabelSelectorAsSelector ls with
          | Err e => (compiled, wrapError (field +:+ ": ") e :: errs)
          | Ok sl => ({| selector := sl; target := tgt |} :: compiled, errs)
          end
      end
  end.

Definition compile (sel : SelectionSpec) : result error (list compiledSelector) :=
  let '(compiled, errs) := compile_loop (sources sel) in
  match errors_Join (Some <$> errs) with
  | Some e => Err e
  | None => Ok compiled
  end.

(** The loop over the compiled selectors. *)
Fixpoint match_loop (matched : bool) (cs : list compiledSelector) (t : Target) : bool :=
  match cs with
  | [] => matched
  | s :: rest =>
      match target s t with
      | None => false
      | Some objectLabels =>
          if negb (Selector_Matches (selector s) objectLabels) then false
          else match_loop true rest t
      end
  end.

Definition Matches (shimName : string) (sel : SelectionSpec) (t : Target) : result error bool :=
  let! compiled := compile sel in
  if Enrolled shimName (Enrollment sel) t then Ok true else Ok (match_loop false compiled t).

Definition Validate (sel : SelectionSpec) : option error :=
  match compile sel with Ok _ => None | Err e => Some e end.

(** ** Specification *)

(** The object consulted for enrollment, with the toggle of its kind. *)
Definition enrollment_objects (enrollment : option EnrollmentSpec) (t : Target)
    : list (option bool * option (gmap string string * gmap string string)) :=
  let meta o := (Obj_Annotations o, Obj_Labels o) in
  [ (enrollment ≫= Enrollment_Namespaces, meta <$> T_Namespace t);
    (enrollment ≫= Enrollment_ServiceAccounts, meta <$> T_ServiceAccount t);
    (enrollment ≫= Enrollment_Pods, (λ p, (Pod_Annotations p, Pod_Labels p)) <$> T_Pod t) ].

(** Some object of an enabled kind lists the shim under the enrollment key, in an annotation
    or a label. *)
Definition enrolled_spec (shimName : string) (enrollment : option EnrollmentSpec) (t : Target)
    : Prop :=
  ∃ toggle annotations labels,
    (toggle, Some (annotations, labels)) ∈ enrollment_objects enrollment t ∧
    toggle ≠ Some false ∧
    ∃ value, (annotations !! EnrollmentKey = Some value ∨ labels !! EnrollmentKey = Some value) ∧
      shimName ∈ ParseEnrollment value.

(** The labels satisfy the selector. *)
Definition selector_matches (ls : LabelSelector) (labels : gmap string string) : Prop :=
  ∃ s, LabelSelectorAsSelector ls = Ok s ∧ Selector_Matches s labels = true.

(** At least one selector is set; a set namespace selector matches the labels of the namespace,
    a set service account selector those of the service account and a set pod selector those
    of the pod, each of which exists. *)
Record selected_spec (sel : SelectionSpec) (t : Target) : Prop := {
  ss_some : is_Some (NamespaceSelector sel) ∨ is_Some (ServiceAccountSelector sel)
            ∨ is_Some (PodSelector sel);
  ss_namespace : ∀ ls, NamespaceSelector sel = Some ls →
    ∃ ns, T_Namespace t = Some ns ∧ selector_matches ls (Obj_Labels ns);
  ss_account : ∀ ls, ServiceAccountSelector sel = Some ls →
    ∃ sa, T_ServiceAccount t = Some sa ∧ selector_matches ls (Obj_Labels sa);
  ss_pod : ∀ ls, PodSelector sel = Some ls →
    ∃ pod, T_Pod t = Some pod ∧ selector_matches ls (Pod_Labels pod) }.

(** Every selector that is set converts. *)
Definition selectors_valid (sel : SelectionSpec) : Prop :=
  ∀ ls, NamespaceSelector sel = Some ls ∨ ServiceAccountSelector sel = Some ls
        ∨ PodSelector sel = Some ls → is_Ok (LabelSelectorAsSelector ls).
End selection.

Section selection_facts.
Context `{LabelSelectors}.

(** The rows of the table, spelled out. *)
Lemma sources_elem sel f ls tgt :
  (f, Some ls, tgt) ∈ sources sel ↔
  (f = "namespaceSelector" ∧ NamespaceSelector sel = Some ls ∧ tgt = namespaceLabels)
  ∨ (f = "serviceAccountSelector" ∧ ServiceAccountSelector sel = Some ls
     ∧ tgt = serviceAccountLabels)
  ∨ (f = "podSelector" ∧ PodSelector sel = Some ls ∧ tgt = podLabels).
Proof.
  unfold sources. rewrite !elem_of_cons, elem_of_nil. split.
  - intros [[= -> -> ->]|[[= -> -> ->]|[[= -> -> ->]|[]]]]; auto.
  - intros [(-> & -> & ->)|[(-> & -> & ->)|(-> & -> & ->)]]; auto.
Qed.

Lemma sources_valid sel :
  (∀ f ls tgt, (f, Some ls, tgt) ∈ sources sel → is_Ok (LabelSelectorAsSelector ls))
  ↔ selectors_valid sel.
Proof. unfold selectors_valid. setoid_rewrite sources_elem. naive_solver. Qed.

Lemma sources_selected sel t :
  (∃ f ls tgt, (f, Some ls, tgt) ∈ sources sel)
  ∧ (∀ f ls tgt, (f, Some ls, tgt) ∈ sources sel →
       ∃ s m, LabelSelectorAsSelector ls = Ok s ∧ tgt t = Some m ∧ Selector_Matches s m = true)
  ↔ selected_spec sel t.
Proof.
  setoid_rewrite sources_elem. split.
  - intros [Hex Hall]. split.
    + unfold is_Some. naive_solver.
    + intros ls Hls. edestruct Hall as (s & m & Hs & Ht & Hm); [by left|].
      apply fmap_Some in Ht as (ns & Hns & ->). exists ns. split; [done|]. by exists s.
    + intros ls Hls. edestruct Hall as (s & m & Hs & Ht & Hm); [by right; left|].
      apply fmap_Some in Ht as (sa & Hsa & ->). exists sa. split; [done|]. by exists s.
    + intros ls Hls. edestruct Hall as (s & m & Hs & Ht & Hm); [by right; right|].
      apply fmap_Some in Ht as (pod & Hp & ->). exists pod. split; [done|]. by exists s.
  - intros [Hex Hn Ha Hp]. split; [unfold is_Some in Hex; naive_solver|].
    intros f ls tgt [(_ & Hls & ->)|[(_ & Hls & ->)|(_ & Hls & ->)]].
    + destruct (Hn ls Hls) as (ns & Ht & s & Hs & Hm). exists s, (Obj_Labels ns).
      unfold namespaceLabels. by rewrite Ht.
    + destruct (Ha ls Hls) as (sa & Ht & s & Hs & Hm). exists s, (Obj_Labels sa).
      unfold serviceAccountLabels. by rewrite Ht.
    + destruct (Hp ls Hls) as (pod & Ht & s & Hs & Hm). exists s, (Pod_Labels pod).
      unfold podLabels. by rewrite Ht.
Qed.

Lemma compile_loop_errs srcs :
  (compile_loop srcs).2 = [] ↔
  ∀ f ls tgt, (f, Some ls, tgt) ∈ srcs → is_Ok (LabelSelectorAsSelector ls).
Proof.
  induction srcs as [|[[f s] tgt] srcs IH]; simpl.
  { split; [|done]. intros _ f ls tgt Hin. by apply elem_of_nil in Hin. }
  destruct (compile_loop srcs) as [cs errs]; simpl in IH.
  destruct s as [ls|]; [destruct (LabelSelectorAsSelector ls) as [sl|e] eqn:E|]; simpl.
  - rewrite IH. split; intros Hall f' ls' tgt' Hin.
    + apply elem_of_cons in Hin as [[= -> -> ->]|Hin]; [by eexists|eauto].
    + eapply Hall. by apply elem_of_cons; right.
  - split; [done|]. intros Hall. destruct (Hall f ls tgt) as [? ?]; [by apply elem_of_cons; left|].
    congruence.
  - rewrite IH. split; intros Hall f' ls' tgt' Hin.
    + apply elem_of_cons in Hin as [[=]|Hin]; eauto.
    + eapply Hall. by apply elem_of_cons; right.
Qed.

Lemma compile_loop_elem srcs c :
  c ∈ (compile_loop srcs).1 ↔
  ∃ f ls s, (f, Some ls, target c) ∈ srcs ∧ LabelSelectorAsSelector ls = Ok s ∧ selector c = s.
Proof.
  induction srcs as [|[[f s] tgt] srcs IH]; simpl.
  { split; [by intros ?%elem_of_nil|]. intros (?&?&?&Hin&_). by apply elem_of_nil in Hin. }
  destruct (compile_loop srcs) as [cs errs]; simpl in IH.
  setoid_rewrite elem_of_cons.
  destruct s as [ls|]; [destruct (LabelSelectorAsSelector ls) as [sl|e] eqn:E|]; simpl;
    rewrite ?elem_of_cons, IH.
  - split.
    + intros [->|(f' & ls' & s' & ? & ? & ?)]; [exists f, ls, sl|exists f', ls', s']; auto.
    + intros (f' & ls' & s' & [[= -> -> Ht]|?] & ? & Hs); [left|right; eauto 10].
      destruct c; simpl in *. congruence.
  - split; [naive_solver|].
    intros (f' & ls' & s' & [[= -> -> Ht]|?] & ? & Hs); [congruence|eauto 10].
  - split; [naive_solver|]. intros (f' & ls' & s' & [[=]|?] & ? & Hs). eauto 10.
Qed.

Lemma match_loop_true cs t : ∀ m,
  match_loop m cs t = true ↔
  (m = true ∨ cs ≠ []) ∧
  ∀ c, c ∈ cs → ∃ l, target c t = Some l ∧ Selector_Matches (selector c) l = true.
Proof.
  induction cs as [|c cs IH]; intros m; simpl.
  - split; [|naive_solver]. intros ->. split; [by left|]. intros c Hc. by apply elem_of_nil in Hc.
  - destruct (target c t) as [l|] eqn:Et.
    + destruct (Selector_Matches (selector c) l) eqn:Em; simpl.
      * rewrite IH. setoid_rewrite elem_of_cons. naive_solver.
      * split; [done|]. intros [_ Hall]. destruct (Hall c) as (l' & ? & ?); [set_solver|]. congruence.
    + split; [done|]. intros [_ Hall]. destruct (Hall c) as (l' & ? & ?); [set_solver|]. congruence.
Qed.

Lemma compile_Ok_iff sel : is_Ok (compile sel) ↔ selectors_valid sel.
Proof.
  unfold compile. rewrite <- sources_valid, <- compile_loop_errs.
  destruct (compile_loop (sources sel)) as [cs errs]; simpl.
  destruct (errors_Join (Some <$> errs)) eqn:E.
  - split; [by intros [? ?]|]. intros ->. done.
  - apply errors_Join_somes in E as ->. split; [done|]. intros _. by eexists.
Qed.

Lemma compile_Ok_loop sel cs : compile sel = Ok cs → cs = (compile_loop (sources sel)).1.
Proof.
  unfold compile. destruct (compile_loop _) as [cs' errs]. case_match; [done|]. by intros [= <-].
Qed.

Lemma match_loop_selected sel cs t :
  compile sel = Ok cs → match_loop false cs t = true ↔ selected_spec sel t.
Proof.
  intros Hc. rewrite match_loop_true, <- sources_selected.
  assert (∀ c, c ∈ cs ↔ _) as Hel by (intros c; rewrite (compile_Ok_loop _ _ Hc); apply compile_loop_elem).
  assert (selectors_valid sel) as Hvalid by (apply compile_Ok_iff; by eexists).
  rewrite <- sources_valid in Hvalid.
  split.
  - intros [[|Hne] Hall]; [done|]. split.
    + destruct cs as [|c cs]; [done|]. destruct (proj1 (Hel c)) as (f & ls & s & ? & _); [set_solver|].
      eauto.
    + intros f ls tgt Hin. destruct (Hvalid f ls tgt Hin) as [s Hs].
      destruct (Hall {| selector := s; target := tgt |}) as (l & ? & ?).
      * apply Hel. exists f, ls, s. done.
      * exists s, l. done.
  - intros [(f & ls & tgt & Hin) Hall]. split.
    + right. intros ->. destruct (Hvalid f ls tgt Hin) as [s Hs].
      assert ({| selector := s; target := tgt |} ∈ []) as Habs; [|by apply elem_of_nil in Habs].
      apply Hel. exists f, ls, s. done.
    + intros c (f' & ls' & s' & Hin' & Hs' & <-)%Hel.
      destruct (Hall f' ls' _ Hin') as (s & l & ? & ? & ?). exists l. split; [done|]. congruence.
Qed.

Lemma ParseEnrollment_empty : ParseEnrollment "" = [].
Proof. reflexivity. Qed.

Lemma enrolls_spec shimName ann lab :
  enrolls shimName ann lab = true ↔
  ∃ value, (ann !! EnrollmentKey = Some value ∨ lab !! EnrollmentKey = Some value) ∧
    shimName ∈ ParseEnrollment value.
Proof.
  assert (∀ m, existsb (λ name, String.eqb name shimName) (ParseEnrollment (map_get m EnrollmentKey))
             = true ↔ ∃ value, m !! EnrollmentKey = Some value ∧ shimName ∈ ParseEnrollment value) as Hm.
  { intros m. rewrite existsb_elem_of. unfold map_get. destruct (m !! EnrollmentKey); simpl.
    - setoid_rewrite String.eqb_eq. naive_solver.
    - rewrite ParseEnrollment_empty. setoid_rewrite elem_of_nil. naive_solver. }
  unfold enrolls. cbn [existsb]. rewrite !orb_true_iff, !Hm. naive_solver.
Qed.

Definition object_enrolls (shimName : string)
    (x : option bool * option (gmap string string * gmap string string)) : bool :=
  kindEnabled x.1 && match x.2 with Some (a, l) => enrolls shimName a l | None => false end.

Lemma Enrolled_existsb shimName enrollment t :
  Enrolled shimName enrollment t
  = existsb (object_enrolls shimName) (enrollment_objects enrollment t).
Proof.
  assert (∀ a b c : bool, (if a then true else if b then true else if c then true else false)
    = a || (b || (c || false))) as Hor by (by intros [] [] []).
  unfold Enrolled, enrollment_objects, object_enrolls.
  destruct enrollment as [[]|]; cbn; rewrite Hor; by destruct (T_Namespace t), (T_ServiceAccount t), (T_Pod t).
Qed.

Lemma object_enrolls_spec shimName b o :
  object_enrolls shimName (b, o) = true ↔
  ∃ a l, o = Some (a, l) ∧ b ≠ Some false ∧
    ∃ value, (a !! EnrollmentKey = Some value ∨ l !! EnrollmentKey = Some value) ∧
      shimName ∈ ParseEnrollment value.
Proof.
  unfold object_enrolls. simpl. rewrite andb_true_iff.
  assert (kindEnabled b = true ↔ b ≠ Some false) as -> by (destruct b as [[]|]; naive_solver).
  destruct o as [[a l]|]; [rewrite enrolls_spec|]; naive_solver.
Qed.

Lemma Enrolled_true shimName enrollment t :
  Enrolled shimName enrollment t = true ↔ enrolled_spec shimName enrollment t.
Proof.
  rewrite Enrolled_existsb, existsb_elem_of. unfold enrolled_spec. split.
  - intros ([b o] & Hin & (a & l & -> & Hb & Hv)%object_enrolls_spec). exists b, a, l. done.
  - intros (b & a & l & Hin & Hb & Hv). exists (b, Some (a, l)). split; [done|].
    apply object_enrolls_spec. exists a, l. done.
Qed.
End selection_facts.

(** ** Properties *)

Section selection_properties.
Context `{LabelSelectors}.

(** C14. [Matches] decides the documented rule on every branch: with valid selectors the
    answer is yes exactly when the target is enrolled, or at least one selector is set, and a
    set namespace, service account or pod selector matches the labels of the existing
    namespace, service account or pod; with an invalid selector the answer is an error,
    enrolled or not. *)
Theorem matches_spec shimName sel t :
  match Matches shimName sel t with
  | Ok b => selectors_valid sel ∧
            (b = true ↔ enrolled_spec shimName (Enrollment sel) t ∨ selected_spec sel t)
  | Err _ => ¬ selectors_valid sel
  end.
Proof.
  pose proof (compile_Ok_iff sel) as Hv. unfold Matches.
  destruct (compile sel) as [cs|e] eqn:Hc; simpl.
  - pose proof (match_loop_selected sel cs t Hc) as Hm.
    pose proof (Enrolled_true shimName (Enrollment sel) t) as He.
    destruct (Enrolled _ _ _); (split; [apply Hv; by eexists|naive_solver]).
  - rewrite <- Hv. by intros [? ?].
Qed.

(** The controller's static check predicts the webhook: selection validates exactly when
    matching never fails, whatever the pod and its objects. *)
Theorem selection_validate_iff_matches_total sel :
  Validate sel = None ↔ ∀ shimName t, is_Ok (Matches shimName sel t).
Proof.
  unfold Validate, Matches. destruct (compile sel) as [cs|e]; simpl.
  - split; [|done]. intros _ shimName t. destruct (Enrolled _ _ _); by eexists.
  - split; [done|]. intros Hall.
    destruct (Hall "" {| T_Pod := None; T_ServiceAccount := None; T_Namespace := None |}). done.
Qed.
End selection_properties.

(** Enrollment lists: the parsed names are non-empty, trimmed and free of commas; writing
    them back as a comma list and parsing again gives the same names. *)
Theorem parse_enrollment_normal_form value :
  (∀ name, name ∈ ParseEnrollment value →
     name ≠ "" ∧ ContainsByte name ","%char = false ∧ TrimSpace name = name) ∧
  ParseEnrollment (Join (ParseEnrollment value) ",") = ParseEnrollment value.
Proof. split; [intros name; apply split_trim_elem|apply split_trim_normal]. Qed.

(** A namespace is excluded exactly when its name is listed or starts with a listed
    prefix. *)
Theorem excluded_iff e ns :
  Excluded e ns = true ↔ ns ∈ Names e ∨ ∃ p, p ∈ Prefixes e ∧ HasPrefix ns p = true.
Proof.
  unfold Excluded. rewrite <- existsb_str_eqb, <- existsb_elem_of.
  destruct (existsb (String.eqb ns) (Names e)); naive_solver.
Qed.
