(* ===== verification/Plan.v ===== *)
(** * Rendering a plan for one matched shim (src/internal/injection/plan.go) *)

From S2P Require Import Prelude GoStd GoStdFacts Kube Api SpiffeHelper Template GoTemplate Params.

Definition defaultTokenVolumePrefix : string := "oidcshim-token-".
Definition defaultTokenMountRoot : string := "/var/run/secrets/oidcshim".
Definition defaultTokenFileName : string := "token".
Definition defaultTokenFileMode : string := "0644".
Definition defaultFileMode : string := "0644".
Definition defaultServiceAccount : string := "default".

Record Defaults := {
  D_HelperImage : string;
  D_HelperImagePullPolicy : PullPolicy;
  D_CSIDriver : string;
  D_SocketMountPath : string;
  D_SocketFile : string;
  D_MaxRenderedBytes : Z }.

Record Token := {
  Token_VolumeName : string;
  Token_MountPath : string;
  Token_FileName : string;
  Token_FileMode : string }.

(** The value unless it is empty. *)
Definition or_default (v d : string) : string := if String.eqb v "" then d else v.

Definition ResolveToken (shimName : string) (spec : TokenSpec) : Token :=
  {| Token_VolumeName := or_default (TokenSpec_VolumeName spec) (defaultTokenVolumePrefix +:+ shimName);
     Token_MountPath := or_default (TokenSpec_MountPath spec)
                          (path_Join [defaultTokenMountRoot; shimName]);
     Token_FileName := or_default (TokenSpec_FileName spec) defaultTokenFileName;
     Token_FileMode := or_default (TokenSpec_FileMode spec) defaultTokenFileMode |}.

(** The method [Token.Path]. *)
Definition Token_Path (t : Token) : string := path_Join [Token_MountPath t; Token_FileName t].

(** The function [Builtins] of plan.go. *)
Definition PlanBuiltins (shim : Shim) (pod : option Pod) (podNamespace : string) (tok : Token)
    : Builtins :=
  {| PodNamespace := podNamespace;
     ServiceAccountName :=
       match pod with
       | Some p => if negb (String.eqb (Pod_ServiceAccountName p) "")
                   then Pod_ServiceAccountName p else defaultServiceAccount
       | None => defaultServiceAccount
       end;
     ShimName := GetName shim;
     TokenDir := Token_MountPath tok;
     TokenPath := Token_Path tok |}.

Record RenderedFile := { RF_Path : string; RF_Content : string; RF_Mode : string }.

Definition MaxPodAnnotationBytes : Z := 192 * 1024.

Record Plan := {
  Plan_ShimName : string;
  Plan_ShimKey : string;
  Plan_ClusterScoped : bool;
  Plan_Token : Token;
  Plan_HelperConf : string;
  Plan_Files : list RenderedFile;
  Plan_Env : list EnvVar;
  Plan_Containers : list string;
  Plan_CSIDriver : string;
  Plan_SocketMountPath : string;
  Plan_SocketFile : string;
  Plan_HelperImage : string;
  Plan_HelperImagePullPolicy : PullPolicy;
  Plan_HelperResources : option ResourceRequirements;
  Plan_HelperSecurityContext : option SecurityContext }.

Definition sum_content (files : list RenderedFile) : Z :=
  foldr (λ f n, (len (RF_Content f) + n)%Z) 0%Z files.

(** The method [renderedBytes]. *)
Definition renderedBytes (p : Plan) : Z := (len (Plan_HelperConf p) + sum_content (Plan_Files p))%Z.

Section plan.
Context `{UnicodeTables} `{TextTemplate}.

Definition parseFileMode (mode : string) : result error Z :=
  match ParseUint mode 8 32 with
  | Some parsed => Ok (int32 parsed)
  | None => Err (errorString (Quote mode +:+ " is not a valid octal file mode"))
  end.

Definition spiffeHelperConf (socketMountPath socketFile : string) (tok : Token)
    (audience : string) (extraAudiences : list string) : result error string :=
  SpiffeHelper.Render
    {| AgentAddress := path_Join [socketMountPath; socketFile];
       CertDir := Token_MountPath tok;
       JWTAudience := audience;
       JWTExtraAudiences := extraAudiences;
       JWTSVIDFileName := Token_FileName tok;
       JWTSVIDFileMode := Token_FileMode tok |}.

(** The error prefix of one [inject.files] entry. *)
Definition file_error (name : string) (i : nat) : string :=
  "injection: shim " +:+ Quote name +:+ ": inject.files[" +:+ Itoa (Z.of_nat i) +:+ "] ".

(** The body of the loop over [spec.Inject.Files]: the rendered file, or the first reason it
    cannot be injected. *)
Definition build_file (name : string) (tok : Token) (values : Values) (seenPaths : gset string)
    (i : nat) (f : FileSpec) : result error RenderedFile :=
  let! content := result_map_err
    (wrapError ("injection: shim " +:+ Quote name +:+ ": render inject.files["
                +:+ Itoa (Z.of_nat i) +:+ "] " +:+ Quote (File_Path f) +:+ ": "))
    (Template.Render "file" (File_Content f) values) in
  if decide (File_Path f ∈ seenPaths) then
    if String.eqb (File_Path f) (Token_MountPath tok) then
      Err (errorString (file_error name i +:+ "path " +:+ Quote (File_Path f)
                        +:+ " collides with the token mountPath"))
    else
      Err (errorString (file_error name i +:+ "path " +:+ Quote (File_Path f)
                        +:+ " is already used by an earlier file"))
  else if HasPrefix (File_Path f) (Token_MountPath tok +:+ "/") then
    Err (errorString (file_error name i +:+ "path " +:+ Quote (File_Path f)
                      +:+ " is under the token mountPath " +:+ Quote (Token_MountPath tok)
                      +:+ ", which is mounted read-only"))
  else
    let mode := or_default (File_Mode f) defaultFileMode in
    let! _ := result_map_err
      (wrapError (file_error name i +:+ Quote (File_Path f) +:+ ": ")) (parseFileMode mode) in
    Ok {| RF_Path := File_Path f; RF_Content := content; RF_Mode := mode |}.

Fixpoint build_files (name : string) (tok : Token) (values : Values) (seenPaths : gset string)
    (i : nat) (fs : list FileSpec) : result error (list RenderedFile) :=
  match fs with
  | [] => Ok []
  | f :: rest =>
      let! r := build_file name tok values seenPaths i f in
      let! rs := build_files name tok values ({[File_Path f]} ∪ seenPaths) (S i) rest in
      Ok (r :: rs)
  end.

(** [spec.spiffe] over the manager defaults. *)
Definition spiffe_override (spec : OIDCShimSpec) (pick : SPIFFESpec → string) (d : string) : string :=
  match SPIFFE spec with Some s => or_default (pick s) d | None => d end.
Definition helper_override (spec : OIDCShimSpec) (pick : HelperSpec → string) (d : string) : string :=
  match Helper spec with Some h => or_default (pick h) d | None => d end.

Definition BuildPlan (shim : Shim) (values : Values) (tok : Token) (d : Defaults)
    : result error Plan :=
  let spec := ShimSpec shim in
  let name := GetName shim in
  let pre := "injection: shim " +:+ Quote name +:+ ": " in
  let socketMountPath := spiffe_override spec SPIFFE_SocketMountPath (D_SocketMountPath d) in
  let socketFile := spiffe_override spec SPIFFE_SocketFile (D_SocketFile d) in
  let! audience := result_map_err (wrapError (pre +:+ "render audience: "))
                     (Template.Render "audience" (Audience spec) values) in
  let! extraAudiences := mapM_result (λ i a,
      result_map_err (wrapError (pre +:+ "render extraAudiences[" +:+ Itoa (Z.of_nat i) +:+ "]: "))
        (Template.Render "extraAudience" a values)) (ExtraAudiences spec) in
  let! env := mapM_result (λ i e,
      let! value := result_map_err
        (wrapError (pre +:+ "render inject.env[" +:+ Itoa (Z.of_nat i) +:+ "] "
                    +:+ Quote (EnvSpec_Name e) +:+ ": "))
        (Template.Render "env" (EnvSpec_Value e) values) in
      Ok {| Env_Name := EnvSpec_Name e; Env_Value := value; Env_Other := [] |})
    (Inject_Env (Inject spec)) in
  let! files := build_files name tok values {[Token_MountPath tok]} 0 (Inject_Files (Inject spec)) in
  let! helperConf := result_map_err (wrapError (pre +:+ "render helper config: "))
                       (spiffeHelperConf socketMountPath socketFile tok audience extraAudiences) in
  let bytes := (sum_content files + len helperConf)%Z in
  if ((0 <? D_MaxRenderedBytes d) && (D_MaxRenderedBytes d <? bytes))%Z then
    Err (errorString (pre +:+ "rendered content is " +:+ Itoa bytes +:+ " bytes, exceeds the "
                      +:+ Itoa (D_MaxRenderedBytes d) +:+ " byte limit"))
  else
    Ok {| Plan_ShimName := name;
          Plan_ShimKey := ShimKey shim;
          Plan_ClusterScoped := IsClusterScoped shim;
          Plan_Token := tok;
          Plan_HelperConf := helperConf;
          Plan_Files := files;
          Plan_Env := env;
          Plan_Containers := Inject_Containers (Inject spec);
          Plan_CSIDriver := spiffe_override spec SPIFFE_CSIDriver (D_CSIDriver d);
          Plan_SocketMountPath := socketMountPath;
          Plan_SocketFile := socketFile;
          Plan_HelperImage := helper_override spec Helper_Image (D_HelperImage d);
          Plan_HelperImagePullPolicy :=
            helper_override spec Helper_ImagePullPolicy (D_HelperImagePullPolicy d);
          Plan_HelperResources := Helper spec ≫= Helper_Resources;
          Plan_HelperSecurityContext := Helper spec ≫= Helper_SecurityContext |}.

End plan.

(** ** What a built plan satisfies *)

Section plan_facts.
Context `{UnicodeTables} `{TextTemplate}.

(** A rendered file against its entry in the spec. *)
Definition file_rendered (tok : Token) (values : Values) (f : FileSpec) (r : RenderedFile) : Prop :=
  RF_Path r = File_Path f ∧
  Template.Render "file" (File_Content f) values = Ok (RF_Content r) ∧
  RF_Mode r = or_default (File_Mode f) defaultFileMode ∧
  is_Ok (parseFileMode (RF_Mode r)) ∧
  HasPrefix (RF_Path r) (Token_MountPath tok +:+ "/") = false.

Lemma build_file_Ok name tok values seen i f r :
  build_file name tok values seen i f = Ok r →
  file_rendered tok values f r ∧ File_Path f ∉ seen.
Proof.
  unfold build_file, file_rendered. intros Hb. apply result_bind_Ok in Hb as (content & Hc & Hb).
  apply result_map_err_Ok in Hc. case_decide; [by destruct (String.eqb _ _)|].
  destruct (HasPrefix _ _) eqn:Hp; [done|]. apply result_bind_Ok in Hb as (m & Hm & [= <-]).
  apply result_map_err_Ok in Hm. simpl. split_and!; try done. by exists m.
Qed.

Lemma build_files_Ok name tok values fs : ∀ seen i rs,
  build_files name tok values seen i fs = Ok rs →
  Forall2 (file_rendered tok values) fs rs ∧ NoDup (RF_Path <$> rs) ∧
  ∀ r, r ∈ rs → RF_Path r ∉ seen.
Proof.
  induction fs as [|f fs IH]; intros seen i rs Hb; simpl in Hb.
  { injection Hb as <-. split_and!; [done|constructor|]. intros r Hr. by apply elem_of_nil in Hr. }
  apply result_bind_Ok in Hb as (r & Hr & Hb). apply result_bind_Ok in Hb as (rs' & Hrs & [= <-]).
  apply build_file_Ok in Hr as [Hf Hns]. destruct Hf as (Hpath & Hf). apply IH in Hrs as (Hall & Hnd & Hseen).
  split_and!.
  - constructor; [|done]. by split.
  - rewrite fmap_cons. constructor; [|done].
    intros (r' & Heq & Hr')%list_elem_of_fmap. apply (Hseen r' Hr').
    rewrite <- Heq, Hpath. by apply elem_of_union_l, elem_of_singleton.
  - intros r' [->|Hr']%elem_of_cons; [congruence|]. intros Hin.
    apply (Hseen r' Hr'). by apply elem_of_union_r.
Qed.

(** The parts of a successful [BuildPlan]. *)
Lemma BuildPlan_Ok shim values tok d plan :
  BuildPlan shim values tok d = Ok plan →
  let spec := ShimSpec shim in
  Plan_ShimName plan = GetName shim ∧ Plan_ShimKey plan = ShimKey shim ∧
  Plan_ClusterScoped plan = IsClusterScoped shim ∧ Plan_Token plan = tok ∧
  Plan_Containers plan = Inject_Containers (Inject spec) ∧
  build_files (GetName shim) tok values {[Token_MountPath tok]} 0 (Inject_Files (Inject spec))
    = Ok (Plan_Files plan) ∧
  (∃ audience extra,
     Template.Render "audience" (Audience spec) values = Ok audience ∧
     Forall2 (λ a x, Template.Render "extraAudience" a values = Ok x) (ExtraAudiences spec) extra ∧
     spiffeHelperConf (Plan_SocketMountPath plan) (Plan_SocketFile plan) tok audience extra
       = Ok (Plan_HelperConf plan)) ∧
  Forall2 (λ e v, Env_Name v = EnvSpec_Name e ∧ Env_Other v = [] ∧
                  Template.Render "env" (EnvSpec_Value e) values = Ok (Env_Value v))
    (Inject_Env (Inject spec)) (Plan_Env plan) ∧
  ((0 < D_MaxRenderedBytes d)%Z → (renderedBytes plan ≤ D_MaxRenderedBytes d)%Z).
Proof.
  unfold BuildPlan. cbv zeta. intros Hb.
  apply result_bind_Ok in Hb as (aud & Haud%result_map_err_Ok & Hb).
  apply result_bind_Ok in Hb as (extra & Hextra & Hb).
  apply result_bind_Ok in Hb as (env & Henv & Hb).
  apply result_bind_Ok in Hb as (files & Hfiles & Hb).
  apply result_bind_Ok in Hb as (conf & Hconf%result_map_err_Ok & Hb).
  destruct (_ && _)%bool eqn:Hsize; [done|]. injection Hb as <-. simpl.
  split_and!; try done.
  - exists aud, extra. split_and!; [done| |done].
    apply mapM_result_from_Ok in Hextra as [Hlen Hk]. apply Forall2_same_length_lookup_2; [done|].
    intros k a x Ha Hx. specialize (Hk k a x Ha Hx). by apply result_map_err_Ok in Hk.
  - apply mapM_result_from_Ok in Henv as [Hlen Hk]. apply Forall2_same_length_lookup_2; [done|].
    intros k a x Ha Hx. specialize (Hk k a x Ha Hx).
    apply result_bind_Ok in Hk as (v & Hv%result_map_err_Ok & [= <-]). done.
  - intros Hpos. unfold renderedBytes. simpl. apply Z.ltb_lt in Hpos. rewrite Hpos in Hsize.
    simpl in Hsize. apply Z.ltb_ge in Hsize. lia.
Qed.

(** ** Properties *)

(** C29. The guarantees the comment on [RenderedFile] gives: the files of a built plan are the
    entries of the spec in order, rendered over the values; their paths are pairwise
    distinct, none is the token mount path or lies under it (app containers mount that
    directory read-only), and every mode is a valid octal number. *)
Theorem build_plan_files_wf shim values tok d plan :
  BuildPlan shim values tok d = Ok plan →
  Forall2 (file_rendered tok values) (Inject_Files (Inject (ShimSpec shim))) (Plan_Files plan) ∧
  NoDup (Token_MountPath tok :: (RF_Path <$> Plan_Files plan)).
Proof.
  intros (_ & _ & _ & _ & _ & Hf & _)%BuildPlan_Ok. apply build_files_Ok in Hf as (Hall & Hnd & Hseen).
  split; [done|]. constructor; [|done].
  intros (r & Heq & Hr)%list_elem_of_fmap. apply (Hseen r Hr). by apply elem_of_singleton.
Qed.

(** The size cap: when a limit is configured, the annotation payload of a built plan
    (helper configuration and all files) stays within it. *)
Theorem build_plan_size_bound shim values tok d plan :
  BuildPlan shim values tok d = Ok plan → (0 < D_MaxRenderedBytes d)%Z →
  (0 ≤ renderedBytes plan ≤ D_MaxRenderedBytes d)%Z.
Proof.
  intros (_ & _ & _ & _ & _ & _ & _ & _ & Hb)%BuildPlan_Ok Hpos. split; [|by apply Hb].
  unfold renderedBytes, sum_content. pose proof (len_nonneg (Plan_HelperConf plan)).
  cut (0 ≤ foldr (λ f n, (len (RF_Content f) + n)%Z) 0%Z (Plan_Files plan))%Z; [lia|].
  induction (Plan_Files plan) as [|f l IH]; simpl; [lia|]. pose proof (len_nonneg (RF_Content f)). lia.
Qed.

(** End to end for the helper configuration: reading the rendered file back gives the
    socket path of the effective SPIFFE settings, the token directory and file name, and the
    audiences as rendered over the parameter values, whatever bytes those contain. *)
Theorem build_plan_helper_conf shim values tok d plan :
  BuildPlan shim values tok d = Ok plan →
  ∃ audience extra,
    Template.Render "audience" (Audience (ShimSpec shim)) values = Ok audience ∧
    Forall2 (λ a x, Template.Render "extraAudience" a values = Ok x)
      (ExtraAudiences (ShimSpec shim)) extra ∧
    parse_conf (Plan_HelperConf plan)
    = Some {| AgentAddress := path_Join [Plan_SocketMountPath plan; Plan_SocketFile plan];
              CertDir := Token_MountPath tok; JWTAudience := audience;
              JWTExtraAudiences := extra; JWTSVIDFileName := Token_FileName tok;
              JWTSVIDFileMode := normalise_mode (Token_FileMode tok) |}.
Proof.
  intros (_ & _ & _ & _ & _ & _ & (aud & extra & Haud & Hextra & Hc) & _)%BuildPlan_Ok.
  exists aud, extra. split_and!; [done..|].
  apply Render_Ok_iff in Hc as [(_ & _ & _ & _ & Hm) ->].
  rewrite parse_conf_text; [done|]. by apply normalise_mode_no_newline.
Qed.
End plan_facts.

(** Bounds of the mode conversion: a mode the pattern [^0?[0-7]{3}$] accepts is parsed to
    permission bits between 0 and 0777, so the conversion to int32 never wraps for it. *)
Theorem parse_file_mode_bounds `{UnicodeTables} m :
  ModePattern m = true → ∃ v, parseFileMode m = Ok v ∧ (0 ≤ v ≤ 511)%Z.
Proof.
  intros (v & Hv & Hr)%ModePattern_parses. exists v. split; [|done].
  unfold parseFileMode. rewrite Hv. f_equal. unfold int32, to_signed.
  rewrite Z.mod_small; lia.
Qed.

Lemma parse_file_mode_bounds_witness :
  ModePattern "0640" = true ∧ ∃ v, @parseFileMode ascii_tables "0640" = Ok v ∧ (0 ≤ v ≤ 511)%Z.
Proof. split; [reflexivity|]. apply (@parse_file_mode_bounds ascii_tables). reflexivity. Defined.

(** ** A concrete shim *)

Definition sample_spec : OIDCShimSpec :=
  {| Provider := ProviderGoogle;
     Selection := {| Enrollment := None; NamespaceSelector := None;
                     ServiceAccountSelector := None; PodSelector := None |};
     Spec_Parameters := sample_parameters;
     Audience := "{{ .audience }}";
     ExtraAudiences := [];
     Spec_Token := {| TokenSpec_VolumeName := ""; TokenSpec_MountPath := "";
                      TokenSpec_FileName := ""; TokenSpec_FileMode := "" |};
     Inject := {| Inject_Env := [ {| EnvSpec_Name := "GOOGLE_APPLICATION_CREDENTIALS";
                                     EnvSpec_Value := "/etc/oidcshim/gcp/key.json" |} ];
                  Inject_Files := [ {| File_Path := "/etc/oidcshim/gcp/key.json";
                                       File_Content := "{ file: {{ .tokenPath }} }";
                                       File_Mode := "" |} ];
                  Inject_Containers := [] |};
     SPIFFE := None;
     Helper := None |}.

Definition sample_status : OIDCShimStatus :=
  {| Conditions := []; ObservedGeneration := 0; MatchedPods := None |}.

Definition sample_shim : Shim :=
  ShimNamespaced {| OIDCShim_Meta := {| Meta_Name := "gcp"; Meta_Namespace := "my-app";
                                        Meta_Generation := 1 |};
                    OIDCShim_Spec := sample_spec; OIDCShim_Status := sample_status |}.

Definition sample_token : Token := ResolveToken "gcp" (Spec_Token sample_spec).

Definition sample_defaults : Defaults :=
  {| D_HelperImage := "ghcr.io/spiffe/spiffe-helper:0.10.0";
     D_HelperImagePullPolicy := PullIfNotPresent; D_CSIDriver := "csi.spiffe.io";
     D_SocketMountPath := "/spiffe-workload-api"; D_SocketFile := "spire-agent.sock";
     D_MaxRenderedBytes := 65536 |}.

(** An empty plan, the value of [sample_plan] should the sample not build. *)
Definition no_plan : Plan :=
  {| Plan_ShimName := ""; Plan_ShimKey := ""; Plan_ClusterScoped := false;
     Plan_Token := sample_token; Plan_HelperConf := ""; Plan_Files := []; Plan_Env := [];
     Plan_Containers := []; Plan_CSIDriver := ""; Plan_SocketMountPath := "";
     Plan_SocketFile := ""; Plan_HelperImage := ""; Plan_HelperImagePullPolicy := "";
     Plan_HelperResources := None; Plan_HelperSecurityContext := None |}.

Definition sample_plan : Plan :=
  match @BuildPlan ascii_tables core_templates sample_shim sample_values sample_token sample_defaults with
  | Ok p => p
  | Err _ => no_plan
  end.

Lemma sample_plan_built :
  @BuildPlan ascii_tables core_templates sample_shim sample_values sample_token sample_defaults
  = Ok sample_plan.
Proof. vm_compute. reflexivity. Qed.

Example sample_plan_file :
  Plan_Files sample_plan = [ {| RF_Path := "/etc/oidcshim/gcp/key.json";
                                RF_Content := "{ file: /t/token }"; RF_Mode := "0644" |} ].
Proof. vm_compute. reflexivity. Qed.

Lemma build_plan_files_wf_witness :
  NoDup (Token_MountPath sample_token :: (RF_Path <$> Plan_Files sample_plan)).
Proof.
  apply (@build_plan_files_wf ascii_tables core_templates sample_shim sample_values sample_token
           sample_defaults sample_plan). apply sample_plan_built.
Defined.

Lemma build_plan_size_bound_witness : (0 ≤ renderedBytes sample_plan ≤ 65536)%Z.
Proof.
  apply (@build_plan_size_bound ascii_tables core_templates sample_shim sample_values sample_token
           sample_defaults sample_plan); [apply sample_plan_built|reflexivity].
Defined.

Lemma build_plan_helper_conf_witness :
  ∃ audience extra,
    @Template.Render core_templates "audience" "{{ .audience }}" sample_values = Ok audience ∧
    Forall2 (λ a x, @Template.Render core_templates "extraAudience" a sample_values = Ok x) [] extra ∧
    parse_conf (Plan_HelperConf sample_plan)
    = Some {| AgentAddress := path_Join [Plan_SocketMountPath sample_plan; Plan_SocketFile sample_plan];
              CertDir := Token_MountPath sample_token; JWTAudience := audience;
              JWTExtraAudiences := extra; JWTSVIDFileName := Token_FileName sample_token;
              JWTSVIDFileMode := normalise_mode (Token_FileMode sample_token) |}.
Proof.
  apply (@build_plan_helper_conf ascii_tables core_templates sample_shim sample_values sample_token
           sample_defaults sample_plan). apply sample_plan_built.
Defined.
