(* ===== verification/Mutate.v ===== *)
(** * Applying plans to a pod (src/internal/injection/mutate.go, collisions.go) *)

From S2P Require Import Prelude GoStd GoStdFacts Kube Api SpiffeHelper Template Params Plan.

(** ** Names and paths *)

Definition socketVolumeName : string := "spiffe-workload-api".
Definition configMountPath : string := "/etc/oidcshim".
Definition helperConfFile : string := "helper.conf".
Definition helperConfPath : string := configMountPath +:+ "/" +:+ helperConfFile.
Definition filesSubPathDir : string := "files".

Definition configVolumeName (shim : string) : string := "oidcshim-config-" +:+ shim.
Definition initContainerName (shim : string) : string := "oidcshim-init-" +:+ shim.
Definition refreshContainerName (shim : string) : string := "oidcshim-refresh-" +:+ shim.

Definition fileAnnotation (shim : string) (i : nat) : string :=
  FileAnnotationPrefix +:+ shim +:+ "-" +:+ Itoa (Z.of_nat i).

Definition filesSubPath (i : nat) : string := filesSubPathDir +:+ "/" +:+ Itoa (Z.of_nat i).

Definition annotationFieldRef (key : string) : ObjectFieldSelector :=
  {| FieldPath := "metadata.annotations['" +:+ key +:+ "']"; OFS_Other := [] |}.

(** ** collisions.go: lookups *)

Fixpoint find_volume (vs : list Volume) (name : string) : option VolumeSource :=
  match vs with
  | [] => None
  | v :: rest => if String.eqb (Volume_Name v) name then Some (Volume_Source v)
                 else find_volume rest name
  end.
Definition findVolume (pod : Pod) (name : string) : option VolumeSource :=
  find_volume (Pod_Volumes pod) name.

Fixpoint findContainer (containers : list Container) (name : string) : option Container :=
  match containers with
  | [] => None
  | c :: rest => if String.eqb (C_Name c) name then Some c else findContainer rest name
  end.

Definition hasContainerNamed (containers : list Container) (name : string) : bool :=
  match findContainer containers name with Some _ => true | None => false end.

Definition hasMountPath (c : Container) (mountPath : string) : bool :=
  existsb (λ m, String.eqb (MountPath m) mountPath) (C_VolumeMounts c).

Definition hasEnvNamed (c : Container) (name : string) : bool :=
  existsb (λ e, String.eqb (Env_Name e) name) (C_Env c).

Definition containersFromAnnotation (pod : Pod) : list string :=
  match Pod_Annotations pod !! ContainersAnnotation with
  | None => []
  | Some raw => filter (λ name, name ≠ "") (map TrimSpace (Split raw ","%char))
  end.

Definition mountPaths (plan : Plan) : list string :=
  Token_MountPath (Plan_Token plan) :: (RF_Path <$> Plan_Files plan).

Section collisions.
Context `{UnicodeTables}.

(** Targets, the requested names (none when all containers are meant) and a warning per
    requested name that does not exist. *)
Definition resolveTargets (pod : Pod) (plan : Plan) : list string * list string * list string :=
  let requested := match containersFromAnnotation pod with
                   | [] => Plan_Containers plan
                   | fromAnnotation => fromAnnotation
                   end in
  match requested with
  | [] => (C_Name <$> Pod_Containers pod, [], [])
  | _ =>
      (filter (λ name, is_Some (findContainer (Pod_Containers pod) name)) requested,
       requested,
       (λ name, "shim " +:+ Quote (Plan_ShimName plan) +:+ ": container " +:+ Quote name
                +:+ " not found on pod")
         <$> filter (λ name, findContainer (Pod_Containers pod) name = None) requested)
  end.

Definition checkSocketVolume (pod : Pod) (plan : Plan) : string :=
  match findVolume pod socketVolumeName with
  | None => ""
  | Some v =>
      match VS_CSI v with
      | None => "volume " +:+ Quote socketVolumeName +:+ " already exists but is not a CSI volume"
      | Some csi =>
          if negb (String.eqb (CSI_Driver csi) (Plan_CSIDriver plan)) then
            "volume " +:+ Quote socketVolumeName +:+ " already exists with CSI driver "
            +:+ Quote (CSI_Driver csi) +:+ ", want " +:+ Quote (Plan_CSIDriver plan)
          else ""
      end
  end.

(** The first non-empty reason, as the early returns of a Go loop give it. *)
Fixpoint first_reason {A} (f : A → string) (l : list A) : string :=
  match l with
  | [] => ""
  | x :: rest => if String.eqb (f x) "" then first_reason f rest else f x
  end.

Definition checkCollisions (pod : Pod) (plan : Plan) (pendingInits : list Container)
    (targets : list string) : string :=
  let r0 := checkSocketVolume pod plan in
  let r1 := first_reason (λ name,
      match findVolume pod name with
      | Some _ => "volume " +:+ Quote name +:+ " already exists on the pod"
      | None => ""
      end) [Token_VolumeName (Plan_Token plan); configVolumeName (Plan_ShimName plan)] in
  let r2 := first_reason (λ name,
      if hasContainerNamed (Pod_InitContainers pod) name || hasContainerNamed pendingInits name
      then "init container " +:+ Quote name +:+ " already exists on the pod" else "")
      [initContainerName (Plan_ShimName plan); refreshContainerName (Plan_ShimName plan)] in
  let r3 := first_reason (λ target,
      match findContainer (Pod_Containers pod) target with
      | None => ""
      | Some c =>
          first_reason (λ mountPath,
            if hasMountPath c mountPath
            then "container " +:+ Quote (C_Name c) +:+ " already mounts " +:+ Quote mountPath
            else "") (mountPaths plan)
      end) targets in
  first_reason (λ r, r) [r0; r1; r2; r3].

(** ** mutate.go *)

Definition annotationBytes (pod : Pod) : Z :=
  map_fold (λ k v total, (total + (len k + len v))%Z) 0%Z (Pod_Annotations pod).

Definition skipped (plan : Plan) (reason : string) : string :=
  "shim " +:+ Quote (Plan_ShimName plan) +:+ ": skipped: " +:+ reason.

Definition setAnnotation (key value : string) (pod : Pod) : Pod :=
  Pod_set_Annotations (<[key := value]> (Pod_Annotations pod)) pod.

Definition socketVolume (plan : Plan) : Volume :=
  {| Volume_Name := socketVolumeName;
     Volume_Source :=
       {| VS_CSI := Some {| CSI_Driver := Plan_CSIDriver plan; CSI_ReadOnly := Some true;
                            CSI_Other := [] |};
          VS_EmptyDir := None; VS_DownwardAPI := None; VS_Other := [] |} |}.

Definition tokenVolume (plan : Plan) : Volume :=
  {| Volume_Name := Token_VolumeName (Plan_Token plan);
     Volume_Source :=
       {| VS_CSI := None;
          VS_EmptyDir := Some {| Medium := StorageMediumMemory; EmptyDir_Other := [] |};
          VS_DownwardAPI := None; VS_Other := [] |} |}.

(** The item of [files[i]]; the parse of its mode ignores the error, which leaves 0. *)
Definition file_item (plan : Plan) (i : nat) (f : RenderedFile) : DownwardAPIVolumeFile :=
  {| Item_Path := filesSubPath i;
     Item_FieldRef := Some (annotationFieldRef (fileAnnotation (Plan_ShimName plan) i));
     Item_Mode := Some (match parseFileMode (RF_Mode f) with Ok m => m | Err _ => 0%Z end);
     Item_Other := [] |}.

Definition config_items (plan : Plan) : list DownwardAPIVolumeFile :=
  {| Item_Path := helperConfFile;
     Item_FieldRef := Some (annotationFieldRef (HelperConfAnnotation (Plan_ShimName plan)));
     Item_Mode := None; Item_Other := [] |} :: imap (file_item plan) (Plan_Files plan).

Definition configVolume (plan : Plan) : Volume :=
  {| Volume_Name := configVolumeName (Plan_ShimName plan);
     Volume_Source :=
       {| VS_CSI := None; VS_EmptyDir := None;
          VS_DownwardAPI := Some {| Items := config_items plan; DownwardAPI_Other := [] |};
          VS_Other := [] |} |}.

Definition addVolumes (plan : Plan) (pod : Pod) : Pod :=
  let vs := match findVolume pod socketVolumeName with
            | None => Pod_Volumes pod ++ [socketVolume plan]
            | Some _ => Pod_Volumes pod
            end in
  Pod_set_Volumes ((vs ++ [tokenVolume plan]) ++ [configVolume plan]) pod.

(** The locked-down default of the helper containers. *)
Definition default_security_context : SecurityContext :=
  {| RunAsNonRoot := Some true;
     AllowPrivilegeEscalation := Some false;
     ReadOnlyRootFilesystem := Some true;
     Capabilities_Drop := Some ["ALL"];
     SeccompProfile_Type := Some SeccompProfileTypeRuntimeDefault;
     SecurityContext_Other := [] |}.
Definition helperSecurityContext (plan : Plan) : SecurityContext :=
  match Plan_HelperSecurityContext plan with
  | Some sc => sc
  | None => default_security_context
  end.

Definition mount (name path sub : string) (readOnly : bool) : VolumeMount :=
  {| Mount_Name := name; MountPath := path; SubPath := sub; ReadOnly := readOnly; Mount_Other := [] |}.

Definition helperContainer (plan : Plan) (sidecar : bool) : Container :=
  {| C_Name := if sidecar then refreshContainerName (Plan_ShimName plan)
               else initContainerName (Plan_ShimName plan);
     C_Image := Plan_HelperImage plan;
     C_ImagePullPolicy := Plan_HelperImagePullPolicy plan;
     C_Args := if sidecar then ["-config"; helperConfPath]
               else ["-config"; helperConfPath; "-daemon-mode=false"];
     C_Env := [];
     C_VolumeMounts :=
       [mount socketVolumeName (Plan_SocketMountPath plan) "" true;
        mount (Token_VolumeName (Plan_Token plan)) (Token_MountPath (Plan_Token plan)) "" false;
        mount (configVolumeName (Plan_ShimName plan)) configMountPath "" true];
     C_Resources := default [] (Plan_HelperResources plan);
     C_SecurityContext := Some (helperSecurityContext plan);
     C_RestartPolicy := if sidecar then Some ContainerRestartPolicyAlways else None;
     C_Other := [] |}.

(** The mounts an app container receives. *)
Definition file_mount (plan : Plan) (i : nat) (f : RenderedFile) : VolumeMount :=
  mount (configVolumeName (Plan_ShimName plan)) (RF_Path f) (filesSubPath i) true.
Definition app_mounts (plan : Plan) : list VolumeMount :=
  mount (Token_VolumeName (Plan_Token plan)) (Token_MountPath (Plan_Token plan)) "" true
  :: imap (file_mount plan) (Plan_Files plan).

(** The loop over [plan.Env] on one container. *)
Fixpoint inject_env (plan : Plan) (env : list EnvVar) (c : Container) : Container * list string :=
  match env with
  | [] => (c, [])
  | e :: rest =>
      if hasEnvNamed c (Env_Name e) then
        let '(c', ws) := inject_env plan rest c in
        (c', ("shim " +:+ Quote (Plan_ShimName plan) +:+ ": container " +:+ Quote (C_Name c)
              +:+ " already defines env var " +:+ Quote (Env_Name e)
              +:+ "; leaving it untouched") :: ws)
      else inject_env plan rest (C_set_Env (C_Env c ++ [e]) c)
  end.

Definition inject_container (plan : Plan) (c : Container) : Container * list string :=
  inject_env plan (Plan_Env plan) (C_set_VolumeMounts (C_VolumeMounts c ++ app_mounts plan) c).

(** The write through the pointer [findContainer] returns: the first container of that name. *)
Fixpoint update_container (name : string) (f : Container → Container) (cs : list Container)
    : list Container :=
  match cs with
  | [] => []
  | c :: rest => if String.eqb (C_Name c) name then f c :: rest
                 else c :: update_container name f rest
  end.

Fixpoint inject_targets (plan : Plan) (targets : list string) (cs : list Container)
    : list Container * list string :=
  match targets with
  | [] => (cs, [])
  | name :: rest =>
      match findContainer cs name with
      | None => inject_targets plan rest cs
      | Some c =>
          let '(_, ws) := inject_container plan c in
          let '(cs', ws') :=
            inject_targets plan rest (update_container name (λ c, (inject_container plan c).1) cs) in
          (cs', ws ++ ws')
      end
  end.

Definition injectIntoContainers (plan : Plan) (targets : list string) (pod : Pod)
    : Pod * list string :=
  let '(cs, ws) := inject_targets plan targets (Pod_Containers pod) in
  (Pod_set_Containers cs pod, ws).

Definition shimLabelValue (clusterScoped : bool) : string :=
  if clusterScoped then ShimLabelValueCluster else ShimLabelValueNamespaced.

(** The annotations of the files, in order. *)
Fixpoint write_files (shim : string) (i : nat) (files : list RenderedFile) (pod : Pod) : Pod :=
  match files with
  | [] => pod
  | f :: rest => write_files shim (S i) rest (setAnnotation (fileAnnotation shim i) (RF_Content f) pod)
  end.

Definition writePlanMetadata (plan : Plan) (pod : Pod) : Pod :=
  let pod := setAnnotation (HelperConfAnnotation (Plan_ShimName plan)) (Plan_HelperConf plan) pod in
  let pod := write_files (Plan_ShimName plan) 0 (Plan_Files plan) pod in
  Pod_set_Labels
    (<[ShimLabelKey (Plan_ShimName plan) := shimLabelValue (Plan_ClusterScoped plan)]>
       (Pod_Labels pod)) pod.

(** The variables of [Apply]'s loop. *)
Record ApplyState := {
  St_pod : Pod;
  St_newInits : list Container;
  St_addedBytes : Z;
  St_applied : list Plan;
  St_warnings : list string }.

Definition warn (ws : list string) (st : ApplyState) : ApplyState :=
  {| St_pod := St_pod st; St_newInits := St_newInits st; St_addedBytes := St_addedBytes st;
     St_applied := St_applied st; St_warnings := St_warnings st ++ ws |}.

(** One iteration of the loop over the plans. *)
Definition apply_step (existingBytes : Z) (st : ApplyState) (plan : Plan) : ApplyState :=
  let planBytes := renderedBytes plan in
  let total := (existingBytes + St_addedBytes st + planBytes)%Z in
  if (MaxPodAnnotationBytes <? total)%Z then
    warn ["shim " +:+ Plan_ShimKey plan
          +:+ " skipped: rendered content would exceed the pod annotation budget ("
          +:+ Itoa total +:+ " > " +:+ Itoa MaxPodAnnotationBytes +:+ " bytes)"] st
  else
    let '(targets, requested, targetWarnings) := resolveTargets (St_pod st) plan in
    let st := warn targetWarnings st in
    if bool_decide (requested ≠ []) && bool_decide (targets = []) then
      warn [skipped plan ("none of the requested containers exist on the pod: "
                          +:+ Join requested ", ")] st
    else
      let reason := checkCollisions (St_pod st) plan (St_newInits st) targets in
      if negb (String.eqb reason "") then warn [skipped plan reason] st
      else
        let pod := addVolumes plan (St_pod st) in
        let '(pod, envWarnings) := injectIntoContainers plan targets pod in
        {| St_pod := writePlanMetadata plan pod;
           St_newInits := St_newInits st ++ [helperContainer plan false; helperContainer plan true];
           St_addedBytes := (St_addedBytes st + planBytes)%Z;
           St_applied := St_applied st ++ [plan];
           St_warnings := St_warnings st ++ envWarnings |}.

Definition apply_start (pod : Pod) : ApplyState :=
  {| St_pod := pod; St_newInits := []; St_addedBytes := 0; St_applied := []; St_warnings := [] |}.

Definition apply_loop (pod : Pod) (plans : list Plan) : ApplyState :=
  foldl (apply_step (annotationBytes pod)) (apply_start pod) plans.

(** What [Apply] writes after the loop when something was applied. *)
Definition apply_finish (st : ApplyState) : Pod :=
  let pod := Pod_set_InitContainers (St_newInits st ++ Pod_InitContainers (St_pod st)) (St_pod st) in
  setAnnotation ShimsAnnotation (Join (Plan_ShimKey <$> St_applied st) ",")
    (setAnnotation StatusAnnotation StatusInjected pod).

Definition already_injected (pod : Pod) : bool :=
  match Pod_Annotations pod !! StatusAnnotation with
  | Some v => String.eqb v StatusInjected
  | None => false
  end.

(** [Apply] on a pod: the pod after the call, the plans applied and the warnings. *)
Definition apply_pod (pod : Pod) (plans : list Plan) : Pod * list Plan * list string :=
  if already_injected pod then
    (pod, [], ["pod already carries " +:+ StatusAnnotation +:+ "=" +:+ StatusInjected
               +:+ "; skipping injection"])
  else
    let st := apply_loop pod plans in
    match St_applied st with
    | [] => (St_pod st, [], St_warnings st)
    | _ => (apply_finish st, St_applied st, St_warnings st)
    end.

Definition Apply (pod : option Pod) (plans : list Plan) : option Pod * list Plan * list string :=
  match pod with
  | None => (None, [], [])
  | Some p => let '(p', applied, warnings) := apply_pod p plans in (Some p', applied, warnings)
  end.

End collisions.
