(* ===== verification/MutateFacts.v ===== *)
(** * Facts about applying plans: lookups, targets, containers and the loop of [Apply] *)

From S2P Require Import Prelude GoStd GoStdFacts Kube Api SpiffeHelper Template Params Plan Mutate.

(** ** Lookups by name *)

Lemma find_volume_None vs name : find_volume vs name = None ↔ (name ∉ (Volume_Name <$> vs)).
Proof.
  induction vs as [|v vs IH]; simpl; [set_solver|].
  rewrite elem_of_cons. destruct (String.eqb_spec (Volume_Name v) name); [naive_solver|].
  rewrite IH. naive_solver.
Qed.

Lemma find_volume_app vs vs' name v :
  find_volume vs name = Some v → find_volume (vs ++ vs') name = Some v.
Proof. induction vs as [|x vs IH]; simpl; [done|]. by destruct (String.eqb _ _). Qed.

Lemma find_volume_app_None vs vs' name :
  find_volume vs name = None → find_volume (vs ++ vs') name = find_volume vs' name.
Proof. induction vs as [|x vs IH]; simpl; [done|]. by destruct (String.eqb _ _). Qed.

Lemma findContainer_None cs name : findContainer cs name = None ↔ (name ∉ (C_Name <$> cs)).
Proof.
  induction cs as [|c cs IH]; simpl; [set_solver|].
  rewrite elem_of_cons. destruct (String.eqb_spec (C_Name c) name); [naive_solver|].
  rewrite IH. naive_solver.
Qed.

Lemma findContainer_Some cs name c :
  findContainer cs name = Some c → c ∈ cs ∧ C_Name c = name.
Proof.
  induction cs as [|x cs IH]; simpl; [done|].
  destruct (String.eqb_spec (C_Name x) name).
  - intros [= ->]. split; [left|done].
  - intros [? ?]%IH. split; [by right|done].
Qed.

Lemma findContainer_is_Some cs name :
  is_Some (findContainer cs name) ↔ name ∈ (C_Name <$> cs).
Proof.
  rewrite <- not_eq_None_Some, findContainer_None. split; [|tauto].
  intros. by destruct (decide (name ∈ C_Name <$> cs)).
Qed.

Lemma findContainer_NoDup cs c :
  NoDup (C_Name <$> cs) → c ∈ cs → findContainer cs (C_Name c) = Some c.
Proof.
  induction cs as [|x cs IH]; simpl; [by intros _ ?%elem_of_nil|].
  intros [Hx Hnd]%NoDup_cons [->|Hc]%elem_of_cons.
  - by rewrite String.eqb_refl.
  - destruct (String.eqb_spec (C_Name x) (C_Name c)) as [E|]; [|by apply IH].
    destruct Hx. rewrite E. by apply list_elem_of_fmap_2.
Qed.

Lemma hasContainerNamed_spec cs name : hasContainerNamed cs name = true ↔ name ∈ (C_Name <$> cs).
Proof.
  rewrite <- findContainer_is_Some. unfold hasContainerNamed.
  destruct (findContainer cs name); split; try done.
Qed.

Lemma existsb_name {A} (name : A → string) l s :
  existsb (λ x, String.eqb (name x) s) l = true ↔ s ∈ (name <$> l).
Proof.
  rewrite existsb_elem_of, list_elem_of_fmap. split.
  - intros (x & ? & <-%String.eqb_eq). eauto.
  - intros (x & -> & ?). exists x. by rewrite String.eqb_refl.
Qed.

Lemma hasMountPath_spec c p : hasMountPath c p = true ↔ p ∈ (MountPath <$> C_VolumeMounts c).
Proof. apply existsb_name. Qed.
Lemma hasEnvNamed_spec c n : hasEnvNamed c n = true ↔ n ∈ (Env_Name <$> C_Env c).
Proof. apply existsb_name. Qed.

Lemma first_reason_nil {A} (f : A → string) l :
  first_reason f l = "" ↔ ∀ x, x ∈ l → f x = "".
Proof.
  induction l as [|x l IH]; simpl; [split; [by intros _ ? ?%elem_of_nil|done]|].
  destruct (String.eqb_spec (f x) "") as [E|E].
  - rewrite IH. split.
    + by intros H y [->|]%elem_of_cons; auto.
    + intros H y Hy. apply H. by right.
  - split; [done|]. intros H. destruct E. apply H. left.
Qed.

(** ** One container *)

(** [c'] is [c] with more environment variables and mounts appended and nothing else
    changed; the new variables do not redefine an existing one. *)
Record extends (c c' : Container) : Prop := {
  ext_rest : c' = C_set_Env (C_Env c') (C_set_VolumeMounts (C_VolumeMounts c') c);
  ext_mounts : C_VolumeMounts c `prefix_of` C_VolumeMounts c';
  ext_env : ∃ added, C_Env c' = C_Env c ++ added
      ∧ ∀ e, e ∈ added → (Env_Name e ∉ (Env_Name <$> C_Env c)) }.

#[export] Instance extends_preorder : PreOrder extends.
Proof.
  split.
  - intros c. split; [by destruct c|done|]. exists []. rewrite app_nil_r.
    split; [done|]. by intros e ?%elem_of_nil.
  - intros c1 c2 c3 [R1 M1 (a1 & E1 & F1)] [R2 M2 (a2 & E2 & F2)]. split.
    + rewrite R2. rewrite R1. done.
    + by etrans.
    + exists (a1 ++ a2). rewrite E2, E1, app_assoc. split; [done|].
      intros e [?|He]%elem_of_app; [by apply F1|].
      apply F2 in He. rewrite E1, fmap_app, elem_of_app in He. tauto.
Qed.

Lemma extends_name c c' : extends c c' → C_Name c' = C_Name c.
Proof. intros [R _ _]. by rewrite R. Qed.

Section facts.
Context `{UnicodeTables}.

(** What the environment loop appends: the variables of the plan whose name is not yet
    defined, the first of each name. *)
Lemma inject_env_spec plan env : ∀ c,
  let c' := (inject_env plan env c).1 in
  ∃ added, c' = C_set_Env (C_Env c ++ added) c
    ∧ added `sublist_of` env
    ∧ NoDup (Env_Name <$> added)
    ∧ (∀ e, e ∈ added → (Env_Name e ∉ (Env_Name <$> C_Env c)))
    ∧ (∀ e, e ∈ env → Env_Name e ∈ (Env_Name <$> (C_Env c ++ added))).
Proof.
  induction env as [|e env IH]; intros c; simpl.
  - exists []. rewrite app_nil_r. split_and!; try done; [by destruct c|constructor|..];
      by intros ? ?%elem_of_nil.
  - destruct (hasEnvNamed c (Env_Name e)) eqn:Hn.
    + destruct (IH c) as (added & Hc & Hs & Hnd & Hf & Hall).
      destruct (inject_env plan env c) as [c1 ws]; simpl in *.
      exists added. split_and!; try done; [by constructor|].
      intros x [->|]%elem_of_cons; [|by apply Hall].
      apply hasEnvNamed_spec in Hn. rewrite fmap_app. set_solver.
    + destruct (IH (C_set_Env (C_Env c ++ [e]) c)) as (added & -> & Hs & Hnd & Hf & Hall).
      simpl in *. assert (Hne : Env_Name e ∉ (Env_Name <$> C_Env c)).
      { intros ?%hasEnvNamed_spec. congruence. }
      exists (e :: added). rewrite <- app_assoc in *. simpl in *. split_and!; try done.
      * by constructor.
      * apply NoDup_cons. split; [|done]. intros (x & Hx & Hin)%list_elem_of_fmap.
        apply Hf in Hin. destruct Hin. rewrite <- Hx, fmap_app. set_solver.
      * intros x [->|Hx]%elem_of_cons; [done|]. apply Hf in Hx.
        rewrite fmap_app, elem_of_app in Hx. tauto.
      * intros x [->|Hx]%elem_of_cons; [|by apply Hall].
        rewrite fmap_app, elem_of_app. right. simpl. left.
Qed.

Lemma inject_container_mounts plan c :
  C_VolumeMounts (inject_container plan c).1 = C_VolumeMounts c ++ app_mounts plan.
Proof.
  unfold inject_container.
  destruct (inject_env_spec plan (Plan_Env plan)
              (C_set_VolumeMounts (C_VolumeMounts c ++ app_mounts plan) c)) as (a & -> & _).
  done.
Qed.

Lemma inject_container_env plan c :
  ∃ added, C_Env (inject_container plan c).1 = C_Env c ++ added
    ∧ added `sublist_of` Plan_Env plan
    ∧ NoDup (Env_Name <$> added)
    ∧ (∀ e, e ∈ added → (Env_Name e ∉ (Env_Name <$> C_Env c)))
    ∧ (∀ e, e ∈ Plan_Env plan → Env_Name e ∈ (Env_Name <$> (C_Env c ++ added))).
Proof.
  destruct (inject_env_spec plan (Plan_Env plan)
              (C_set_VolumeMounts (C_VolumeMounts c ++ app_mounts plan) c)) as (a & Hc & ?).
  unfold inject_container. rewrite Hc. by exists a.
Qed.

Lemma inject_container_extends plan c : extends c (inject_container plan c).1.
Proof.
  destruct (inject_env_spec plan (Plan_Env plan)
              (C_set_VolumeMounts (C_VolumeMounts c ++ app_mounts plan) c))
    as (a & Hc & _ & _ & Hf & _).
  unfold inject_container. rewrite Hc. split; simpl; [done|by eexists|by exists a].
Qed.

(** ** The containers of the pod *)

Lemma update_container_extends name f cs :
  (∀ c, extends c (f c)) → Forall2 extends cs (update_container name f cs).
Proof.
  intros Hf. induction cs as [|c cs IH]; simpl; [done|].
  destruct (String.eqb _ _); by constructor.
Qed.

Lemma inject_targets_extends plan targets : ∀ cs,
  Forall2 extends cs (inject_targets plan targets cs).1.
Proof.
  induction targets as [|t targets IH]; intros cs; simpl; [done|].
  destruct (findContainer cs t) as [c|]; [|done].
  destruct (inject_container plan c) as [c1 ws].
  pose proof (IH (update_container t (λ c, (inject_container plan c).1) cs)) as HI.
  destruct (inject_targets _ _ _) as [cs' ws']. simpl in *.
  etrans; [|done]. apply update_container_extends. apply inject_container_extends.
Qed.

Lemma Forall2_extends_names cs cs' :
  Forall2 extends cs cs' → C_Name <$> cs' = C_Name <$> cs.
Proof. induction 1; simpl; [done|]. f_equal; [by apply extends_name|done]. Qed.

Lemma inject_targets_names plan targets cs :
  C_Name <$> (inject_targets plan targets cs).1 = C_Name <$> cs.
Proof. apply Forall2_extends_names, inject_targets_extends. Qed.

Lemma update_container_map name f cs :
  NoDup (C_Name <$> cs) →
  update_container name f cs = (λ c, if String.eqb (C_Name c) name then f c else c) <$> cs.
Proof.
  induction cs as [|c cs IH]; simpl; [done|]. intros [Hc Hnd]%NoDup_cons.
  destruct (String.eqb_spec (C_Name c) name) as [E|E]; [|by rewrite IH]. f_equal.
  rewrite <- (list_fmap_id cs) at 1. apply list_fmap_ext. intros i x Hx.
  destruct (String.eqb_spec (C_Name x) name) as [E'|]; [|done].
  destruct Hc. rewrite E, <- E'. by eapply list_elem_of_fmap_2, list_elem_of_lookup_2.
Qed.

(** The containers after injection: on a pod whose container names are distinct, and for
    distinct targets, exactly the targets are injected, each once. *)
Definition inject_spec (plan : Plan) (targets : list string) (cs : list Container)
    : list Container :=
  (λ c, if decide (C_Name c ∈ targets) then (inject_container plan c).1 else c) <$> cs.

Lemma inject_container_name plan c : C_Name (inject_container plan c).1 = C_Name c.
Proof. apply extends_name, inject_container_extends. Qed.

Lemma inject_targets_spec plan targets : ∀ cs,
  NoDup (C_Name <$> cs) → NoDup targets →
  (inject_targets plan targets cs).1 = inject_spec plan targets cs.
Proof.
  induction targets as [|t targets IH]; intros cs Hn Hd; simpl.
  - unfold inject_spec. rewrite <- (list_fmap_id cs) at 1. apply list_fmap_ext.
    intros i c _. by rewrite decide_False by apply not_elem_of_nil.
  - apply NoDup_cons in Hd as [Ht Hd]. destruct (findContainer cs t) as [c|] eqn:Hf.
    + destruct (inject_container plan c) as [c1 ws].
      set (cs1 := update_container _ _ cs).
      assert (Hcs1 : C_Name <$> cs1 = C_Name <$> cs).
      { apply Forall2_extends_names, update_container_extends, inject_container_extends. }
      pose proof (IH cs1 ltac:(by rewrite Hcs1) Hd) as HI.
      destruct (inject_targets plan targets cs1) as [cs' ws']. simpl in *. subst cs'.
      unfold cs1. rewrite update_container_map by done. unfold inject_spec.
      rewrite <- list_fmap_compose. apply list_fmap_ext. intros i x _. simpl.
      destruct (String.eqb_spec (C_Name x) t) as [E|E].
      * rewrite inject_container_name, E.
        by rewrite (decide_False (P := t ∈ targets)), decide_True by set_solver.
      * apply decide_ext. set_solver.
    + rewrite IH by done. apply list_fmap_ext. intros i x Hx. apply decide_ext.
      apply findContainer_None in Hf. rewrite elem_of_cons. split; [by right|].
      intros [<-|?]; [|done]. destruct Hf. by eapply list_elem_of_fmap_2, list_elem_of_lookup_2.
Qed.

(** ** Targets *)

Definition requested_names (pod : Pod) (plan : Plan) : list string :=
  match containersFromAnnotation pod with
  | [] => Plan_Containers plan
  | names => names
  end.

(** The containers a plan is meant for. *)
Definition targets_of (pod : Pod) (plan : Plan) : list string :=
  (resolveTargets pod plan).1.1.

Lemma targets_of_spec pod plan name :
  name ∈ targets_of pod plan ↔
  name ∈ (C_Name <$> Pod_Containers pod)
  ∧ (requested_names pod plan = [] ∨ name ∈ requested_names pod plan).
Proof.
  unfold targets_of, resolveTargets. fold (requested_names pod plan).
  destruct (requested_names pod plan) as [|r rs] eqn:E; simpl; [tauto|].
  rewrite list_elem_of_filter, findContainer_is_Some. naive_solver.
Qed.

Lemma targets_of_NoDup pod plan :
  NoDup (C_Name <$> Pod_Containers pod) → NoDup (requested_names pod plan) →
  NoDup (targets_of pod plan).
Proof.
  unfold targets_of, resolveTargets. fold (requested_names pod plan).
  destruct (requested_names pod plan) as [|r rs] eqn:E; simpl; [done|].
  intros _ ?. by apply NoDup_filter.
Qed.

(** ** Collisions *)

(** What has to hold for a plan to be injected without touching anything that is there. *)
Record no_collision (pod : Pod) (plan : Plan) (pending : list Container)
    (targets : list string) : Prop := {
  nc_socket : ∀ v, findVolume pod socketVolumeName = Some v →
    ∃ csi, VS_CSI v = Some csi ∧ CSI_Driver csi = Plan_CSIDriver plan;
  nc_token : Token_VolumeName (Plan_Token plan) ∉ (Volume_Name <$> Pod_Volumes pod);
  nc_config : configVolumeName (Plan_ShimName plan) ∉ (Volume_Name <$> Pod_Volumes pod);
  nc_init : initContainerName (Plan_ShimName plan)
              ∉ (C_Name <$> (pending ++ Pod_InitContainers pod));
  nc_refresh : refreshContainerName (Plan_ShimName plan)
                 ∉ (C_Name <$> (pending ++ Pod_InitContainers pod));
  nc_mounts : ∀ t c p, t ∈ targets → findContainer (Pod_Containers pod) t = Some c →
    p ∈ mountPaths plan → (p ∉ (MountPath <$> C_VolumeMounts c)) }.

Lemma checkSocketVolume_nil pod plan :
  checkSocketVolume pod plan = "" ↔
  ∀ v, findVolume pod socketVolumeName = Some v →
    ∃ csi, VS_CSI v = Some csi ∧ CSI_Driver csi = Plan_CSIDriver plan.
Proof.
  unfold checkSocketVolume. destruct (findVolume pod socketVolumeName) as [v|]; [|by split].
  destruct (VS_CSI v) as [csi|] eqn:Hv.
  - destruct (String.eqb_spec (CSI_Driver csi) (Plan_CSIDriver plan)); simpl.
    + split; [|done]. intros _ w [= <-]. eauto.
    + split; [done|]. intros Hw. destruct (Hw v eq_refl) as (x & ? & ?). congruence.
  - split; [done|]. intros Hw. destruct (Hw v eq_refl) as (x & ? & ?). congruence.
Qed.

Lemma checkCollisions_nil pod plan pending targets :
  checkCollisions pod plan pending targets = "" ↔ no_collision pod plan pending targets.
Proof.
  unfold checkCollisions. rewrite first_reason_nil.
  setoid_rewrite elem_of_cons. setoid_rewrite elem_of_cons. setoid_rewrite elem_of_cons.
  setoid_rewrite list_elem_of_singleton.
  assert (Hv : ∀ name, (match findVolume pod name with
      | Some _ => "volume " +:+ Quote name +:+ " already exists on the pod" | None => "" end = "")
      ↔ (name ∉ (Volume_Name <$> Pod_Volumes pod))).
  { intros name. rewrite <- find_volume_None. unfold findVolume.
    by destruct (find_volume (Pod_Volumes pod) name). }
  assert (Hi : ∀ name, (if hasContainerNamed (Pod_InitContainers pod) name
                           || hasContainerNamed pending name
      then "init container " +:+ Quote name +:+ " already exists on the pod" else "") = ""
      ↔ (name ∉ (C_Name <$> (pending ++ Pod_InitContainers pod)))).
  { intros name. rewrite fmap_app, elem_of_app, <- !hasContainerNamed_spec.
    destruct (hasContainerNamed (Pod_InitContainers pod) name), (hasContainerNamed pending name);
      simpl; naive_solver. }
  split.
  - intros Hall.
    pose proof (Hall _ (or_introl eq_refl)) as H0.
    pose proof (Hall _ (or_intror (or_introl eq_refl))) as H1.
    pose proof (Hall _ (or_intror (or_intror (or_introl eq_refl)))) as H2.
    pose proof (Hall _ (or_intror (or_intror (or_intror eq_refl)))) as H3. clear Hall.
    rewrite checkSocketVolume_nil in H0. rewrite first_reason_nil in H1, H2, H3.
    split; [done|apply Hv, H1; set_solver|apply Hv, H1; set_solver
           |apply Hi, H2; set_solver|apply Hi, H2; set_solver|].
    intros t c p Ht Hc Hp Hin. specialize (H3 t Ht). rewrite Hc in H3.
    rewrite first_reason_nil in H3. specialize (H3 p Hp).
    apply hasMountPath_spec in Hin. by rewrite Hin in H3.
  - intros [Hs Ht Hc Hin Hr Hm] r [-> | [-> | [-> | -> ] ] ].
    + by apply checkSocketVolume_nil.
    + apply first_reason_nil. intros x Hx. apply Hv. set_solver.
    + apply first_reason_nil. intros x Hx. apply Hi. set_solver.
    + apply first_reason_nil. intros t Htg. destruct (findContainer _ t) eqn:E; [|done].
      apply first_reason_nil. intros p Hp. destruct (hasMountPath _ p) eqn:E'; [|done].
      apply hasMountPath_spec in E'. by destruct (Hm t c p).
Qed.

(** ** The loop: plans are admitted or skipped *)

(** What admitting a plan does to the pod. *)
Definition apply_plan (plan : Plan) (pod : Pod) : Pod :=
  writePlanMetadata plan (injectIntoContainers plan (targets_of pod plan) (addVolumes plan pod)).1.

Definition accept (plan : Plan) (st : ApplyState) : ApplyState :=
  {| St_pod := apply_plan plan (St_pod st);
     St_newInits := St_newInits st ++ [helperContainer plan false; helperContainer plan true];
     St_addedBytes := (St_addedBytes st + renderedBytes plan)%Z;
     St_applied := St_applied st ++ [plan];
     St_warnings := [] |}.

Record admitted (existing : Z) (st : ApplyState) (plan : Plan) : Prop := {
  adm_budget : (existing + St_addedBytes st + renderedBytes plan ≤ MaxPodAnnotationBytes)%Z;
  adm_targets : requested_names (St_pod st) plan ≠ [] → targets_of (St_pod st) plan ≠ [];
  adm_free : no_collision (St_pod st) plan (St_newInits st) (targets_of (St_pod st) plan) }.

(** A state without its warnings; two states are equivalent when they differ only there. *)
Definition silent (st : ApplyState) : ApplyState :=
  {| St_pod := St_pod st; St_newInits := St_newInits st; St_addedBytes := St_addedBytes st;
     St_applied := St_applied st; St_warnings := [] |}.
#[local] Instance state_equiv : Equiv ApplyState := λ s t, silent s = silent t.
#[local] Instance state_equivalence : Equivalence (≡@{ApplyState}).
Proof. split; unfold equiv, state_equiv; repeat intro; congruence. Qed.

Lemma resolveTargets_eta pod plan :
  ∃ ws, resolveTargets pod plan = (targets_of pod plan, requested_names pod plan, ws).
Proof.
  unfold targets_of, resolveTargets. fold (requested_names pod plan).
  destruct (requested_names pod plan); simpl; eauto.
Qed.

Lemma apply_step_admitted existing st plan :
  admitted existing st plan → apply_step existing st plan ≡ accept plan st.
Proof.
  intros [Hb Ht Hf]. unfold apply_step. cbv zeta.
  apply Z.ltb_ge in Hb. rewrite Hb.
  destruct (resolveTargets_eta (St_pod st) plan) as [ws ->].
  rewrite (proj2 (andb_false_iff _ _)).
  2: { destruct (decide (requested_names (St_pod st) plan = [])).
       - left. apply bool_decide_eq_false. naive_solver.
       - right. apply bool_decide_eq_false. naive_solver. }
  apply checkCollisions_nil in Hf. simpl in *. rewrite Hf. simpl.
  unfold accept, apply_plan. destruct (injectIntoContainers _ _ _). done.
Qed.

Lemma apply_step_skipped existing st plan :
  ¬ admitted existing st plan → ∃ ws, ws ≠ [] ∧ apply_step existing st plan = warn ws st.
Proof.
  intros Ha. unfold apply_step. cbv zeta.
  destruct (MaxPodAnnotationBytes <? _)%Z eqn:Hb; [by eexists [_]|].
  apply Z.ltb_ge in Hb.
  destruct (resolveTargets_eta (St_pod st) plan) as [ws ->].
  destruct (_ && _) eqn:Ht.
  { exists (ws ++ [skipped plan ("none of the requested containers exist on the pod: "
      +:+ Join (requested_names (St_pod st) plan) ", ")]).
    split; [by destruct ws|]. unfold warn. simpl. by rewrite app_assoc. }
  simpl. destruct (String.eqb_spec (checkCollisions (St_pod st) plan (St_newInits st)
    (targets_of (St_pod st) plan)) "") as [E|E]; simpl.
  - destruct Ha. split; [lia| |by apply checkCollisions_nil].
    intros Hr Hn. apply andb_false_iff in Ht as [Ht|Ht]; by apply bool_decide_eq_false in Ht.
  - eexists (ws ++ [_]). split; [by destruct ws|]. unfold warn. simpl. by rewrite app_assoc.
Qed.

#[export] Instance no_collision_dec pod plan pending targets :
  Decision (no_collision pod plan pending targets).
Proof.
  refine (cast_if (decide (checkCollisions pod plan pending targets = "")));
    by rewrite <- checkCollisions_nil.
Defined.
#[export] Instance admitted_dec existing st plan : Decision (admitted existing st plan).
Proof.
  refine (cast_if (decide
    ((existing + St_addedBytes st + renderedBytes plan ≤ MaxPodAnnotationBytes)%Z
     ∧ (requested_names (St_pod st) plan ≠ [] → targets_of (St_pod st) plan ≠ [])
     ∧ no_collision (St_pod st) plan (St_newInits st) (targets_of (St_pod st) plan))));
    [by split; naive_solver|by intros []; naive_solver].
Defined.

#[local] Instance admitted_proper existing :
  Proper ((≡) ==> (=) ==> iff) (admitted existing).
Proof.
  intros s t Hst p ? <-. destruct s, t. unfold equiv, state_equiv, silent in Hst. simpl in Hst.
  simplify_eq. split; intros []; by split.
Qed.
#[local] Instance accept_proper : Proper ((=) ==> (≡) ==> (≡)) accept.
Proof.
  intros p ? <- s t Hst. destruct s, t. unfold equiv, state_equiv, silent, accept in *.
  simpl in *. by simplify_eq.
Qed.
#[local] Instance apply_step_proper existing :
  Proper ((≡) ==> (=) ==> (≡)) (apply_step existing).
Proof.
  intros s t Hst p ? <-. destruct (decide (admitted existing s p)) as [Ha|Ha].
  - rewrite (apply_step_admitted _ s) by done. rewrite Hst in Ha.
    rewrite (apply_step_admitted _ t) by done. by rewrite Hst.
  - destruct (apply_step_skipped _ _ _ Ha) as (ws & _ & ->). rewrite Hst in Ha.
    by destruct (apply_step_skipped _ _ _ Ha) as (ws' & _ & ->).
Qed.

(** The states the loop goes through, each with the plans admitted so far. *)
Inductive reach (pod : Pod) : list Plan → ApplyState → Prop :=
| reach_start : reach pod [] (apply_start pod)
| reach_admit plans st plan :
    reach pod plans st → admitted (annotationBytes pod) st plan →
    reach pod (plans ++ [plan]) (accept plan st).

Lemma reach_applied pod plans st :
  reach pod plans st → St_applied st = plans ∧ silent st = st.
Proof. induction 1 as [|plans st plan Hr [IH _]]; simpl; [done|]. by rewrite IH. Qed.

(** Skipping a plan changes nothing but the warnings, so the loop ends in a state reached by
    the admitted plans alone. *)
Lemma loop_reach pod plans :
  ∃ applied st, applied `sublist_of` plans ∧ reach pod applied st ∧ apply_loop pod plans ≡ st.
Proof.
  induction plans as [|plan plans (applied & st & Hs & Hr & Heq)] using rev_ind.
  - exists [], (apply_start pod). split_and!; [constructor|constructor|done].
  - unfold apply_loop in *. rewrite foldl_app. simpl.
    destruct (decide (admitted (annotationBytes pod) st plan)) as [Ha|Ha].
    + exists (applied ++ [plan]), (accept plan st). split_and!.
      * by apply sublist_app.
      * by constructor.
      * rewrite Heq. by apply apply_step_admitted.
    + exists applied, st. split_and!; [by apply sublist_inserts_r|done|].
      rewrite Heq. destruct (apply_step_skipped _ _ _ Ha) as (ws & _ & ->). done.
Qed.

(** Replaying the admitted plans takes the loop to the same state. *)
Lemma reach_replay pod plans st : reach pod plans st → apply_loop pod plans ≡ st.
Proof.
  induction 1 as [|plans st plan Hr IH Ha]; [done|].
  unfold apply_loop in *. rewrite foldl_app. simpl. rewrite IH. by apply apply_step_admitted.
Qed.

(** What [apply_pod] returns, over the state the loop reaches. *)
Lemma apply_pod_cases pod plans :
  (already_injected pod = true ∧ (apply_pod pod plans).1 = (pod, []))
  ∨ (already_injected pod = false ∧ ∃ st,
       reach pod (St_applied st) st ∧ St_applied st `sublist_of` plans
       ∧ apply_loop pod plans ≡ st
       ∧ (apply_pod pod plans).1
         = (if decide (St_applied st = []) then pod else apply_finish st, St_applied st)).
Proof.
  unfold apply_pod. destruct (already_injected pod); [by left|right]. split; [done|].
  destruct (loop_reach pod plans) as (applied & st & Hs & Hr & Heq).
  destruct (reach_applied _ _ _ Hr) as [Hap Hsil]. exists st. rewrite Hap.
  split_and!; [done..|]. assert (Hst : silent (apply_loop pod plans) = st) by congruence.
  destruct (apply_loop pod plans) as [p ni ab ap ws]. subst st. simpl in *. subst ap.
  destruct applied as [|a l]; [|done]. simpl.
  inversion Hr as [Hstart|pl ? ? ? ? Habs]; [done|by destruct pl].
Qed.

End facts.
