(* ===== verification/Injection.v ===== *)
(** * What [Apply] guarantees: frame, installation, validity and budget *)

From S2P Require Import Prelude GoStd GoStdFacts Kube Api SpiffeHelper Template GoTemplate Params Plan Mutate MutateFacts.

(** ** Annotation keys *)

Definition is_digit_char (c : ascii) : bool := ((48 <=? byte_of c) && (byte_of c <=? 57))%N.

Lemma pretty_N_go_digits x : ∀ s,
  string_forallb is_digit_char s = true →
  string_forallb is_digit_char (pretty_N_go x s) = true.
Proof.
  induction (N.lt_wf_0 x) as [x _ IH]. intros s Hs. destruct (decide (0 < x)%N) as [Hx|Hx].
  - rewrite pretty_N_go_step by done. apply IH; [by apply N.div_lt|].
    simpl. rewrite Hs, andb_true_r.
    assert (Hm : (x `mod` 10 < 10)%N) by (by apply N.mod_lt).
    revert Hm. generalize (x `mod` 10)%N. intros m Hm.
    assert (m = 0 ∨ m = 1 ∨ m = 2 ∨ m = 3 ∨ m = 4 ∨ m = 5 ∨ m = 6 ∨ m = 7 ∨ m = 8 ∨ m = 9)%N
      as Hc by lia.
    by repeat destruct Hc as [-> | Hc]; [..|subst].
  - assert (x = 0)%N as -> by lia. by rewrite pretty_N_go_0.
Qed.

Lemma Itoa_digits i : string_forallb is_digit_char (Itoa (Z.of_nat i)) = true.
Proof.
  unfold Itoa. destruct (Z.of_nat i) as [|p|p] eqn:E; [done| |lia].
  change (pretty (Z.pos p)) with (pretty_N_go (N.pos p) "").
  by apply pretty_N_go_digits.
Qed.

Lemma Itoa_nat_inj i j : Itoa (Z.of_nat i) = Itoa (Z.of_nat j) → i = j.
Proof. intros E. apply Nat2Z.inj. by apply (inj pretty). Qed.

(** A shim name may contain "-" and digits, and still no two (shim, index) pairs share an
    annotation. *)
Lemma fileAnnotation_inj a b i j : fileAnnotation a i = fileAnnotation b j → a = b ∧ i = j.
Proof.
  unfold fileAnnotation. intros E%string_app_inj_l.
  destruct (string_app_sep_inj is_digit_char "-" a b (Itoa (Z.of_nat i)) (Itoa (Z.of_nat j)))
    as [-> Hi]; [done|apply Itoa_digits|apply Itoa_digits|done|].
  split; [done|]. by apply Itoa_nat_inj.
Qed.

Lemma helper_file_ne a b i : HelperConfAnnotation a ≠ fileAnnotation b i.
Proof. done. Qed.

(** The annotations and the label a plan writes. *)
Definition owned_annotations (plan : Plan) : list string :=
  HelperConfAnnotation (Plan_ShimName plan)
  :: (fileAnnotation (Plan_ShimName plan) <$> seq 0 (length (Plan_Files plan))).
Definition owned_label (plan : Plan) : string := ShimLabelKey (Plan_ShimName plan).

Lemma owned_annotations_disjoint p q k :
  k ∈ owned_annotations p → k ∈ owned_annotations q → Plan_ShimName p = Plan_ShimName q.
Proof.
  intros [->|(i & -> & _)%list_elem_of_fmap]%elem_of_cons
         [E|(j & E & _)%list_elem_of_fmap]%elem_of_cons.
  - by apply HelperConfAnnotation_inj.
  - by apply helper_file_ne in E.
  - by symmetry in E; apply helper_file_ne in E.
  - by apply fileAnnotation_inj in E as [? _].
Qed.

Lemma owned_not_operator p k : k ∈ owned_annotations p →
  k ≠ StatusAnnotation ∧ k ≠ ShimsAnnotation ∧ k ≠ ContainersAnnotation.
Proof. by intros [->|(i & -> & _)%list_elem_of_fmap]%elem_of_cons. Qed.

(** ** The metadata of one plan *)

Lemma write_files_frame shim files : ∀ i pod,
  write_files shim i files pod
  = Pod_set_Annotations (Pod_Annotations (write_files shim i files pod)) pod.
Proof.
  induction files as [|f files IH]; intros i pod; simpl; [by destruct pod|].
  rewrite IH at 1. done.
Qed.

Lemma write_files_ne shim files k : ∀ i pod,
  (∀ j, j < length files → k ≠ fileAnnotation shim (i + j)) →
  Pod_Annotations (write_files shim i files pod) !! k = Pod_Annotations pod !! k.
Proof.
  induction files as [|f files IH]; intros i pod Hk; simpl; [done|].
  rewrite IH.
  - simpl. rewrite lookup_insert_ne; [done|].
    specialize (Hk 0 ltac:(simpl; lia)). rewrite Nat.add_0_r in Hk. congruence.
  - intros j Hj. rewrite Nat.add_succ_comm. apply Hk. simpl. lia.
Qed.

Lemma write_files_lookup shim files j f : ∀ i pod,
  files !! j = Some f →
  Pod_Annotations (write_files shim i files pod) !! fileAnnotation shim (i + j)
  = Some (RF_Content f).
Proof.
  revert j. induction files as [|g files IH]; intros j i pod Hj; [done|].
  destruct j as [|j]; simpl in *.
  - injection Hj as ->. rewrite Nat.add_0_r, write_files_ne.
    + simpl. by rewrite lookup_insert_eq.
    + intros j _ [_ E]%fileAnnotation_inj. lia.
  - rewrite <- Nat.add_succ_comm. by apply IH.
Qed.

Lemma writePlanMetadata_frame plan pod :
  writePlanMetadata plan pod
  = Pod_set_Labels (Pod_Labels (writePlanMetadata plan pod))
      (Pod_set_Annotations (Pod_Annotations (writePlanMetadata plan pod)) pod).
Proof. unfold writePlanMetadata. rewrite write_files_frame. done. Qed.

Lemma writePlanMetadata_ne plan pod k :
  (k ∉ owned_annotations plan) →
  Pod_Annotations (writePlanMetadata plan pod) !! k = Pod_Annotations pod !! k.
Proof.
  intros Hk. apply not_elem_of_cons in Hk as [Hh Hf]. simpl. rewrite write_files_ne.
  - simpl. by rewrite lookup_insert_ne.
  - intros j Hj ->. apply Hf. apply list_elem_of_fmap_2, elem_of_seq. lia.
Qed.

Lemma writePlanMetadata_conf plan pod :
  Pod_Annotations (writePlanMetadata plan pod) !! HelperConfAnnotation (Plan_ShimName plan)
  = Some (Plan_HelperConf plan).
Proof.
  simpl. rewrite write_files_ne; [|by intros j _ ?]. simpl. by rewrite lookup_insert_eq.
Qed.

Lemma writePlanMetadata_file plan pod i f :
  Plan_Files plan !! i = Some f →
  Pod_Annotations (writePlanMetadata plan pod) !! fileAnnotation (Plan_ShimName plan) i
  = Some (RF_Content f).
Proof. intros Hf. simpl. by apply (write_files_lookup _ _ i f 0). Qed.

Lemma writePlanMetadata_labels plan pod :
  Pod_Labels (writePlanMetadata plan pod)
  = <[owned_label plan := shimLabelValue (Plan_ClusterScoped plan)]> (Pod_Labels pod).
Proof. simpl. by rewrite write_files_frame. Qed.

(** ** The frame of an injection *)

(** [pod'] is [pod] with volumes appended, init containers prepended, containers extended,
    and annotations and labels written only under the given keys. *)
Record pod_frame (annotations labels : list string) (pod pod' : Pod) : Prop := {
  pf_rest : pod' = Pod_set_Annotations (Pod_Annotations pod')
      (Pod_set_Labels (Pod_Labels pod') (Pod_set_Volumes (Pod_Volumes pod')
        (Pod_set_InitContainers (Pod_InitContainers pod')
          (Pod_set_Containers (Pod_Containers pod') pod))));
  pf_volumes : Pod_Volumes pod `prefix_of` Pod_Volumes pod';
  pf_inits : Pod_InitContainers pod `suffix_of` Pod_InitContainers pod';
  pf_containers : Forall2 extends (Pod_Containers pod) (Pod_Containers pod');
  pf_annotations : ∀ k, (k ∉ annotations) → Pod_Annotations pod' !! k = Pod_Annotations pod !! k;
  pf_labels : ∀ k, (k ∉ labels) → Pod_Labels pod' !! k = Pod_Labels pod !! k }.

Lemma pod_frame_refl A L pod : pod_frame A L pod pod.
Proof. split; try done. by destruct pod. Qed.

Lemma pod_frame_trans A1 L1 A2 L2 p q r :
  pod_frame A1 L1 p q → pod_frame A2 L2 q r → pod_frame (A1 ++ A2) (L1 ++ L2) p r.
Proof.
  intros [R1 V1 I1 C1 F1 G1] [R2 V2 I2 C2 F2 G2]. split; try by etrans.
  - rewrite R2. rewrite R1. done.
  - intros k [? ?]%not_elem_of_app. by rewrite F2, F1.
  - intros k [? ?]%not_elem_of_app. by rewrite G2, G1.
Qed.

Section injection.
Context `{UnicodeTables}.

Lemma addVolumes_volumes plan pod : ∃ socket,
  Pod_Volumes (addVolumes plan pod)
  = Pod_Volumes pod ++ socket ++ [tokenVolume plan; configVolume plan]
  ∧ (findVolume pod socketVolumeName = None ∧ socket = [socketVolume plan]
     ∨ is_Some (findVolume pod socketVolumeName) ∧ socket = []).
Proof.
  unfold addVolumes. destruct (findVolume pod socketVolumeName); simpl.
  - exists []. rewrite <- app_assoc. simpl. eauto.
  - exists [socketVolume plan]. rewrite <- !app_assoc. simpl. eauto.
Qed.

Lemma apply_plan_eq plan pod :
  apply_plan plan pod
  = writePlanMetadata plan
      (Pod_set_Containers (inject_targets plan (targets_of pod plan) (Pod_Containers pod)).1
         (addVolumes plan pod)).
Proof.
  unfold apply_plan, injectIntoContainers.
  replace (Pod_Containers (addVolumes plan pod)) with (Pod_Containers pod) by done.
  by destruct (inject_targets _ _ _).
Qed.

Lemma apply_plan_volumes plan pod :
  Pod_Volumes (apply_plan plan pod) = Pod_Volumes (addVolumes plan pod).
Proof. by rewrite apply_plan_eq, writePlanMetadata_frame. Qed.
Lemma apply_plan_containers plan pod :
  Pod_Containers (apply_plan plan pod)
  = (inject_targets plan (targets_of pod plan) (Pod_Containers pod)).1.
Proof. by rewrite apply_plan_eq, writePlanMetadata_frame. Qed.
Lemma apply_plan_inits plan pod :
  Pod_InitContainers (apply_plan plan pod) = Pod_InitContainers pod.
Proof. by rewrite apply_plan_eq, writePlanMetadata_frame. Qed.

Lemma apply_plan_frame plan pod :
  pod_frame (owned_annotations plan) [owned_label plan] pod (apply_plan plan pod).
Proof.
  split.
  - rewrite apply_plan_eq, writePlanMetadata_frame. done.
  - rewrite apply_plan_volumes. destruct (addVolumes_volumes plan pod) as (s & -> & _).
    by eexists.
  - by rewrite apply_plan_inits.
  - rewrite apply_plan_containers. apply inject_targets_extends.
  - intros k Hk. by rewrite apply_plan_eq, writePlanMetadata_ne.
  - intros k Hk. rewrite apply_plan_eq, writePlanMetadata_labels.
    rewrite lookup_insert_ne; [done|]. set_solver.
Qed.

(** The annotations and labels a list of plans writes. *)
Definition plans_annotations (plans : list Plan) : list string := plans ≫= owned_annotations.
Definition plans_labels (plans : list Plan) : list string := plans ≫= λ p, [owned_label p].
Definition plans_inits (plans : list Plan) : list Container :=
  plans ≫= λ p, [helperContainer p false; helperContainer p true].

Lemma reach_frame pod plans st : reach pod plans st →
  pod_frame (plans_annotations plans) (plans_labels plans) pod (St_pod st)
  ∧ St_newInits st = plans_inits plans
  ∧ Pod_InitContainers (St_pod st) = Pod_InitContainers pod.
Proof.
  induction 1 as [|plans st plan Hr (Hf & Hn & Hi) Ha].
  - split_and!; [apply pod_frame_refl|done|done].
  - unfold plans_annotations, plans_labels, plans_inits. rewrite !bind_app. simpl.
    split_and!.
    + eapply pod_frame_trans; [done|]. simpl. rewrite app_nil_r. apply apply_plan_frame.
    + by rewrite Hn.
    + etrans; [apply apply_plan_inits|done].
Qed.

(** The containers a plan is meant for do not depend on the plans applied before it. *)
Lemma frame_targets A L pod pod' plan :
  pod_frame A L pod pod' → (ContainersAnnotation ∉ A) → targets_of pod' plan = targets_of pod plan
  ∧ requested_names pod' plan = requested_names pod plan.
Proof.
  intros [_ _ _ Hc Ha _] HA.
  assert (Hann : containersFromAnnotation pod' = containersFromAnnotation pod).
  { unfold containersFromAnnotation. by rewrite Ha. }
  assert (Hreq : requested_names pod' plan = requested_names pod plan).
  { unfold requested_names. by rewrite Hann. }
  split; [|done]. unfold targets_of, resolveTargets.
  fold (requested_names pod' plan) (requested_names pod plan). rewrite Hreq.
  pose proof (Forall2_extends_names _ _ Hc) as Hn.
  destruct (requested_names pod plan) as [|r rs]; simpl; [done|].
  apply list_filter_iff. intros x. by rewrite !findContainer_is_Some, Hn.
Qed.

Lemma plans_annotations_spec plans k :
  k ∈ plans_annotations plans ↔ ∃ p, p ∈ plans ∧ k ∈ owned_annotations p.
Proof. unfold plans_annotations. rewrite list_elem_of_bind. naive_solver. Qed.

Lemma containers_not_owned plans : ContainersAnnotation ∉ plans_annotations plans.
Proof. intros (p & _ & Hk)%plans_annotations_spec. by apply owned_not_operator in Hk as (_ & _ & ?). Qed.

Lemma reach_targets pod plans st plan : reach pod plans st →
  targets_of (St_pod st) plan = targets_of pod plan
  ∧ requested_names (St_pod st) plan = requested_names pod plan.
Proof.
  intros (Hf & _)%reach_frame. eapply frame_targets; [done|]. apply containers_not_owned.
Qed.

(** No two admitted plans share a shim name: their helper containers would collide. *)
Lemma reach_names pod plans st : reach pod plans st → NoDup (Plan_ShimName <$> plans).
Proof.
  induction 1 as [|plans st plan Hr IH [_ _ Hf]]; [constructor|].
  rewrite fmap_app. apply NoDup_app_singleton; [done|].
  intros (p & Hp & Hin)%list_elem_of_fmap. apply (nc_init _ _ _ _ Hf).
  rewrite fmap_app, elem_of_app. left. apply reach_frame in Hr as (_ & -> & _).
  apply list_elem_of_fmap. exists (helperContainer p false). split; [simpl; congruence|].
  apply list_elem_of_bind. exists p. split; [left|done].
Qed.

(** ** Determinism of skipping and idempotence *)

Lemma apply_finish_injected st : already_injected (apply_finish st) = true.
Proof.
  unfold already_injected, apply_finish. simpl.
  rewrite lookup_insert_ne by done. by rewrite lookup_insert_eq.
Qed.

(** The plans [Apply] reports as applied, and the pod it leaves. *)
Definition applied_plans (pod : Pod) (plans : list Plan) : list Plan := (apply_pod pod plans).1.2.
Definition injected_pod (pod : Pod) (plans : list Plan) : Pod := (apply_pod pod plans).1.1.

Lemma apply_replay pod plans :
  (apply_pod pod plans).1.2 `sublist_of` plans
  ∧ (apply_pod pod (apply_pod pod plans).1.2).1 = (apply_pod pod plans).1.
Proof.
  destruct (apply_pod_cases pod plans) as [[Hi ->]|(Hi & st & Hr & Hs & _ & ->)]; simpl.
  - split; [apply sublist_nil_l|]. unfold apply_pod. by rewrite Hi.
  - split; [done|]. pose proof (reach_replay _ _ _ Hr) as Hrep.
    destruct (apply_pod_cases pod (St_applied st)) as [[? _]|(_ & st' & Hr' & _ & Heq & ->)];
      [congruence|].
    apply reach_applied in Hr as [_ Hsil]. apply reach_applied in Hr' as [_ Hsil'].
    assert (st' = st) as ->; [|done].
    rewrite <- Hsil, <- Hsil'. etrans; [symmetry; apply Heq|apply Hrep].
Qed.

(** C1. A plan that is not applied leaves no trace: the plans [Apply] returns are among the
    ones it was given, in their order, and applying just those to the same pod gives the same
    pod and applies all of them. *)
Theorem apply_skips_leave_no_trace pod plans :
  applied_plans pod plans `sublist_of` plans
  ∧ applied_plans pod (applied_plans pod plans) = applied_plans pod plans
  ∧ injected_pod pod (applied_plans pod plans) = injected_pod pod plans.
Proof.
  unfold applied_plans, injected_pod. destruct (apply_replay pod plans) as [Hs ->]. done.
Qed.

(** C26. Admission is idempotent: running [Apply] on the pod it returned, with any plans,
    changes nothing once something was applied, and with the same plans in every case. *)
Theorem apply_idempotent pod plans :
  (applied_plans pod plans ≠ [] → ∀ plans',
     injected_pod (injected_pod pod plans) plans' = injected_pod pod plans
     ∧ applied_plans (injected_pod pod plans) plans' = [])
  ∧ (applied_plans pod plans = [] → injected_pod pod plans = pod)
  ∧ injected_pod (injected_pod pod plans) plans = injected_pod pod plans.
Proof.
  unfold applied_plans, injected_pod.
  destruct (apply_pod_cases pod plans) as [[Hi Hp]|(Hi & st & Hr & Hs & _ & Hp)];
    rewrite Hp; simpl; [by rewrite Hp|].
  case_decide as Hd; [by rewrite Hp|].
  assert (Hinj : ∀ plans', (apply_pod (apply_finish st) plans').1 = (apply_finish st, [])).
  { intros plans'. unfold apply_pod. by rewrite apply_finish_injected. }
  split_and!; [|done|by rewrite Hinj]. intros _ plans'. by rewrite Hinj.
Qed.

(** ** Frame *)

Definition operator_annotations : list string := [StatusAnnotation; ShimsAnnotation].

Lemma apply_finish_frame st :
  pod_frame operator_annotations [] (St_pod st) (apply_finish st).
Proof.
  split; simpl; try done.
  - by exists (St_newInits st).
  - intros k Hk. unfold operator_annotations in Hk.
    rewrite !lookup_insert_ne by set_solver. done.
Qed.

Lemma apply_pod_frame pod plans :
  pod_frame (plans_annotations (apply_pod pod plans).1.2 ++ operator_annotations)
    (plans_labels (apply_pod pod plans).1.2) pod (apply_pod pod plans).1.1.
Proof.
  destruct (apply_pod_cases pod plans) as [[Hi ->]|(Hi & st & Hr & Hs & _ & ->)]; simpl;
    [apply pod_frame_refl|].
  case_decide; [apply pod_frame_refl|].
  rewrite <- (app_nil_r (plans_labels _)).
  eapply pod_frame_trans; [by apply reach_frame|apply apply_finish_frame].
Qed.

Lemma apply_pod_injected pod plans :
  (apply_pod pod plans).1.2 ≠ [] → already_injected (apply_pod pod plans).1.1 = true.
Proof.
  destruct (apply_pod_cases pod plans) as [[Hi ->]|(Hi & st & Hr & Hs & _ & ->)]; simpl; [done|].
  intros Hne. rewrite decide_False by done. apply apply_finish_injected.
Qed.

Lemma apply_pod_names pod plans : NoDup (Plan_ShimName <$> (apply_pod pod plans).1.2).
Proof.
  destruct (apply_pod_cases pod plans) as [[Hi ->]|(Hi & st & Hr & Hs & _ & ->)]; simpl.
  - constructor.
  - by eapply reach_names.
Qed.

(** C3. [Apply] only adds: every field of the pod other than volumes, init containers,
    containers, annotations and labels is unchanged; the pod's own volumes come first and
    its own init containers last; every container keeps its position, name, image and every
    other field, its mounts and variables come first and none of its variables is redefined;
    annotations are written only under the keys of the applied plans and the two status
    keys, labels only under the keys of the applied plans. *)
Theorem apply_frame pod plans :
  let '(pod', applied, _) := apply_pod pod plans in
  pod_frame (plans_annotations applied ++ operator_annotations) (plans_labels applied) pod pod'.
Proof.
  pose proof (apply_pod_frame pod plans).
  by destruct (apply_pod pod plans) as [[pod' applied] ws].
Qed.

(** ** Installation of the applied plans *)

(** Everything a plan asks for is on the pod. *)
Record installed (plan : Plan) (targets : list string) (pod : Pod) : Prop := {
  in_socket : ∃ v csi, findVolume pod socketVolumeName = Some v
    ∧ VS_CSI v = Some csi ∧ CSI_Driver csi = Plan_CSIDriver plan;
  in_token : tokenVolume plan ∈ Pod_Volumes pod;
  in_config : configVolume plan ∈ Pod_Volumes pod;
  in_containers : ∀ t c, t ∈ targets → findContainer (Pod_Containers pod) t = Some c →
    app_mounts plan ⊆ C_VolumeMounts c
    ∧ ∀ e, e ∈ Plan_Env plan → Env_Name e ∈ (Env_Name <$> C_Env c);
  in_conf : Pod_Annotations pod !! HelperConfAnnotation (Plan_ShimName plan)
            = Some (Plan_HelperConf plan);
  in_files : ∀ i f, Plan_Files plan !! i = Some f →
    Pod_Annotations pod !! fileAnnotation (Plan_ShimName plan) i = Some (RF_Content f);
  in_label : Pod_Labels pod !! ShimLabelKey (Plan_ShimName plan)
             = Some (shimLabelValue (Plan_ClusterScoped plan)) }.

Lemma findContainer_extends cs cs' t c' :
  Forall2 extends cs cs' → findContainer cs' t = Some c' →
  ∃ c, findContainer cs t = Some c ∧ extends c c'.
Proof.
  induction 1 as [|c d cs cs' Hcd Hcs IH]; simpl; [done|].
  rewrite (extends_name _ _ Hcd). destruct (String.eqb _ _); [|done].
  intros [= <-]. eauto.
Qed.

Lemma extends_keeps_mounts c c' l : extends c c' →
  l ⊆ C_VolumeMounts c → l ⊆ C_VolumeMounts c'.
Proof. intros [_ [k ->] _] Hl x Hx. apply elem_of_app. left. by apply Hl. Qed.

Lemma extends_keeps_env c c' n : extends c c' →
  n ∈ (Env_Name <$> C_Env c) → n ∈ (Env_Name <$> C_Env c').
Proof. intros [_ _ (a & -> & _)] Hn. rewrite fmap_app, elem_of_app. by left. Qed.

Lemma installed_frame A L plan targets p q :
  pod_frame A L p q → (∀ k, k ∈ owned_annotations plan → (k ∉ A)) → (owned_label plan ∉ L) →
  installed plan targets p → installed plan targets q.
Proof.
  intros [_ [vs HV] _ HC HA HL] Hdis Hlab [Hs Ht Hc Hm Hcf Hfi Hla]. split.
  - destruct Hs as (v & csi & ? & ? & ?). exists v, csi. split_and!; try done.
    unfold findVolume. rewrite HV. by apply find_volume_app.
  - rewrite HV. apply elem_of_app. by left.
  - rewrite HV. apply elem_of_app. by left.
  - intros t c' Htg Hc'. destruct (findContainer_extends _ _ _ _ HC Hc') as (c & Hfc & Hext).
    destruct (Hm t c Htg Hfc) as [Hmo Hen]. split; [by eapply extends_keeps_mounts|].
    intros e He. eapply extends_keeps_env; [done|]. by apply Hen.
  - rewrite HA; [done|]. apply Hdis. left.
  - intros i f Hf. rewrite HA; [by apply Hfi|]. apply Hdis. right.
    apply list_elem_of_fmap_2, elem_of_seq. apply lookup_lt_Some in Hf. lia.
  - by rewrite HL.
Qed.

Lemma update_container_find t f cs c' :
  (∀ c, C_Name (f c) = C_Name c) →
  findContainer (update_container t f cs) t = Some c' → ∃ c, c' = f c.
Proof.
  intros Hf. induction cs as [|x cs IH]; simpl; [done|].
  destruct (String.eqb_spec (C_Name x) t) as [E|E]; simpl.
  - rewrite Hf, (proj2 (String.eqb_eq _ _) E). intros [= <-]. eauto.
  - rewrite (proj2 (String.eqb_neq _ _) E). done.
Qed.

Lemma inject_targets_installs plan t c' targets : ∀ cs,
  t ∈ targets → findContainer (inject_targets plan targets cs).1 t = Some c' →
  app_mounts plan ⊆ C_VolumeMounts c'
  ∧ ∀ e, e ∈ Plan_Env plan → Env_Name e ∈ (Env_Name <$> C_Env c').
Proof.
  induction targets as [|x targets IH]; intros cs Ht Hc; [by apply elem_of_nil in Ht|].
  simpl in Hc. destruct (findContainer cs x) as [c|] eqn:Hx.
  - destruct (inject_container plan c) as [c1 ws].
    set (cs1 := update_container x _ cs) in Hc.
    pose proof (inject_targets_extends plan targets cs1) as Hext. specialize (IH cs1).
    destruct (inject_targets plan targets cs1) as [cs' ws']. simpl in *.
    apply elem_of_cons in Ht as [<-|Ht]; [|by apply IH].
    destruct (findContainer_extends _ _ _ _ Hext Hc) as (d & Hd & Hdc).
    apply update_container_find in Hd as (d0 & ->); [|apply inject_container_name].
    split.
    + eapply extends_keeps_mounts; [done|]. rewrite inject_container_mounts. set_solver.
    + intros e He. eapply extends_keeps_env; [done|].
      destruct (inject_container_env plan d0) as (a & -> & _ & _ & _ & Hall). by apply Hall.
  - apply elem_of_cons in Ht as [->|Ht]; [|by eapply IH].
    apply findContainer_None in Hx. rewrite <- (inject_targets_names plan targets cs) in Hx.
    apply findContainer_Some in Hc as [Hin <-]. destruct Hx. by apply list_elem_of_fmap_2.
Qed.

Lemma apply_plan_installs plan pod pending :
  no_collision pod plan pending (targets_of pod plan) →
  installed plan (targets_of pod plan) (apply_plan plan pod).
Proof.
  intros [Hs _ _ _ _ _]. split.
  - unfold findVolume. rewrite apply_plan_volumes.
    destruct (addVolumes_volumes plan pod) as (s & -> & [[Hn ->]|[[v Hv] ->]]).
    + rewrite find_volume_app_None by done. simpl. eauto.
    + destruct (Hs v Hv) as (csi & ? & ?). exists v, csi. split_and!; try done.
      by apply find_volume_app.
  - rewrite apply_plan_volumes. destruct (addVolumes_volumes plan pod) as (s & -> & _).
    rewrite !elem_of_app. right. right. left.
  - rewrite apply_plan_volumes. destruct (addVolumes_volumes plan pod) as (s & -> & _).
    rewrite !elem_of_app. right. right. right. left.
  - intros t c Ht. rewrite apply_plan_containers. by apply inject_targets_installs.
  - rewrite apply_plan_eq. apply writePlanMetadata_conf.
  - intros i f Hf. rewrite apply_plan_eq. by apply writePlanMetadata_file.
  - rewrite apply_plan_eq, writePlanMetadata_labels. by rewrite lookup_insert_eq.
Qed.

Lemma reach_installed pod plans st plan : reach pod plans st → plan ∈ plans →
  installed plan (targets_of pod plan) (St_pod st).
Proof.
  intros Hr. revert plan. induction Hr as [|plans st p Hr IH Ha]; intros plan Hin.
  { by apply elem_of_nil in Hin. }
  pose proof (reach_names _ _ _ (reach_admit _ _ _ _ Hr Ha)) as Hnd.
  destruct (reach_targets pod plans st p Hr) as [Htg _].
  apply elem_of_app in Hin as [Hin|Hin].
  - eapply installed_frame; [apply apply_plan_frame| | |by apply IH].
    all: rewrite fmap_app, NoDup_app in Hnd; destruct Hnd as (_ & Hnd & _).
    + intros k Hk Hk'. apply (Hnd (Plan_ShimName plan)).
      * by apply list_elem_of_fmap_2.
      * rewrite (owned_annotations_disjoint _ _ _ Hk Hk'). left.
    + intros E%list_elem_of_singleton. apply ShimLabelKey_inj in E.
      apply (Hnd (Plan_ShimName plan)); [by apply list_elem_of_fmap_2|rewrite E; left].
  - apply list_elem_of_singleton in Hin as ->. simpl. rewrite <- Htg.
    eapply apply_plan_installs, adm_free, Ha.
Qed.

Lemma apply_installed pod plans plan :
  plan ∈ (apply_pod pod plans).1.2 → installed plan (targets_of pod plan) (apply_pod pod plans).1.1.
Proof.
  destruct (apply_pod_cases pod plans) as [[Hi ->]|(Hi & st & Hr & Hs & _ & ->)]; simpl.
  - by intros ?%elem_of_nil.
  - intros Hin. case_decide as Hd; [rewrite Hd in Hin; by apply elem_of_nil in Hin|].
    eapply installed_frame; [apply apply_finish_frame| |set_solver|by eapply reach_installed].
    intros k Hk. apply owned_not_operator in Hk. unfold operator_annotations. set_solver.
Qed.

(** ** The variables of a container *)

(** The first variable of a name. *)
Definition find_env (name : string) (env : list EnvVar) : option EnvVar :=
  head (filter (λ e, Env_Name e = name) env).

(** The variables [requested], in order of precedence, given to a container that defines
    [own]: its own come first; of the requested ones exactly those are added, unchanged, whose
    name the container does not define and no request before them uses. *)
Definition env_installed (own requested env : list EnvVar) : Prop :=
  ∃ added, env = own ++ added ∧ NoDup (Env_Name <$> added)
    ∧ ∀ e, e ∈ added ↔ (Env_Name e ∉ (Env_Name <$> own)) ∧ find_env (Env_Name e) requested = Some e.

Lemma find_env_app n l k :
  find_env n (l ++ k) = match find_env n l with Some e => Some e | None => find_env n k end.
Proof. unfold find_env. rewrite filter_app. by destruct (filter _ l). Qed.

Lemma find_env_Some n l e : find_env n l = Some e → e ∈ l ∧ Env_Name e = n.
Proof.
  unfold find_env. intros Hh. assert (Hin : e ∈ filter (λ e, Env_Name e = n) l).
  { destruct (filter _ l); simplify_eq/=. left. }
  by apply list_elem_of_filter in Hin as [? ?].
Qed.

Lemma find_env_None n l : find_env n l = None ↔ (n ∉ (Env_Name <$> l)).
Proof.
  unfold find_env. split.
  - intros Hh%head_None (e & -> & He)%list_elem_of_fmap.
    assert (e ∈ filter (λ x, Env_Name x = Env_Name e) l) as Hin by by apply list_elem_of_filter.
    rewrite Hh in Hin. by apply elem_of_nil in Hin.
  - intros Hn. apply head_None. apply filter_nil_iff. intros e He E. apply Hn. rewrite <- E.
    by apply list_elem_of_fmap_2.
Qed.

Lemma env_installed_ext own r r' env :
  (∀ n, find_env n r = find_env n r') → env_installed own r env → env_installed own r' env.
Proof.
  intros Hr (added & -> & Hnd & Hadd). exists added. split_and!; [done..|].
  intros e. by rewrite <- Hr.
Qed.

(** What a container defines is its own or was requested. *)
Lemma env_installed_names own req env n :
  env_installed own req env →
  n ∈ (Env_Name <$> env) ↔ n ∈ (Env_Name <$> own) ∨ is_Some (find_env n req).
Proof.
  intros (added & -> & _ & Hadd). rewrite fmap_app, elem_of_app. split.
  - intros [?|(e & -> & He)%list_elem_of_fmap]; [by left|]. apply Hadd in He as [_ ?]. eauto.
  - intros [?|[e He]]; [by left|]. pose proof (find_env_Some _ _ _ He) as [_ Hn].
    destruct (decide (n ∈ (Env_Name <$> own))) as [?|Hno]; [by left|]. right.
    rewrite <- Hn. apply list_elem_of_fmap_2, Hadd. by rewrite Hn.
Qed.

Lemma env_installed_skip own req env e :
  env_installed own req env → Env_Name e ∈ (Env_Name <$> env) →
  env_installed own (req ++ [e]) env.
Proof.
  intros Henv Hn. apply (env_installed_names _ _ _ _ Henv) in Hn.
  destruct Henv as (added & -> & Hnd & Hadd). exists added. split_and!; [done..|].
  intros x. rewrite Hadd, find_env_app. split; intros [Hx Hf]; (split; [done|]); [by rewrite Hf|].
  destruct (find_env (Env_Name x) req) eqn:E; [done|]. apply find_env_Some in Hf as [Hin _].
  apply list_elem_of_singleton in Hin as ->. destruct Hn as [?|[y Hy]]; [done|congruence].
Qed.

Lemma env_installed_add own req env e :
  env_installed own req env → (Env_Name e ∉ (Env_Name <$> env)) →
  env_installed own (req ++ [e]) (env ++ [e]).
Proof.
  intros Henv Hn. pose proof Hn as Hn'. rewrite (env_installed_names _ _ _ _ Henv) in Hn'.
  destruct Henv as (added & -> & Hnd & Hadd). exists (added ++ [e]).
  rewrite fmap_app, elem_of_app in Hn. split_and!; [by rewrite app_assoc| |].
  - rewrite fmap_app. apply NoDup_app_singleton; [done|]. tauto.
  - intros x. rewrite elem_of_app, list_elem_of_singleton, Hadd, find_env_app. split.
    + intros [[Hx Hf]| ->]; [by rewrite Hf|]. split; [tauto|].
      destruct (find_env (Env_Name e) req) eqn:E; [destruct Hn'; right; by eexists|].
      unfold find_env. by rewrite filter_cons_True.
    + intros [Hx Hf]. destruct (find_env (Env_Name x) req) eqn:E; [by left; simplify_eq|right].
      apply find_env_Some in Hf as [Hin _]. by apply list_elem_of_singleton in Hin.
Qed.

Lemma inject_env_installed plan own env : ∀ req c,
  env_installed own req (C_Env c) →
  env_installed own (req ++ env) (C_Env (inject_env plan env c).1).
Proof.
  induction env as [|e env IH]; intros req c Hc; simpl; [by rewrite app_nil_r|].
  rewrite (cons_middle e req env), (app_assoc req).
  destruct (hasEnvNamed c (Env_Name e)) eqn:Hn.
  - apply hasEnvNamed_spec in Hn. specialize (IH (req ++ [e]) c (env_installed_skip _ _ _ _ Hc Hn)).
    by destruct (inject_env plan env c).
  - apply IH. apply env_installed_add; [done|]. intros ?%hasEnvNamed_spec. congruence.
Qed.

Lemma inject_container_env_installed plan own req c :
  env_installed own req (C_Env c) →
  env_installed own (req ++ Plan_Env plan) (C_Env (inject_container plan c).1).
Proof. intros Hc. by apply inject_env_installed. Qed.

Lemma update_container_lookup x f cs t :
  (∀ c, C_Name (f c) = C_Name c) →
  findContainer (update_container x f cs) t
  = if String.eqb x t then f <$> findContainer cs t else findContainer cs t.
Proof.
  intros Hf. induction cs as [|c cs IH]; simpl; [by destruct (String.eqb x t)|].
  destruct (String.eqb_spec (C_Name c) x) as [E|E]; simpl; rewrite ?Hf, ?IH;
    destruct (String.eqb_spec (C_Name c) t), (String.eqb_spec x t); simpl; congruence.
Qed.

(** A target that is listed more than once gets its variables once. *)
Lemma inject_targets_env plan own req t targets : ∀ cs c,
  findContainer cs t = Some c → ∃ c', findContainer (inject_targets plan targets cs).1 t = Some c'
    ∧ ((t ∉ targets) → c' = c)
    ∧ (env_installed own (req ++ Plan_Env plan) (C_Env c) →
       env_installed own (req ++ Plan_Env plan) (C_Env c'))
    ∧ (t ∈ targets → env_installed own req (C_Env c) →
       env_installed own (req ++ Plan_Env plan) (C_Env c')).
Proof.
  induction targets as [|x targets IH]; intros cs c Hc; cbn [inject_targets].
  { exists c. split_and!; [done..|]. by intros ?%elem_of_nil. }
  assert (Hagain : env_installed own (req ++ Plan_Env plan) (C_Env c) →
    env_installed own (req ++ Plan_Env plan) (C_Env (inject_container plan c).1)).
  { intros Henv%(inject_container_env_installed plan). revert Henv. apply env_installed_ext.
    intros n. rewrite !find_env_app. by destruct (find_env n req), (find_env n (Plan_Env plan)). }
  destruct (findContainer cs x) as [d|] eqn:Hx.
  - destruct (inject_container plan d) as [d1 ws].
    set (cs1 := update_container x _ cs).
    assert (Hc1 : findContainer cs1 t = Some (if String.eqb x t then (inject_container plan c).1 else c)).
    { unfold cs1. rewrite update_container_lookup by apply inject_container_name. rewrite Hc.
      by destruct (String.eqb x t). }
    destruct (IH cs1 _ Hc1) as (c' & Hc' & Hnot & Hkeep & Hadd).
    destruct (inject_targets plan targets cs1) as [cs' ws']. simpl in *. exists c'.
    destruct (String.eqb_spec x t) as [->|Hne].
    + split_and!; [done|set_solver|auto|].
      intros _ Henv. by apply Hkeep, inject_container_env_installed.
    + split_and!; [done|set_solver|done|]. intros [?|?]%elem_of_cons; [congruence|auto].
  - destruct (IH cs c Hc) as (c' & Hc' & Hnot & Hkeep & Hadd). exists c'.
    split_and!; [done|set_solver|done|]. intros [->|?]%elem_of_cons; [congruence|auto].
Qed.

(** The variables the plans request for the container [t] of the pod, in order. *)
Definition requested_env (pod : Pod) (t : string) (plans : list Plan) : list EnvVar :=
  filter (λ plan, t ∈ targets_of pod plan) plans ≫= Plan_Env.

Lemma reach_env pod plans st t c0 :
  reach pod plans st → findContainer (Pod_Containers pod) t = Some c0 →
  ∃ c, findContainer (Pod_Containers (St_pod st)) t = Some c
    ∧ env_installed (C_Env c0) (requested_env pod t plans) (C_Env c).
Proof.
  intros Hr Hc0. induction Hr as [|plans st plan Hr (c & Hc & Henv) Ha].
  - exists c0. split; [done|]. exists []. rewrite app_nil_r. split_and!; [done|constructor|].
    intros e. split; [by intros ?%elem_of_nil|by intros [_ ?]].
  - destruct (reach_targets pod plans st plan Hr) as [Htg _].
    destruct (inject_targets_env plan (C_Env c0) (requested_env pod t plans) t
      (targets_of (St_pod st) plan) _ c Hc) as (c' & Hc' & Hnot & _ & Hadd).
    exists c'. cbn [accept St_pod]. rewrite apply_plan_containers. split; [done|].
    unfold requested_env in *. rewrite filter_app, bind_app. rewrite Htg in *.
    destruct (decide (t ∈ targets_of pod plan)).
    + rewrite filter_cons_True, filter_nil by done. simpl. rewrite app_nil_r. auto.
    + rewrite filter_cons_False, filter_nil by done. simpl. rewrite app_nil_r.
      by rewrite (Hnot n).
Qed.

Lemma apply_env pod plans t c0 :
  findContainer (Pod_Containers pod) t = Some c0 →
  ∃ c, findContainer (Pod_Containers (apply_pod pod plans).1.1) t = Some c
    ∧ env_installed (C_Env c0) (requested_env pod t (apply_pod pod plans).1.2) (C_Env c).
Proof.
  intros Hc0.
  destruct (apply_pod_cases pod plans) as [[Hi ->]|(Hi & st & Hr & Hs & _ & ->)]; simpl.
  - by apply (reach_env pod [] (apply_start pod)); [constructor|].
  - destruct (reach_env _ _ _ _ _ Hr Hc0) as (c & Hc & Henv).
    case_decide as Hd; [|by exists c]. rewrite Hd in *.
    by apply (reach_env pod [] (apply_start pod)); [constructor|].
Qed.

(** C2. Every applied plan is installed completely: the socket volume with its CSI driver,
    the token and config volumes, the token and file mounts in every container it is meant
    for, the helper configuration and the content of each file in annotations that no other
    plan overwrites, the label.  The variables of a container are its own, followed by exactly
    the variables, with their values, of the applied plans meant for it, of several with one
    name the first, and none that the container defines itself.  No two applied plans share a
    shim name (a cluster shim does not override the namespaced one of its name); the init
    containers of the applied plans run first, in order, each one-shot fetch before its
    refresher. *)
Theorem apply_installs pod plans :
  let '(pod', applied, _) := apply_pod pod plans in
  (∀ plan, plan ∈ applied → installed plan (targets_of pod plan) pod')
  ∧ (∀ t c0, findContainer (Pod_Containers pod) t = Some c0 →
       ∃ c, findContainer (Pod_Containers pod') t = Some c
         ∧ env_installed (C_Env c0) (requested_env pod t applied) (C_Env c))
  ∧ NoDup (Plan_ShimName <$> applied)
  ∧ (already_injected pod = false →
       Pod_InitContainers pod' = plans_inits applied ++ Pod_InitContainers pod)
  ∧ (applied ≠ [] →
       Pod_Annotations pod' !! StatusAnnotation = Some StatusInjected
       ∧ Pod_Annotations pod' !! ShimsAnnotation = Some (Join (Plan_ShimKey <$> applied) ",")).
Proof.
  pose proof (apply_installed pod plans) as Hins. pose proof (apply_pod_names pod plans) as Hnm.
  pose proof (apply_env pod plans) as Henv.
  destruct (apply_pod pod plans) as [[pod' applied] ws] eqn:E. simpl in Hins, Hnm, Henv.
  split; [done|]. split; [done|]. split; [done|].
  destruct (apply_pod_cases pod plans) as [[Hi Hp]|(Hi & st & Hr & Hs & _ & Hp)];
    rewrite E in Hp; simpl in Hp; injection Hp as -> ->; [split; [congruence|done]|].
  case_decide as Hd; [by rewrite Hd|].
  destruct (reach_frame _ _ _ Hr) as (_ & Hn & Hini). unfold apply_finish. simpl. split.
  - by rewrite Hn, Hini.
  - rewrite lookup_insert_eq, lookup_insert_ne by done. by rewrite lookup_insert_eq.
Qed.

(** ** Validity: what the API server requires of names, mounts and references *)

Record valid_pod (pod : Pod) : Prop := {
  vp_volumes : NoDup (Volume_Name <$> Pod_Volumes pod);
  vp_names : NoDup (C_Name <$> (Pod_InitContainers pod ++ Pod_Containers pod));
  vp_mounts : ∀ c, c ∈ Pod_InitContainers pod ++ Pod_Containers pod →
    NoDup (MountPath <$> C_VolumeMounts c);
  vp_refs : ∀ c m, c ∈ Pod_InitContainers pod ++ Pod_Containers pod → m ∈ C_VolumeMounts c →
    Mount_Name m ∈ (Volume_Name <$> Pod_Volumes pod) }.

(** What the checks of [Apply] leave to the plan and the pod: distinct names and paths within
    the plan itself, a target named at most once, and helper names that no application
    container uses. *)
Record plan_ok (pod : Pod) (plan : Plan) : Prop := {
  po_paths : NoDup (mountPaths plan);
  po_volumes : NoDup [socketVolumeName; Token_VolumeName (Plan_Token plan);
                      configVolumeName (Plan_ShimName plan)];
  po_helper : NoDup [Plan_SocketMountPath plan; Token_MountPath (Plan_Token plan);
                     configMountPath];
  po_requested : NoDup (requested_names pod plan);
  po_fresh : ∀ c, c ∈ Pod_Containers pod →
    C_Name c ≠ initContainerName (Plan_ShimName plan)
    ∧ C_Name c ≠ refreshContainerName (Plan_ShimName plan) }.

Lemma app_mounts_paths plan : MountPath <$> app_mounts plan = mountPaths plan.
Proof.
  unfold app_mounts, mountPaths. simpl. f_equal. rewrite fmap_imap.
  apply list_eq. intros i. rewrite list_lookup_imap, list_lookup_fmap.
  by destruct (Plan_Files plan !! i).
Qed.

Lemma app_mounts_names plan m : m ∈ app_mounts plan →
  Mount_Name m = Token_VolumeName (Plan_Token plan)
  ∨ Mount_Name m = configVolumeName (Plan_ShimName plan).
Proof.
  intros [->|Hm]%elem_of_cons; [by left|right].
  apply list_elem_of_lookup in Hm as [i Hi]. rewrite list_lookup_imap in Hi.
  by destruct (Plan_Files plan !! i); simplify_eq/=.
Qed.

Lemma apply_plan_volume_names plan pod pending targets :
  no_collision pod plan pending targets →
  NoDup (Volume_Name <$> Pod_Volumes pod) →
  NoDup [socketVolumeName; Token_VolumeName (Plan_Token plan);
         configVolumeName (Plan_ShimName plan)] →
  NoDup (Volume_Name <$> Pod_Volumes (apply_plan plan pod)).
Proof.
  intros [_ Ht Hc _ _ _] Hnd Hp. rewrite apply_plan_volumes.
  destruct (addVolumes_volumes plan pod) as (s & -> & Hs).
  rewrite !NoDup_cons, !not_elem_of_cons in Hp. destruct Hp as ((? & ? & _) & (? & _) & _ & _).
  rewrite !fmap_app. apply NoDup_app. split; [done|].
  destruct Hs as [[Hn%find_volume_None ->]|[_ ->]]; simpl.
  - split; [set_solver|]. by repeat (apply NoDup_cons; split; [set_solver|]); constructor.
  - split; [set_solver|]. by repeat (apply NoDup_cons; split; [set_solver|]); constructor.
Qed.

Lemma apply_plan_container_cases plan pod c' :
  NoDup (C_Name <$> Pod_Containers pod) → NoDup (targets_of pod plan) →
  c' ∈ Pod_Containers (apply_plan plan pod) →
  ∃ c, c ∈ Pod_Containers pod ∧ C_Name c' = C_Name c
    ∧ (C_VolumeMounts c' = C_VolumeMounts c
       ∨ C_Name c ∈ targets_of pod plan ∧ C_VolumeMounts c' = C_VolumeMounts c ++ app_mounts plan).
Proof.
  intros Hn Ht. rewrite apply_plan_containers, inject_targets_spec by done.
  intros (c & -> & Hc)%list_elem_of_fmap. exists c. split; [done|].
  case_decide; [|by auto]. rewrite inject_container_name, inject_container_mounts. auto.
Qed.

(** The pod the loop is building, with the pending init containers in place. *)
Definition pending_pod (st : ApplyState) : Pod :=
  Pod_set_InitContainers (St_newInits st ++ Pod_InitContainers (St_pod st)) (St_pod st).

Lemma helper_mounts_volumes plan pod pending targets b m :
  no_collision pod plan pending targets →
  m ∈ C_VolumeMounts (helperContainer plan b) →
  Mount_Name m ∈ (Volume_Name <$> Pod_Volumes (apply_plan plan pod)).
Proof.
  intros Hf Hm. rewrite apply_plan_volumes.
  destruct (addVolumes_volumes plan pod) as (s & -> & Hs). rewrite !fmap_app, !elem_of_app.
  simpl in Hm. rewrite !elem_of_cons in Hm. destruct Hm as [-> | [-> | [-> | [] %elem_of_nil ] ] ]; simpl.
  - destruct Hs as [[_ ->]|[[v Hv] _]]; [right; left; left|left].
    apply dec_stable. intros Hn%find_volume_None. unfold findVolume in Hv. congruence.
  - right. right. left.
  - right. right. right. left.
Qed.

Lemma pending_accept_elem plan st c :
  c ∈ Pod_InitContainers (pending_pod (accept plan st))
      ++ Pod_Containers (pending_pod (accept plan st)) →
  (∃ b, c = helperContainer plan b)
  ∨ c ∈ St_newInits st ++ Pod_InitContainers (St_pod st)
  ∨ c ∈ Pod_Containers (apply_plan plan (St_pod st)).
Proof.
  unfold pending_pod. cbn [Pod_InitContainers Pod_Containers Pod_set_InitContainers accept
    St_newInits St_pod]. rewrite apply_plan_inits, !elem_of_app, !elem_of_cons.
  intros [[[Hc|[->|[->|[]%elem_of_nil]]]|Hc]|Hc]; eauto.
Qed.

Lemma pending_accept_names plan st :
  C_Name <$> (Pod_InitContainers (pending_pod (accept plan st))
              ++ Pod_Containers (pending_pod (accept plan st)))
  ≡ₚ [initContainerName (Plan_ShimName plan); refreshContainerName (Plan_ShimName plan)]
     ++ (C_Name <$> (Pod_InitContainers (pending_pod st) ++ Pod_Containers (pending_pod st))).
Proof.
  unfold pending_pod. cbn [Pod_InitContainers Pod_Containers Pod_set_InitContainers accept
    St_newInits St_pod]. rewrite apply_plan_inits, apply_plan_containers, !fmap_app.
  rewrite inject_targets_names. cbn. solve_Permutation.
Qed.

Lemma accept_names existing plan st :
  admitted existing st plan → plan_ok (St_pod st) plan → valid_pod (pending_pod st) →
  NoDup (C_Name <$> (Pod_InitContainers (pending_pod (accept plan st))
                     ++ Pod_Containers (pending_pod (accept plan st)))).
Proof.
  intros [_ _ Hf] [_ _ _ _ Hfr] [_ Vn _ _].
  rewrite pending_accept_names. destruct Hf as [_ _ _ Hi Hr _]. simpl.
  assert (Hne : ∀ n, (n = initContainerName (Plan_ShimName plan)
                      ∨ n = refreshContainerName (Plan_ShimName plan)) →
    (n ∉ (C_Name <$> (Pod_InitContainers (pending_pod st) ++ Pod_Containers (pending_pod st))))).
  { intros n Hn. rewrite fmap_app, elem_of_app. intros [Hin|Hin].
    - by destruct Hn as [-> | ->].
    - apply list_elem_of_fmap in Hin as (c & -> & Hc). destruct (Hfr c Hc). naive_solver. }
  apply NoDup_cons. split; [|apply NoDup_cons; split; [by apply Hne; right|done]].
  intros [E|E]%elem_of_cons; [done|]. apply (Hne _ (or_introl eq_refl) E).
Qed.

Lemma accept_valid existing plan st :
  admitted existing st plan → plan_ok (St_pod st) plan →
  valid_pod (pending_pod st) → valid_pod (pending_pod (accept plan st)).
Proof.
  intros Had Hok Hval. pose proof Had as [_ _ Hf]. pose proof Hok as [Hpa Hvo Hhe Hre _].
  pose proof Hval as [Vv Vn Vm Vr].
  assert (Hnd : NoDup (C_Name <$> Pod_Containers (St_pod st))).
  { rewrite fmap_app, NoDup_app in Vn. apply Vn. }
  pose proof (targets_of_NoDup _ _ Hnd Hre) as Htn.
  assert (Hvol : ∀ n, n ∈ (Volume_Name <$> Pod_Volumes (St_pod st)) →
    n ∈ (Volume_Name <$> Pod_Volumes (apply_plan plan (St_pod st)))).
  { intros n Hn. destruct (pf_volumes _ _ _ _ (apply_plan_frame plan (St_pod st))) as [k ->].
    rewrite fmap_app, elem_of_app. by left. }
  split.
  - by eapply apply_plan_volume_names.
  - by eapply accept_names.
  - intros c [[b ->]|[Hc|Hc]]%pending_accept_elem; [by destruct b| |].
    + apply Vm. rewrite elem_of_app. by left.
    + destruct (apply_plan_container_cases _ _ _ Hnd Htn Hc) as (d & Hd & _ & [-> | [Hdt ->] ]).
      * apply Vm. rewrite elem_of_app. by right.
      * rewrite fmap_app, app_mounts_paths. apply NoDup_app. split_and!; [|..|done].
        -- apply Vm. rewrite elem_of_app. by right.
        -- intros p Hp Hp'. by eapply (nc_mounts _ _ _ _ Hf _ d p Hdt);
             [apply findContainer_NoDup|..].
  - intros c m [[b ->]|[Hc|Hc]]%pending_accept_elem Hm.
    + by eapply helper_mounts_volumes.
    + apply Hvol. apply (Vr c); [|done]. rewrite elem_of_app. by left.
    + destruct (apply_plan_container_cases _ _ _ Hnd Htn Hc) as (d & Hd & _ & [E | [Hdt E] ]);
        rewrite E in Hm.
      * apply Hvol. apply (Vr d); [|done]. rewrite elem_of_app. by right.
      * apply elem_of_app in Hm as [Hm|Hm].
        { apply Hvol. apply (Vr d); [|done]. rewrite elem_of_app. by right. }
        cbn [pending_pod accept St_pod Pod_Volumes Pod_set_InitContainers].
        rewrite apply_plan_volumes.
        destruct (addVolumes_volumes plan (St_pod st)) as (s & -> & _).
        rewrite !fmap_app, !elem_of_app.
        apply app_mounts_names in Hm as [-> | ->]; right; right; simpl; set_solver.
Qed.

Lemma plan_ok_frame A L pod pod' plan :
  pod_frame A L pod pod' → (ContainersAnnotation ∉ A) → plan_ok pod plan → plan_ok pod' plan.
Proof.
  intros Hf HA [Hpa Hvo Hhe Hre Hfr]. split; try done.
  - by rewrite (proj2 (frame_targets _ _ _ _ plan Hf HA)).
  - intros c Hc. apply pf_containers, Forall2_extends_names in Hf.
    assert (Hn : C_Name c ∈ (C_Name <$> Pod_Containers pod')) by by apply list_elem_of_fmap_2.
    rewrite Hf in Hn. apply list_elem_of_fmap in Hn as (d & -> & Hd). by apply Hfr.
Qed.

Lemma reach_valid pod plans st :
  reach pod plans st → valid_pod pod → (∀ plan, plan ∈ plans → plan_ok pod plan) →
  valid_pod (pending_pod st).
Proof.
  intros Hr Hv. induction Hr as [|plans st plan Hr IH Ha]; intros Hok.
  - by destruct pod.
  - eapply accept_valid; [done| |].
    + apply reach_frame in Hr as [Hf _]. eapply plan_ok_frame; [done|apply containers_not_owned|].
      apply Hok. apply elem_of_app. right. left.
    + apply IH. intros p Hp. apply Hok. apply elem_of_app. by left.
Qed.

Lemma apply_keeps_valid pod plans :
  valid_pod pod → (∀ plan, plan ∈ plans → plan_ok pod plan) → valid_pod (apply_pod pod plans).1.1.
Proof.
  intros Hv Hok.
  destruct (apply_pod_cases pod plans) as [[Hi ->]|(Hi & st & Hr & Hs & _ & ->)]; [done|].
  simpl. case_decide; [done|].
  pose proof (reach_valid _ _ _ Hr Hv) as [Vv Vn Vm Vr].
  { intros plan Hin. apply Hok. by eapply elem_of_submseteq, sublist_submseteq. }
  by split.
Qed.

(** C4. The collision checks suffice across plans: on a valid pod, plans that are consistent in
    themselves ([plan_ok]: distinct mount paths and volume names within the plan, the socket
    mounted apart from the token and the configuration, no container requested twice, helper
    names that no application container uses) leave a valid pod, whatever the plans have in
    common with each other and with the pod: volume names and container names stay distinct,
    no container mounts two things at one path, and every mount names a volume of the pod. *)
Theorem apply_valid pod plans :
  valid_pod pod → (∀ plan, plan ∈ plans → plan_ok pod plan) →
  let '(pod', _, _) := apply_pod pod plans in valid_pod pod'.
Proof.
  intros Hv Hok. pose proof (apply_keeps_valid pod plans Hv Hok).
  by destruct (apply_pod pod plans) as [[pod' applied] ws].
Qed.

(** ** The annotation budget *)

Definition annotations_size (m : gmap string string) : Z :=
  map_fold (λ k v total, (total + (len k + len v))%Z) 0%Z m.

Lemma annotationBytes_size pod : annotationBytes pod = annotations_size (Pod_Annotations pod).
Proof. done. Qed.

Lemma annotations_size_fresh m k v :
  m !! k = None → annotations_size (<[k := v]> m) = (annotations_size m + (len k + len v))%Z.
Proof.
  intros Hk. unfold annotations_size. rewrite map_fold_insert_L; [done| |done].
  intros. lia.
Qed.

Lemma annotations_size_insert m k v :
  (annotations_size (<[k := v]> m) ≤ annotations_size m + (len k + len v))%Z.
Proof.
  destruct (m !! k) as [w|] eqn:Hk; [|rewrite annotations_size_fresh by done; lia].
  rewrite <- insert_delete_eq, annotations_size_fresh by apply lookup_delete_eq.
  assert (Hm : annotations_size m = (annotations_size (delete k m) + (len k + len w))%Z).
  { rewrite <- (insert_delete_id m k w) at 1 by done.
    by rewrite annotations_size_fresh by apply lookup_delete_eq. }
  pose proof (len_nonneg k). pose proof (len_nonneg w). lia.
Qed.

Definition sum_len (l : list string) : Z := foldr (λ s n, (len s + n)%Z) 0%Z l.

Lemma sum_len_app l l' : sum_len (l ++ l') = (sum_len l + sum_len l')%Z.
Proof. induction l; simpl; lia. Qed.

Lemma write_files_size shim files : ∀ i pod,
  (annotationBytes (write_files shim i files pod)
   ≤ annotationBytes pod + sum_content files
     + sum_len (fileAnnotation shim <$> seq i (length files)))%Z.
Proof.
  induction files as [|f files IH]; intros i pod; [simpl; lia|].
  etrans; [apply IH|].
  pose proof (annotations_size_insert (Pod_Annotations pod) (fileAnnotation shim i) (RF_Content f)).
  cbn [seq length fmap list_fmap sum_len foldr sum_content].
  fold (sum_len (fileAnnotation shim <$> seq (S i) (length files))).
  rewrite !annotationBytes_size. unfold setAnnotation. simpl Pod_Annotations.
  unfold sum_content in *. simpl. lia.
Qed.

Lemma apply_plan_size plan pod :
  (annotationBytes (apply_plan plan pod)
   ≤ annotationBytes pod + renderedBytes plan + sum_len (owned_annotations plan))%Z.
Proof.
  rewrite apply_plan_eq. unfold writePlanMetadata.
  set (pod1 := Pod_set_Containers _ _).
  etrans; [apply (write_files_size (Plan_ShimName plan) (Plan_Files plan) 0)|].
  pose proof (annotations_size_insert (Pod_Annotations pod1)
    (HelperConfAnnotation (Plan_ShimName plan)) (Plan_HelperConf plan)).
  rewrite !annotationBytes_size in *. unfold setAnnotation, renderedBytes, owned_annotations.
  simpl Pod_Annotations. cbn [sum_len foldr].
  fold (sum_len (fileAnnotation (Plan_ShimName plan) <$> seq 0 (length (Plan_Files plan)))).
  replace (Pod_Annotations pod1) with (Pod_Annotations pod) in * by done. lia.
Qed.

Lemma reach_size pod plans st : reach pod plans st →
  (annotationBytes (St_pod st)
   ≤ annotationBytes pod + St_addedBytes st + sum_len (plans_annotations plans))%Z
  ∧ (plans ≠ [] → annotationBytes pod + St_addedBytes st ≤ MaxPodAnnotationBytes)%Z.
Proof.
  induction 1 as [|plans st plan Hr [IH _] [Hb _ _]].
  - split; [simpl; lia|done].
  - unfold plans_annotations. rewrite bind_app, sum_len_app.
    cbn [mbind list_bind]. rewrite app_nil_r. fold (plans_annotations plans).
    pose proof (apply_plan_size plan (St_pod st)).
    cbn [accept St_pod St_addedBytes]. split; [lia|]. intros _. lia.
Qed.

(** The bytes the operator adds that the budget does not count: the keys of the applied
    plans and its two status annotations. *)
Definition uncounted_bytes (applied : list Plan) : Z :=
  (sum_len (plans_annotations applied) + len StatusAnnotation + len StatusInjected
   + len ShimsAnnotation + len (Join (Plan_ShimKey <$> applied) ","))%Z.

(** C27. Whenever something is injected, the annotations of the pod, its own included, stay
    within [MaxPodAnnotationBytes] plus the keys and the two status annotations; so the
    256 KiB the API server allows is respected as long as those fit the 64 KiB of headroom. *)
Theorem apply_annotation_budget pod plans :
  let '(pod', applied, _) := apply_pod pod plans in
  applied ≠ [] →
  (annotationBytes pod' ≤ MaxPodAnnotationBytes + uncounted_bytes applied)%Z
  ∧ (uncounted_bytes applied ≤ 64 * 1024 → annotationBytes pod' ≤ 256 * 1024)%Z.
Proof.
  destruct (apply_pod pod plans) as [[pod' applied] ws] eqn:E. intros Hne.
  destruct (apply_pod_cases pod plans) as [[Hi Hp]|(Hi & st & Hr & Hs & _ & Hp)];
    rewrite E in Hp; simpl in Hp; injection Hp as -> ->; [done|].
  rewrite decide_False by done. destruct (reach_size _ _ _ Hr) as [Hsz Hmax].
  specialize (Hmax Hne).
  assert (annotationBytes (apply_finish st)
    ≤ MaxPodAnnotationBytes + uncounted_bytes (St_applied st))%Z as Hb.
  { unfold apply_finish, uncounted_bytes. rewrite !annotationBytes_size in *.
    unfold setAnnotation. simpl Pod_Annotations.
    etrans; [apply annotations_size_insert|].
    pose proof (annotations_size_insert (Pod_Annotations (St_pod st)) StatusAnnotation
      StatusInjected). lia. }
  split; [done|]. unfold MaxPodAnnotationBytes in *. lia.
Qed.

(** ** No plan is dropped silently *)

(** The warning says that this plan was skipped. *)
Definition skip_warning (plan : Plan) (w : string) : Prop :=
  (∃ why, w = "shim " +:+ Plan_ShimKey plan +:+ " skipped: " +:+ why)
  ∨ (∃ why, w = skipped plan why).

Lemma apply_step_warns existing st plan :
  ¬ admitted existing st plan → ∃ w, w ∈ St_warnings (apply_step existing st plan)
    ∧ skip_warning plan w.
Proof.
  intros Ha. unfold apply_step. cbv zeta.
  destruct (MaxPodAnnotationBytes <? _)%Z eqn:Hb.
  { eexists. split; [simpl; rewrite elem_of_app; right; left|]. left.
    eexists ("rendered content would exceed the pod annotation budget (" +:+ _). reflexivity. }
  apply Z.ltb_ge in Hb.
  destruct (resolveTargets_eta (St_pod st) plan) as [ws ->].
  destruct (_ && _) eqn:Ht.
  { eexists. split; [simpl; rewrite !elem_of_app; right; left|]. right. by eexists. }
  simpl. destruct (String.eqb_spec (checkCollisions (St_pod st) plan (St_newInits st)
    (targets_of (St_pod st) plan)) "") as [E|E]; simpl.
  - destruct Ha. split; [lia| |by apply checkCollisions_nil].
    intros Hr Hn. apply andb_false_iff in Ht as [Ht|Ht]; by apply bool_decide_eq_false in Ht.
  - eexists. split; [rewrite !elem_of_app; right; left|]. right. by eexists.
Qed.

Lemma apply_step_warnings_grow existing st plan :
  St_warnings st `prefix_of` St_warnings (apply_step existing st plan).
Proof.
  unfold apply_step. destruct (_ <? _)%Z; [by eexists|].
  destruct (resolveTargets _ _) as [[tg rq] ws]. destruct (_ && _).
  { simpl. rewrite <- app_assoc. by eexists. }
  destruct (negb _); simpl; [rewrite <- app_assoc; by eexists|].
  destruct (injectIntoContainers _ _ _). simpl. rewrite <- app_assoc. by eexists.
Qed.

Lemma apply_loop_accounts pod plans plan : plan ∈ plans →
  plan ∈ St_applied (apply_loop pod plans)
  ∨ ∃ w, w ∈ St_warnings (apply_loop pod plans) ∧ skip_warning plan w.
Proof.
  induction plans as [|p plans IH] using rev_ind; [by intros ?%elem_of_nil|].
  unfold apply_loop in *. rewrite foldl_app. simpl.
  set (st := foldl _ _ plans) in *. intros [Hin|Hin]%elem_of_app.
  - destruct (IH Hin) as [Hap|(w & Hw & Hs)].
    + left. destruct (decide (admitted (annotationBytes pod) st p)) as [Ha|Ha].
      * apply apply_step_admitted in Ha. apply (f_equal St_applied) in Ha. simpl in Ha.
        rewrite Ha, elem_of_app. by left.
      * by destruct (apply_step_skipped _ _ _ Ha) as (ws & _ & ->).
    + right. exists w. split; [|done].
      destruct (apply_step_warnings_grow (annotationBytes pod) st p) as [k ->].
      rewrite elem_of_app. by left.
  - apply list_elem_of_singleton in Hin as ->.
    destruct (decide (admitted (annotationBytes pod) st p)) as [Ha|Ha].
    + left. apply apply_step_admitted in Ha. apply (f_equal St_applied) in Ha. simpl in Ha.
      rewrite Ha, elem_of_app. right. left.
    + right. by apply apply_step_warns.
Qed.

Lemma apply_accounts pod plans plan :
  already_injected pod = false → plan ∈ plans →
  let '(_, applied, warnings) := apply_pod pod plans in
  plan ∈ applied ∨ ∃ w, w ∈ warnings ∧ skip_warning plan w.
Proof.
  intros Hi Hin. unfold apply_pod. rewrite Hi.
  pose proof (apply_loop_accounts pod plans plan Hin) as Hacc.
  destruct (St_applied (apply_loop pod plans)); [|done].
  destruct Hacc as [?%elem_of_nil|]; [done|by right].
Qed.

(** Every plan given to [Apply] for a pod that is not injected yet is either applied or
    named in a warning that says why it was skipped. *)
Theorem apply_accounts_for_every_plan pod plans plan :
  already_injected pod = false → plan ∈ plans →
  let '(_, applied, warnings) := apply_pod pod plans in
  plan ∈ applied ∨ ∃ w, w ∈ warnings ∧ skip_warning plan w.
Proof. apply apply_accounts. Qed.

(** ** Rendered files reach the containers *)

(** In container [c] of [pod], [path] is a file projected from the pod's annotations with
    this content and mode: the mount at [path] names a downward API volume whose item under
    the mount's sub-path reads the annotation. *)
Definition projects (pod : Pod) (c : Container) (path content : string) (mode : Z) : Prop :=
  ∃ m source api item key,
    m ∈ C_VolumeMounts c ∧ MountPath m = path ∧ ReadOnly m = true
    ∧ findVolume pod (Mount_Name m) = Some source
    ∧ VS_DownwardAPI source = Some api
    ∧ item ∈ Items api ∧ Item_Path item = SubPath m ∧ Item_Mode item = Some mode
    ∧ Item_FieldRef item = Some (annotationFieldRef key)
    ∧ Pod_Annotations pod !! key = Some content.

(** The config volume of a plan is the one its name finds: an earlier volume of that name would
    have been a collision, so only the plan's own token volume can be in the way. *)
Lemma apply_plan_config plan pod pending targets :
  no_collision pod plan pending targets →
  Token_VolumeName (Plan_Token plan) ≠ configVolumeName (Plan_ShimName plan) →
  findVolume (apply_plan plan pod) (configVolumeName (Plan_ShimName plan))
  = Some (Volume_Source (configVolume plan)).
Proof.
  intros [_ _ Hc _ _ _] Hne. unfold findVolume. rewrite apply_plan_volumes.
  destruct (addVolumes_volumes plan pod) as (s & -> & Hs).
  rewrite find_volume_app_None by (by apply find_volume_None).
  destruct Hs as [[_ ->]|[_ ->]]; simpl;
    by rewrite (proj2 (String.eqb_neq _ _) Hne), String.eqb_refl.
Qed.

Lemma frame_findVolume A L pod pod' n v :
  pod_frame A L pod pod' → findVolume pod n = Some v → findVolume pod' n = Some v.
Proof. intros [_ [vs HV] _ _ _ _] Hv. unfold findVolume. rewrite HV. by apply find_volume_app. Qed.

Lemma reach_config pod plans st plan : reach pod plans st → plan ∈ plans →
  Token_VolumeName (Plan_Token plan) ≠ configVolumeName (Plan_ShimName plan) →
  findVolume (St_pod st) (configVolumeName (Plan_ShimName plan))
  = Some (Volume_Source (configVolume plan)).
Proof.
  intros Hr Hin Hne. induction Hr as [|plans st p Hr IH Ha]; [by apply elem_of_nil in Hin|].
  apply elem_of_app in Hin as [Hin|Hin].
  - eapply frame_findVolume; [apply apply_plan_frame|by apply IH].
  - apply list_elem_of_singleton in Hin as ->. by eapply apply_plan_config, Hne; apply Ha.
Qed.

Lemma apply_config pod plans plan : plan ∈ (apply_pod pod plans).1.2 →
  Token_VolumeName (Plan_Token plan) ≠ configVolumeName (Plan_ShimName plan) →
  findVolume (apply_pod pod plans).1.1 (configVolumeName (Plan_ShimName plan))
  = Some (Volume_Source (configVolume plan)).
Proof.
  destruct (apply_pod_cases pod plans) as [[Hi ->]|(Hi & st & Hr & Hs & _ & ->)]; simpl.
  - by intros ?%elem_of_nil.
  - intros Hin Hne. case_decide as Hd; [rewrite Hd in Hin; by apply elem_of_nil in Hin|].
    eapply frame_findVolume; [apply apply_finish_frame|by eapply reach_config].
Qed.

(** C8. End to end for files, on any pod and with any other plans: in every container an applied
    plan is meant for, each rendered file of the plan is mounted read-only at its path and
    projects exactly the content the plan rendered, with the number its octal mode denotes.
    The one condition is that the plan's token volume is not named like its own config volume,
    which only a spec that sets the volume name can do. *)
Theorem apply_projects_files pod plans plan i f mode t c :
  plan ∈ (apply_pod pod plans).1.2 →
  Token_VolumeName (Plan_Token plan) ≠ configVolumeName (Plan_ShimName plan) →
  Plan_Files plan !! i = Some f →
  parseFileMode (RF_Mode f) = Ok mode → t ∈ targets_of pod plan →
  findContainer (Pod_Containers (apply_pod pod plans).1.1) t = Some c →
  projects (apply_pod pod plans).1.1 c (RF_Path f) (RF_Content f) mode.
Proof.
  intros Hin Hne Hi Hmode Ht Hc. pose proof (apply_config _ _ _ Hin Hne) as Hcv.
  destruct (apply_installed _ _ _ Hin) as [_ _ _ Hm _ Hfi _]. destruct (Hm t c Ht Hc) as [Hmo _].
  exists (file_mount plan i f), (Volume_Source (configVolume plan)),
    {| Items := config_items plan; DownwardAPI_Other := [] |}, (file_item plan i f),
    (fileAnnotation (Plan_ShimName plan) i).
  split_and!; try done.
  - apply Hmo. right. apply list_elem_of_lookup. exists i. by rewrite list_lookup_imap, Hi.
  - right. apply list_elem_of_lookup. exists i. by rewrite list_lookup_imap, Hi.
  - simpl. by rewrite Hmode.
  - by apply Hfi.
Qed.

End injection.

(** ** Concrete pods *)

#[export] Instance valid_pod_dec pod : Decision (valid_pod pod).
Proof.
  refine (cast_if (decide (
    NoDup (Volume_Name <$> Pod_Volumes pod)
    ∧ NoDup (C_Name <$> (Pod_InitContainers pod ++ Pod_Containers pod))
    ∧ Forall (λ c, NoDup (MountPath <$> C_VolumeMounts c)
                   ∧ Forall (λ m, Mount_Name m ∈ (Volume_Name <$> Pod_Volumes pod))
                       (C_VolumeMounts c)) (Pod_InitContainers pod ++ Pod_Containers pod)))).
  - destruct a as (Hv & Hn & Hc). rewrite Forall_forall in Hc. split; [done|done|naive_solver|].
    intros c m Hin Hm. destruct (Hc c Hin) as [_ Hf]. rewrite Forall_forall in Hf. by apply Hf.
  - intros [Hv Hn Hm Hr]. destruct n. split_and!; [done|done|]. apply Forall_forall.
    intros c Hc. split; [by apply Hm|]. apply Forall_forall. intros m. by apply Hr.
Defined.

#[export] Instance plan_ok_dec pod plan : Decision (plan_ok pod plan).
Proof.
  refine (cast_if (decide (
    NoDup (mountPaths plan)
    ∧ NoDup [socketVolumeName; Token_VolumeName (Plan_Token plan);
             configVolumeName (Plan_ShimName plan)]
    ∧ NoDup [Plan_SocketMountPath plan; Token_MountPath (Plan_Token plan); configMountPath]
    ∧ NoDup (requested_names pod plan)
    ∧ Forall (λ c, C_Name c ≠ initContainerName (Plan_ShimName plan)
                   ∧ C_Name c ≠ refreshContainerName (Plan_ShimName plan)) (Pod_Containers pod)))).
  - destruct a as (? & ? & ? & ? & Hc). rewrite Forall_forall in Hc. by split.
  - intros [? ? ? ? Hc]. destruct n. split_and!; try done. by apply Forall_forall.
Defined.

Definition sample_container (name : string) : Container :=
  {| C_Name := name; C_Image := "registry/app:1"; C_ImagePullPolicy := ""; C_Args := [];
     C_Env := [ {| Env_Name := "HOME"; Env_Value := "/"; Env_Other := [] |} ];
     C_VolumeMounts := [ mount "data" "/data" "" false ];
     C_Resources := []; C_SecurityContext := None; C_RestartPolicy := None; C_Other := [] |}.

Definition sample_pod (annotations : gmap string string) : Pod :=
  {| Pod_Name := "web"; Pod_GenerateName := ""; Pod_Namespace := "my-app";
     Pod_Annotations := annotations; Pod_Labels := {["app" := "web"]};
     Pod_ServiceAccountName := "web";
     Pod_Volumes := [ {| Volume_Name := "data";
                         Volume_Source := {| VS_CSI := None;
                           VS_EmptyDir := Some {| Medium := ""; EmptyDir_Other := [] |};
                           VS_DownwardAPI := None; VS_Other := [] |} |} ];
     Pod_InitContainers := [ sample_container "setup" ];
     Pod_Containers := [ sample_container "app"; sample_container "proxy" ];
     Pod_Other := [] |}.

Lemma apply_valid_witness :
  valid_pod (sample_pod ∅)
  ∧ let '(pod', _, _) := @apply_pod ascii_tables (sample_pod ∅) [sample_plan] in valid_pod pod'.
Proof.
  assert (Hv : valid_pod (sample_pod ∅)) by (apply (bool_decide_unpack _); vm_compute; exact I).
  split; [exact Hv|]. apply (@apply_valid ascii_tables (sample_pod ∅) [sample_plan] Hv).
  intros p ->%list_elem_of_singleton. apply (bool_decide_unpack _). vm_compute. exact I.
Defined.

Lemma apply_accounts_for_every_plan_witness :
  let '(_, applied, warnings) := @apply_pod ascii_tables (sample_pod ∅) [sample_plan; sample_plan] in
  sample_plan ∈ applied ∨ ∃ w, w ∈ warnings ∧ @skip_warning ascii_tables sample_plan w.
Proof.
  apply (@apply_accounts_for_every_plan ascii_tables (sample_pod ∅) [sample_plan; sample_plan]).
  - vm_compute. reflexivity.
  - left.
Defined.

(** A second plan of the same shim is the one that is skipped. *)
Example sample_skips :
  (@apply_pod ascii_tables (sample_pod ∅) [sample_plan; sample_plan]).1.2 = [sample_plan].
Proof. vm_compute. reflexivity. Qed.

Definition sample_file : RenderedFile :=
  {| RF_Path := "/etc/oidcshim/gcp/key.json"; RF_Content := "{ file: /t/token }";
     RF_Mode := "0644" |}.

Lemma apply_projects_files_witness :
  ∃ c, projects (@apply_pod ascii_tables (sample_pod ∅) [sample_plan]).1.1 c
         "/etc/oidcshim/gcp/key.json" "{ file: /t/token }" 420.
Proof.
  eexists.
  apply (@apply_projects_files ascii_tables (sample_pod ∅) [sample_plan] sample_plan 0 sample_file
           420 "app").
  - vm_compute. left.
  - vm_compute. discriminate.
  - vm_compute. reflexivity.
  - vm_compute. reflexivity.
  - apply (bool_decide_unpack _). vm_compute. exact I.
  - vm_compute. reflexivity.
Defined.

(** The hypotheses of [plan_ok] that the code does not establish are needed.  A container
    named twice in the containers annotation receives every mount twice. *)
Example duplicate_target_breaks_pod :
  let pod := sample_pod {[ContainersAnnotation := "app,app"]} in
  valid_pod pod ∧ ¬ valid_pod (@apply_pod ascii_tables pod [sample_plan]).1.1.
Proof. split; apply (bool_decide_unpack _); vm_compute; exact I. Qed.

Definition plan_with_token_volume (name : string) : Plan :=
  match @BuildPlan ascii_tables core_templates sample_shim sample_values
          {| Token_VolumeName := name; Token_MountPath := Token_MountPath sample_token;
             Token_FileName := Token_FileName sample_token;
             Token_FileMode := Token_FileMode sample_token |} sample_defaults with
  | Ok p => p
  | Err _ => no_plan
  end.

(** A token volume named like the socket volume gives a pod with two volumes of that name. *)
Example token_volume_named_like_socket_breaks_pod :
  valid_pod (sample_pod ∅)
  ∧ ¬ valid_pod (@apply_pod ascii_tables (sample_pod ∅)
                   [plan_with_token_volume socketVolumeName]).1.1.
Proof. split; apply (bool_decide_unpack _); vm_compute; exact I. Qed.

Lemma apply_annotation_budget_witness :
  let '(pod', applied, _) := @apply_pod ascii_tables (sample_pod ∅) [sample_plan] in
  (annotationBytes pod' ≤ MaxPodAnnotationBytes + uncounted_bytes applied)%Z.
Proof.
  pose proof (@apply_annotation_budget ascii_tables (sample_pod ∅) [sample_plan]) as Hb.
  destruct (@apply_pod ascii_tables (sample_pod ∅) [sample_plan]) as [[pod' applied] ws] eqn:E.
  apply Hb. intros ->. vm_compute in E. discriminate E.
Defined.
