(* ===== verification/MutateHeap.v ===== *)
(** * Applying plans to a pod in memory (src/internal/injection/mutate.go)

    [Mutate.apply_pod] treats the pod as a value.  The code holds a pointer: it appends to the
    pod's slices, within their capacity where they have some; it writes into an app container
    through the pointer [findContainer] returns into the array of containers; it creates the
    maps of annotations and labels when they are nil; it copies the resources and the security
    context a plan points to.  Here the same steps run on memory ([Apply_mem]).  For a pod whose slices do not share an array, which is what a decoder
    builds, they compute what the value model computes, never panic and leave the rest of the
    memory alone, whatever capacities the runtime picks. *)

From iris.proofmode Require Import proofmode.
From S2P Require Import Prelude GoStd GoStdFacts GoHeap HeapLogic Kube Api SpiffeHelper Template Params Plan Mutate Injection.

(** ** Memory layouts *)

Record Container_mem := {
  cm_Name : string;
  cm_Image : string;
  cm_ImagePullPolicy : string;
  cm_Args : list string;
  cm_Env : slice EnvVar;
  cm_VolumeMounts : slice VolumeMount;
  cm_Resources : ptr (list (string * string));   (** the maps inside the struct *)
  cm_SecurityContext : ptr SecurityContext;
  cm_RestartPolicy : option string;
  cm_Other : list (string * string) }.

Record Pod_mem := {
  pm_Name : string;
  pm_GenerateName : string;
  pm_Namespace : string;
  pm_Annotations : ptr (gmap string string);
  pm_Labels : ptr (gmap string string);
  pm_ServiceAccountName : string;
  pm_Volumes : slice Volume;
  pm_InitContainers : slice Container_mem;
  pm_Containers : slice Container_mem;
  pm_Other : list (string * string) }.

Definition cm_set_Env (v : slice EnvVar) (c : Container_mem) : Container_mem :=
  {| cm_Name := cm_Name c; cm_Image := cm_Image c; cm_ImagePullPolicy := cm_ImagePullPolicy c;
     cm_Args := cm_Args c; cm_Env := v; cm_VolumeMounts := cm_VolumeMounts c;
     cm_Resources := cm_Resources c; cm_SecurityContext := cm_SecurityContext c;
     cm_RestartPolicy := cm_RestartPolicy c; cm_Other := cm_Other c |}.
Definition cm_set_VolumeMounts (v : slice VolumeMount) (c : Container_mem) : Container_mem :=
  {| cm_Name := cm_Name c; cm_Image := cm_Image c; cm_ImagePullPolicy := cm_ImagePullPolicy c;
     cm_Args := cm_Args c; cm_Env := cm_Env c; cm_VolumeMounts := v;
     cm_Resources := cm_Resources c; cm_SecurityContext := cm_SecurityContext c;
     cm_RestartPolicy := cm_RestartPolicy c; cm_Other := cm_Other c |}.

Definition pm_set_Annotations (v : ptr (gmap string string)) (p : Pod_mem) : Pod_mem :=
  {| pm_Name := pm_Name p; pm_GenerateName := pm_GenerateName p; pm_Namespace := pm_Namespace p;
     pm_Annotations := v; pm_Labels := pm_Labels p;
     pm_ServiceAccountName := pm_ServiceAccountName p; pm_Volumes := pm_Volumes p;
     pm_InitContainers := pm_InitContainers p; pm_Containers := pm_Containers p;
     pm_Other := pm_Other p |}.
Definition pm_set_Labels (v : ptr (gmap string string)) (p : Pod_mem) : Pod_mem :=
  {| pm_Name := pm_Name p; pm_GenerateName := pm_GenerateName p; pm_Namespace := pm_Namespace p;
     pm_Annotations := pm_Annotations p; pm_Labels := v;
     pm_ServiceAccountName := pm_ServiceAccountName p; pm_Volumes := pm_Volumes p;
     pm_InitContainers := pm_InitContainers p; pm_Containers := pm_Containers p;
     pm_Other := pm_Other p |}.
Definition pm_set_Volumes (v : slice Volume) (p : Pod_mem) : Pod_mem :=
  {| pm_Name := pm_Name p; pm_GenerateName := pm_GenerateName p; pm_Namespace := pm_Namespace p;
     pm_Annotations := pm_Annotations p; pm_Labels := pm_Labels p;
     pm_ServiceAccountName := pm_ServiceAccountName p; pm_Volumes := v;
     pm_InitContainers := pm_InitContainers p; pm_Containers := pm_Containers p;
     pm_Other := pm_Other p |}.
Definition pm_set_InitContainers (v : slice Container_mem) (p : Pod_mem) : Pod_mem :=
  {| pm_Name := pm_Name p; pm_GenerateName := pm_GenerateName p; pm_Namespace := pm_Namespace p;
     pm_Annotations := pm_Annotations p; pm_Labels := pm_Labels p;
     pm_ServiceAccountName := pm_ServiceAccountName p; pm_Volumes := pm_Volumes p;
     pm_InitContainers := v; pm_Containers := pm_Containers p; pm_Other := pm_Other p |}.

(** A plan: its fields, and the two that are pointers. *)
Record Plan_mem := {
  pl_Plan : Plan;
  pl_HelperResources : ptr (list (string * string));
  pl_HelperSecurityContext : ptr SecurityContext }.

(** The cells: the pod's struct, its maps, the arrays behind its slices, and what the
    containers' pointers refer to. *)
Inductive pod_cell :=
| PodCell (p : Pod_mem)
| MapCell (m : gmap string string)
| VolumesCell (a : list Volume)
| ContainersCell (a : list Container_mem)
| EnvCell (a : list EnvVar)
| MountsCell (a : list VolumeMount)
| ResourcesCell (r : list (string * string))
| SecurityCell (sc : SecurityContext).

#[export] Instance Storable_Pod : Storable pod_cell Pod_mem.
Proof. by exists PodCell (λ v, match v with PodCell p => Some p | _ => None end). Defined.
#[export] Instance Storable_map : Storable pod_cell (gmap string string).
Proof. by exists MapCell (λ v, match v with MapCell m => Some m | _ => None end). Defined.
#[export] Instance Storable_Volumes : Storable pod_cell (list Volume).
Proof. by exists VolumesCell (λ v, match v with VolumesCell a => Some a | _ => None end). Defined.
#[export] Instance Storable_Containers : Storable pod_cell (list Container_mem).
Proof.
  by exists ContainersCell (λ v, match v with ContainersCell a => Some a | _ => None end).
Defined.
#[export] Instance Storable_Env : Storable pod_cell (list EnvVar).
Proof. by exists EnvCell (λ v, match v with EnvCell a => Some a | _ => None end). Defined.
#[export] Instance Storable_Mounts : Storable pod_cell (list VolumeMount).
Proof. by exists MountsCell (λ v, match v with MountsCell a => Some a | _ => None end). Defined.

#[export] Instance Storable_Resources : Storable pod_cell (list (string * string)).
Proof.
  by exists ResourcesCell (λ v, match v with ResourcesCell r => Some r | _ => None end).
Defined.
#[export] Instance Storable_SecurityContext : Storable pod_cell SecurityContext.
Proof. by exists SecurityCell (λ v, match v with SecurityCell sc => Some sc | _ => None end). Defined.

#[export] Instance GoZero_Resources : GoZero (list (string * string)) := [].
#[export] Instance GoZero_SecurityContext : GoZero SecurityContext :=
  {| RunAsNonRoot := None; AllowPrivilegeEscalation := None; ReadOnlyRootFilesystem := None;
     Capabilities_Drop := None; SeccompProfile_Type := None; SecurityContext_Other := [] |}.
#[export] Instance GoZero_Volume : GoZero Volume :=
  {| Volume_Name := "";
     Volume_Source := {| VS_CSI := None; VS_EmptyDir := None; VS_DownwardAPI := None;
                         VS_Other := [] |} |}.
#[export] Instance GoZero_Container_mem : GoZero Container_mem :=
  {| cm_Name := ""; cm_Image := ""; cm_ImagePullPolicy := ""; cm_Args := [];
     cm_Env := nil_slice; cm_VolumeMounts := nil_slice; cm_Resources := nil_ptr;
     cm_SecurityContext := nil_ptr; cm_RestartPolicy := None; cm_Other := [] |}.
#[export] Instance GoZero_EnvVar : GoZero EnvVar :=
  {| Env_Name := ""; Env_Value := ""; Env_Other := [] |}.
#[export] Instance GoZero_VolumeMount : GoZero VolumeMount := mount "" "" "" false.

(** ** The value a layout denotes *)

(** A container with its slices and pointers read. *)
Definition container_value (c : Container_mem) (env : list EnvVar) (mounts : list VolumeMount)
    (resources : option (list (string * string))) (sc : option SecurityContext) : Container :=
  {| C_Name := cm_Name c; C_Image := cm_Image c; C_ImagePullPolicy := cm_ImagePullPolicy c;
     C_Args := cm_Args c; C_Env := env; C_VolumeMounts := mounts;
     C_Resources := default [] resources; C_SecurityContext := sc;
     C_RestartPolicy := cm_RestartPolicy c; C_Other := cm_Other c |}.

Definition view_container (h : heap pod_cell) (c : Container_mem) : option Container :=
  env ← slice_elems h (cm_Env c); mounts ← slice_elems h (cm_VolumeMounts c);
  resources ← read_ptr h (cm_Resources c); sc ← read_ptr h (cm_SecurityContext c);
  Some (container_value c env mounts resources sc).
Definition view_containers (h : heap pod_cell) (s : slice Container_mem)
    : option (list Container) :=
  cs ← slice_elems h s; mapM (view_container h) cs.

(** Reading a nil map is reading an empty one. *)
Definition view_map (h : heap pod_cell) (p : ptr (gmap string string))
    : option (gmap string string) :=
  match p with nil_ptr => Some ∅ | Ptr l => lookup_cell h l end.

Definition pod_value (p : Pod_mem) (annotations labels : gmap string string)
    (volumes : list Volume) (inits containers : list Container) : Pod :=
  {| Pod_Name := pm_Name p; Pod_GenerateName := pm_GenerateName p;
     Pod_Namespace := pm_Namespace p; Pod_Annotations := annotations; Pod_Labels := labels;
     Pod_ServiceAccountName := pm_ServiceAccountName p; Pod_Volumes := volumes;
     Pod_InitContainers := inits; Pod_Containers := containers; Pod_Other := pm_Other p |}.

Definition view_pod (h : heap pod_cell) (l : loc) : option Pod :=
  p ← lookup_cell h l; annotations ← view_map h (pm_Annotations p);
  labels ← view_map h (pm_Labels p); volumes ← slice_elems h (pm_Volumes p);
  inits ← view_containers h (pm_InitContainers p);
  containers ← view_containers h (pm_Containers p);
  Some (pod_value p annotations labels volumes inits containers).

(** ** mutate.go on memory *)

(** [for i := range s { if s[i].Name == name { return &s[i] } }]: the index of the element the
    returned pointer points to, over the [n] elements from [i] on. *)
Fixpoint find_from `{Storable pod_cell (list T)} (name_of : T → string) (s : slice T)
    (name : string) (n i : nat) : go pod_cell (option nat) :=
  match n with
  | 0 => mret None
  | S n' =>
      x ← index s i;
      if String.eqb (name_of x) name then mret (Some i) else find_from name_of s name n' (S i)
  end.
Definition findVolume_mem (volumes : slice Volume) (name : string) : go pod_cell (option nat) :=
  find_from Volume_Name volumes name (slice_len volumes) 0.
Definition findContainer_mem (containers : slice Container_mem) (name : string)
    : go pod_cell (option nat) :=
  find_from cm_Name containers name (slice_len containers) 0.

(** [hasEnvNamed(c, name)] for the container that [c = &containers[i]] points to. *)
Definition hasEnvNamed_mem (containers : slice Container_mem) (i : nat) (name : string)
    : go pod_cell bool :=
  c ← index containers i; env ← reads (λ h, slice_elems h (cm_Env c));
  mret (existsb (λ e, String.eqb (Env_Name e) name) env).

(** A field of the pod is assigned through the pointer. *)
Definition set_pod (l : loc) (f : Pod_mem → Pod_mem) : go pod_cell () :=
  p ← load l; store l (f p).

(** [m[key] = value]; a write to a nil map panics. *)
Definition map_assign (m : ptr (gmap string string)) (key value : string) : go pod_cell () :=
  match m with
  | nil_ptr => panic
  | Ptr a => old ← load a; store a (<[key := value]> (old : gmap string string))
  end.
Definition new_map : go pod_cell (ptr (gmap string string)) :=
  a ← alloc (∅ : gmap string string); mret (Ptr a).

Definition setAnnotation_mem (l : loc) (key value : string) : go pod_cell () :=
  p ← load l;
  _ ← match pm_Annotations p with
      | nil_ptr => m ← new_map; set_pod l (pm_set_Annotations m)
      | Ptr _ => mret ()
      end;
  p ← load l; map_assign (pm_Annotations p) key value.

(** What the code reads without changing it: the pod and the queued init containers. *)
Definition read_pod (l : loc) : go pod_cell Pod := reads (λ h, view_pod h l).
Definition read_containers (s : slice Container_mem) : go pod_cell (list Container) :=
  reads (λ h, view_containers h s).

Section apply.
Context `{UnicodeTables} (growcap : nat → nat).

Definition add_volume (l : loc) (v : Volume) : go pod_cell () :=
  p ← load l; vs ← append growcap (pm_Volumes p) v; set_pod l (pm_set_Volumes vs).
Definition addVolumes_mem (l : loc) (plan : Plan) : go pod_cell () :=
  p ← load l;
  found ← findVolume_mem (pm_Volumes p) socketVolumeName;
  _ ← match found with None => add_volume l (socketVolume plan) | Some _ => mret () end;
  _ ← add_volume l (tokenVolume plan);
  add_volume l (configVolume plan).

(** [helperSecurityContext]: a deep copy of the plan's override, or a new default. *)
Definition helperSecurityContext_mem (plan : Plan_mem) : go pod_cell (ptr SecurityContext) :=
  match pl_HelperSecurityContext plan with
  | Ptr _ => copy_ptr copy_plain (pl_HelperSecurityContext plan)
  | nil_ptr => l ← alloc default_security_context; mret (Ptr l)
  end.

(** The mounts are a slice literal: a new array; the resources are deep-copied when set. *)
Definition helperContainer_mem (plan : Plan_mem) (sidecar : bool) : go pod_cell Container_mem :=
  let c := helperContainer (pl_Plan plan) sidecar in
  a ← alloc (C_VolumeMounts c);
  sc ← helperSecurityContext_mem plan;
  resources ← match pl_HelperResources plan with
              | Ptr _ => copy_ptr copy_plain (pl_HelperResources plan)
              | nil_ptr => mret nil_ptr
              end;
  mret {| cm_Name := C_Name c; cm_Image := C_Image c; cm_ImagePullPolicy := C_ImagePullPolicy c;
          cm_Args := C_Args c; cm_Env := nil_slice;
          cm_VolumeMounts := Slice a 0 (length (C_VolumeMounts c)) (length (C_VolumeMounts c));
          cm_Resources := resources; cm_SecurityContext := sc;
          cm_RestartPolicy := C_RestartPolicy c; cm_Other := C_Other c |}.

(** [c.VolumeMounts = append(c.VolumeMounts, m)] and [c.Env = append(c.Env, e)] for
    [c = &containers[i]]. *)
Definition add_mount (containers : slice Container_mem) (i : nat) (m : VolumeMount)
    : go pod_cell () :=
  c ← index containers i;
  ms ← append growcap (cm_VolumeMounts c) m;
  c ← index containers i; set_index containers i (cm_set_VolumeMounts ms c).
Definition add_env (containers : slice Container_mem) (i : nat) (e : EnvVar) : go pod_cell () :=
  c ← index containers i;
  es ← append growcap (cm_Env c) e;
  c ← index containers i; set_index containers i (cm_set_Env es c).

Fixpoint inject_files_mem (plan : Plan) (containers : slice Container_mem) (i k : nat)
    (files : list RenderedFile) : go pod_cell () :=
  match files with
  | [] => mret ()
  | f :: rest =>
      _ ← add_mount containers i (file_mount plan k f);
      inject_files_mem plan containers i (S k) rest
  end.

Fixpoint inject_env_mem (plan : Plan) (containers : slice Container_mem) (i : nat)
    (env : list EnvVar) : go pod_cell (list string) :=
  match env with
  | [] => mret []
  | e :: rest =>
      defined ← hasEnvNamed_mem containers i (Env_Name e);
      if (defined : bool) then
        c ← index containers i;
        ws ← inject_env_mem plan containers i rest;
        mret (("shim " +:+ Quote (Plan_ShimName plan) +:+ ": container " +:+ Quote (cm_Name c)
               +:+ " already defines env var " +:+ Quote (Env_Name e)
               +:+ "; leaving it untouched") :: ws)
      else
        _ ← add_env containers i e; inject_env_mem plan containers i rest
  end.

Fixpoint injectIntoContainers_mem (l : loc) (plan : Plan) (targets : list string)
    : go pod_cell (list string) :=
  match targets with
  | [] => mret []
  | name :: rest =>
      p ← load l;
      found ← findContainer_mem (pm_Containers p) name;
      match found with
      | None => injectIntoContainers_mem l plan rest
      | Some i =>
          _ ← add_mount (pm_Containers p) i
                (mount (Token_VolumeName (Plan_Token plan)) (Token_MountPath (Plan_Token plan))
                   "" true);
          _ ← inject_files_mem plan (pm_Containers p) i 0 (Plan_Files plan);
          ws ← inject_env_mem plan (pm_Containers p) i (Plan_Env plan);
          ws' ← injectIntoContainers_mem l plan rest;
          mret (ws ++ ws')
      end
  end.

Fixpoint write_files_mem (l : loc) (shim : string) (i : nat) (files : list RenderedFile)
    : go pod_cell () :=
  match files with
  | [] => mret ()
  | f :: rest =>
      _ ← setAnnotation_mem l (fileAnnotation shim i) (RF_Content f);
      write_files_mem l shim (S i) rest
  end.
Definition writePlanMetadata_mem (l : loc) (plan : Plan) : go pod_cell () :=
  _ ← setAnnotation_mem l (HelperConfAnnotation (Plan_ShimName plan)) (Plan_HelperConf plan);
  _ ← write_files_mem l (Plan_ShimName plan) 0 (Plan_Files plan);
  p ← load l;
  _ ← match pm_Labels p with
      | nil_ptr => m ← new_map; set_pod l (pm_set_Labels m)
      | Ptr _ => mret ()
      end;
  p ← load l;
  map_assign (pm_Labels p) (ShimLabelKey (Plan_ShimName plan))
    (shimLabelValue (Plan_ClusterScoped plan)).

(** The loop's variables that live outside the pod; [newInits] is the only one in memory. *)
Record LoopVars := {
  LV_newInits : slice Container_mem;
  LV_addedBytes : Z;
  LV_applied : list Plan_mem;
  LV_warnings : list string }.
Definition lv_warn (ws : list string) (v : LoopVars) : LoopVars :=
  {| LV_newInits := LV_newInits v; LV_addedBytes := LV_addedBytes v;
     LV_applied := LV_applied v; LV_warnings := LV_warnings v ++ ws |}.

(** One iteration of the loop over the plans. *)
Definition apply_step_mem (l : loc) (existingBytes : Z) (v : LoopVars) (p : Plan_mem)
    : go pod_cell LoopVars :=
  let plan := pl_Plan p in
  let planBytes := renderedBytes plan in
  let total := (existingBytes + LV_addedBytes v + planBytes)%Z in
  if (MaxPodAnnotationBytes <? total)%Z then
    mret (lv_warn ["shim " +:+ Plan_ShimKey plan
                   +:+ " skipped: rendered content would exceed the pod annotation budget ("
                   +:+ Itoa total +:+ " > " +:+ Itoa MaxPodAnnotationBytes +:+ " bytes)"] v)
  else
    pod ← read_pod l;
    let '(targets, requested, targetWarnings) := resolveTargets pod plan in
    let v := lv_warn targetWarnings v in
    if bool_decide (requested ≠ []) && bool_decide (targets = []) then
      mret (lv_warn [skipped plan ("none of the requested containers exist on the pod: "
                                   +:+ Join requested ", ")] v)
    else
      pending ← read_containers (LV_newInits v);
      let reason := checkCollisions pod plan pending targets in
      if negb (String.eqb reason "") then mret (lv_warn [skipped plan reason] v)
      else
        _ ← addVolumes_mem l plan;
        c1 ← helperContainer_mem p false;
        c2 ← helperContainer_mem p true;
        newInits ← append_all growcap (LV_newInits v) [c1; c2];
        envWarnings ← injectIntoContainers_mem l plan targets;
        _ ← writePlanMetadata_mem l plan;
        mret {| LV_newInits := newInits; LV_addedBytes := (LV_addedBytes v + planBytes)%Z;
                LV_applied := LV_applied v ++ [p];
                LV_warnings := LV_warnings v ++ envWarnings |}.

Fixpoint apply_loop_mem (l : loc) (existingBytes : Z) (v : LoopVars) (plans : list Plan_mem)
    : go pod_cell LoopVars :=
  match plans with
  | [] => mret v
  | plan :: rest => v ← apply_step_mem l existingBytes v plan; apply_loop_mem l existingBytes v rest
  end.

(** [pod.Spec.InitContainers = append(newInits, pod.Spec.InitContainers...)] *)
Definition prepend_inits (l : loc) (newInits : slice Container_mem) : go pod_cell () :=
  p ← load l;
  inits ← append_slice growcap newInits (pm_InitContainers p);
  set_pod l (pm_set_InitContainers inits).

Definition Apply_mem (pod : ptr Pod_mem) (plans : list Plan_mem)
    : go pod_cell (list Plan_mem * list string) :=
  match pod with
  | nil_ptr => mret ([], [])
  | Ptr l =>
      before ← read_pod l;
      if already_injected before then
        mret ([], ["pod already carries " +:+ StatusAnnotation +:+ "=" +:+ StatusInjected
                   +:+ "; skipping injection"])
      else
        v ← apply_loop_mem l (annotationBytes before)
              {| LV_newInits := nil_slice; LV_addedBytes := 0; LV_applied := [];
                 LV_warnings := [] |} plans;
        match LV_applied v with
        | [] => mret ([], LV_warnings v)
        | _ =>
            _ ← prepend_inits l (LV_newInits v);
            _ ← setAnnotation_mem l StatusAnnotation StatusInjected;
            _ ← setAnnotation_mem l ShimsAnnotation
                  (Join (Plan_ShimKey ∘ pl_Plan <$> LV_applied v) ",");
            mret (LV_applied v, LV_warnings v)
        end
  end.
End apply.

(** ** A pod that owns its memory *)

Definition map_at (p : ptr (gmap string string)) (m : gmap string string) : hProp pod_cell :=
  match p with nil_ptr => ⌜m = ∅⌝ | Ptr l => l ↦ m end%I.

(** A container, its two arrays and what its two pointers refer to. *)
Definition container_at (c : Container_mem) (v : Container) : hProp pod_cell :=
  (∃ env mounts resources sc,
     cm_Env c ↦∗ env ∗ cm_VolumeMounts c ↦∗ mounts
     ∗ (ptr_at (cm_Resources c) resources ∗ ptr_at (cm_SecurityContext c) sc)
     ∗ ⌜v = container_value c env mounts resources sc⌝)%I.
Definition containers_at (s : slice Container_mem) (vs : list Container) : hProp pod_cell :=
  (∃ cs, s ↦∗ cs ∗ [∗ list] c;v ∈ cs;vs, container_at c v)%I.

Definition pod_at (l : loc) (pod : Pod) : hProp pod_cell :=
  (∃ p annotations labels volumes inits containers,
     l ↦ p ∗ map_at (pm_Annotations p) annotations ∗ map_at (pm_Labels p) labels
     ∗ pm_Volumes p ↦∗ volumes ∗ containers_at (pm_InitContainers p) inits
     ∗ containers_at (pm_Containers p) containers
     ∗ ⌜pod = pod_value p annotations labels volumes inits containers⌝)%I.

(** A plan and what its two pointers refer to. *)
Definition plan_at (p : Plan_mem) (plan : Plan) : hProp pod_cell :=
  (⌜pl_Plan p = plan⌝ ∗ ptr_at (pl_HelperResources p) (Plan_HelperResources plan)
   ∗ ptr_at (pl_HelperSecurityContext p) (Plan_HelperSecurityContext plan))%I.
Definition plans_at (ps : list Plan_mem) (plans : list Plan) : hProp pod_cell :=
  ([∗ list] p;plan ∈ ps;plans, plan_at p plan)%I.

Lemma map_at_reads p m : map_at p m ⊢ reads_as (λ h, view_map h p) m.
Proof.
  destruct p as [|l]; [|apply points_to_reads]. iIntros (->). by iApply reads_as_pure.
Qed.

(** One read of several. *)
Tactic Notation "read_step" open_constr(lem) constr(H) :=
  lazymatch goal with
  | |- context [reads_as (λ h, mbind (@?k h) (@?f h)) _] =>
      iApply (reads_as_bind f k); iSplit; [by iApply (lem with H)|]
  end.

Lemma container_at_reads c v : container_at c v ⊢ reads_as (λ h, view_container h c) v.
Proof.
  iDestruct 1 as (env mounts res sc) "(He & Hm & (Hr & Hsc) & ->)". rw /view_container.
  read_step slice_at_reads "He". read_step slice_at_reads "Hm".
  read_step ptr_at_reads "Hr". read_step ptr_at_reads "Hsc".
  by iApply reads_as_pure.
Qed.

Lemma containers_at_reads s vs : containers_at s vs ⊢ reads_as (λ h, view_containers h s) vs.
Proof.
  iDestruct 1 as (cs) "[Hs Hcs]". rw /view_containers. read_step slice_at_reads "Hs".
  iApply (reads_as_mapM with "Hcs"). apply container_at_reads.
Qed.

Lemma pod_at_reads l pod : pod_at l pod ⊢ reads_as (λ h, view_pod h l) pod.
Proof.
  iDestruct 1 as (p anns labels vs ins cs) "(Hl & Ha & Hla & Hv & Hi & Hc & ->)".
  rw /view_pod. read_step points_to_reads "Hl". read_step map_at_reads "Ha".
  read_step map_at_reads "Hla". read_step slice_at_reads "Hv".
  read_step containers_at_reads "Hi". read_step containers_at_reads "Hc".
  by iApply reads_as_pure.
Qed.

(** ** Searching *)

(** The index of the first name in a list. *)
Fixpoint first_named (names : list string) (name : string) : option nat :=
  match names with
  | [] => None
  | x :: rest => if String.eqb x name then Some 0 else S <$> first_named rest name
  end.

Lemma findContainer_first cs name :
  findContainer cs name = first_named (C_Name <$> cs) name ≫= (cs !!.).
Proof.
  induction cs as [|c cs IH]; [done|]. simpl. destruct (String.eqb _ _); [done|].
  rw IH. by destruct (first_named _ _).
Qed.

Lemma update_container_first name f cs :
  update_container name f cs
  = match first_named (C_Name <$> cs) name with Some i => alter f i cs | None => cs end.
Proof.
  induction cs as [|c cs IH]; [done|]. simpl. destruct (String.eqb _ _); [done|].
  rw IH. by destruct (first_named _ _).
Qed.

Lemma find_volume_first vs name :
  find_volume vs name = None ↔ first_named (Volume_Name <$> vs) name = None.
Proof.
  induction vs as [|v vs IH]; [done|]. simpl. destruct (String.eqb _ _); [done|].
  rw IH. by destruct (first_named _ _).
Qed.

Lemma first_named_lt names name i : first_named names name = Some i → (i < length names)%nat.
Proof.
  revert i. induction names as [|x names IH]; intros i; simpl; [done|].
  destruct (String.eqb _ _); [intros [= <-]; lia|].
  destruct (first_named _ _) as [j|]; [|done]. intros [= <-]. specialize (IH j eq_refl). lia.
Qed.

Section searching.
Context `{Storable pod_cell (list T), GoZero T} (name_of : T → string).

Lemma wp_find_from s xs name rest i Φ : drop i xs = rest →
  s ↦∗ xs -∗ (s ↦∗ xs -∗ Φ (Nat.add i <$> first_named (name_of <$> rest) name)) -∗
  wp (find_from name_of s name (length rest) i) Φ.
Proof.
  revert i. induction rest as [|x rest IH]; iIntros (i Hdrop) "Hs HΦ".
  { iApply wp_ret. by iApply "HΦ". }
  assert (Hx : xs !! i = Some x).
  { rw -(Nat.add_0_r i) -lookup_drop Hdrop //. }
  assert (Hrest : drop (S i) xs = rest).
  { rw -Nat.add_1_r -drop_drop Hdrop //. }
  iApply wp_bind. iApply (wp_index with "Hs"); [done|]. iIntros "Hs". simpl.
  destruct (String.eqb _ _); [iApply wp_ret; simpl; rw Nat.add_0_r; by iApply "HΦ"|].
  iApply (IH with "Hs"); [done|]. iIntros "Hs". iSpecialize ("HΦ" with "Hs").
  destruct (first_named _ _) as [j|]; [|done]. simpl. by rw Nat.add_succ_r.
Qed.

Lemma wp_find s xs name Φ :
  s ↦∗ xs -∗ (s ↦∗ xs -∗ Φ (first_named (name_of <$> xs) name)) -∗
  wp (find_from name_of s name (slice_len s) 0) Φ.
Proof.
  iIntros "Hs HΦ". iDestruct (slice_at_len with "Hs") as %->.
  iApply (wp_find_from with "Hs"); [by rw drop_0|]. iIntros "Hs".
  iSpecialize ("HΦ" with "Hs"). by destruct (first_named _ _).
Qed.
End searching.

(** ** Maps and volumes *)

Lemma wp_map_assign a (m : gmap string string) k v Φ :
  a ↦ m -∗ (a ↦ (<[k := v]> m) -∗ Φ ()) -∗ wp (map_assign (Ptr a) k v) Φ.
Proof.
  iIntros "Ha HΦ". iApply wp_bind. iApply (wp_load with "Ha"). iIntros "Ha".
  by iApply (wp_store with "Ha").
Qed.

Lemma wp_new_map Φ : (∀ a, a ↦ (∅ : gmap string string) -∗ Φ (Ptr a)) ⊢ wp new_map Φ.
Proof.
  iIntros "HΦ". iApply wp_bind. iApply wp_alloc. iIntros (a) "Ha". iApply wp_ret. by iApply "HΦ".
Qed.

Lemma wp_set_pod l (p : Pod_mem) f Φ : l ↦ p -∗ (l ↦ f p -∗ Φ ()) -∗ wp (set_pod l f) Φ.
Proof.
  iIntros "Hl HΦ". iApply wp_bind. iApply (wp_load with "Hl"). iIntros "Hl".
  by iApply (wp_store with "Hl").
Qed.

Lemma wp_setAnnotation l pod k v Φ :
  pod_at l pod -∗ (pod_at l (setAnnotation k v pod) -∗ Φ ()) -∗ wp (setAnnotation_mem l k v) Φ.
Proof.
  iDestruct 1 as (p anns labels vs ins cs) "(Hl & Ha & Hla & Hv & Hi & Hc & ->)". iIntros "HΦ".
  iApply wp_bind. iApply (wp_load with "Hl"). iIntros "Hl". iApply wp_bind.
  iApply (wp_wand _ (λ _, ∃ a, l ↦ (pm_set_Annotations (Ptr a) p) ∗ a ↦ anns)%I
            with "[Hl Ha]").
  { destruct (pm_Annotations p) as [|a] eqn:Hp.
    - iDestruct "Ha" as %->. iApply wp_bind. iApply wp_new_map. iIntros (a) "Ha".
      iApply (wp_set_pod with "Hl"). iIntros "Hl". iExists a. iFrame.
    - iApply wp_ret. iExists a. iFrame "Ha". destruct p; simpl in Hp; subst. iFrame. }
  iIntros (_) "(%a & Hl & Ha)". iApply wp_bind. iApply (wp_load with "Hl"). iIntros "Hl".
  iApply (wp_map_assign with "Ha"). iIntros "Ha". iApply "HΦ".
  iExists (pm_set_Annotations (Ptr a) p), _, labels, vs, ins, cs. iFrame "Hl Ha". by iFrame.
Qed.

Lemma wp_add_volume g l pod v Φ :
  pod_at l pod -∗ (pod_at l (Pod_set_Volumes (Pod_Volumes pod ++ [v]) pod) -∗ Φ ()) -∗
  wp (add_volume g l v) Φ.
Proof.
  iDestruct 1 as (p anns labels vs ins cs) "(Hl & Ha & Hla & Hv & Hi & Hc & ->)". iIntros "HΦ".
  iApply wp_bind. iApply (wp_load with "Hl"). iIntros "Hl". iApply wp_bind.
  iApply (wp_append with "Hv"). iIntros (s) "Hv". iApply (wp_set_pod with "Hl"). iIntros "Hl".
  iApply "HΦ". iExists _, anns, labels, _, ins, cs. by iFrame.
Qed.

Section operations.
Context `{UnicodeTables} (g : nat → nat).

Lemma wp_addVolumes l pod plan Φ :
  pod_at l pod -∗ (pod_at l (addVolumes plan pod) -∗ Φ ()) -∗ wp (addVolumes_mem g l plan) Φ.
Proof.
  iDestruct 1 as (p anns labels vs ins cs) "(Hl & Ha & Hla & Hv & Hi & Hc & %Hpod)". iIntros "HΦ".
  iApply wp_bind. iApply (wp_load with "Hl"). iIntros "Hl". iApply wp_bind.
  iApply (wp_find with "Hv"). iIntros "Hv". iApply wp_bind.
  iAssert (pod_at l pod) with "[$Hl Ha Hla Hv Hi Hc]" as "Hpod".
  { iExists anns, labels, vs, ins, cs. by iFrame. }
  assert (Hvs : Pod_Volumes pod = vs) by by rw Hpod.
  iApply (wp_wand _ (λ _, pod_at l (Pod_set_Volumes
            match findVolume pod socketVolumeName with
            | None => Pod_Volumes pod ++ [socketVolume plan] | Some _ => Pod_Volumes pod end pod))
            with "[Hpod]").
  { rw /findVolume Hvs. pose proof (find_volume_first vs socketVolumeName) as Hf.
    destruct (first_named _ _).
    - iApply wp_ret. destruct (find_volume _ _); [|naive_solver]. rw -Hvs. by destruct pod.
    - rw (proj2 Hf) // -Hvs. iApply (wp_add_volume with "Hpod"). by iIntros. }
  iIntros (_) "Hpod". iApply wp_bind. iApply (wp_add_volume with "Hpod"). iIntros "Hpod".
  by iApply (wp_add_volume with "Hpod").
Qed.

(** *** Containers *)

(** The container at an index and its two arrays, to be put back changed. *)
Lemma containers_at_acc s cs i c : cs !! i = Some c →
  containers_at s cs ⊢ ∃ ms m, ⌜ms !! i = Some m⌝ ∗ s ↦∗ ms ∗ container_at m c
    ∗ (∀ m' c', container_at m' c' -∗ s ↦∗ <[i := m']> ms -∗ containers_at s (<[i := c']> cs)).
Proof.
  intros Hc. iDestruct 1 as (ms) "[Hs Hms]".
  iDestruct (big_sepL2_length with "Hms") as %Hlen.
  destruct (lookup_lt_is_Some_2 ms i) as [m Hm]; [rw Hlen; by eapply lookup_lt_Some|].
  iDestruct (big_sepL2_insert_acc with "Hms") as "[Hm Hclose]"; [done..|].
  iExists ms, m. iFrame "Hs Hm". iSplit; [done|]. iIntros (m' c') "Hm Hs".
  iExists _. iFrame "Hs". by iApply "Hclose".
Qed.

Lemma wp_add_mount s cs i c v Φ : cs !! i = Some c →
  containers_at s cs -∗
  (containers_at s (<[i := C_set_VolumeMounts (C_VolumeMounts c ++ [v]) c]> cs) -∗ Φ ()) -∗
  wp (add_mount g s i v) Φ.
Proof.
  iIntros (Hc) "Hcs HΦ". iDestruct (containers_at_acc with "Hcs") as (ms m Hm) "(Hs & Hm & Hclose)";
    [done|]. iDestruct "Hm" as (env mounts res sc) "(He & Hv & Hp & ->)".
  iApply wp_bind. iApply (wp_index with "Hs"); [done|]. iIntros "Hs".
  iApply wp_bind. iApply (wp_append with "Hv"). iIntros (s') "Hv".
  iApply wp_bind. iApply (wp_index with "Hs"); [done|]. iIntros "Hs".
  iApply (wp_set_index with "Hs"); [by eapply lookup_lt_Some|]. iIntros "Hs". iApply "HΦ".
  iApply ("Hclose" with "[He Hv Hp] Hs"). iExists env, _, res, sc. by iFrame.
Qed.

Lemma wp_add_env s cs i c e Φ : cs !! i = Some c →
  containers_at s cs -∗
  (containers_at s (<[i := C_set_Env (C_Env c ++ [e]) c]> cs) -∗ Φ ()) -∗
  wp (add_env g s i e) Φ.
Proof.
  iIntros (Hc) "Hcs HΦ". iDestruct (containers_at_acc with "Hcs") as (ms m Hm) "(Hs & Hm & Hclose)";
    [done|]. iDestruct "Hm" as (env mounts res sc) "(He & Hv & Hp & ->)".
  iApply wp_bind. iApply (wp_index with "Hs"); [done|]. iIntros "Hs".
  iApply wp_bind. iApply (wp_append with "He"). iIntros (s') "He".
  iApply wp_bind. iApply (wp_index with "Hs"); [done|]. iIntros "Hs".
  iApply (wp_set_index with "Hs"); [by eapply lookup_lt_Some|]. iIntros "Hs". iApply "HΦ".
  iApply ("Hclose" with "[He Hv Hp] Hs"). iExists _, mounts, res, sc. by iFrame.
Qed.

(** Reading a field of a container, or its environment, changes nothing. *)
Lemma wp_index_container s cs i c Φ : cs !! i = Some c →
  containers_at s cs -∗ (∀ m, ⌜cm_Name m = C_Name c⌝ -∗ containers_at s cs -∗ Φ m) -∗
  wp (index s i) Φ.
Proof.
  iIntros (Hc) "Hcs HΦ". iDestruct (containers_at_acc with "Hcs") as (ms m Hm) "(Hs & Hm & Hclose)";
    [done|]. iDestruct "Hm" as (env mounts res sc) "(He & Hv & Hp & ->)".
  iApply (wp_index with "Hs"); [done|]. iIntros "Hs". iApply "HΦ"; [done|].
  rw -{2}(list_insert_id cs i _ Hc). iApply ("Hclose" with "[He Hv Hp] [Hs]").
  - iExists env, mounts, res, sc. by iFrame.
  - by rw list_insert_id.
Qed.

Lemma wp_hasEnvNamed s cs i c name Φ : cs !! i = Some c →
  containers_at s cs -∗ (containers_at s cs -∗ Φ (hasEnvNamed c name)) -∗
  wp (hasEnvNamed_mem s i name) Φ.
Proof.
  iIntros (Hc) "Hcs HΦ". iDestruct (containers_at_acc with "Hcs") as (ms m Hm) "(Hs & Hm & Hclose)";
    [done|]. iDestruct "Hm" as (env mounts res sc) "(He & Hv & Hp & ->)".
  iApply wp_bind. iApply (wp_index with "Hs"); [done|]. iIntros "Hs".
  iApply wp_bind. iApply (wp_elems with "He"). iIntros "He". iApply wp_ret. iApply "HΦ".
  rw -{2}(list_insert_id cs i _ Hc). iApply ("Hclose" with "[He Hv Hp] [Hs]").
  - iExists env, mounts, res, sc. by iFrame.
  - by rw list_insert_id.
Qed.

Lemma C_set_VolumeMounts_twice c v w :
  C_set_VolumeMounts w (C_set_VolumeMounts v c) = C_set_VolumeMounts w c.
Proof. done. Qed.

Lemma wp_inject_files plan s files k cs i c Φ : cs !! i = Some c →
  containers_at s cs -∗
  (containers_at s (<[i := C_set_VolumeMounts
     (C_VolumeMounts c ++ imap (λ j, file_mount plan (k + j)) files) c]> cs) -∗ Φ ()) -∗
  wp (inject_files_mem g plan s i k files) Φ.
Proof.
  revert k cs c. induction files as [|f files IH]; iIntros (k cs c Hc) "Hcs HΦ".
  - iApply wp_ret. iApply "HΦ". simpl. rw app_nil_r list_insert_id //. by destruct c.
  - iApply wp_bind. iApply (wp_add_mount with "Hcs"); [done|]. iIntros "Hcs".
    iApply (IH with "Hcs"); [apply list_lookup_insert_eq; by eapply lookup_lt_Some|].
    rw list_insert_insert_eq C_set_VolumeMounts_twice /= -(assoc_L (++)) /= Nat.add_0_r.
    assert (imap (λ j, file_mount plan (S (k + j))) files
            = imap ((λ j, file_mount plan (k + j)) ∘ S) files) as ->; [|done].
    apply imap_ext. intros j f' _. by rw /= Nat.add_succ_r.
Qed.

Lemma wp_inject_env plan s env cs i c Φ : cs !! i = Some c →
  containers_at s cs -∗
  (containers_at s (<[i := (inject_env plan env c).1]> cs) -∗ Φ (inject_env plan env c).2) -∗
  wp (inject_env_mem g plan s i env) Φ.
Proof.
  revert cs c Φ. induction env as [|e env IH]; iIntros (cs c Φ Hc) "Hcs HΦ".
  - iApply wp_ret. iApply "HΦ". by rw list_insert_id.
  - iApply wp_bind. iApply (wp_hasEnvNamed with "Hcs"); [done|]. iIntros "Hcs". simpl.
    destruct (hasEnvNamed c (Env_Name e)).
    + iApply wp_bind. iApply (wp_index_container with "Hcs"); [done|]. iIntros (m Hm) "Hcs".
      iApply wp_bind. iApply (IH with "Hcs"); [done|]. iIntros "Hcs". iApply wp_ret. rw Hm.
      destruct (inject_env plan env c). by iApply "HΦ".
    + iApply wp_bind. iApply (wp_add_env with "Hcs"); [done|]. iIntros "Hcs".
      iApply (IH with "Hcs"); [apply list_lookup_insert_eq; by eapply lookup_lt_Some|].
      by rw list_insert_insert_eq.
Qed.

Lemma alter_as_insert {A} (f : A → A) (l : list A) i x :
  l !! i = Some x → alter f i l = <[i := f x]> l.
Proof.
  revert i. induction l as [|y l IH]; intros [|i]; simpl; try done.
  - by intros [= ->].
  - intros Hi. f_equal. by apply IH.
Qed.

Lemma inject_container_unfold plan c :
  inject_container plan c
  = inject_env plan (Plan_Env plan) (C_set_VolumeMounts ((C_VolumeMounts c
      ++ [mount (Token_VolumeName (Plan_Token plan)) (Token_MountPath (Plan_Token plan)) "" true])
      ++ imap (λ j, file_mount plan (0 + j)) (Plan_Files plan)) c).
Proof. by rw /inject_container /app_mounts -(assoc_L (++)). Qed.

Lemma container_names ms cs :
  ([∗ list] m;c ∈ ms;cs, container_at m c) ⊢ ⌜cm_Name <$> ms = C_Name <$> cs⌝.
Proof.
  revert cs. induction ms as [|m ms IH]; iIntros ([|c cs]) "Hms"; try done; simpl.
  iDestruct "Hms" as "[Hm Hms]". iDestruct (IH with "Hms") as %Hms.
  iDestruct "Hm" as (env mounts res sc) "(_ & _ & _ & ->)". iPureIntro. by f_equal.
Qed.

Lemma wp_findContainer s cs name Φ :
  containers_at s cs -∗ (containers_at s cs -∗ Φ (first_named (C_Name <$> cs) name)) -∗
  wp (findContainer_mem s name) Φ.
Proof.
  iIntros "Hcs HΦ". iDestruct "Hcs" as (ms) "[Hs Hms]".
  iDestruct (container_names with "Hms") as %<-.
  iApply (wp_find with "Hs"). iIntros "Hs". iApply "HΦ". iExists ms. iFrame.
Qed.

(** The pod without its app containers. *)
Lemma pod_at_containers l pod :
  pod_at l pod ⊢ ∃ p : Pod_mem, l ↦ p ∗ containers_at (pm_Containers p) (Pod_Containers pod)
    ∗ (∀ cs, l ↦ p -∗ containers_at (pm_Containers p) cs -∗ pod_at l (Pod_set_Containers cs pod)).
Proof.
  iDestruct 1 as (p anns labels vs ins cs) "(Hl & Ha & Hla & Hv & Hi & Hc & ->)".
  iExists p. iFrame "Hl Hc". iIntros (cs') "Hl Hc". iExists p, anns, labels, vs, ins, cs'.
  by iFrame.
Qed.

Lemma wp_injectIntoContainers l plan targets pod Φ :
  pod_at l pod -∗
  (pod_at l (injectIntoContainers plan targets pod).1 -∗
     Φ (injectIntoContainers plan targets pod).2) -∗
  wp (injectIntoContainers_mem g l plan targets) Φ.
Proof.
  rw /injectIntoContainers. revert pod Φ.
  induction targets as [|name targets IH]; iIntros (pod Φ) "Hpod HΦ".
  { iApply wp_ret. iApply "HΦ". simpl. by destruct pod. }
  iDestruct (pod_at_containers with "Hpod") as (p) "(Hl & Hcs & Hclose)".
  iApply wp_bind. iApply (wp_load with "Hl"). iIntros "Hl".
  iApply wp_bind. iApply (wp_findContainer with "Hcs"). iIntros "Hcs". simpl.
  rw findContainer_first update_container_first.
  destruct (first_named _ _) as [i|] eqn:Hi; simpl.
  - apply first_named_lt in Hi. rw length_fmap in Hi.
    destruct (lookup_lt_is_Some_2 _ _ Hi) as [c Hc]. rw Hc.
    iApply wp_bind. iApply (wp_add_mount with "Hcs"); [done|]. iIntros "Hcs".
    iApply wp_bind. iApply (wp_inject_files with "Hcs"); [by apply list_lookup_insert_eq|].
    rw list_insert_insert_eq C_set_VolumeMounts_twice. iIntros "Hcs".
    iApply wp_bind. iApply (wp_inject_env with "Hcs"); [by apply list_lookup_insert_eq|].
    rw list_insert_insert_eq. rw -inject_container_unfold. iIntros "Hcs".
    iDestruct ("Hclose" with "Hl Hcs") as "Hpod".
    iApply wp_bind. iApply (IH with "Hpod"). simpl.
    assert (alter (λ c, (inject_container plan c).1) i (Pod_Containers pod)
            = <[i := (inject_container plan c).1]> (Pod_Containers pod)) as ->
      by apply (alter_as_insert (λ c, (inject_container plan c).1) _ _ _ Hc).
    destruct (inject_container plan c) as [c' ws]; simpl.
    destruct (inject_targets _ _ _) as [cs' ws']; simpl. iIntros "Hpod".
    iApply wp_ret. by iApply "HΦ".
  - iDestruct ("Hclose" with "Hl Hcs") as "Hpod". iApply (IH with "[Hpod]").
    + by destruct pod.
    + done.
Qed.

(** *** Metadata and init containers *)

Lemma wp_write_files l shim files i pod Φ :
  pod_at l pod -∗ (pod_at l (write_files shim i files pod) -∗ Φ ()) -∗
  wp (write_files_mem l shim i files) Φ.
Proof.
  revert i pod. induction files as [|f files IH]; iIntros (i pod) "Hpod HΦ".
  { iApply wp_ret. by iApply "HΦ". }
  iApply wp_bind. iApply (wp_setAnnotation with "Hpod"). iIntros "Hpod".
  by iApply (IH with "Hpod").
Qed.

Lemma wp_writePlanMetadata l plan pod Φ :
  pod_at l pod -∗ (pod_at l (writePlanMetadata plan pod) -∗ Φ ()) -∗
  wp (writePlanMetadata_mem l plan) Φ.
Proof.
  iIntros "Hpod HΦ". rw /writePlanMetadata. iApply wp_bind. iApply (wp_setAnnotation with "Hpod").
  iIntros "Hpod". iApply wp_bind. iApply (wp_write_files with "Hpod"). iIntros "Hpod".
  set (pod' := write_files _ _ _ _).
  iDestruct "Hpod" as (p anns labels vs ins cs) "(Hl & Ha & Hla & Hv & Hi & Hc & ->)".
  iApply wp_bind. iApply (wp_load with "Hl"). iIntros "Hl". iApply wp_bind.
  iApply (wp_wand _ (λ _, ∃ a, l ↦ (pm_set_Labels (Ptr a) p) ∗ a ↦ labels)%I with "[Hl Hla]").
  { destruct (pm_Labels p) as [|a] eqn:Hp.
    - iDestruct "Hla" as %->. iApply wp_bind. iApply wp_new_map. iIntros (a) "Ha".
      iApply (wp_set_pod with "Hl"). iIntros "Hl". iExists a. iFrame.
    - iApply wp_ret. iExists a. iFrame "Hla". destruct p; simpl in Hp; subst. iFrame. }
  iIntros (_) "(%a & Hl & Hla)". iApply wp_bind. iApply (wp_load with "Hl"). iIntros "Hl".
  iApply (wp_map_assign with "Hla"). iIntros "Hla". iApply "HΦ".
  iExists (pm_set_Labels (Ptr a) p), anns, _, vs, ins, cs. iFrame "Hl Hla". by iFrame.
Qed.

Lemma wp_helperSecurityContext p plan Φ :
  plan_at p plan -∗
  (∀ sc, ptr_at sc (Some (helperSecurityContext plan)) -∗ plan_at p plan -∗ Φ sc) -∗
  wp (helperSecurityContext_mem p) Φ.
Proof.
  iIntros "(%Hp & Hr & Hs) HΦ". rw /helperSecurityContext_mem /helperSecurityContext.
  destruct (pl_HelperSecurityContext p) as [|l] eqn:Hl.
  - iDestruct "Hs" as %Hs. iApply wp_bind. iApply wp_alloc. iIntros (a) "Ha". iApply wp_ret.
    iApply ("HΦ" with "[Ha]"); [iExists _; rw Hs; by iFrame|].
    rw /plan_at Hl. iFrame "Hr". by rw Hs.
  - iApply (wp_copy_ptr with "Hs"). iIntros (q) "Hq Hs".
    iAssert ⌜is_Some (Plan_HelperSecurityContext plan)⌝%I as %[sc Hsc].
    { iDestruct "Hs" as (v ->) "_". by iPureIntro. }
    rw Hsc. iApply ("HΦ" with "Hq"). rw /plan_at Hl Hsc. by iFrame.
Qed.

Lemma wp_helperContainer p plan sidecar Φ :
  plan_at p plan -∗
  (∀ m, container_at m (helperContainer plan sidecar) -∗ plan_at p plan -∗ Φ m) -∗
  wp (helperContainer_mem p sidecar) Φ.
Proof.
  iIntros "Hp HΦ". iAssert ⌜pl_Plan p = plan⌝%I as %Hp; [by iDestruct "Hp" as "[% _]"|].
  rw /helperContainer_mem Hp.
  iApply wp_bind. iApply wp_alloc. iIntros (a) "Ha". iApply wp_bind.
  iApply (wp_helperSecurityContext with "Hp"). iIntros (sc) "Hsc (_ & Hr & Hs)".
  iApply wp_bind.
  iApply (wp_wand _ (λ q, ptr_at q (Plan_HelperResources plan)
            ∗ ptr_at (pl_HelperResources p) (Plan_HelperResources plan))%I with "[Hr]").
  { destruct (pl_HelperResources p); [iDestruct "Hr" as %->; by iApply wp_ret|].
    iApply (wp_copy_ptr with "Hr"). iIntros (q) "$ $". }
  iIntros (q) "[Hq Hr]". iApply wp_ret. iApply ("HΦ" with "[Ha Hsc Hq]"); [|by iFrame].
  iExists [], (C_VolumeMounts (helperContainer plan sidecar)), _, _. iFrame "Hq Hsc".
  iSplit; [done|]. iSplitL; [|done]. iApply slice_at_new. by rw Nat.sub_diag app_nil_r.
Qed.

Lemma wp_queue_inits s cs m1 m2 c1 c2 Φ :
  containers_at s cs -∗ container_at m1 c1 -∗ container_at m2 c2 -∗
  (∀ s', containers_at s' (cs ++ [c1; c2]) -∗ Φ s') -∗ wp (append_all g s [m1; m2]) Φ.
Proof.
  iDestruct 1 as (ms) "[Hs Hms]". iIntros "H1 H2 HΦ". iApply (wp_append_all with "Hs").
  iIntros (s') "Hs". iApply "HΦ". iExists _. iFrame "Hs". iApply (big_sepL2_app with "Hms").
  simpl. iFrame.
Qed.

(** ** The loop *)

(** The loop's variables in memory and in the value model. *)
Definition state_at (l : loc) (v : LoopVars) (st : ApplyState) : hProp pod_cell :=
  (pod_at l (St_pod st) ∗ containers_at (LV_newInits v) (St_newInits st)
   ∗ ⌜LV_addedBytes v = St_addedBytes st ∧ pl_Plan <$> LV_applied v = St_applied st
      ∧ LV_warnings v = St_warnings st⌝)%I.

Lemma state_at_warn l v st ws : state_at l v st ⊢ state_at l (lv_warn ws v) (warn ws st).
Proof.
  iIntros "($ & $ & %Hv)". iPureIntro. destruct Hv as (? & ? & Hw). simpl. by rw Hw.
Qed.

Lemma wp_read_pod l pod Φ : pod_at l pod -∗ (pod_at l pod -∗ Φ pod) -∗ wp (read_pod l) Φ.
Proof. apply wp_reads, pod_at_reads. Qed.
Lemma wp_read_containers s cs Φ :
  containers_at s cs -∗ (containers_at s cs -∗ Φ cs) -∗ wp (read_containers s) Φ.
Proof. apply wp_reads, containers_at_reads. Qed.

Lemma wp_apply_step l n v st p plan Φ :
  state_at l v st -∗ plan_at p plan -∗
  (∀ v', state_at l v' (apply_step n st plan) -∗ plan_at p plan -∗ Φ v') -∗
  wp (apply_step_mem g l n v p) Φ.
Proof.
  iIntros "Hst Hp HΦ". iAssert ⌜pl_Plan p = plan⌝%I as %Hp; [by iDestruct "Hp" as "[% _]"|].
  rw /apply_step_mem /apply_step Hp.
  iAssert ⌜LV_addedBytes v = St_addedBytes st⌝%I as %->.
  { by iDestruct "Hst" as "(_ & _ & %Hv & _)". }
  destruct (_ <? _)%Z; [iApply wp_ret; iApply ("HΦ" with "[Hst] Hp"); by iApply state_at_warn|].
  iDestruct "Hst" as "(Hpod & Hrest)". iApply wp_bind. iApply (wp_read_pod with "Hpod").
  iIntros "Hpod". destruct (resolveTargets (St_pod st) plan) as [[targets requested] ws].
  iDestruct (state_at_warn _ _ _ ws with "[$Hpod $Hrest]") as "Hst".
  destruct (_ && _); [iApply wp_ret; iApply ("HΦ" with "[Hst] Hp"); by iApply state_at_warn|].
  iDestruct "Hst" as "(Hpod & Hin & %Hv)". iApply wp_bind.
  iApply (wp_read_containers with "Hin"). iIntros "Hin".
  destruct (negb _).
  { iApply wp_ret. iApply ("HΦ" with "[Hpod Hin] Hp"). iApply state_at_warn. by iFrame. }
  iApply wp_bind. iApply (wp_addVolumes with "Hpod"). iIntros "Hpod".
  iApply wp_bind. iApply (wp_helperContainer with "Hp"). iIntros (m1) "H1 Hp".
  iApply wp_bind. iApply (wp_helperContainer with "Hp"). iIntros (m2) "H2 Hp".
  iApply wp_bind. iApply (wp_queue_inits with "Hin H1 H2"). iIntros (s') "Hin".
  iApply wp_bind. iApply (wp_injectIntoContainers with "Hpod"). iIntros "Hpod".
  iApply wp_bind. iApply (wp_writePlanMetadata with "Hpod"). iIntros "Hpod".
  iApply wp_ret. iApply ("HΦ" with "[Hpod Hin] Hp").
  destruct (injectIntoContainers _ _ _) as [pod' ews]. iFrame "Hpod Hin".
  iPureIntro. destruct Hv as (? & ? & ?). simpl in *. rw fmap_app /= Hp.
  by split_and!; f_equal.
Qed.

Lemma wp_apply_loop l n ps plans v st Φ :
  state_at l v st -∗ plans_at ps plans -∗
  (∀ v', state_at l v' (foldl (apply_step n) st plans) -∗ plans_at ps plans -∗ Φ v') -∗
  wp (apply_loop_mem g l n v ps) Φ.
Proof.
  revert plans v st Φ. induction ps as [|p ps IH]; iIntros ([|plan plans] v st Φ) "Hst Hps HΦ".
  { iApply wp_ret. by iApply ("HΦ" with "Hst"). }
  { iDestruct "Hps" as "[]". }
  { iDestruct "Hps" as "[]". }
  iDestruct "Hps" as "[Hp Hps]".
  iApply wp_bind. iApply (wp_apply_step with "Hst Hp"). iIntros (v') "Hst Hp".
  iApply (IH with "Hst Hps"). iIntros (v'') "Hst Hps". iApply ("HΦ" with "Hst"). by iFrame.
Qed.

(** What [Apply] does after the loop. *)
Lemma wp_prepend_inits l pod s new Φ :
  pod_at l pod -∗ containers_at s new -∗
  (pod_at l (Pod_set_InitContainers (new ++ Pod_InitContainers pod) pod) -∗ Φ ()) -∗
  wp (prepend_inits g l s) Φ.
Proof.
  iDestruct 1 as (p anns labels vs ins cs) "(Hl & Ha & Hla & Hv & Hi & Hc & ->)".
  iIntros "Hnew HΦ". iDestruct "Hi" as (mi) "[Hs Hi]". iDestruct "Hnew" as (mn) "[Hs' Hnew]".
  iApply wp_bind. iApply (wp_load with "Hl"). iIntros "Hl". iApply wp_bind.
  iApply (wp_append_slice with "Hs' Hs"). iIntros (t) "Ht _".
  iApply (wp_set_pod with "Hl"). iIntros "Hl". iApply "HΦ".
  iExists (pm_set_InitContainers t p), anns, labels, vs, (new ++ ins), cs. iFrame "Hl Ha Hla Hv Hc".
  iSplitL; [|done]. iExists _. iFrame "Ht". by iApply (big_sepL2_app with "Hnew").
Qed.

Lemma wp_Apply l pod ps plans Φ :
  pod_at l pod -∗ plans_at ps plans -∗
  (∀ applied, ⌜pl_Plan <$> applied = (apply_pod pod plans).1.2⌝ -∗
     pod_at l (apply_pod pod plans).1.1 -∗ plans_at ps plans -∗
     Φ (applied, (apply_pod pod plans).2)) -∗
  wp (Apply_mem g (Ptr l) ps) Φ.
Proof.
  iIntros "Hpod Hps HΦ". rw /Apply_mem /apply_pod.
  iApply wp_bind. iApply (wp_read_pod with "Hpod"). iIntros "Hpod".
  destruct (already_injected pod); [iApply wp_ret; by iApply ("HΦ" with "[] Hpod Hps")|].
  iApply wp_bind. iApply (wp_apply_loop _ _ _ _ _ (apply_start pod) with "[$Hpod] Hps").
  { iSplit; [|done]. iExists []. by iSplit. }
  iIntros (v) "Hst Hps". fold (apply_loop pod plans). set (st := apply_loop pod plans).
  iDestruct "Hst" as "(Hpod & Hin & %Hv)". destruct Hv as (_ & Happ & ->). rw -Happ.
  destruct (LV_applied v) as [|p applied] eqn:Hl.
  { iApply wp_ret. by iApply ("HΦ" with "[] Hpod Hps"). }
  iApply wp_bind. iApply (wp_prepend_inits with "Hpod Hin"). iIntros "Hpod".
  iApply wp_bind. iApply (wp_setAnnotation with "Hpod"). iIntros "Hpod".
  iApply wp_bind. iApply (wp_setAnnotation with "Hpod"). iIntros "Hpod".
  iApply wp_ret. iApply ("HΦ" with "[] [Hpod] Hps"); [done|].
  rw list_fmap_compose Happ /apply_finish. by destruct (St_applied st).
Qed.
End operations.

(** ** Refinement *)

(** C9. [Apply] on memory implements [Apply] on values: for a pod that owns its slices, maps and
    pointers, however much spare capacity it has and whatever capacities the runtime picks when
    an append grows, the call returns (no nil map is written, no index is out of range),
    returns the plans and warnings of the value model, leaves in memory the pod of the value
    model and changes no other cell.  The pod again owns its memory, apart from the plans': no
    two containers share a slice, a security context or resources with each other or with a
    plan. *)
Theorem apply_mem_refines `{UnicodeTables} g l pod ps plans h hf :
  holds (pod_at l pod ∗ plans_at ps plans)%I h → h ##ₘ hf →
  ∃ applied h', Apply_mem g (Ptr l) ps (h ∪ hf)
                = Some (applied, (apply_pod pod plans).2, h' ∪ hf)
    ∧ pl_Plan <$> applied = (apply_pod pod plans).1.2
    ∧ h' ##ₘ hf ∧ holds (pod_at l (apply_pod pod plans).1.1 ∗ plans_at ps plans)%I h'
    ∧ view_pod (h' ∪ hf) l = Some (apply_pod pod plans).1.1.
Proof.
  intros Hpod Hd.
  destruct (wp_run (Apply_mem g (Ptr l) ps) (pod_at l pod ∗ plans_at ps plans)%I
    (λ r, (pod_at l (apply_pod pod plans).1.1 ∗ plans_at ps plans)
          ∗ ⌜pl_Plan <$> r.1 = (apply_pod pod plans).1.2 ∧ r.2 = (apply_pod pod plans).2⌝)%I h hf)
    as ([applied ws] & h' & Hrun & Hd' & HΦ); [|done|done|].
  { iIntros "[Hpod Hps]". iApply (wp_Apply with "Hpod Hps"). iIntros (applied Ha) "$ $". done. }
  apply holds_sep_pure in HΦ as [Hp [Ha Hw]]. simpl in *. subst ws.
  exists applied, h'. split_and!; [done..|].
  apply (reads_as_holds (λ h, view_pod h l) (pod_at l (apply_pod pod plans).1.1 ∗ plans_at ps plans)%I).
  - iIntros "[Hpod _]". by iApply pod_at_reads.
  - eapply holds_mono; [exact Hp|apply map_union_subseteq_l].
Qed.

(** ** Pods in new memory *)

(** A pod laid out in new cells, [spare] elements of capacity left in every array. *)
Definition put_slice `{Storable pod_cell (list T), GoZero T} (spare : nat) (xs : list T)
    : go pod_cell (slice T) :=
  match xs with
  | [] => mret nil_slice
  | _ => a ← alloc (xs ++ replicate spare zero);
         mret (Slice a 0 (length xs) (length xs + spare))
  end.
Definition put_map (m : gmap string string) : go pod_cell (ptr (gmap string string)) :=
  if decide (m = ∅) then mret nil_ptr else a ← alloc m; mret (Ptr a).
Definition put_ptr `{Storable pod_cell T} (x : option T) : go pod_cell (ptr T) :=
  match x with None => mret nil_ptr | Some v => a ← alloc v; mret (Ptr a) end.
Definition put_container (spare : nat) (c : Container) : go pod_cell Container_mem :=
  env ← put_slice spare (C_Env c); mounts ← put_slice spare (C_VolumeMounts c);
  resources ← put_ptr (match C_Resources c with [] => None | r => Some r end);
  sc ← put_ptr (C_SecurityContext c);
  mret {| cm_Name := C_Name c; cm_Image := C_Image c; cm_ImagePullPolicy := C_ImagePullPolicy c;
          cm_Args := C_Args c; cm_Env := env; cm_VolumeMounts := mounts;
          cm_Resources := resources; cm_SecurityContext := sc;
          cm_RestartPolicy := C_RestartPolicy c; cm_Other := C_Other c |}.
Fixpoint put_each (spare : nat) (cs : list Container) : go pod_cell (list Container_mem) :=
  match cs with
  | [] => mret []
  | c :: rest => m ← put_container spare c; ms ← put_each spare rest; mret (m :: ms)
  end.
Definition put_containers (spare : nat) (cs : list Container) : go pod_cell (slice Container_mem) :=
  ms ← put_each spare cs; put_slice spare ms.
Definition put_pod (spare : nat) (pod : Pod) : go pod_cell Pod_mem :=
  annotations ← put_map (Pod_Annotations pod); labels ← put_map (Pod_Labels pod);
  volumes ← put_slice spare (Pod_Volumes pod);
  inits ← put_containers spare (Pod_InitContainers pod);
  containers ← put_containers spare (Pod_Containers pod);
  mret {| pm_Name := Pod_Name pod; pm_GenerateName := Pod_GenerateName pod;
          pm_Namespace := Pod_Namespace pod; pm_Annotations := annotations; pm_Labels := labels;
          pm_ServiceAccountName := Pod_ServiceAccountName pod; pm_Volumes := volumes;
          pm_InitContainers := inits; pm_Containers := containers; pm_Other := Pod_Other pod |}.

(** The pointers of a plan: [BuildPlan] deep-copies what the shim sets, so they refer to new
    memory. *)
Definition put_plan (plan : Plan) : go pod_cell Plan_mem :=
  resources ← put_ptr (Plan_HelperResources plan);
  sc ← put_ptr (Plan_HelperSecurityContext plan);
  mret {| pl_Plan := plan; pl_HelperResources := resources; pl_HelperSecurityContext := sc |}.
Fixpoint put_plans (plans : list Plan) : go pod_cell (list Plan_mem) :=
  match plans with
  | [] => mret []
  | plan :: rest => p ← put_plan plan; ps ← put_plans rest; mret (p :: ps)
  end.

Lemma wp_put_slice `{Storable pod_cell (list T), GoZero T} spare (xs : list T) Φ :
  (∀ s, s ↦∗ xs -∗ Φ s) ⊢ wp (put_slice spare xs) Φ.
Proof.
  iIntros "HΦ". destruct xs as [|x xs]; [iApply wp_ret; by iApply "HΦ"|].
  iApply wp_bind. iApply wp_alloc. iIntros (a) "Ha". iApply wp_ret. iApply "HΦ".
  iApply slice_at_new. by rw Nat.add_comm Nat.add_sub.
Qed.

Lemma wp_put_map m Φ : (∀ p, map_at p m -∗ Φ p) ⊢ wp (put_map m) Φ.
Proof.
  iIntros "HΦ". rw /put_map. case_decide as Hm; [iApply wp_ret; by iApply "HΦ"|].
  iApply wp_bind. iApply wp_alloc. iIntros (a) "Ha". iApply wp_ret. by iApply "HΦ".
Qed.

Lemma wp_put_ptr `{Storable pod_cell T} (x : option T) Φ :
  (∀ p, ptr_at p x -∗ Φ p) ⊢ wp (put_ptr x) Φ.
Proof.
  iIntros "HΦ". destruct x as [v|]; [|iApply wp_ret; by iApply "HΦ"].
  iApply wp_bind. iApply wp_alloc. iIntros (a) "Ha". iApply wp_ret. iApply "HΦ".
  iExists v. by iFrame.
Qed.

Lemma wp_put_plans plans Φ : (∀ ps, plans_at ps plans -∗ Φ ps) ⊢ wp (put_plans plans) Φ.
Proof.
  revert Φ. induction plans as [|plan plans IH]; iIntros (Φ) "HΦ".
  { iApply wp_ret. iApply "HΦ". by rw /plans_at. }
  iApply wp_bind. iApply wp_bind. iApply wp_put_ptr. iIntros (q1) "H1".
  iApply wp_bind. iApply wp_put_ptr. iIntros (q2) "H2". iApply wp_ret.
  iApply wp_bind. iApply IH. iIntros (ps) "Hps". iApply wp_ret. iApply "HΦ".
  rw /plans_at /=. by iFrame.
Qed.

Lemma wp_put_container spare c Φ : (∀ m, container_at m c -∗ Φ m) ⊢ wp (put_container spare c) Φ.
Proof.
  iIntros "HΦ". iApply wp_bind. iApply wp_put_slice. iIntros (env) "He".
  iApply wp_bind. iApply wp_put_slice. iIntros (mounts) "Hm".
  iApply wp_bind. iApply wp_put_ptr. iIntros (q1) "H1".
  iApply wp_bind. iApply wp_put_ptr. iIntros (q2) "H2". iApply wp_ret. iApply "HΦ".
  iExists _, _, _, _. iFrame "He Hm H1 H2". iPureIntro. destruct c as [? ? ? ? ? ? [|] ? ? ?]; done.
Qed.

Lemma wp_put_containers spare cs Φ :
  (∀ s, containers_at s cs -∗ Φ s) ⊢ wp (put_containers spare cs) Φ.
Proof.
  iIntros "HΦ". iApply wp_bind.
  iApply (wp_wand _ (λ ms, [∗ list] m;c ∈ ms;cs, container_at m c)%I with "[]").
  - iInduction cs as [|c cs] "IH"; [by iApply wp_ret|].
    iApply wp_bind. iApply wp_put_container. iIntros (m) "Hm". iApply wp_bind.
    iApply (wp_wand with "IH"). iIntros (ms) "Hms". iApply wp_ret. simpl. iFrame.
  - iIntros (ms) "Hms". iApply wp_put_slice. iIntros (s) "Hs". iApply "HΦ". iExists ms. iFrame.
Qed.

Lemma wp_put_pod spare pod Φ :
  (∀ m, (∀ l, l ↦ m -∗ pod_at l pod) -∗ Φ m) ⊢ wp (put_pod spare pod) Φ.
Proof.
  iIntros "HΦ". iApply wp_bind. iApply wp_put_map. iIntros (p1) "Ha".
  iApply wp_bind. iApply wp_put_map. iIntros (p2) "Hla".
  iApply wp_bind. iApply wp_put_slice. iIntros (s1) "Hv".
  iApply wp_bind. iApply wp_put_containers. iIntros (s2) "Hi".
  iApply wp_bind. iApply wp_put_containers. iIntros (s3) "Hc". iApply wp_ret. iApply "HΦ".
  iIntros (l) "Hl". iExists _, _, _, _, _, _. iFrame. by destruct pod.
Qed.

(** A pod and plans in new memory. *)
Definition put_all (spare : nat) (pod : Pod) (plans : list Plan)
    : go pod_cell (loc * list Plan_mem) :=
  m ← put_pod spare pod; l ← alloc m; ps ← put_plans plans; mret (l, ps).

Lemma wp_put_all spare pod plans Φ :
  (∀ l ps, pod_at l pod -∗ plans_at ps plans -∗ Φ (l, ps)) ⊢ wp (put_all spare pod plans) Φ.
Proof.
  iIntros "HΦ". iApply wp_bind. iApply wp_put_pod. iIntros (m) "Hm".
  iApply wp_bind. iApply wp_alloc. iIntros (l) "Hl". iApply wp_bind. iApply wp_put_plans.
  iIntros (ps) "Hps". iApply wp_ret. iApply ("HΦ" with "[Hm Hl] Hps"). by iApply "Hm".
Qed.

Lemma put_all_holds (spare : nat) (pod : Pod) (plans : list Plan) :
  ∃ l ps h, holds (pod_at l pod ∗ plans_at ps plans)%I h.
Proof.
  destruct (wp_run (put_all spare pod plans) emp%I
    (λ r, pod_at r.1 pod ∗ plans_at r.2 plans)%I ∅ ∅)
    as ([l ps] & h & _ & _ & Hpod); [|done|apply map_disjoint_empty_r|by exists l, ps, h].
  iIntros "_". iApply wp_put_all. iIntros (l ps) "$ $".
Qed.

Lemma apply_mem_refines_witness :
  ∃ l ps h applied h', holds (pod_at l (sample_pod ∅) ∗ plans_at ps [sample_plan])%I h
    ∧ @Apply_mem ascii_tables (λ n, 2 * n)%nat (Ptr l) ps (h ∪ ∅)
      = Some (applied, (@apply_pod ascii_tables (sample_pod ∅) [sample_plan]).2, h' ∪ ∅).
Proof.
  destruct (put_all_holds 3 (sample_pod ∅) [sample_plan]) as (l & ps & h & Hpod).
  destruct (@apply_mem_refines ascii_tables (λ n, 2 * n)%nat l (sample_pod ∅) ps [sample_plan] h ∅
              Hpod (map_disjoint_empty_r _)) as (applied & h' & Hrun & _).
  exists l, ps, h, applied, h'. split; [exact Hpod|exact Hrun].
Defined.

(** ** Runs on concrete memory *)

(** The run of the witness, evaluated: the sample pod with room for one more element in every
    array, so that some appends write in place and others grow. *)
Definition run_sample (spare : nat) (plans : list Plan) : option (Pod * list string) :=
  '(l, ps, h) ← put_all spare (sample_pod ∅) plans (∅ : heap pod_cell);
  '(_, ws, h') ← @Apply_mem ascii_tables (λ n, 2 * n)%nat (Ptr l) ps h;
  pod ← view_pod h' l; Some (pod, ws).
Example run_sample_1 :
  run_sample 1 [sample_plan]
  = Some ((@apply_pod ascii_tables (sample_pod ∅) [sample_plan]).1.1,
          (@apply_pod ascii_tables (sample_pod ∅) [sample_plan]).2).
Proof. vm_compute. reflexivity. Qed.

(** Owning the arrays is needed: when two containers' [Env] slices share an array with spare
    capacity, an append for one container overwrites a variable of the other. *)
Definition shared_env : list EnvVar :=
  [ {| Env_Name := "A"; Env_Value := "1"; Env_Other := [] |};
    {| Env_Name := "B"; Env_Value := "2"; Env_Other := [] |} ].
Definition shared_container (name : string) (n : nat) : Container_mem :=
  {| cm_Name := name; cm_Image := "app"; cm_ImagePullPolicy := ""; cm_Args := [];
     cm_Env := Slice 2%positive 0 n 2; cm_VolumeMounts := nil_slice; cm_Resources := nil_ptr;
     cm_SecurityContext := nil_ptr; cm_RestartPolicy := None; cm_Other := [] |}.
Definition shared_pod : Pod_mem :=
  {| pm_Name := "p"; pm_GenerateName := ""; pm_Namespace := ""; pm_Annotations := nil_ptr;
     pm_Labels := nil_ptr; pm_ServiceAccountName := ""; pm_Volumes := nil_slice;
     pm_InitContainers := nil_slice; pm_Containers := Slice 3%positive 0 2 2; pm_Other := [] |}.
Definition shared_heap : heap pod_cell :=
  {[1%positive := to_cell shared_pod; 2%positive := to_cell shared_env;
    3%positive := to_cell [shared_container "one" 1; shared_container "two" 2]]}.

Lemma shared_env_clobbered :
  ∃ pod h', view_pod shared_heap 1%positive = Some pod
    ∧ (∃ r, @Apply_mem ascii_tables id (Ptr 1%positive)
              [ {| pl_Plan := sample_plan; pl_HelperResources := nil_ptr;
                   pl_HelperSecurityContext := nil_ptr |} ] shared_heap = Some (r, h'))
    ∧ (λ p, Env_Name <$> (Pod_Containers p ≫= C_Env)) <$> view_pod h' 1%positive
      ≠ Some (Env_Name <$> (Pod_Containers (@apply_pod ascii_tables pod [sample_plan]).1.1 ≫= C_Env)).
Proof.
  eexists _, _. split; [vm_compute; reflexivity|].
  split; [eexists; vm_compute; reflexivity|]. vm_compute. discriminate.
Qed.
