(* ===== verification/Webhook.v ===== *)
(** * The pod admission webhook (src/internal/webhook/pod/handler.go, setup.go)

    The clients, the decoder and the JSON encoder are library code: class methods.  A response
    is the library call that builds it, applied to its arguments. *)

From S2P Require Import Prelude GoStd GoStdFacts Kube Api Config SpiffeHelper Template GoTemplate Params Selection Plan Mutate MutateFacts Injection.

(** ** The library interfaces *)

Record Request := {
  Req_Operation : string;
  Req_Namespace : string;
  Req_ObjectRaw : string }.

(** The API server as the handler's clients see it during one request. *)
Class ClusterAPI := {
  IsNotFound : error → bool;
  Get_Namespace : string → result error KubeObject;
  Get_ServiceAccount : string → string → result error KubeObject;
  List_OIDCShims : string → result error (list OIDCShim);
  List_ClusterOIDCShims : result error (list ClusterOIDCShim);
  Get_ConfigMap : string → string → result error (gmap string string) }.

(** [admission.Decoder] and [json.Marshal] for pods. *)
Class PodCodec := {
  Decode : Request → result error Pod;
  Marshal : Pod → result error string }.

Inductive Response :=
| Allowed (message : string) (warnings : list string)
| Errored (code : Z) (err : error)
| PatchResponseFromRaw (original current : string) (warnings : list string).

Definition OperationCreate : string := "CREATE".
Definition StatusBadRequest : Z := 400.
Definition StatusInternalServerError : Z := 500.
Definition defaultServiceAccountName : string := "default".

(** ** setup.go: the informer warm-up *)

Record Warmer (object : Type) := {
  Warmer_objects : list object;
  Warmer_ready : bool }.
Arguments Warmer_objects {object}.
Arguments Warmer_ready {object}.

Definition NewWarmer {object} (objects : list object) : Warmer object :=
  {| Warmer_objects := objects; Warmer_ready := false |}.

Section warmer.
Context {object : Type} (GetInformer : object → option error) (type_name : object → string).

Fixpoint start_informers (objects : list object) : option error :=
  match objects with
  | [] => None
  | obj :: rest =>
      match GetInformer obj with
      | Some err => Some (wrapError ("warm up informer for " +:+ type_name obj +:+ ": ") err)
      | None => start_informers rest
      end
  end.

Definition Start (w : Warmer object) : Warmer object * option error :=
  match start_informers (Warmer_objects w) with
  | Some err => (w, Some err)
  | None => ({| Warmer_objects := Warmer_objects w; Warmer_ready := true |}, None)
  end.
End warmer.

Definition Check_ready {object} (w : Warmer object) : option error :=
  if negb (Warmer_ready w) then Some (errorString "informers not synced") else None.

(** Every replica serves admission requests, so every replica warms its informers. *)
Definition NeedLeaderElection {object} (_ : Warmer object) : bool := false.

Section handler.
Context `{UnicodeTables} `{TextTemplate} `{LabelSelectors} `{ClusterAPI} `{PodCodec}.

(** ** Reading the cluster *)

(** [getConfigMap]: a missing ConfigMap has no data. *)
Definition getConfigMap (namespace name : string) : result error (gmap string string) :=
  match Get_ConfigMap namespace name with
  | Ok data => Ok data
  | Err e => if IsNotFound e then Ok ∅ else Err e
  end.

(** The name [readTarget] looks up. *)
Definition service_account_of (pod : Pod) : string :=
  if String.eqb (Pod_ServiceAccountName pod) "" then defaultServiceAccountName
  else Pod_ServiceAccountName pod.

Definition not_found_is_nil (context : string) (r : result error KubeObject)
    : result error (option KubeObject) :=
  match r with
  | Ok o => Ok (Some o)
  | Err e => if negb (IsNotFound e) then Err (wrapError context e) else Ok None
  end.

Definition readTarget (namespace : string) (pod : Pod)
    : result error (option KubeObject * option KubeObject) :=
  let! ns := not_found_is_nil ("get namespace " +:+ Quote namespace +:+ ": ")
               (Get_Namespace namespace) in
  let saName := service_account_of pod in
  let! sa := not_found_is_nil
               ("get serviceaccount " +:+ Quote namespace +:+ "/" +:+ Quote saName +:+ ": ")
               (Get_ServiceAccount namespace saName) in
  Ok (ns, sa).

Definition OIDCShim_Name (s : OIDCShim) : string := Meta_Name (OIDCShim_Meta s).
Definition ClusterOIDCShim_Name (s : ClusterOIDCShim) : string := Meta_Name (ClusterOIDCShim_Meta s).

Definition listShims (namespace : string) : result error (list Shim) :=
  let! namespaced := result_map_err
    (wrapError ("list oidcshims in " +:+ Quote namespace +:+ ": ")) (List_OIDCShims namespace) in
  let! cluster := result_map_err (wrapError "list clusteroidcshims: ") List_ClusterOIDCShims in
  Ok ((ShimNamespaced <$> sort_by_name OIDCShim_Name namespaced)
      ++ (ShimCluster <$> sort_by_name ClusterOIDCShim_Name cluster)).

(** ** Building the plans *)

Definition metadata_of (o : option KubeObject) : Metadata :=
  match o with
  | Some o => {| Annotations := Obj_Annotations o; Labels := Obj_Labels o |}
  | None => {| Annotations := ∅; Labels := ∅ |}
  end.

Definition lookupFor (t : Target) : Lookup :=
  {| L_Pod := match T_Pod t with
              | Some p => {| Annotations := Pod_Annotations p; Labels := Pod_Labels p |}
              | None => {| Annotations := ∅; Labels := ∅ |}
              end;
     L_ServiceAccount := metadata_of (T_ServiceAccount t);
     L_Namespace := metadata_of (T_Namespace t) |}.

Definition handler_defaults (o : Options) : Defaults :=
  {| D_HelperImage := SpiffeHelperImage o;
     D_HelperImagePullPolicy := SpiffeHelperImagePullPolicy o;
     D_CSIDriver := SpiffeCSIDriver o;
     D_SocketMountPath := SpiffeSocketMountPath o;
     D_SocketFile := SpiffeSocketFile o;
     D_MaxRenderedBytes := MaxRenderedBytes o |}.

Definition shim_skipped (shim : Shim) (err : error) : string :=
  "shim " +:+ ShimKey shim +:+ " skipped: " +:+ Error err.

Definition shim_input (shim : Shim) (namespace : string) (t : Target) (tok : Token) : Input :=
  {| In_Parameters := Spec_Parameters (ShimSpec shim);
     In_Lookup := lookupFor t;
     In_Builtins := PlanBuiltins shim (T_Pod t) namespace tok;
     In_ConfigMapNamespace := ConfigMapNamespaceFor shim namespace;
     In_GetConfigMap := Some getConfigMap |}.

(** The body of the loop of [buildPlans]: nothing for a shim that does not match. *)
Definition plan_for (o : Options) (namespace : string) (t : Target) (shim : Shim)
    : result error (option Plan) :=
  let spec := ShimSpec shim in
  let! matched := Matches (GetName shim) (Selection spec) t in
  if negb matched then Ok None
  else
    let tok := ResolveToken (GetName shim) (Spec_Token spec) in
    let! values := Resolve (shim_input shim namespace t tok) in
    let! plan := BuildPlan shim values tok (handler_defaults o) in
    Ok (Some plan).

Fixpoint buildPlans (o : Options) (shims : list Shim) (namespace : string) (t : Target)
    : list Plan * list string :=
  match shims with
  | [] => ([], [])
  | shim :: rest =>
      let '(plans, warnings) := buildPlans o rest namespace t in
      match plan_for o namespace t shim with
      | Err e => (plans, shim_skipped shim e :: warnings)
      | Ok None => (plans, warnings)
      | Ok (Some plan) => (plan :: plans, warnings)
      end
  end.

(** ** Handle *)

Definition request_namespace (req : Request) (pod : Pod) : string :=
  if String.eqb (Req_Namespace req) "" then Pod_Namespace pod else Req_Namespace req.

Definition handler_exclusions (o : Options) : Exclusions :=
  {| Names := ExcludedNamespaceNames o; Prefixes := ExcludedNamespacePrefixes o |}.

Definition Handle (o : Options) (req : Request) : Response :=
  if negb (String.eqb (Req_Operation req) OperationCreate) then
    Allowed "only CREATE is mutated" []
  else match Decode req with
  | Err err => Errored StatusBadRequest err
  | Ok pod =>
      let namespace := request_namespace req pod in
      if OptedOut (Some pod) then Allowed "opted out" []
      else if already_injected pod then Allowed "already injected" []
      else if Excluded (handler_exclusions o) namespace then Allowed "namespace excluded" []
      else match readTarget namespace pod with
      | Err err => Errored StatusInternalServerError err
      | Ok (ns, sa) =>
          match listShims namespace with
          | Err err => Errored StatusInternalServerError err
          | Ok shims =>
              let t := {| T_Pod := Some pod; T_ServiceAccount := sa; T_Namespace := ns |} in
              let '(plans, warnings) := buildPlans o shims namespace t in
              let '(pod', applied, applyWarnings) := apply_pod pod plans in
              match applied with
              | [] => Allowed "no shim applied" (warnings ++ applyWarnings)
              | _ =>
                  match Marshal pod' with
                  | Err err => Errored StatusInternalServerError err
                  | Ok marshaled =>
                      PatchResponseFromRaw (Req_ObjectRaw req) marshaled (warnings ++ applyWarnings)
                  end
              end
          end
      end
  end.

(** ** The log line of a request *)

Record LogLine := {
  Log_pod : string;
  Log_namespace : string;
  Log_appliedShims : list string;
  Log_warnings : list string }.

(** [Handler.log]: one line, when the verbosity asks for it. *)
Definition handler_log (verbose : bool) (pod : Pod) (namespace : string) (applied : list Plan)
    (warnings : list string) : option LogLine :=
  if negb verbose then None
  else
    let name := if String.eqb (Pod_Name pod) "" then Pod_GenerateName pod +:+ "<generated>"
                else Pod_Name pod in
    Some {| Log_pod := name; Log_namespace := namespace;
            Log_appliedShims := Plan_ShimKey <$> applied; Log_warnings := warnings |}.

(** What [Handle] has logged when it returns: the calls before the log, as there. *)
Definition Handle_log (verbose : bool) (o : Options) (req : Request) : option LogLine :=
  if negb (String.eqb (Req_Operation req) OperationCreate) then None
  else match Decode req with
  | Err _ => None
  | Ok pod =>
      let namespace := request_namespace req pod in
      if OptedOut (Some pod) then None
      else if already_injected pod then None
      else if Excluded (handler_exclusions o) namespace then None
      else match readTarget namespace pod, listShims namespace with
      | Ok (ns, sa), Ok shims =>
          let t := {| T_Pod := Some pod; T_ServiceAccount := sa; T_Namespace := ns |} in
          let '(plans, warnings) := buildPlans o shims namespace t in
          let '(pod', applied, applyWarnings) := apply_pod pod plans in
          handler_log verbose pod' namespace applied (warnings ++ applyWarnings)
      | _, _ => None
      end
  end.

(** ** The plans of a request *)

Definition planned (o : Options) (namespace : string) (t : Target) (shim : Shim) : option Plan :=
  match plan_for o namespace t shim with Ok (Some plan) => Some plan | _ => None end.
Definition plan_warning (o : Options) (namespace : string) (t : Target) (shim : Shim)
    : option string :=
  match plan_for o namespace t shim with Err e => Some (shim_skipped shim e) | _ => None end.

Lemma buildPlans_eq o shims namespace t :
  buildPlans o shims namespace t
  = (omap (planned o namespace t) shims, omap (plan_warning o namespace t) shims).
Proof.
  induction shims as [|s shims IH]; [done|]. simpl. rewrite IH. unfold planned, plan_warning.
  by destruct (plan_for o namespace t s) as [[p|]|e].
Qed.

(** What a plan for a pod vouches for: its shim selects the pod, the parameters resolved, and
    the plan is what they render to. *)
Record plan_justified (o : Options) (namespace : string) (t : Target) (shim : Shim) (plan : Plan)
    : Prop := {
  pj_matches : Matches (GetName shim) (Selection (ShimSpec shim)) t = Ok true;
  pj_plan : ∃ values,
    let tok := ResolveToken (GetName shim) (Spec_Token (ShimSpec shim)) in
    Resolve (shim_input shim namespace t tok) = Ok values
    ∧ BuildPlan shim values tok (handler_defaults o) = Ok plan }.

Lemma planned_justified o namespace t shim plan :
  planned o namespace t shim = Some plan ↔ plan_justified o namespace t shim plan.
Proof.
  unfold planned, plan_for. split.
  - intros Hp. destruct (Matches _ _ _) as [[]|] eqn:Hm; simpl in Hp; [|done|done].
    destruct (Resolve _) as [values|] eqn:Hr; simpl in Hp; [|done].
    destruct (BuildPlan _ _ _ _) as [p|] eqn:Hb; simpl in Hp; [|done]. injection Hp as ->.
    split; [done|]. eauto.
  - intros [Hm (values & Hr & Hb)]. rewrite Hm. simpl. rewrite Hr. simpl. by rewrite Hb.
Qed.

(** One broken shim does not affect the others: a shim for which no plan can be built
    (it does not select the pod, or its selectors, parameters or templates fail) can be left
    out of the list without changing the plans, and exactly the failing ones give a warning
    with their key. *)
Theorem build_plans_isolation o l shim r namespace t :
  planned o namespace t shim = None →
  (buildPlans o (l ++ shim :: r) namespace t).1 = (buildPlans o (l ++ r) namespace t).1
  ∧ (∀ w, w ∈ (buildPlans o (l ++ shim :: r) namespace t).2 ↔
       ∃ s e, s ∈ l ++ shim :: r ∧ plan_for o namespace t s = Err e ∧ w = shim_skipped s e).
Proof.
  intros Hn. rewrite !buildPlans_eq. simpl. split.
  - rewrite !omap_app. simpl. by rewrite Hn.
  - intros w. rewrite list_elem_of_omap. split.
    + intros (s & Hs & Hw). unfold plan_warning in Hw.
      destruct (plan_for o namespace t s) as [?|e] eqn:E; simplify_eq. eauto.
    + intros (s & e & Hs & E & ->). exists s. split; [done|]. unfold plan_warning. by rewrite E.
Qed.

(** ** The order of the shims *)

(** The shims are considered in a fixed order: the namespaced ones by name, then the
    cluster ones by name; names being unique per kind, the order in which the cache lists
    them, and the sorting algorithm, do not matter. *)
Theorem list_shims_order namespace namespaced cluster :
  List_OIDCShims namespace = Ok namespaced → List_ClusterOIDCShims = Ok cluster →
  NoDup (OIDCShim_Name <$> namespaced) → NoDup (ClusterOIDCShim_Name <$> cluster) →
  ∃ ns cs, listShims namespace = Ok ((ShimNamespaced <$> ns) ++ (ShimCluster <$> cs))
    ∧ ns ≡ₚ namespaced ∧ cs ≡ₚ cluster
    ∧ (∀ ns', ns' ≡ₚ namespaced → StronglySorted (name_le OIDCShim_Name) ns' → ns' = ns)
    ∧ (∀ cs', cs' ≡ₚ cluster → StronglySorted (name_le ClusterOIDCShim_Name) cs' → cs' = cs).
Proof.
  intros Hns Hcs Hn Hc. unfold listShims. rewrite Hns, Hcs. simpl.
  exists (sort_by_name OIDCShim_Name namespaced), (sort_by_name ClusterOIDCShim_Name cluster).
  split_and!; [done|apply sort_by_name_perm|apply sort_by_name_perm|..];
    intros; by apply sort_Slice_unique.
Qed.

(** ** Errors *)

Lemma not_found_is_nil_Err context r e :
  not_found_is_nil context r = Err e → ∃ e', r = Err e' ∧ IsNotFound e' = false.
Proof.
  unfold not_found_is_nil. destruct r as [|e']; [done|].
  destruct (IsNotFound e') eqn:E; [done|]. eauto.
Qed.

(** What can go wrong in the API server or the codec during a request. *)
Inductive api_failure (o : Options) (req : Request) (pod : Pod) : Prop :=
| fail_namespace e :
    Get_Namespace (request_namespace req pod) = Err e → IsNotFound e = false →
    api_failure o req pod
| fail_service_account e :
    Get_ServiceAccount (request_namespace req pod) (service_account_of pod) = Err e →
    IsNotFound e = false → api_failure o req pod
| fail_shims e : List_OIDCShims (request_namespace req pod) = Err e → api_failure o req pod
| fail_cluster_shims e : List_ClusterOIDCShims = Err e → api_failure o req pod
| fail_marshal plans e : Marshal (apply_pod pod plans).1.1 = Err e → api_failure o req pod.

Lemma readTarget_Err o req pod e :
  readTarget (request_namespace req pod) pod = Err e → api_failure o req pod.
Proof.
  unfold readTarget. intros Hr.
  destruct (not_found_is_nil _ (Get_Namespace _)) as [ns|e1] eqn:E1; simpl in Hr.
  - destruct (not_found_is_nil _ (Get_ServiceAccount _ _)) as [sa|e2] eqn:E2; simpl in Hr; [done|].
    apply not_found_is_nil_Err in E2 as (e' & ? & ?). by eapply fail_service_account.
  - apply not_found_is_nil_Err in E1 as (e' & ? & ?). by eapply fail_namespace.
Qed.

Lemma listShims_Err o req pod e :
  listShims (request_namespace req pod) = Err e → api_failure o req pod.
Proof.
  unfold listShims. intros Hl.
  destruct (List_OIDCShims _) as [l|e1] eqn:E1; simpl in Hl; [|by eapply fail_shims].
  destruct List_ClusterOIDCShims as [l'|e2] eqn:E2; simpl in Hl; [done|by eapply fail_cluster_shims].
Qed.

(** C7. A pod is refused only when the request cannot be decoded (400) or the API server or
    the encoder fails (500), and never because of what a shim contains: an object that is
    merely missing, a broken shim and a collision all admit the pod. *)
Theorem handle_errored_cause o req code err :
  Handle o req = Errored code err →
  Req_Operation req = OperationCreate
  ∧ ((Decode req = Err err ∧ code = StatusBadRequest)
     ∨ ∃ pod, Decode req = Ok pod ∧ code = StatusInternalServerError ∧ api_failure o req pod).
Proof.
  unfold Handle. destruct (String.eqb_spec (Req_Operation req) OperationCreate); [|done].
  cbn [negb]. intros Hh. split; [done|].
  destruct (Decode req) as [pod|e0]; [right|left; by simplify_eq].
  exists pod. split; [done|].
  destruct (OptedOut _); [done|]. destruct (already_injected pod); [done|].
  destruct (Excluded _ _); [done|].
  destruct (readTarget _ _) as [[ns sa]|e1] eqn:E1.
  2: { simplify_eq. split; [done|]. by eapply readTarget_Err. }
  destruct (listShims _) as [shims|e2] eqn:E2.
  2: { simplify_eq. split; [done|]. by eapply listShims_Err. }
  destruct (buildPlans _ _ _ _) as [plans ws].
  destruct (apply_pod pod plans) as [[pod' applied] ws'] eqn:E.
  destruct applied; [done|]. destruct (Marshal pod') eqn:E3; [done|].
  simplify_eq. split; [done|]. apply (fail_marshal _ _ _ plans err). by rewrite E.
Qed.

(** ** What a patch means *)

(** The request got as far as matching shims against the pod. *)
Record considered (o : Options) (req : Request) (pod : Pod) : Prop := {
  co_create : Req_Operation req = OperationCreate;
  co_decoded : Decode req = Ok pod;
  co_in : OptedOut (Some pod) = false;
  co_fresh : already_injected pod = false;
  co_namespace : Excluded (handler_exclusions o) (request_namespace req pod) = false }.

Lemma Handle_patch o req original current warnings :
  Handle o req = PatchResponseFromRaw original current warnings →
  ∃ pod ns sa shims, considered o req pod
    ∧ readTarget (request_namespace req pod) pod = Ok (ns, sa)
    ∧ listShims (request_namespace req pod) = Ok shims
    ∧ let t := {| T_Pod := Some pod; T_ServiceAccount := sa; T_Namespace := ns |} in
      let res := apply_pod pod (buildPlans o shims (request_namespace req pod) t).1 in
      res.1.2 ≠ [] ∧ Marshal res.1.1 = Ok current ∧ original = Req_ObjectRaw req.
Proof.
  unfold Handle. destruct (String.eqb_spec (Req_Operation req) OperationCreate); [|done].
  cbn [negb]. intros Hh. destruct (Decode req) as [pod|e0] eqn:E0; [|done].
  destruct (OptedOut _) eqn:E1; [done|]. destruct (already_injected pod) eqn:E2; [done|].
  destruct (Excluded _ _) eqn:E3; [done|].
  destruct (readTarget _ _) as [[ns sa]|e1] eqn:E4; [|done].
  destruct (listShims _) as [shims|e2] eqn:E5; [|done].
  exists pod, ns, sa, shims. do 3 (split; [by try split|]).
  destruct (buildPlans _ _ _ _) as [plans ws]. simpl.
  destruct (apply_pod pod plans) as [[pod' applied] ws']. simpl.
  destruct applied; [done|]. destruct (Marshal pod') eqn:E6; by simplify_eq.
Qed.

(** C5. Every patch is justified: the request created a pod that had not opted out, was not
    injected before and whose namespace is not excluded; the patch replaces it by the result
    of applying a non-empty list of plans, and each plan applied comes from a shim listed for
    that namespace which selects the pod, with parameters that resolved against the pod, its
    service account and its namespace. *)
Theorem handle_patch_justified o req original current warnings :
  Handle o req = PatchResponseFromRaw original current warnings →
  ∃ pod pod' applied, considered o req pod ∧ original = Req_ObjectRaw req
    ∧ Marshal pod' = Ok current ∧ applied ≠ [] ∧ (apply_pod pod applied).1 = (pod', applied)
    ∧ ∃ ns sa shims, readTarget (request_namespace req pod) pod = Ok (ns, sa)
      ∧ listShims (request_namespace req pod) = Ok shims
      ∧ ∀ plan, plan ∈ applied → ∃ shim, shim ∈ shims
          ∧ plan_justified o (request_namespace req pod)
              {| T_Pod := Some pod; T_ServiceAccount := sa; T_Namespace := ns |} shim plan.
Proof.
  intros (pod & ns & sa & shims & Hco & Hr & Hl & Hne & Hm & Ho)%Handle_patch.
  set (t := Build_Target _ _ _) in *. set (plans := (buildPlans _ _ _ _).1) in *.
  destruct (apply_replay pod plans) as [Hsub Hrep].
  exists pod, (apply_pod pod plans).1.1, (apply_pod pod plans).1.2.
  split_and!; try done.
  { rewrite Hrep. by destruct (apply_pod pod plans) as [[? ?] ?]. }
  exists ns, sa, shims. split_and!; try done. intros plan Hin.
  assert (Hp : plan ∈ plans) by (by eapply elem_of_submseteq, sublist_submseteq).
  subst plans. rewrite buildPlans_eq in Hp. simpl in Hp.
  apply list_elem_of_omap in Hp as (shim & Hs & Hp). exists shim. split; [done|].
  by apply planned_justified.
Qed.

(** C25. Reinvocation is a no-op: the pod a patch produces, sent back for admission by any
    request to any replica, is admitted unchanged. *)
Theorem handle_reinvocation o req original current warnings :
  Handle o req = PatchResponseFromRaw original current warnings →
  ∃ pod', Marshal pod' = Ok current
    ∧ ∀ o' req', Req_Operation req' = OperationCreate → Decode req' = Ok pod' →
        Handle o' req' = Allowed "already injected" [].
Proof.
  intros (pod & ns & sa & shims & Hco & Hr & Hl & Hne & Hm & Ho)%Handle_patch.
  set (plans := (buildPlans _ _ _ _).1) in *.
  exists (apply_pod pod plans).1.1. split; [done|]. intros o' req' Hc Hd. unfold Handle.
  rewrite Hc, Hd. cbn [negb String.eqb]. rewrite String.eqb_refl. cbn [negb].
  assert (Hopt : OptedOut (Some (apply_pod pod plans).1.1) = false).
  { rewrite <- (co_in _ _ _ Hco). unfold OptedOut.
    rewrite (pf_annotations _ _ _ _ (apply_pod_frame pod plans)); [done|].
    rewrite elem_of_app. intros [Hk|Hk].
    - apply plans_annotations_spec in Hk as (p & _ & Hk).
      by apply elem_of_cons in Hk as [Hk|(i & Hk & _)%list_elem_of_fmap].
    - unfold operator_annotations in Hk. set_solver. }
  by rewrite Hopt, apply_pod_injected.
Qed.

(** The warnings of a response, and a response that installs a plan on the pod. *)
Definition response_warnings (r : Response) : list string :=
  match r with
  | Allowed _ ws | PatchResponseFromRaw _ _ ws => ws
  | Errored _ _ => []
  end.
Definition injects (req : Request) (pod : Pod) (plan : Plan) (r : Response) : Prop :=
  ∃ pod' current ws, r = PatchResponseFromRaw (Req_ObjectRaw req) current ws
    ∧ Marshal pod' = Ok current ∧ installed plan (targets_of pod plan) pod'.

Lemma Handle_considered o req pod ns sa shims :
  considered o req pod →
  readTarget (request_namespace req pod) pod = Ok (ns, sa) →
  listShims (request_namespace req pod) = Ok shims →
  (∀ pod', is_Ok (Marshal pod')) →
  let t := {| T_Pod := Some pod; T_ServiceAccount := sa; T_Namespace := ns |} in
  (∀ code err, Handle o req ≠ Errored code err)
  ∧ (∀ shim plan, shim ∈ shims → plan_justified o (request_namespace req pod) t shim plan →
       injects req pod plan (Handle o req)
       ∨ ∃ w, w ∈ response_warnings (Handle o req) ∧ skip_warning plan w)
  ∧ (∀ shim e, shim ∈ shims → plan_for o (request_namespace req pod) t shim = Err e →
       shim_skipped shim e ∈ response_warnings (Handle o req)).
Proof.
  intros [Hc Hd Hi Hf Hn] Hr Hl Hm t. unfold Handle. rewrite Hc, String.eqb_refl. cbn [negb].
  rewrite Hd, Hi, Hf, Hn, Hr, Hl. fold t.
  rewrite buildPlans_eq. set (plans := omap _ _). set (ws := omap _ _).
  pose proof (apply_accounts pod plans) as Hacc. pose proof (apply_installed pod plans) as Hins.
  destruct (apply_pod pod plans) as [[pod' applied] ws']. simpl in Hins.
  destruct (Hm pod') as [current Hcur]. rewrite Hcur. split_and!.
  - by destruct applied.
  - intros shim plan Hs Hj.
    assert (Hp : plan ∈ plans).
    { apply list_elem_of_omap. exists shim. split; [done|]. by apply planned_justified. }
    destruct (Hacc plan Hf Hp) as [Hap|(w & Hw & Hsk)].
    + left. exists pod', current, (ws ++ ws'). split_and!; [|done|by apply Hins].
      by destruct applied; [apply elem_of_nil in Hap|].
    + right. exists w. split; [|done]. destruct applied; apply elem_of_app; by right.
  - intros shim e Hs He.
    assert (Hw : shim_skipped shim e ∈ ws).
    { apply list_elem_of_omap. exists shim. split; [done|]. unfold plan_warning. by rewrite He. }
    destruct applied; apply elem_of_app; by left.
Qed.

(** C6. No selecting shim is lost: when the cluster can be read and the pod encoded, the pod
    is admitted; for every listed shim that has a plan for it either the response is a patch
    to a pod on which the plan is installed, or a warning of the response says why the plan
    was skipped; and a shim whose plan cannot be built is named in a warning with the error. *)
Theorem handle_complete o req pod ns sa shims :
  considered o req pod →
  readTarget (request_namespace req pod) pod = Ok (ns, sa) →
  listShims (request_namespace req pod) = Ok shims →
  (∀ pod', is_Ok (Marshal pod')) →
  let t := {| T_Pod := Some pod; T_ServiceAccount := sa; T_Namespace := ns |} in
  (∀ code err, Handle o req ≠ Errored code err)
  ∧ (∀ shim plan, shim ∈ shims → plan_justified o (request_namespace req pod) t shim plan →
       injects req pod plan (Handle o req)
       ∨ ∃ w, w ∈ response_warnings (Handle o req) ∧ skip_warning plan w)
  ∧ (∀ shim e, shim ∈ shims → plan_for o (request_namespace req pod) t shim = Err e →
       shim_skipped shim e ∈ response_warnings (Handle o req)).
Proof. apply Handle_considered. Qed.

(** What the webhook leaves alone, without reading the cluster: other operations, pods
    that opted out, pods already injected, and pods of excluded namespaces, among them the
    operator's own namespace and ZTWIM's. *)
Theorem handle_untouched o req :
  (Req_Operation req ≠ OperationCreate → Handle o req = Allowed "only CREATE is mutated" [])
  ∧ (∀ pod, Req_Operation req = OperationCreate → Decode req = Ok pod →
       (OptedOut (Some pod) = true ∨ already_injected pod = true
        ∨ (request_namespace req pod ≠ ""
           ∧ (request_namespace req pod ∈ ExcludedNamespaces o
              ∨ request_namespace req pod = OperatorNamespace o
              ∨ request_namespace req pod = ZTWIMNamespace o))
        ∨ (∃ p, p ∈ ExcludedNamespacePrefixes o ∧ HasPrefix (request_namespace req pod) p = true)) →
       ∃ message, Handle o req = Allowed message []).
Proof.
  split.
  - intros Hop. unfold Handle. by rewrite (proj2 (String.eqb_neq _ _) Hop).
  - intros pod Hop Hd Hcase. unfold Handle. rewrite Hop, String.eqb_refl. cbn [negb]. rewrite Hd.
    destruct (OptedOut (Some pod)) eqn:Eo; [eauto|]. destruct (already_injected pod); [eauto|].
    destruct (Excluded _ _) eqn:Ee; [eauto|]. exfalso. revert Ee. apply not_false_iff_true.
    unfold Excluded. destruct Hcase as [?|[?|[Hx|Hx]]]; try done.
    + rewrite (proj2 (existsb_str_eqb _ _)); [done|]. simpl. unfold ExcludedNamespaceNames.
      rewrite sort_Strings_perm, elem_of_elements. unfold excluded_set.
      rewrite elem_of_list_to_set, list_elem_of_filter. split; [by destruct Hx|].
      rewrite elem_of_app, !elem_of_cons. naive_solver.
    + apply existsb_elem_of in Hx. destruct (existsb (String.eqb _) _); [done|exact Hx].
Qed.

(** The log tells what the response does: a logged request is answered with the warnings of the
    line, by a patch exactly when the line names a shim, unless the pod could not be encoded; a
    request that is not logged is not patched. *)
Lemma handle_log_agrees o req :
  match Handle_log true o req with
  | Some line =>
      (Log_appliedShims line = [] ∧ Handle o req = Allowed "no shim applied" (Log_warnings line))
      ∨ (Log_appliedShims line ≠ []
         ∧ ((∃ marshaled, Handle o req
               = PatchResponseFromRaw (Req_ObjectRaw req) marshaled (Log_warnings line))
            ∨ ∃ err, Handle o req = Errored StatusInternalServerError err))
  | None => ∀ raw marshaled warnings, Handle o req ≠ PatchResponseFromRaw raw marshaled warnings
  end.
Proof.
  unfold Handle_log, Handle. destruct (negb _); [done|]. destruct (Decode req) as [pod|]; [|done].
  cbv zeta. destruct (OptedOut _); [done|]. destruct (already_injected _); [done|].
  destruct (Excluded _ _); [done|]. destruct (readTarget _ _) as [[ns sa]|]; [|done].
  destruct (listShims _); [|done]. destruct (buildPlans _ _ _ _) as [plans warnings].
  destruct (apply_pod pod plans) as [[pod' [|plan applied]] applyWarnings]; simpl; [by left|].
  right. split; [done|]. destruct (Marshal pod'); eauto.
Qed.

End handler.

(** ** A concrete cluster *)

(** Selectors that only list labels, for the samples. *)
Definition match_labels_only : LabelSelectors :=
  {| Selector := gmap string string;
     LabelSelectorAsSelector := λ ls,
       match MatchExpressions ls with
       | [] => Ok (MatchLabels ls)
       | _ => Err (errorString "not a list of labels")
       end;
     Selector_Matches := λ s ls, bool_decide (map_Forall (λ k v, ls !! k = Some v) s) |}.

(** The namespace enrolls its pods in the shim "gcp"; the service account does not exist. *)
Definition sample_cluster : ClusterAPI :=
  {| IsNotFound := λ e, String.eqb (Error e) "not found";
     Get_Namespace := λ _, Ok {| Obj_Annotations := {[EnrollmentKey := "gcp"]}; Obj_Labels := ∅ |};
     Get_ServiceAccount := λ _ _, Err (errorString "not found");
     List_OIDCShims := λ _, Ok [match sample_shim with
       | ShimNamespaced s => s
       | ShimCluster s => {| OIDCShim_Meta := ClusterOIDCShim_Meta s;
                             OIDCShim_Spec := sample_spec; OIDCShim_Status := sample_status |}
       end];
     List_ClusterOIDCShims := Ok [];
     Get_ConfigMap := λ _ _, Err (errorString "not found") |}.
Definition broken_cluster : ClusterAPI :=
  {| IsNotFound := λ _, false;
     Get_Namespace := λ _, Err (errorString "timeout");
     Get_ServiceAccount := λ _ _, Err (errorString "timeout");
     List_OIDCShims := λ _, Err (errorString "timeout");
     List_ClusterOIDCShims := Err (errorString "timeout");
     Get_ConfigMap := λ _ _, Err (errorString "timeout") |}.
Definition sample_codec : PodCodec :=
  {| Decode := λ _, Ok (sample_pod ∅); Marshal := λ _, Ok "{}" |}.
Definition sample_request : Request :=
  {| Req_Operation := OperationCreate; Req_Namespace := "my-app"; Req_ObjectRaw := "{raw}" |}.

Abbreviation sample_Handle :=
  (@Handle ascii_tables core_templates match_labels_only sample_cluster sample_codec
     Options_Defaults sample_request).

Example sample_handled : sample_Handle = PatchResponseFromRaw "{raw}" "{}" [].
Proof. vm_compute. reflexivity. Qed.

Definition sample_target : Target :=
  {| T_Pod := Some (sample_pod ∅); T_ServiceAccount := None;
     T_Namespace := Some {| Obj_Annotations := {[EnrollmentKey := "gcp"]}; Obj_Labels := ∅ |} |}.
Definition other_shim : Shim :=
  ShimCluster {| ClusterOIDCShim_Meta := {| Meta_Name := "aws"; Meta_Namespace := "";
                                            Meta_Generation := 1 |};
                 ClusterOIDCShim_Spec := {| Cluster_OIDCShimSpec := sample_spec;
                                            ConfigMapNamespace := "" |};
                 ClusterOIDCShim_Status := sample_status |}.

Lemma build_plans_isolation_witness :
  (@buildPlans ascii_tables core_templates match_labels_only sample_cluster Options_Defaults
     [other_shim; sample_shim] "my-app" sample_target).1
  = (@buildPlans ascii_tables core_templates match_labels_only sample_cluster Options_Defaults
       [sample_shim] "my-app" sample_target).1.
Proof.
  apply (@build_plans_isolation ascii_tables core_templates match_labels_only sample_cluster
           Options_Defaults [] other_shim [sample_shim] "my-app" sample_target).
  vm_compute. reflexivity.
Defined.

Lemma list_shims_order_witness :
  ∃ ns cs, @listShims ascii_tables sample_cluster "my-app"
           = Ok ((ShimNamespaced <$> ns) ++ (ShimCluster <$> cs)).
Proof.
  edestruct (@list_shims_order ascii_tables sample_cluster "my-app") as (ns & cs & E & _).
  - reflexivity.
  - reflexivity.
  - apply (bool_decide_unpack _). vm_compute. exact I.
  - apply (bool_decide_unpack _). vm_compute. exact I.
  - exists ns, cs. exact E.
Defined.

Lemma handle_errored_cause_witness :
  ∃ code err,
    @Handle ascii_tables core_templates match_labels_only broken_cluster sample_codec
      Options_Defaults sample_request = Errored code err
    ∧ Req_Operation sample_request = OperationCreate.
Proof.
  eexists _, _. split; [vm_compute; reflexivity|].
  refine (proj1 (@handle_errored_cause ascii_tables core_templates match_labels_only broken_cluster
    sample_codec Options_Defaults sample_request _ _ _)). vm_compute. reflexivity.
Defined.

Lemma handle_patch_justified_witness :
  ∃ pod, @considered sample_codec Options_Defaults sample_request pod.
Proof.
  destruct (@handle_patch_justified ascii_tables core_templates match_labels_only sample_cluster
    sample_codec Options_Defaults sample_request "{raw}" "{}" []) as (pod & _ & _ & Hco & _).
  - vm_compute. reflexivity.
  - exists pod. exact Hco.
Defined.

Lemma handle_reinvocation_witness :
  ∃ pod', @Marshal sample_codec pod' = Ok "{}".
Proof.
  destruct (@handle_reinvocation ascii_tables core_templates match_labels_only sample_cluster
    sample_codec Options_Defaults sample_request "{raw}" "{}" []) as (pod' & Hm & _).
  - vm_compute. reflexivity.
  - exists pod'. exact Hm.
Defined.

Lemma handle_complete_witness :
  ∃ plan, @injects ascii_tables sample_codec sample_request (sample_pod ∅) plan sample_Handle
    ∨ ∃ w, w ∈ response_warnings sample_Handle ∧ @skip_warning ascii_tables plan w.
Proof.
  eexists.
  eapply (proj1 (proj2 (@handle_complete ascii_tables core_templates match_labels_only sample_cluster
    sample_codec Options_Defaults sample_request (sample_pod ∅) (T_Namespace sample_target) None
    [sample_shim] ltac:(split; vm_compute; reflexivity) ltac:(vm_compute; reflexivity)
    ltac:(vm_compute; reflexivity) (λ pod', ex_intro _ "{}" eq_refl)))).
  - left.
  - apply planned_justified. vm_compute. reflexivity.
Defined.

(** ** The warm-up *)

(** The replica reports ready only after every informer exists: a fresh warmer is not
    ready; [Start] makes it ready exactly when no informer fails, and otherwise leaves it as
    it was and returns the first failure. *)
Theorem warmer_ready_iff_informers {object} (GetInformer : object → option error) type_name objects :
  let w := NewWarmer objects in
  let '(w', err) := Start GetInformer type_name w in
  Check_ready w ≠ None
  ∧ (Check_ready w' = None ↔ ∀ obj, obj ∈ objects → GetInformer obj = None)
  ∧ (err = None ↔ Check_ready w' = None)
  ∧ Warmer_objects w' = objects.
Proof.
  assert (Hs : start_informers GetInformer type_name objects = None
               ↔ ∀ obj, obj ∈ objects → GetInformer obj = None).
  { induction objects as [|x l IH]; simpl; [split; [by intros _ ? ?%elem_of_nil|done]|].
    destruct (GetInformer x) eqn:E.
    - split; [done|]. intros Hall. specialize (Hall x). rewrite E in Hall. set_solver.
    - rewrite IH. split.
      + by intros Hall obj [->|]%elem_of_cons; auto.
      + intros Hall obj Hobj. apply Hall. by right. }
  simpl. unfold Start. simpl. destruct (start_informers _ _ _) eqn:E; simpl.
  - split_and!; [done| |done|done]. split; [done|]. intros ?%Hs. done.
  - split_and!; [done| |done|done]. split; [|done]. intros _. by apply Hs.
Qed.
