(* ===== verification/WebhookHeap.v ===== *)
(** * The admission webhook on memory (src/internal/webhook/pod/handler.go)

    [Webhook.Handle] treats the decoded pod as a value.  The code declares a pod, passes
    pointers to it to the decoder, to [Apply] and to the encoder, and logs it.  [Handle_mem] runs
    these steps on memory, with the log line as a second result; the decoder's promise to the
    handler is the class [PodCodecMem]: it fills the pod with memory of its own. *)

From iris.proofmode Require Import proofmode.
From S2P Require Import Prelude GoStd GoStdFacts GoHeap HeapLogic Kube Api Config SpiffeHelper Template GoTemplate Params Selection Plan Mutate Injection MutateHeap Webhook.

#[export] Instance GoZero_Pod_mem : GoZero Pod_mem :=
  {| pm_Name := ""; pm_GenerateName := ""; pm_Namespace := ""; pm_Annotations := nil_ptr;
     pm_Labels := nil_ptr; pm_ServiceAccountName := ""; pm_Volumes := nil_slice;
     pm_InitContainers := nil_slice; pm_Containers := nil_slice; pm_Other := [] |}.

(** [Decoder.Decode(req, &pod)] for a zero pod: the pod's slices and maps are memory that
    nothing else refers to. *)
Class PodCodecMem `{PodCodec} := {
  Decode_mem : Request → loc → go pod_cell (option error);
  Decode_mem_ok : ∀ req l,
    l ↦ (zero : Pod_mem) ⊢ wp (Decode_mem req l) (λ r,
      match r with
      | None => ∃ pod, ⌜Decode req = Ok pod⌝ ∗ pod_at l pod
      | Some err => ⌜Decode req = Err err⌝
      end)%I }.

Section handler.
Context `{UnicodeTables} `{TextTemplate} `{LabelSelectors} `{ClusterAPI} `{PodCodecMem}.
Context (growcap : nat → nat).

(** [Handle] from the built plans on: the response and what is logged.  The plans' pointers refer
    to the deep copies that [BuildPlan] made. *)
Definition handle_plans_mem (verbose : bool) (req : Request) (namespace : string) (l : loc)
    (plans : list Plan) (warnings : list string) : go pod_cell (Response * option LogLine) :=
  ps ← put_plans plans;
  '(applied, applyWarnings) ← Apply_mem growcap (Ptr l) ps;
  let warnings := warnings ++ applyWarnings in
  pod ← read_pod l;
  let line := handler_log verbose pod namespace (pl_Plan <$> applied) warnings in
  match applied with
  | [] => mret (Allowed "no shim applied" warnings, line)
  | _ =>
      pod ← read_pod l;
      match Marshal pod with
      | Err err => mret (Errored StatusInternalServerError err, line)
      | Ok marshaled => mret (PatchResponseFromRaw (Req_ObjectRaw req) marshaled warnings, line)
      end
  end.

Definition Handle_mem (verbose : bool) (o : Options) (req : Request)
    : go pod_cell (Response * option LogLine) :=
  if negb (String.eqb (Req_Operation req) OperationCreate) then
    mret (Allowed "only CREATE is mutated" [], None)
  else
    l ← alloc (zero : Pod_mem);
    failed ← Decode_mem req l;
    match failed with
    | Some err => mret (Errored StatusBadRequest err, None)
    | None =>
        pod ← read_pod l;
        let namespace := request_namespace req pod in
        if OptedOut (Some pod) then mret (Allowed "opted out" [], None)
        else if already_injected pod then mret (Allowed "already injected" [], None)
        else if Excluded (handler_exclusions o) namespace then
          mret (Allowed "namespace excluded" [], None)
        else match readTarget namespace pod with
        | Err err => mret (Errored StatusInternalServerError err, None)
        | Ok (ns, sa) =>
            match listShims namespace with
            | Err err => mret (Errored StatusInternalServerError err, None)
            | Ok shims =>
                let t := {| T_Pod := Some pod; T_ServiceAccount := sa; T_Namespace := ns |} in
                let '(plans, warnings) := buildPlans o shims namespace t in
                handle_plans_mem verbose req namespace l plans warnings
            end
        end
    end.

(** ** Refinement *)

Lemma wp_handle_plans verbose req namespace l pod plans warnings Φ :
  pod_at l pod -∗
  Φ (let '(pod', applied, applyWarnings) := apply_pod pod plans in
     (match applied with
      | [] => Allowed "no shim applied" (warnings ++ applyWarnings)
      | _ => match Marshal pod' with
             | Err err => Errored StatusInternalServerError err
             | Ok marshaled =>
                 PatchResponseFromRaw (Req_ObjectRaw req) marshaled (warnings ++ applyWarnings)
             end
      end,
      handler_log verbose pod' namespace applied (warnings ++ applyWarnings))) -∗
  wp (handle_plans_mem verbose req namespace l plans warnings) Φ.
Proof.
  iIntros "Hpod HΦ". iApply wp_bind. iApply wp_put_plans. iIntros (ps) "Hps".
  iApply wp_bind. iApply (wp_Apply with "Hpod Hps"). iIntros (applied Ha) "Hpod _".
  destruct (apply_pod pod plans) as [[pod' applied'] ws]. simpl in *. subst applied'.
  iApply wp_bind. iApply (wp_read_pod with "Hpod"). iIntros "Hpod".
  destruct applied as [|plan applied]; [by iApply wp_ret|].
  iApply wp_bind. iApply (wp_read_pod with "Hpod"). iIntros "Hpod".
  destruct (Marshal pod'); by iApply wp_ret.
Qed.

Lemma wp_Handle verbose o req Φ :
  Φ (Handle o req, Handle_log verbose o req) ⊢ wp (Handle_mem verbose o req) Φ.
Proof.
  iIntros "HΦ". rw /Handle_mem /Handle /Handle_log. destruct (negb _); [by iApply wp_ret|].
  iApply wp_bind. iApply wp_alloc. iIntros (l) "Hl". iApply wp_bind.
  iApply (wp_wand with "[Hl]"); [by iApply Decode_mem_ok|]. iIntros ([err|]) "Hr".
  { iDestruct "Hr" as %->. by iApply wp_ret. }
  iDestruct "Hr" as (pod ->) "Hpod". iApply wp_bind. iApply (wp_read_pod with "Hpod").
  iIntros "Hpod". destruct (OptedOut _); [by iApply wp_ret|].
  destruct (already_injected _); [by iApply wp_ret|].
  destruct (Excluded _ _); [by iApply wp_ret|].
  destruct (readTarget _ _) as [[ns sa]|err]; [|by iApply wp_ret].
  destruct (listShims _) as [shims|err]; [|by iApply wp_ret].
  destruct (buildPlans _ _ _ _) as [plans warnings].
  iApply (wp_handle_plans with "Hpod"). by destruct (apply_pod pod plans) as [[pod' applied] ws].
Qed.

(** C10. The webhook on memory implements the webhook on values: for every request the call
    returns (nothing on the way panics), with the response and the log line of the value
    model; it works in memory of its own and leaves every cell that existed before as it was. *)
Theorem handle_mem_refines verbose o req h :
  ∃ hn, Handle_mem verbose o req h
        = Some ((Handle o req, Handle_log verbose o req), hn ∪ h) ∧ hn ##ₘ h.
Proof.
  destruct (wp_run (Handle_mem verbose o req) emp%I
    (λ r, ⌜r = (Handle o req, Handle_log verbose o req)⌝)%I ∅ h)
    as (r & hn & Hrun & Hd & Hr); [|done|apply map_disjoint_empty_l|].
  { iIntros "_". by iApply wp_Handle. }
  rw left_id_L in Hrun. exists hn. by rw Hrun Hr.
Qed.
End handler.

(** ** A concrete decoder *)

Definition sample_codec_mem : @PodCodecMem sample_codec.
Proof.
  refine {| Decode_mem _ l := m ← put_pod 1 (sample_pod ∅); _ ← store l m; mret None |}.
  iIntros (req l) "Hl". iApply wp_bind. iApply wp_put_pod. iIntros (m) "Hm".
  iApply wp_bind. iApply (wp_store with "Hl"). iIntros "Hl". iApply wp_ret.
  iExists (sample_pod ∅). iSplit; [done|]. by iApply "Hm".
Defined.

Lemma handle_mem_refines_witness :
  ∃ hn, @Handle_mem ascii_tables core_templates match_labels_only sample_cluster sample_codec
          sample_codec_mem (λ n, 2 * n)%nat true Options_Defaults sample_request ∅
        = Some ((sample_Handle,
                 @Handle_log ascii_tables core_templates match_labels_only sample_cluster
                   sample_codec true Options_Defaults sample_request), hn ∪ ∅).
Proof.
  destruct (@handle_mem_refines ascii_tables core_templates match_labels_only sample_cluster
    sample_codec sample_codec_mem (λ n, 2 * n)%nat true Options_Defaults sample_request ∅)
    as (hn & Hrun & _).
  exists hn. exact Hrun.
Defined.
