(* ===== verification/Startup.v ===== *)
(** * Process start-up (src/cmd/main.go, the SetupWithManager functions, scheme registration)

    [main] parses the command line, builds the TLS options of its two servers, and hands
    everything the process runs to the controller-runtime manager before it starts it.  The
    manager is library code: a call to it is an [event], its answer (an error or nil) is a
    parameter that may depend on all earlier calls, and [main] is a program that makes calls,
    works on memory (the TLS options are slices that share arrays) and may exit.  Logging has
    no effect on the rest and is left out. *)

From S2P Require Import Prelude GoStd GoStdFacts GoHeap Kube Api SpiffeHelper Template GoTemplate Params Selection Plan Config Mutate MutateFacts Injection Webhook.

(** ** The flags of main.go *)

Record MainFlags := {
  metricsAddr : string;
  probeAddr : string;
  enableLeaderElection : bool;
  secureMetrics : bool;
  webhookCertPath : string;
  webhookCertName : string;
  webhookCertKey : string;
  metricsCertPath : string;
  metricsCertName : string;
  metricsCertKey : string;
  enableHTTP2 : bool }.

Definition MainFlags_defaults : MainFlags :=
  {| metricsAddr := "0"; probeAddr := ":8081"; enableLeaderElection := false;
     secureMetrics := true; webhookCertPath := ""; webhookCertName := "tls.crt";
     webhookCertKey := "tls.key"; metricsCertPath := ""; metricsCertName := "tls.crt";
     metricsCertKey := "tls.key"; enableHTTP2 := false |}.

Definition set_metricsAddr v (f : MainFlags) : MainFlags :=
  Build_MainFlags v (probeAddr f) (enableLeaderElection f) (secureMetrics f) (webhookCertPath f)
    (webhookCertName f) (webhookCertKey f) (metricsCertPath f) (metricsCertName f)
    (metricsCertKey f) (enableHTTP2 f).
Definition set_probeAddr v (f : MainFlags) : MainFlags :=
  Build_MainFlags (metricsAddr f) v (enableLeaderElection f) (secureMetrics f) (webhookCertPath f)
    (webhookCertName f) (webhookCertKey f) (metricsCertPath f) (metricsCertName f)
    (metricsCertKey f) (enableHTTP2 f).
Definition set_enableLeaderElection v (f : MainFlags) : MainFlags :=
  Build_MainFlags (metricsAddr f) (probeAddr f) v (secureMetrics f) (webhookCertPath f)
    (webhookCertName f) (webhookCertKey f) (metricsCertPath f) (metricsCertName f)
    (metricsCertKey f) (enableHTTP2 f).
Definition set_secureMetrics v (f : MainFlags) : MainFlags :=
  Build_MainFlags (metricsAddr f) (probeAddr f) (enableLeaderElection f) v (webhookCertPath f)
    (webhookCertName f) (webhookCertKey f) (metricsCertPath f) (metricsCertName f)
    (metricsCertKey f) (enableHTTP2 f).
Definition set_webhookCertPath v (f : MainFlags) : MainFlags :=
  Build_MainFlags (metricsAddr f) (probeAddr f) (enableLeaderElection f) (secureMetrics f) v
    (webhookCertName f) (webhookCertKey f) (metricsCertPath f) (metricsCertName f)
    (metricsCertKey f) (enableHTTP2 f).
Definition set_webhookCertName v (f : MainFlags) : MainFlags :=
  Build_MainFlags (metricsAddr f) (probeAddr f) (enableLeaderElection f) (secureMetrics f)
    (webhookCertPath f) v (webhookCertKey f) (metricsCertPath f) (metricsCertName f)
    (metricsCertKey f) (enableHTTP2 f).
Definition set_webhookCertKey v (f : MainFlags) : MainFlags :=
  Build_MainFlags (metricsAddr f) (probeAddr f) (enableLeaderElection f) (secureMetrics f)
    (webhookCertPath f) (webhookCertName f) v (metricsCertPath f) (metricsCertName f)
    (metricsCertKey f) (enableHTTP2 f).
Definition set_metricsCertPath v (f : MainFlags) : MainFlags :=
  Build_MainFlags (metricsAddr f) (probeAddr f) (enableLeaderElection f) (secureMetrics f)
    (webhookCertPath f) (webhookCertName f) (webhookCertKey f) v (metricsCertName f)
    (metricsCertKey f) (enableHTTP2 f).
Definition set_metricsCertName v (f : MainFlags) : MainFlags :=
  Build_MainFlags (metricsAddr f) (probeAddr f) (enableLeaderElection f) (secureMetrics f)
    (webhookCertPath f) (webhookCertName f) (webhookCertKey f) (metricsCertPath f) v
    (metricsCertKey f) (enableHTTP2 f).
Definition set_metricsCertKey v (f : MainFlags) : MainFlags :=
  Build_MainFlags (metricsAddr f) (probeAddr f) (enableLeaderElection f) (secureMetrics f)
    (webhookCertPath f) (webhookCertName f) (webhookCertKey f) (metricsCertPath f)
    (metricsCertName f) v (enableHTTP2 f).
Definition set_enableHTTP2 v (f : MainFlags) : MainFlags :=
  Build_MainFlags (metricsAddr f) (probeAddr f) (enableLeaderElection f) (secureMetrics f)
    (webhookCertPath f) (webhookCertName f) (webhookCertKey f) (metricsCertPath f)
    (metricsCertName f) (metricsCertKey f) v.

(** [strconv.ParseBool] *)
Definition ParseBool (s : string) : option bool :=
  if existsb (String.eqb s) ["1"; "t"; "T"; "TRUE"; "true"; "True"] then Some true
  else if existsb (String.eqb s) ["0"; "f"; "F"; "FALSE"; "false"; "False"] then Some false
  else None.

(** What a flag does: [flag.StringVar] and [flag.BoolVar]. *)
Definition StringVar (set : string → MainFlags → MainFlags) (v : string) (f : MainFlags)
    : result error MainFlags := Ok (set v f).
Definition BoolVar (set : bool → MainFlags → MainFlags) (v : string) (f : MainFlags)
    : result error MainFlags :=
  match ParseBool v with
  | Some b => Ok (set b f)
  | None => Err (errorString "parse error")
  end.

(** The flags main.go defines, in order. *)
Definition main_flags : list (string * (string → MainFlags → result error MainFlags)) :=
  [ ("metrics-bind-address", StringVar set_metricsAddr);
    ("health-probe-bind-address", StringVar set_probeAddr);
    ("leader-elect", BoolVar set_enableLeaderElection);
    ("metrics-secure", BoolVar set_secureMetrics);
    ("webhook-cert-path", StringVar set_webhookCertPath);
    ("webhook-cert-name", StringVar set_webhookCertName);
    ("webhook-cert-key", StringVar set_webhookCertKey);
    ("metrics-cert-path", StringVar set_metricsCertPath);
    ("metrics-cert-name", StringVar set_metricsCertName);
    ("metrics-cert-key", StringVar set_metricsCertKey);
    ("enable-http2", BoolVar set_enableHTTP2) ].

Definition main_flag (name : string) : option (string → MainFlags → result error MainFlags) :=
  snd <$> head (filter (λ p, p.1 = name) main_flags).

(** ** The scheme *)

(** Group, version and kind. *)
Definition GVK : Type := string * string * string.

Definition GroupVersion : string * string := ("oidcshim.kemo.dev", "v1alpha1").

(** [SchemeBuilder.Register]: the types, by the name of the Go type, under [GroupVersion]. *)
Definition Register (kinds : list string) : list GVK := pair GroupVersion <$> kinds.
Definition registered_cluster : list GVK := Register ["ClusterOIDCShim"; "ClusterOIDCShimList"].
Definition registered_namespaced : list GVK := Register ["OIDCShim"; "OIDCShimList"].
Definition AddToScheme (scheme : list GVK) : list GVK :=
  scheme ++ registered_cluster ++ registered_namespaced.

(** [init] of main.go, given the types client-go adds. *)
Definition scheme_of (clientgo : list GVK) : list GVK := AddToScheme clientgo.

(** ** TLS options *)

Inductive CertWatcher := webhookCertWatcher | metricsCertWatcher.
#[export] Instance CertWatcher_eq_dec : EqDecision CertWatcher.
Proof. solve_decision. Defined.

(** The [tls.Config] fields the options set. *)
Record tlsConfig := { NextProtos : list string; GetCertificate : option CertWatcher }.

(** The functions in the slices; the zero value of the element type is the nil function. *)
Inductive tlsOpt := nil_func | disableHTTP2 | useCertificate (w : CertWatcher).
#[export] Instance GoZero_tlsOpt : GoZero tlsOpt := nil_func.
#[export] Instance tlsOpt_eq_dec : EqDecision tlsOpt.
Proof. solve_decision. Defined.

(** Calling one of them; calling the nil function panics. *)
Definition call_tlsOpt (opt : tlsOpt) (c : tlsConfig) : option tlsConfig :=
  match opt with
  | nil_func => None
  | disableHTTP2 => Some {| NextProtos := ["http/1.1"]; GetCertificate := GetCertificate c |}
  | useCertificate w => Some {| NextProtos := NextProtos c; GetCertificate := Some w |}
  end.

(** A server calls its options in order on its own configuration. *)
Fixpoint call_tlsOpts (opts : list tlsOpt) (c : tlsConfig) : option tlsConfig :=
  match opts with
  | [] => Some c
  | opt :: rest => c' ← call_tlsOpt opt c; call_tlsOpts rest c'
  end.

(** Memory holds arrays of options. *)
Definition tls_cell : Type := list tlsOpt.
#[export] Instance tls_array : Storable tls_cell (list tlsOpt) :=
  {| to_cell x := x; of_cell c := Some c; of_to_cell _ := eq_refl |}.

(** ** The calls to the manager *)

Record MetricsOptions := {
  Metrics_BindAddress : string;
  Metrics_SecureServing : bool;
  Metrics_TLSOpts : slice tlsOpt;
  Metrics_Authenticated : bool }.

Record ManagerOptions := {
  Mgr_Scheme : list GVK;
  Mgr_Metrics : MetricsOptions;
  Mgr_WebhookTLSOpts : slice tlsOpt;
  Mgr_HealthProbeBindAddress : string;
  Mgr_LeaderElection : bool;
  Mgr_LeaderElectionID : string }.

(** A controller: its kind, the filter on update events, and its name. *)
Record Controller := {
  Ctl_For : GVK;
  Ctl_GenerationChanged : bool;
  Ctl_Named : string }.

(** What the manager runs, and what answers a probe. *)
Inductive Runnable :=
| RunWarmer (w : Warmer GVK)
| RunCertWatcher (w : CertWatcher).
Inductive Checker := Ping | WarmerCheck | WebhookStarted.

Inductive event :=
| NewCertWatcher (w : CertWatcher) (certPath keyPath : string)
| GetConfigOrDie
| NewManager (o : ManagerOptions)
| Complete (c : Controller)
| RegisterWebhook (path : string) (o : Options)
| AddRunnable (r : Runnable)
| AddHealthzCheck (name : string) (c : Checker)
| AddReadyzCheck (name : string) (c : Checker)
| SetupSignalHandler
| StartManager.

(** The calls that return an error; the others return nothing. *)
Definition fallible (e : event) : bool :=
  match e with RegisterWebhook _ _ | SetupSignalHandler => false | _ => true end.

(** The answer to a call, given the calls before it; the kinds client-go registers; the zap
    flags (whether a value is accepted); the growth of arrays. *)
Class Runtime := {
  answer : list event → event → option error;
  clientgo_kinds : list GVK;
  zap_flag : string → option (string → bool);
  growcap : nat → nat }.

(** ** Programs that call the manager *)

Record world := { w_trace : list event; w_mem : heap tls_cell }.

(** [None] is a panic, [Err code] the exit of the process. *)
Definition proc (A : Type) : Type := world → option (result Z A * world).
#[export] Instance proc_ret : MRet proc := λ A a w, Some (Ok a, w).
#[export] Instance proc_bind : MBind proc := λ A B k c w,
  match c w with
  | Some (Ok a, w') => k a w'
  | Some (Err code, w') => Some (Err code, w')
  | None => None
  end.

Section startup.
Context `{Runtime} `{UnicodeTables}.

Definition exit {A} (code : Z) : proc A := λ w, Some (Err code, w).

(** A call, with the error it returns. *)
Definition call (e : event) : proc (option error) := λ w,
  Some (Ok (if fallible e then answer (w_trace w) e else None),
        {| w_trace := w_trace w ++ [e]; w_mem := w_mem w |}).

(** [if err := ...; err != nil { setupLog.Error(...); os.Exit(1) }] *)
Definition or_exit (err : option error) : proc () :=
  match err with Some _ => exit 1 | None => mret () end.
Definition must (e : event) : proc () := err ← call e; or_exit err.

(** Work on memory. *)
Definition mem {A} (c : go tls_cell A) : proc A := λ w,
  match c (w_mem w) with
  | Some (a, m) => Some (Ok a, {| w_trace := w_trace w; w_mem := m |})
  | None => None
  end.

(** *** Flags *)

(** Why [flag.Parse] ends the process. *)
Inductive flag_failure := HelpRequested | BadFlag (err : error).

(** [flag.Parse]: the assignments in order; the first that is unknown or malformed ends it. *)
Fixpoint parse_command_line (args : list (string * string)) (f : MainFlags) (o : Options)
    : result flag_failure (MainFlags * Options) :=
  match args with
  | [] => Ok (f, o)
  | (name, v) :: rest =>
      match main_flag name, flag_setter name, zap_flag name with
      | Some set, _, _ =>
          match set v f with
          | Ok f' => parse_command_line rest f' o
          | Err err => Err (BadFlag err)
          end
      | None, Some set, _ =>
          match set v o with
          | Ok o' => parse_command_line rest f o'
          | Err err => Err (BadFlag err)
          end
      | None, None, Some accepts =>
          if accepts v then parse_command_line rest f o
          else Err (BadFlag (errorString "parse error"))
      | None, None, None =>
          if existsb (String.eqb name) ["help"; "h"] then Err HelpRequested
          else Err (BadFlag (errorString ("flag provided but not defined: -" +:+ name)))
      end
  end.

(** *** TLS options and certificate watchers *)

(** [append] to a slice of options. *)
Definition append_opt (s : slice tlsOpt) (opt : tlsOpt) : proc (slice tlsOpt) :=
  mem (append growcap s opt).

(** A watcher for the certificate in [dir], if one is given, and the option that uses it. *)
Definition add_watcher (w : CertWatcher) (dir name key : string) (s : slice tlsOpt)
    : proc (slice tlsOpt) :=
  if (0 <? len dir)%Z then
    _ ← must (NewCertWatcher w (path_Join [dir; name]) (path_Join [dir; key]));
    append_opt s (useCertificate w)
  else mret s.

(** The options of the webhook server and of the metrics server. *)
Definition tls_setup (f : MainFlags) : proc (slice tlsOpt * slice tlsOpt) :=
  tlsOpts ← (if negb (enableHTTP2 f) then append_opt nil_slice disableHTTP2 else mret nil_slice);
  webhookTLSOpts ← add_watcher webhookCertWatcher (webhookCertPath f) (webhookCertName f)
                     (webhookCertKey f) tlsOpts;
  metricsTLSOpts ← add_watcher metricsCertWatcher (metricsCertPath f) (metricsCertName f)
                     (metricsCertKey f) tlsOpts;
  mret (webhookTLSOpts, metricsTLSOpts).

Definition manager_options (f : MainFlags) (webhookTLSOpts metricsTLSOpts : slice tlsOpt)
    : ManagerOptions :=
  {| Mgr_Scheme := scheme_of clientgo_kinds;
     Mgr_Metrics := {| Metrics_BindAddress := metricsAddr f;
                       Metrics_SecureServing := secureMetrics f;
                       Metrics_TLSOpts := metricsTLSOpts;
                       Metrics_Authenticated := secureMetrics f |};
     Mgr_WebhookTLSOpts := webhookTLSOpts;
     Mgr_HealthProbeBindAddress := probeAddr f;
     Mgr_LeaderElection := enableLeaderElection f;
     Mgr_LeaderElectionID := "4a338ae9.kemo.dev" |}.

(** *** SetupWithManager *)

Definition OIDCShim_controller : Controller :=
  {| Ctl_For := (GroupVersion, "OIDCShim"); Ctl_GenerationChanged := true; Ctl_Named := "oidcshim" |}.
Definition ClusterOIDCShim_controller : Controller :=
  {| Ctl_For := (GroupVersion, "ClusterOIDCShim"); Ctl_GenerationChanged := true;
     Ctl_Named := "clusteroidcshim" |}.
Definition OIDCShim_SetupWithManager : proc (option error) := call (Complete OIDCShim_controller).
Definition ClusterOIDCShim_SetupWithManager : proc (option error) :=
  call (Complete ClusterOIDCShim_controller).

Definition Path : string := "/mutate-v1-pod".

Definition core_kind (kind : string) : GVK := ("", "v1", kind).
Definition warmed_kinds : list GVK :=
  [core_kind "Namespace"; core_kind "ServiceAccount"; (GroupVersion, "OIDCShim");
   (GroupVersion, "ClusterOIDCShim")].

Definition SetupWithManager (o : Options) : proc (option error) :=
  _ ← call (RegisterWebhook Path o);
  err ← call (AddRunnable (RunWarmer (NewWarmer warmed_kinds)));
  match err with
  | Some err => mret (Some (wrapError "add informer warm-up: " err))
  | None =>
      err ← call (AddReadyzCheck "informers" WarmerCheck);
      match err with
      | Some err => mret (Some (wrapError "add informers ready check: " err))
      | None =>
          err ← call (AddReadyzCheck "webhook" WebhookStarted);
          match err with
          | Some err => mret (Some (wrapError "add webhook ready check: " err))
          | None => mret None
          end
      end
  end.

(** *** main *)

Definition add_if_created (created : bool) (w : CertWatcher) : proc () :=
  if created then must (AddRunnable (RunCertWatcher w)) else mret ().

(** Everything from [ctrl.NewManager] on. *)
Definition run_manager (f : MainFlags) (o : Options) (webhookTLSOpts metricsTLSOpts : slice tlsOpt)
    : proc () :=
  _ ← must GetConfigOrDie;
  _ ← must (NewManager (manager_options f webhookTLSOpts metricsTLSOpts));
  err ← OIDCShim_SetupWithManager; _ ← or_exit err;
  err ← ClusterOIDCShim_SetupWithManager; _ ← or_exit err;
  err ← SetupWithManager o; _ ← or_exit err;
  _ ← add_if_created (0 <? len (metricsCertPath f))%Z metricsCertWatcher;
  _ ← add_if_created (0 <? len (webhookCertPath f))%Z webhookCertWatcher;
  _ ← must (AddHealthzCheck "healthz" Ping);
  _ ← must (AddReadyzCheck "readyz" Ping);
  _ ← call SetupSignalHandler;
  must StartManager.

(** The process ends with status 2 for a bad command line (0 when it asks for help), 1 for bad
    options or a failing call, 0 otherwise. *)
Definition main (getenv : string → string) (args : list (string * string)) : proc () :=
  match parse_command_line args MainFlags_defaults (ApplyEnv getenv Options_Defaults) with
  | Err HelpRequested => exit 0
  | Err (BadFlag _) => exit 2
  | Ok (f, o) =>
      match Options_Validate o with
      | Some _ => exit 1
      | None => opts ← tls_setup f; run_manager f o opts.1 opts.2
      end
  end.

(** ** The command line *)

(** No flag is defined twice, which would panic before the first is parsed. *)
Lemma main_flag_not_option name set : main_flag name = Some set → flag_setter name = None.
Proof.
  unfold main_flag. intros ([n g] & Hhd & Heq)%fmap_Some.
  assert (Hin : (n, g) ∈ filter (λ p, p.1 = name) main_flags).
  { destruct (filter _ _) as [|x l]; simplify_eq/=. left. }
  apply list_elem_of_filter in Hin as [Hn Hin]. simpl in Hn. subst n. clear Hhd Heq.
  assert (Hall : Forall (λ p, flag_setter p.1 = None) main_flags) by (by repeat constructor).
  rewrite Forall_forall in Hall. exact (Hall _ Hin).
Qed.

(** The options main works with are those [load_options] gives. *)
Lemma parse_command_line_options args : ∀ f o f' o',
  parse_command_line args f o = Ok (f', o') → parse_flags args o = Ok o'.
Proof.
  induction args as [|[name v] args IH]; intros f o f' o' Hp; simpl in *; [congruence|].
  destruct (main_flag name) as [set|] eqn:Hm.
  - rewrite (main_flag_not_option _ _ Hm). destruct (set v f); [eauto|done].
  - destruct (flag_setter name) as [set|].
    + destruct (set v o); simpl; [eauto|done].
    + destruct (zap_flag name) as [accepts|]; [|by repeat case_match].
      destruct (accepts v); [eauto|done].
Qed.

(** ** The reference: one list of calls, made until one fails *)

Definition watcher_call (w : CertWatcher) (dir name key : string) : list event :=
  if (0 <? len dir)%Z then [NewCertWatcher w (path_Join [dir; name]) (path_Join [dir; key])]
  else [].
Definition watcher_runnable (w : CertWatcher) (dir : string) : list event :=
  if (0 <? len dir)%Z then [AddRunnable (RunCertWatcher w)] else [].

Definition manager_calls (f : MainFlags) (o : Options) (ws ms : slice tlsOpt) : list event :=
  [GetConfigOrDie; NewManager (manager_options f ws ms); Complete OIDCShim_controller;
   Complete ClusterOIDCShim_controller; RegisterWebhook Path o;
   AddRunnable (RunWarmer (NewWarmer warmed_kinds)); AddReadyzCheck "informers" WarmerCheck;
   AddReadyzCheck "webhook" WebhookStarted]
  ++ watcher_runnable metricsCertWatcher (metricsCertPath f)
  ++ watcher_runnable webhookCertWatcher (webhookCertPath f)
  ++ [AddHealthzCheck "healthz" Ping; AddReadyzCheck "readyz" Ping; SetupSignalHandler;
      StartManager].

Definition wiring (f : MainFlags) (o : Options) (ws ms : slice tlsOpt) : list event :=
  watcher_call webhookCertWatcher (webhookCertPath f) (webhookCertName f) (webhookCertKey f)
  ++ watcher_call metricsCertWatcher (metricsCertPath f) (metricsCertName f) (metricsCertKey f)
  ++ manager_calls f o ws ms.

Definition fails (tr : list event) (e : event) : bool :=
  fallible e && bool_decide (is_Some (answer tr e)).

(** Exit status and trace. *)
Fixpoint run_calls (cs : list event) (tr : list event) : Z * list event :=
  match cs with
  | [] => (0%Z, tr)
  | e :: rest => if fails tr e then (1%Z, tr ++ [e]) else run_calls rest (tr ++ [e])
  end.

Definition status {A} (r : result Z A) : Z := match r with Ok _ => 0 | Err code => code end.

(** The program [c] makes the calls [cs], one after the other, until one fails. *)
Definition performs {A} (c : proc A) (cs : list event) (w : world) : Prop :=
  ∃ r w', c w = Some (r, w') ∧ (status r, w_trace w') = run_calls cs (w_trace w)
    ∧ w_mem w' = w_mem w.

Lemma performs_call {A} e (k : option error → proc A) cs w :
  fallible e = true →
  (∀ err w', k (Some err) w' = Some (Err 1%Z, w')) →
  (∀ w', w_mem w' = w_mem w → performs (k None) cs w') →
  performs (call e ≫= k) (e :: cs) w.
Proof.
  intros He Herr Hk. unfold performs, mbind, proc_bind, call. simpl. unfold fails. rewrite He. simpl.
  destruct (answer (w_trace w) e) as [err|] eqn:Ha.
  - rewrite bool_decide_true by eauto. by eexists _, _.
  - rewrite bool_decide_false by (by intros []).
    destruct (Hk (Build_world (w_trace w ++ [e]) (w_mem w)) eq_refl) as (r & w' & ?). by exists r, w'.
Qed.

Lemma performs_silent {A} e (k : option error → proc A) cs w :
  fallible e = false → (∀ w', w_mem w' = w_mem w → performs (k None) cs w') →
  performs (call e ≫= k) (e :: cs) w.
Proof.
  intros He Hk. unfold performs, mbind, proc_bind, call. simpl. unfold fails. rewrite He.
  destruct (Hk (Build_world (w_trace w ++ [e]) (w_mem w)) eq_refl) as (r & w' & ?). by exists r, w'.
Qed.

Lemma performs_silent_in {A B} e (c : proc B) (k : B → proc A) cs w :
  fallible e = false → (∀ w', w_mem w' = w_mem w → performs (c ≫= k) cs w') →
  performs ((_ ← call e; c) ≫= k) (e :: cs) w.
Proof.
  intros He Hk. change (performs (call e ≫= λ _, c ≫= k) (e :: cs) w). by apply performs_silent.
Qed.

Lemma performs_must {A} e (k : () → proc A) cs w :
  fallible e = true → (∀ w', w_mem w' = w_mem w → performs (k ()) cs w') →
  performs (must e ≫= k) (e :: cs) w.
Proof.
  intros He Hk. change (performs (call e ≫= λ err, or_exit err ≫= k) (e :: cs) w).
  by apply performs_call.
Qed.

(** A call inside a function that wraps its error and returns it to a caller that exits. *)
Lemma performs_wrapped {A} e (g : error → error) (c : proc (option error)) (k : () → proc A) cs w :
  fallible e = true →
  (∀ w', w_mem w' = w_mem w → performs (c ≫= λ err, or_exit err ≫= k) cs w') →
  performs ((err ← call e; match err with Some err => mret (Some (g err)) | None => c end)
            ≫= λ err, or_exit err ≫= k) (e :: cs) w.
Proof.
  intros He Hk.
  change (performs (call e ≫= λ err,
            (match err with Some err => mret (Some (g err)) | None => c end)
            ≫= λ err, or_exit err ≫= k) (e :: cs) w).
  by apply performs_call.
Qed.

Lemma performs_add_watcher {A} (w0 : CertWatcher) dir (k : () → proc A) cs w :
  (∀ w', w_mem w' = w_mem w → performs (k ()) cs w') →
  performs (add_if_created (0 <? len dir)%Z w0 ≫= k) (watcher_runnable w0 dir ++ cs) w.
Proof.
  intros Hk. unfold add_if_created, watcher_runnable. destruct (0 <? len dir)%Z.
  - by apply performs_must.
  - by apply Hk.
Qed.

Lemma performs_last e w : fallible e = true → performs (must e) [e] w.
Proof.
  intros He. apply (performs_call e or_exit); [done|done|]. intros w' _.
  by exists (Ok ()), w'.
Qed.

Lemma run_manager_performs f o ws ms w : performs (run_manager f o ws ms) (manager_calls f o ws ms) w.
Proof.
  unfold run_manager, manager_calls.
  apply performs_must; [done|]. intros w1 M1. apply performs_must; [done|]. intros w2 M2.
  apply (performs_call _ (λ err, or_exit err ≫= _)); [done|done|]. intros w3 M3.
  apply (performs_call _ (λ err, or_exit err ≫= _)); [done|done|]. intros w4 M4.
  unfold SetupWithManager.
  apply performs_silent_in; [done|]. intros w5 M5.
  apply performs_wrapped; [done|]. intros w6 M6.
  apply performs_wrapped; [done|]. intros w7 M7.
  apply performs_wrapped; [done|]. intros w8 M8.
  apply (performs_add_watcher _ _ (λ _, _)). intros w9 M9.
  apply (performs_add_watcher _ _ (λ _, _)). intros w10 M10.
  apply performs_must; [done|]. intros w11 M11. apply performs_must; [done|]. intros w12 M12.
  apply performs_silent; [done|]. intros w13 M13. by apply performs_last.
Qed.

(** ** The TLS options *)

Lemma run_calls_app cs1 cs2 tr :
  run_calls (cs1 ++ cs2) tr =
  let '(code, tr') := run_calls cs1 tr in
  if (code =? 0)%Z then run_calls cs2 tr' else (code, tr').
Proof.
  revert tr. induction cs1 as [|e cs1 IH]; intros tr; simpl; [done|].
  by destruct (fails tr e).
Qed.

(** [c] makes the calls [cs]; if none fails its result and the memory satisfy [P]. *)
Definition calls_then {A} (c : proc A) (cs : list event) (w : world) (P : A → heap tls_cell → Prop)
    : Prop :=
  ∃ r w', c w = Some (r, w') ∧ (status r, w_trace w') = run_calls cs (w_trace w)
    ∧ match r with Ok a => P a (w_mem w') | Err code => code ≠ 0%Z end.

Lemma calls_then_ret {A} (a : A) w (P : A → heap tls_cell → Prop) :
  P a (w_mem w) → calls_then (mret a) [] w P.
Proof. intros HP. by exists (Ok a), w. Qed.

Lemma calls_then_bind {A B} (c : proc A) (k : A → proc B) cs1 cs2 w P Q :
  calls_then c cs1 w P →
  (∀ a w', P a (w_mem w') → calls_then (k a) cs2 w' Q) →
  calls_then (c ≫= k) (cs1 ++ cs2) w Q.
Proof.
  intros (r & w1 & Hc & Htr & HP) Hk. unfold calls_then. rewrite run_calls_app, <- Htr.
  unfold mbind, proc_bind. rewrite Hc. destruct r as [a|code]; simpl.
  - by apply Hk.
  - destruct (Z.eqb_spec code 0); [done|]. by exists (Err code), w1.
Qed.

Lemma calls_then_mem {A} (c : go tls_cell A) w a m (P : A → heap tls_cell → Prop) :
  c (w_mem w) = Some (a, m) → P a m → calls_then (mem c) [] w P.
Proof.
  intros Hc HP. exists (Ok a), {| w_trace := w_trace w; w_mem := m |}. unfold mem. by rewrite Hc.
Qed.

Lemma calls_then_must e w (P : heap tls_cell → Prop) :
  fallible e = true → P (w_mem w) → calls_then (must e) [e] w (λ _, P).
Proof.
  intros He HP. destruct (performs_last e w He) as (r & w' & Hrun & Htr & Hm).
  exists r, w'. split_and!; [done|done|]. destruct r as [[]|code]; [by rewrite Hm|].
  intros ->. simpl in Htr. unfold must, mbind, proc_bind, call, or_exit, exit in Hrun.
  destruct (if fallible e then _ else _); by simplify_eq.
Qed.

(** Appending to a slice without room leaves every slice as it was. *)
Lemma add_watcher_grow w0 dir name key s xs w (R : heap tls_cell → Prop) :
  slice_elems (w_mem w) s = Some xs → slice_full s →
  (∀ m m', m ⊆ m' → R m → R m') → R (w_mem w) →
  calls_then (add_watcher w0 dir name key s) (watcher_call w0 dir name key) w (λ s' m,
    slice_elems m s' = Some (xs ++ if (0 <? len dir)%Z then [useCertificate w0] else [])
    ∧ slice_elems m s = Some xs ∧ R m).
Proof.
  intros Hxs Hfull HR HRw. unfold add_watcher, watcher_call. destruct (0 <? len dir)%Z.
  - rewrite <- (app_nil_r [NewCertWatcher _ _ _]).
    eapply calls_then_bind; [apply (calls_then_must _ _ (λ m, slice_elems m s = Some xs ∧ R m)); done|].
    intros [] w1 [Hs1 HR1].
    destruct (append_grow growcap s (useCertificate w0) (w_mem w1) xs Hs1 Hfull) as (l & Hl & Ha).
    eapply calls_then_mem; [exact Ha|].
    assert (Hsub : w_mem w1 ⊆ <[l := to_cell (xs ++ [useCertificate w0]
        ++ replicate (growcap (S (length xs)) - S (length xs)) zero)]> (w_mem w1))
      by (by apply insert_subseteq).
    split_and!; [|by eapply slice_elems_weaken|by eapply HR].
    cbn [slice_elems]. rewrite lookup_cell_insert. cbn [mbind option_bind].
    rewrite bool_decide_true by (rewrite !length_app; simpl; lia).
    rewrite drop_0, (assoc_L (++)), take_app_le by (rewrite length_app; simpl; lia).
    rewrite take_ge; [done|rewrite length_app; simpl; lia].
  - apply calls_then_ret. by rewrite app_nil_r.
Qed.

(** Appending to a slice with room writes into the array it shares. *)
Lemma add_watcher_shared w0 dir name key l c x y rest w :
  lookup_cell (w_mem w) l = Some (x :: y :: rest) → (1 < c)%nat →
  calls_then (add_watcher w0 dir name key (Slice l 0 1 c)) (watcher_call w0 dir name key) w (λ s' m,
    s' = Slice l 0 (if (0 <? len dir)%Z then 2 else 1) c
    ∧ lookup_cell m l = Some (x :: (if (0 <? len dir)%Z then useCertificate w0 else y) :: rest)).
Proof.
  intros Hl Hc. unfold add_watcher, watcher_call. destruct (0 <? len dir)%Z.
  - rewrite <- (app_nil_r [NewCertWatcher _ _ _]).
    eapply calls_then_bind;
      [apply (calls_then_must _ _ (λ m, lookup_cell m l = Some (x :: y :: rest))); done|].
    intros [] w1 Hl1. eapply calls_then_mem; [apply append_in_place; [exact Hl1|done|simpl; lia]|].
    split; [done|apply lookup_cell_insert].
  - by apply calls_then_ret.
Qed.

(** The options both servers start from, and what each ends up with.  When the array of the
    shared options has room, the two appends write the same element. *)
Definition base_opts (f : MainFlags) : list tlsOpt :=
  if enableHTTP2 f then [] else [disableHTTP2].
Definition shared_room (f : MainFlags) : bool := negb (enableHTTP2 f) && (1 <? growcap 1)%nat.
Definition webhook_certificate (f : MainFlags) : CertWatcher :=
  if shared_room f && (0 <? len (metricsCertPath f))%Z then metricsCertWatcher
  else webhookCertWatcher.
Definition webhook_opts (f : MainFlags) : list tlsOpt :=
  base_opts f ++ if (0 <? len (webhookCertPath f))%Z then [useCertificate (webhook_certificate f)]
                 else [].
Definition metrics_opts (f : MainFlags) : list tlsOpt :=
  base_opts f ++ if (0 <? len (metricsCertPath f))%Z then [useCertificate metricsCertWatcher]
                 else [].

Definition watcher_calls (f : MainFlags) : list event :=
  watcher_call webhookCertWatcher (webhookCertPath f) (webhookCertName f) (webhookCertKey f)
  ++ watcher_call metricsCertWatcher (metricsCertPath f) (metricsCertName f) (metricsCertKey f).

Lemma base_slice_step f w : calls_then
  (if negb (enableHTTP2 f) then append_opt nil_slice disableHTTP2 else mret nil_slice) [] w
  (λ s m, if shared_room f
          then ∃ l rest, s = Slice l 0 1 (growcap 1)
                 ∧ lookup_cell m l = Some (disableHTTP2 :: nil_func :: rest)
          else slice_elems m s = Some (base_opts f) ∧ slice_full s).
Proof.
  unfold shared_room, base_opts. destruct (enableHTTP2 f); simpl; [by apply calls_then_ret|].
  destruct (append_grow growcap nil_slice disableHTTP2 (w_mem w) []) as (l & Hl & Ha); [done|done|].
  eapply calls_then_mem; [exact Ha|]. simpl length. destruct (Nat.ltb_spec 1 (growcap 1)) as [Hg|Hg].
  - exists l, (replicate (growcap 1 - 2) nil_func). split; [done|]. rewrite lookup_cell_insert.
    replace (growcap 1 - 1) with (S (growcap 1 - 2)) by lia. done.
  - split; [|done]. cbn [slice_elems]. rewrite lookup_cell_insert. done.
Qed.

Lemma tls_setup_spec f w : calls_then (tls_setup f) (watcher_calls f) w (λ p m,
  slice_elems m p.1 = Some (webhook_opts f) ∧ slice_elems m p.2 = Some (metrics_opts f)).
Proof.
  unfold tls_setup, watcher_calls. eapply (calls_then_bind _ _ [] (_ ++ _)); [apply base_slice_step|].
  intros s w1 Hs. unfold webhook_opts, metrics_opts, webhook_certificate.
  destruct (shared_room f) eqn:Hroom.
  - destruct Hs as (l & rest & -> & Hl). unfold shared_room in Hroom.
    apply andb_true_iff in Hroom as [Hh Hg]. apply Nat.ltb_lt in Hg. unfold base_opts.
    destruct (enableHTTP2 f); [done|]. simpl.
    eapply calls_then_bind; [by apply add_watcher_shared|]. intros s2 w2 [-> Hl2].
    rewrite <- (app_nil_r (watcher_call metricsCertWatcher _ _ _)).
    eapply calls_then_bind; [by eapply add_watcher_shared|]. intros s3 w3 [-> Hl3].
    apply calls_then_ret. cbn [fst snd slice_elems]. rewrite Hl3. cbn [mbind option_bind].
    destruct (0 <? len (webhookCertPath f))%Z, (0 <? len (metricsCertPath f))%Z; done.
  - destruct Hs as [Hs Hfull]. simpl.
    eapply calls_then_bind; [by apply (add_watcher_grow _ _ _ _ _ (base_opts f) _ (λ _, True))|].
    intros s2 w2 (Hs2 & Hbase & _).
    rewrite <- (app_nil_r (watcher_call metricsCertWatcher _ _ _)).
    eapply calls_then_bind.
    { apply (add_watcher_grow _ _ _ _ _ (base_opts f) _ (λ m, slice_elems m s2 = Some (base_opts f ++
        if (0 <? len (webhookCertPath f))%Z then [useCertificate webhookCertWatcher] else [])));
        [done|done| |done]. intros m m' Hsub Hm. by eapply slice_elems_weaken. }
    intros s3 w3 (Hs3 & _ & Hs2'). by apply calls_then_ret.
Qed.

(** ** main *)

Definition start_world : world := {| w_trace := []; w_mem := ∅ |}.

Lemma run_calls_spec cs : ∀ tr code tr', run_calls cs tr = (code, tr') →
  (code = 0%Z ∧ tr' = tr ++ cs ∧ ∀ p e q, cs = p ++ e :: q → fails (tr ++ p) e = false)
  ∨ (∃ p e q, code = 1%Z ∧ cs = p ++ e :: q ∧ tr' = tr ++ p ++ [e] ∧ fails (tr ++ p) e = true
       ∧ ∀ p' e' q', p = p' ++ e' :: q' → fails (tr ++ p') e' = false).
Proof.
  induction cs as [|e cs IH]; intros tr code tr'; simpl.
  { intros [= <- <-]. left. rewrite app_nil_r. split_and!; [done..|]. by intros []. }
  destruct (fails tr e) eqn:Hf.
  { intros [= <- <-]. right. exists [], e, cs. rewrite app_nil_r. split_and!; [done..|]. by intros []. }
  intros [(-> & -> & Hall)|(p & e' & q & -> & -> & -> & Hf' & Hall)]%IH.
  - left. rewrite <- (assoc_L (++)). split_and!; [done..|]. intros [|x p] e' q [= <- E].
    + by rewrite app_nil_r.
    + specialize (Hall _ _ _ E). by rewrite <- (assoc_L (++)) in Hall.
  - right. exists (e :: p), e', q. rewrite <- !(assoc_L (++)) in *. split_and!; [done..|].
    intros [|x p'] e2 q' [= <- E]; [by rewrite app_nil_r|].
    specialize (Hall _ _ _ E). by rewrite <- (assoc_L (++)) in Hall.
Qed.

Lemma run_calls_subset cs tr e : e ∈ (run_calls cs tr).2 → e ∈ tr ∨ e ∈ cs.
Proof.
  destruct (run_calls cs tr) as [code tr'] eqn:E. simpl.
  apply run_calls_spec in E as [(_ & -> & _)|(p & e' & q & _ & -> & -> & _)]; set_solver.
Qed.

Lemma watcher_calls_kind f e : e ∈ watcher_calls f → ∃ w c k, e = NewCertWatcher w c k.
Proof.
  unfold watcher_calls, watcher_call. intros [He|He]%elem_of_app;
    destruct (0 <? len _)%Z; set_solver.
Qed.

Lemma watcher_trace_kind f code tr e :
  (code, tr) = run_calls (watcher_calls f) [] → e ∈ tr → ∃ w c k, e = NewCertWatcher w c k.
Proof.
  intros Htr He. assert (e ∈ (run_calls (watcher_calls f) []).2) as Hin by (by rewrite <- Htr).
  apply run_calls_subset in Hin as [Hin|Hin]; [by apply elem_of_nil in Hin|].
  by eapply watcher_calls_kind.
Qed.

(** What a run with good options does. *)
Lemma main_spec getenv args f o :
  parse_command_line args MainFlags_defaults (ApplyEnv getenv Options_Defaults) = Ok (f, o) →
  Options_Validate o = None →
  ∃ r w' ws ms, main getenv args start_world = Some (r, w')
    ∧ (status r, w_trace w') = run_calls (wiring f o ws ms) []
    ∧ ∀ e, e ∈ w_trace w' → (∃ w c k, e = NewCertWatcher w c k)
        ∨ e ∈ manager_calls f o ws ms ∧ slice_elems (w_mem w') ws = Some (webhook_opts f)
          ∧ slice_elems (w_mem w') ms = Some (metrics_opts f).
Proof.
  intros Hp Hv. unfold main. rewrite Hp, Hv.
  destruct (tls_setup_spec f start_world) as (r1 & w1 & Hr1 & Htr1 & Hpost).
  unfold mbind, proc_bind. rewrite Hr1. destruct r1 as [[ws ms]|code]; simpl in *.
  - destruct Hpost as [Hws Hms].
    destruct (run_manager_performs f o ws ms w1) as (r & w' & Hr & Htr & Hm).
    exists r, w', ws, ms. unfold wiring. rewrite (assoc_L (++)), run_calls_app.
    fold (watcher_calls f). rewrite <- Htr1. simpl. split_and!; [done|done|].
    intros e He. rewrite Hm.
    replace (w_trace w') with (run_calls (manager_calls f o ws ms) (w_trace w1)).2 in He
      by (by rewrite <- Htr).
    apply run_calls_subset in He as [He|He]; [left|by right].
    by eapply watcher_trace_kind.
  - exists (Err code), w1, nil_slice, nil_slice. unfold wiring. rewrite (assoc_L (++)), run_calls_app.
    fold (watcher_calls f). rewrite <- Htr1. destruct (Z.eqb_spec code 0); [done|].
    split_and!; [done|done|]. intros e He. left.
    by eapply watcher_trace_kind.
Qed.

(** A run makes a call only with options that loaded. *)
Lemma main_calls_inv getenv args r w' e :
  main getenv args start_world = Some (r, w') → e ∈ w_trace w' →
  ∃ f o, parse_command_line args MainFlags_defaults (ApplyEnv getenv Options_Defaults) = Ok (f, o)
    ∧ Options_Validate o = None.
Proof.
  unfold main. destruct (parse_command_line _ _ _) as [[f o]|[|err]]; cycle 1.
  { intros [= <- <-] He. by apply elem_of_nil in He. }
  { intros [= <- <-] He. by apply elem_of_nil in He. }
  destruct (Options_Validate o) eqn:Hv; [|eauto].
  intros [= <- <-] He. by apply elem_of_nil in He.
Qed.

(** C21. Start-up is the list [wiring] executed until a call fails: with a command line and options
    that load, [main] never panics, makes exactly the calls of the list in that order, stops
    with status 1 after the first that returns an error, and returns when none does. *)
Theorem main_follows_wiring getenv args f o :
  parse_command_line args MainFlags_defaults (ApplyEnv getenv Options_Defaults) = Ok (f, o) →
  Options_Validate o = None →
  ∃ r w' ws ms, main getenv args start_world = Some (r, w')
    ∧ (status r, w_trace w') = run_calls (wiring f o ws ms) [].
Proof.
  intros Hp Hv. destruct (main_spec _ _ _ _ Hp Hv) as (r & w' & ws & ms & ? & ? & _). eauto 10.
Qed.

Lemma wiring_last f o ws ms :
  ∃ pre, wiring f o ws ms = pre ++ [StartManager] ∧ (StartManager ∉ pre).
Proof.
  exists (watcher_calls f
    ++ [GetConfigOrDie; NewManager (manager_options f ws ms); Complete OIDCShim_controller;
        Complete ClusterOIDCShim_controller; RegisterWebhook Path o;
        AddRunnable (RunWarmer (NewWarmer warmed_kinds)); AddReadyzCheck "informers" WarmerCheck;
        AddReadyzCheck "webhook" WebhookStarted]
    ++ watcher_runnable metricsCertWatcher (metricsCertPath f)
    ++ watcher_runnable webhookCertWatcher (webhookCertPath f)
    ++ [AddHealthzCheck "healthz" Ping; AddReadyzCheck "readyz" Ping; SetupSignalHandler]).
  split.
  - unfold wiring, manager_calls, watcher_calls. by rewrite <- !(assoc_L (++)).
  - assert (Hr : ∀ w dir, StartManager ∉ watcher_runnable w dir).
    { intros w dir. unfold watcher_runnable. destruct (0 <? len dir)%Z;
        by rewrite ?not_elem_of_cons; auto using not_elem_of_nil. }
    rewrite !not_elem_of_app, !not_elem_of_cons. split_and!; auto using not_elem_of_nil.
    intros (w & c & k & [=])%watcher_calls_kind.
Qed.

Lemma snoc_prefix {A} (pre p q : list A) x e :
  pre ++ [x] = p ++ e :: q → x ∉ pre → x ∈ p ++ [e] → q = [] ∧ p = pre ∧ e = x.
Proof.
  intros Heq Hpre Hin. destruct q as [|z q _] using rev_ind.
  - by apply app_inj_tail in Heq as [-> ->].
  - rewrite app_comm_cons, (assoc_L (++)) in Heq. apply app_inj_tail in Heq as [-> _].
    set_solver.
Qed.

(** A run that starts the manager made all calls. *)
Lemma started_trace getenv args r w' :
  main getenv args start_world = Some (r, w') → StartManager ∈ w_trace w' →
  ∃ f o ws ms, load_options getenv args = Ok o
    ∧ w_trace w' = wiring f o ws ms
    ∧ ∀ p e q, wiring f o ws ms = p ++ e :: q → e ≠ StartManager → fails p e = false.
Proof.
  intros Hrun Hst. destruct (main_calls_inv _ _ _ _ _ Hrun Hst) as (f & o & Hp & Hv).
  destruct (main_spec _ _ _ _ Hp Hv) as (r1 & w1 & ws & ms & Hrun1 & Htr & _). simplify_eq.
  exists f, o, ws, ms. split.
  { unfold load_options. rewrite (parse_command_line_options _ _ _ _ _ Hp). simpl. by rewrite Hv. }
  symmetry in Htr.
  apply run_calls_spec in Htr as [(_ & Htr & Hall)|(p & e & q & _ & Hcs & Htr & Hf & Hall)].
  { split; [done|]. eauto. }
  destruct (wiring_last f o ws ms) as (pre & Hpre & Hnot). rewrite Hpre in Hcs.
  destruct (snoc_prefix _ _ _ _ _ Hcs Hnot) as (-> & -> & ->); [by rewrite Htr in Hst|].
  rewrite Hpre. split; [done|]. intros p e q Heq Hne.
  destruct q as [|z q _] using rev_ind; [by apply app_inj_tail in Heq as [_ <-]|].
  rewrite app_comm_cons, (assoc_L (++)) in Heq. apply app_inj_tail in Heq as [Heq _]. by eapply Hall.
Qed.

(** The manager is started last and only when everything is in place: if it is started, then
    the options loaded, the calls made are all of [wiring] (both controllers, the webhook, the
    warm-up, the readiness checks of both, the watchers of the certificates given, the health
    checks), and none before the start failed. *)
Theorem start_after_everything getenv args r w' :
  main getenv args start_world = Some (r, w') → StartManager ∈ w_trace w' →
  ∃ f o ws ms, load_options getenv args = Ok o
    ∧ w_trace w' = wiring f o ws ms
    ∧ ∀ p e q, wiring f o ws ms = p ++ e :: q → e ≠ StartManager → fails p e = false.
Proof. apply started_trace. Qed.

Ltac inv_call He :=
  unfold manager_calls, watcher_runnable in He; rewrite !elem_of_app in He;
  repeat match type of He with context [if ?b then _ else _] => destruct b end;
  rewrite ?elem_of_cons, ?elem_of_nil in He; destruct_or?; simplify_eq.

Lemma manager_calls_NewManager f o ws ms mo :
  NewManager mo ∈ manager_calls f o ws ms → mo = manager_options f ws ms.
Proof. intros He. inv_call He; done. Qed.

Lemma manager_calls_RegisterWebhook f o ws ms path o' :
  RegisterWebhook path o' ∈ manager_calls f o ws ms → path = Path ∧ o' = o.
Proof. intros He. inv_call He; done. Qed.

(** The manager a run creates, with the options its servers read from memory. *)
Lemma main_manager_inv getenv args r w' mo :
  main getenv args start_world = Some (r, w') → NewManager mo ∈ w_trace w' →
  ∃ f o, parse_command_line args MainFlags_defaults (ApplyEnv getenv Options_Defaults) = Ok (f, o)
    ∧ mo = manager_options f (Mgr_WebhookTLSOpts mo) (Metrics_TLSOpts (Mgr_Metrics mo))
    ∧ slice_elems (w_mem w') (Mgr_WebhookTLSOpts mo) = Some (webhook_opts f)
    ∧ slice_elems (w_mem w') (Metrics_TLSOpts (Mgr_Metrics mo)) = Some (metrics_opts f).
Proof.
  intros Hrun Hin. destruct (main_calls_inv _ _ _ _ _ Hrun Hin) as (f & o & Hp & Hv).
  destruct (main_spec _ _ _ _ Hp Hv) as (r1 & w1 & ws & ms & Hrun1 & _ & Hcalls). simplify_eq.
  destruct (Hcalls _ Hin) as [(w0 & c0 & k0 & Heq)|(Hin' & Hws & Hms)]; [discriminate Heq|].
  apply manager_calls_NewManager in Hin' as ->. by exists f, o.
Qed.

(** The configuration a server with the certificate directory [dir] is meant to have. *)
Definition server_tls (f : MainFlags) (dir : string) (w : CertWatcher) (c : tlsConfig) : tlsConfig :=
  {| NextProtos := if enableHTTP2 f then NextProtos c else ["http/1.1"];
     GetCertificate := if (0 <? len dir)%Z then Some w else GetCertificate c |}.

Lemma call_tlsOpts_spec f dir w c :
  call_tlsOpts (base_opts f ++ if (0 <? len dir)%Z then [useCertificate w] else []) c
  = Some (server_tls f dir w c).
Proof.
  unfold base_opts, server_tls. by destruct c, (enableHTTP2 f), (0 <? len dir)%Z.
Qed.

(** C22. TLS of the two servers, as they read their options when they start: without
    --enable-http2 neither speaks HTTP/2, the metrics server presents its own certificate, and
    so does the webhook server, provided that appending to an empty slice makes room for
    exactly one element, as Go's allocator does; the metrics endpoint asks for authentication
    exactly when it is served over HTTPS. *)
Theorem servers_tls getenv args r w' mo :
  main getenv args start_world = Some (r, w') → NewManager mo ∈ w_trace w' →
  ∃ f o wopts mopts,
    parse_command_line args MainFlags_defaults (ApplyEnv getenv Options_Defaults) = Ok (f, o)
    ∧ slice_elems (w_mem w') (Mgr_WebhookTLSOpts mo) = Some wopts
    ∧ slice_elems (w_mem w') (Metrics_TLSOpts (Mgr_Metrics mo)) = Some mopts
    ∧ Metrics_Authenticated (Mgr_Metrics mo) = Metrics_SecureServing (Mgr_Metrics mo)
    ∧ ∀ c, call_tlsOpts mopts c = Some (server_tls f (metricsCertPath f) metricsCertWatcher c)
        ∧ (growcap 1 = 1 →
           call_tlsOpts wopts c = Some (server_tls f (webhookCertPath f) webhookCertWatcher c))
        ∧ ∃ c', call_tlsOpts wopts c = Some c'
            ∧ (enableHTTP2 f = false → NextProtos c' = ["http/1.1"]).
Proof.
  intros Hrun Hin. destruct (main_manager_inv _ _ _ _ _ Hrun Hin) as (f & o & Hp & Hmo & Hws & Hms).
  exists f, o, (webhook_opts f), (metrics_opts f). split_and!; [done..|by rewrite Hmo|].
  intros c. unfold webhook_opts, metrics_opts. rewrite !call_tlsOpts_spec. split_and!; [done| |].
  - intros Hg. unfold webhook_certificate, shared_room. by rewrite Hg, andb_false_r.
  - eexists. split; [done|]. simpl. by intros ->.
Qed.

(** The proviso is needed: the two servers' slices start as the same slice, and if the array
    behind it had room for a second element, both appends would write there and the webhook
    server would present the metrics certificate. *)
Theorem spare_room_mixes_certificates getenv args r w' mo f o :
  parse_command_line args MainFlags_defaults (ApplyEnv getenv Options_Defaults) = Ok (f, o) →
  main getenv args start_world = Some (r, w') → NewManager mo ∈ w_trace w' →
  (1 < growcap 1)%nat → enableHTTP2 f = false →
  webhookCertPath f ≠ "" → metricsCertPath f ≠ "" →
  ∃ wopts, slice_elems (w_mem w') (Mgr_WebhookTLSOpts mo) = Some wopts
    ∧ ∀ c, call_tlsOpts wopts c = Some (server_tls f (webhookCertPath f) metricsCertWatcher c).
Proof.
  intros Hp Hrun Hin Hg Hh Hwp Hmp.
  destruct (main_manager_inv _ _ _ _ _ Hrun Hin) as (f' & o' & Hp' & _ & Hws & _).
  rewrite Hp in Hp'. injection Hp' as <- <-.
  exists (webhook_opts f). split; [done|]. intros c. unfold webhook_opts.
  rewrite call_tlsOpts_spec. unfold webhook_certificate, shared_room. rewrite Hh.
  apply Nat.ltb_lt in Hg. rewrite Hg.
  by rewrite (proj2 (Z.ltb_lt 0 (len (metricsCertPath f))) (len_pos _ Hmp)).
Qed.

(** The webhook runs with options that passed validation: whatever is registered is at the
    path of the webhook configuration and carries the options loaded from defaults,
    environment and flags. *)
Theorem webhook_runs_with_loaded_options getenv args r w' path o :
  main getenv args start_world = Some (r, w') → RegisterWebhook path o ∈ w_trace w' →
  path = "/mutate-v1-pod" ∧ load_options getenv args = Ok o ∧ options_ok o.
Proof.
  intros Hrun Hin. destruct (main_calls_inv _ _ _ _ _ Hrun Hin) as (f & o' & Hp & Hv).
  destruct (main_spec _ _ _ _ Hp Hv) as (r1 & w1 & ws & ms & Hrun1 & _ & Hcalls). simplify_eq.
  destruct (Hcalls _ Hin) as [(w0 & c0 & k0 & Heq)|(Hin' & _)]; [discriminate Heq|].
  apply manager_calls_RegisterWebhook in Hin' as [-> ->]. split_and!; [done| |by apply options_validate_ok].
  unfold load_options. rewrite (parse_command_line_options _ _ _ _ _ Hp). simpl. by rewrite Hv.
Qed.

Lemma manager_calls_Complete f o ws ms c :
  Complete c ∈ manager_calls f o ws ms → c = OIDCShim_controller ∨ c = ClusterOIDCShim_controller.
Proof. intros He. inv_call He; auto. Qed.

Lemma manager_calls_warmer f o ws ms wa :
  AddRunnable (RunWarmer wa) ∈ manager_calls f o ws ms → Warmer_objects wa = warmed_kinds.
Proof. intros He. inv_call He; auto. Qed.

(** Every kind the process watches is known to the scheme of its manager: the kind of each
    controller and each kind the warm-up creates an informer for, given that client-go
    registers the core kinds. *)
Theorem watched_kinds_registered getenv args r w' mo kind :
  (∀ k, k ∈ [core_kind "Namespace"; core_kind "ServiceAccount"] → k ∈ clientgo_kinds) →
  main getenv args start_world = Some (r, w') → NewManager mo ∈ w_trace w' →
  (∃ c, Complete c ∈ w_trace w' ∧ Ctl_For c = kind)
  ∨ (∃ wa, AddRunnable (RunWarmer wa) ∈ w_trace w' ∧ kind ∈ Warmer_objects wa) →
  kind ∈ Mgr_Scheme mo.
Proof.
  intros Hcore Hrun Hin Hkind.
  destruct (main_calls_inv _ _ _ _ _ Hrun Hin) as (f & o & Hp & Hv).
  destruct (main_spec _ _ _ _ Hp Hv) as (r1 & w1 & ws & ms & Hrun1 & _ & Hcalls). simplify_eq.
  destruct (Hcalls _ Hin) as [(w0 & c0 & k0 & Heq)|(Hin' & _)]; [discriminate Heq|].
  apply manager_calls_NewManager in Hin' as ->. simpl. unfold scheme_of, AddToScheme.
  assert (Hown : ∀ k, k ∈ [(GroupVersion, "OIDCShim"); (GroupVersion, "ClusterOIDCShim")] →
    k ∈ registered_cluster ++ registered_namespaced).
  { intros k Hk. rewrite !elem_of_cons, elem_of_nil in Hk. vm_compute. set_solver. }
  apply elem_of_app. destruct Hkind as [(c & Hc & <-)|(wa & Hwa & Hk)].
  - right. apply Hown. destruct (Hcalls _ Hc) as [(w0 & c0 & k0 & Heq)|(Hc' & _)]; [discriminate Heq|].
    apply manager_calls_Complete in Hc' as [-> | ->]; [left|right; left].
  - destruct (Hcalls _ Hwa) as [(w0 & c0 & k0 & Heq)|(Hwa' & _)]; [discriminate Heq|].
    rewrite (manager_calls_warmer _ _ _ _ _ Hwa') in Hk. unfold warmed_kinds in Hk.
    rewrite !elem_of_cons, elem_of_nil in Hk.
    destruct Hk as [-> |[-> |[-> |[-> |[]]]]]; [left; apply Hcore..|right; apply Hown|right; apply Hown];
      rewrite !elem_of_cons; auto.
Qed.
End startup.

(** ** A run *)

(** A manager that accepts everything, with Go's growth of arrays. *)
Definition accepting : Runtime :=
  {| answer _ _ := None;
     clientgo_kinds := [core_kind "Pod"; core_kind "Namespace"; core_kind "ServiceAccount"];
     zap_flag name := if String.eqb name "zap-log-level" then Some (λ v, negb (String.eqb v "")) else None;
     growcap n := n |}.
(** One whose arrays have room for two elements. *)
Definition roomy : Runtime :=
  {| answer _ _ := None; clientgo_kinds := []; zap_flag _ := None; growcap n := S n |}.

Definition sample_args : list (string * string) :=
  [("webhook-cert-path", "/certs/webhook"); ("metrics-cert-path", "/certs/metrics");
   ("leader-elect", "true"); ("excluded-namespaces", "openshift")].

Definition run_of (R : Runtime) : option (result Z () * world) :=
  @main R ascii_tables (λ _, "") sample_args start_world.
Definition world_of (R : Runtime) : world :=
  match run_of R with Some (_, w) => w | None => start_world end.
Definition flags_of : MainFlags :=
  set_enableLeaderElection true (set_metricsCertPath "/certs/metrics"
    (set_webhookCertPath "/certs/webhook" MainFlags_defaults)).
Definition options_of : Options :=
  set_excluded ["openshift"] (ApplyEnv (λ _, "") Options_Defaults).

Lemma accepting_run : run_of accepting = Some (Ok (), world_of accepting).
Proof. vm_compute. reflexivity. Qed.
Lemma roomy_run : run_of roomy = Some (Ok (), world_of roomy).
Proof. vm_compute. reflexivity. Qed.

Lemma main_follows_wiring_witness :
  ∃ r w' ws ms, run_of accepting = Some (r, w')
    ∧ (status r, w_trace w') = @run_calls accepting (@wiring accepting flags_of options_of ws ms) [].
Proof.
  apply (@main_follows_wiring accepting ascii_tables (λ _, "") sample_args flags_of options_of);
    vm_compute; reflexivity.
Defined.

Definition created_manager (R : Runtime) : ManagerOptions :=
  match w_trace (world_of R) !! 3 with
  | Some (NewManager mo) => mo
  | _ => @manager_options R MainFlags_defaults nil_slice nil_slice
  end.

Lemma start_after_everything_witness : ∃ f o ws ms,
  @load_options ascii_tables (λ _, "") sample_args = Ok o
  ∧ w_trace (world_of accepting) = @wiring accepting f o ws ms.
Proof.
  destruct (@start_after_everything accepting ascii_tables (λ _, "") sample_args (Ok ())
              (world_of accepting) accepting_run) as (f & o & ws & ms & Hload & Htr & _).
  - apply (list_elem_of_lookup_2 _ 15). vm_compute. reflexivity.
  - exists f, o, ws, ms. split; [exact Hload|exact Htr].
Defined.

(** The webhook server of a run with both certificates and Go's allocator. *)
Lemma servers_tls_witness : ∃ wopts,
  slice_elems (w_mem (world_of accepting)) (Mgr_WebhookTLSOpts (created_manager accepting)) = Some wopts
  ∧ ∃ f : MainFlags, call_tlsOpts wopts {| NextProtos := ["h2"]; GetCertificate := None |}
    = Some (server_tls f (webhookCertPath f) webhookCertWatcher
              {| NextProtos := ["h2"]; GetCertificate := None |}).
Proof.
  destruct (@servers_tls accepting ascii_tables (λ _, "") sample_args (Ok ()) (world_of accepting)
              (created_manager accepting) accepting_run) as (f & o & wopts & mopts & _ & Hw & _ & _ & Hc).
  - apply (list_elem_of_lookup_2 _ 3). vm_compute. reflexivity.
  - exists wopts. split; [exact Hw|]. exists f. apply Hc. reflexivity.
Defined.

(** With room in the shared array, the webhook server presents the other certificate. *)
Lemma spare_room_mixes_certificates_witness : ∃ wopts,
  slice_elems (w_mem (world_of roomy)) (Mgr_WebhookTLSOpts (created_manager roomy)) = Some wopts
  ∧ ∀ c, call_tlsOpts wopts c
         = Some (server_tls flags_of (webhookCertPath flags_of) metricsCertWatcher c).
Proof.
  apply (@spare_room_mixes_certificates roomy ascii_tables (λ _, "") sample_args (Ok ())
           (world_of roomy) (created_manager roomy) flags_of options_of).
  - vm_compute. reflexivity.
  - apply roomy_run.
  - apply (list_elem_of_lookup_2 _ 3). vm_compute. reflexivity.
  - apply le_n.
  - reflexivity.
  - discriminate.
  - discriminate.
Defined.

Lemma webhook_runs_with_loaded_options_witness :
  Path = "/mutate-v1-pod" ∧ @load_options ascii_tables (λ _, "") sample_args = Ok options_of
  ∧ options_ok options_of.
Proof.
  apply (@webhook_runs_with_loaded_options accepting ascii_tables (λ _, "") sample_args (Ok ())
           (world_of accepting) Path options_of accepting_run).
  apply (list_elem_of_lookup_2 _ 6). vm_compute. reflexivity.
Defined.

Lemma watched_kinds_registered_witness :
  core_kind "ServiceAccount" ∈ Mgr_Scheme (created_manager accepting).
Proof.
  apply (@watched_kinds_registered accepting ascii_tables (λ _, "") sample_args (Ok ())
           (world_of accepting) (created_manager accepting) (core_kind "ServiceAccount")).
  - intros k Hk. rewrite !elem_of_cons, elem_of_nil in Hk.
    destruct Hk as [-> |[-> |[]]]; apply list_elem_of_lookup; [exists 1|exists 2]; reflexivity.
  - apply accepting_run.
  - apply (list_elem_of_lookup_2 _ 3). vm_compute. reflexivity.
  - right. exists (NewWarmer warmed_kinds). split.
    + apply (list_elem_of_lookup_2 _ 7). vm_compute. reflexivity.
    + apply (list_elem_of_lookup_2 _ 1). reflexivity.
Defined.
