(* ===== verification/Readiness.v ===== *)
(** * Readiness of a replica (src/internal/webhook/pod/setup.go on a started manager)

    Once the manager is started, the warm-up, the webhook server and the probes run
    concurrently.  A replica is a state machine: the warm-up asks for one informer per step and
    stores the flag at the end, the server starts when it likes, handlers that read a kind for
    the first time create informers too, and a probe may come between any two steps.  The
    checks a probe runs, and the objects the warm-up asks for, are those [main] registered.
    What an informer is good for is stated on the handler: its cached reads ([cached_reads])
    are answered from the informers that exist. *)

From S2P Require Import Prelude GoStd GoStdFacts GoHeap Kube Api SpiffeHelper Template GoTemplate Params Selection Plan Mutate MutateFacts Injection Config Webhook Startup.

(** ** States and steps *)

(** How far [Warmer.Start] is. *)
Inductive warm_up :=
| NotStarted
| Warming (rest : list GVK)
| Warmed
| Failed (err : error).

Record replica := {
  informers : list GVK;
  warming : warm_up;
  ready : bool;
  webhookStarted : bool }.

Definition fresh_replica : replica :=
  {| informers := []; warming := NotStarted; ready := false; webhookStarted := false |}.

Definition with_warming (s : warm_up) (st : replica) : replica :=
  {| informers := informers st; warming := s; ready := ready st;
     webhookStarted := webhookStarted st |}.
Definition with_informer (k : GVK) (st : replica) : replica :=
  {| informers := k :: informers st; warming := warming st; ready := ready st;
     webhookStarted := webhookStarted st |}.

Definition start_webhook (st : replica) : replica :=
  {| informers := informers st; warming := warming st; ready := ready st; webhookStarted := true |}.

Section machine.
Context (objects : list GVK).

Inductive step : replica → replica → Prop :=
| step_begin st : warming st = NotStarted → step st (with_warming (Warming objects) st)
| step_informer st k rest : warming st = Warming (k :: rest) →
    step st (with_informer k (with_warming (Warming rest) st))
| step_fail st k rest err : warming st = Warming (k :: rest) →
    step st (with_warming (Failed err) st)
| step_done st : warming st = Warming [] →
    step st {| informers := informers st; warming := Warmed; ready := true;
               webhookStarted := webhookStarted st |}
| step_webhook st : step st (start_webhook st)
| step_read st k : step st (with_informer k st).

Definition reachable (st : replica) : Prop := rtc step fresh_replica st.

(** ** The invariant *)

(** The flag is set only after the last informer; what is still to do is a suffix of the
    objects whose beginning is done. *)
Definition warm_inv (st : replica) : Prop :=
  match warming st with
  | NotStarted | Failed _ => ready st = false
  | Warming rest =>
      ready st = false ∧ ∃ done, objects = done ++ rest ∧ ∀ k, k ∈ done → k ∈ informers st
  | Warmed => ready st = true ∧ ∀ k, k ∈ objects → k ∈ informers st
  end.

Lemma warm_inv_step st st' : warm_inv st → step st st' → warm_inv st'.
Proof.
  unfold warm_inv. destruct 2 as [st Hw|st k rest Hw|st k rest err Hw|st Hw|st|st k]; simpl in *;
    try rewrite Hw in *.
  - split; [done|]. exists []. split; [done|]. intros k []%elem_of_nil.
  - destruct H as (Hr & done & Hobj & Hdone). split; [done|]. exists (done ++ [k]).
    rewrite <- (assoc_L (++)). split; [done|]. intros k' [?| ->%list_elem_of_singleton]%elem_of_app.
    + right. auto.
    + left.
  - by destruct H as [? _].
  - destruct H as (_ & done & -> & Hdone). rewrite app_nil_r. done.
  - done.
  - destruct (warming st); [done| |destruct H as [Hr Hall]; split; [done|]; intros k' Hk'; right; auto|done].
    destruct H as (Hr & done & Hobj & Hdone). split; [done|]. exists done. split; [done|].
    intros k' Hk'. right. auto.
Qed.

Lemma warm_inv_reachable st : reachable st → warm_inv st.
Proof.
  intros Hr. assert (Hgen : ∀ a b, rtc step a b → warm_inv a → warm_inv b).
  { induction 1; eauto using warm_inv_step. }
  by apply (Hgen fresh_replica).
Qed.

Lemma ready_informers st : reachable st → ready st = true →
  ∀ k, k ∈ objects → k ∈ informers st.
Proof.
  intros Hinv%warm_inv_reachable Hready. unfold warm_inv in Hinv.
  destruct (warming st); [congruence|by destruct Hinv; congruence|by destruct Hinv|congruence].
Qed.

(** Nothing that made a replica ready is undone. *)
Lemma step_monotone st st' : step st st' →
  (ready st = true → ready st' = true) ∧ (webhookStarted st = true → webhookStarted st' = true)
  ∧ (∀ k, k ∈ informers st → k ∈ informers st').
Proof. destruct 1; simpl; split_and!; try done; intros; by right. Qed.

(** ** Start as a run of the machine *)

(** [Warmer.Start] from the point where [rest] is left: it ends as [start_informers] says,
    with an informer for each of the objects it got to. *)
Lemma start_informers_steps GetInformer type_name rest : ∀ st, warming st = Warming rest →
  ∃ st', rtc step st st'
    ∧ warming st' = match start_informers GetInformer type_name rest with
                    | None => Warmed
                    | Some err => Failed err
                    end
    ∧ (start_informers GetInformer type_name rest = None → ready st' = true)
    ∧ webhookStarted st' = webhookStarted st.
Proof.
  induction rest as [|k rest IH]; intros st Hw; simpl.
  - eexists. split_and!; [apply rtc_once, step_done, Hw|done..].
  - destruct (GetInformer k) as [err|].
    + exists (with_warming (Failed (wrapError ("warm up informer for " +:+ type_name k +:+ ": ") err)) st).
      split_and!; [|done..]. by eapply rtc_once, step_fail.
    + destruct (IH (with_informer k (with_warming (Warming rest) st))) as (st' & Hrun & ?);
        [done|]. exists st'. split; [|done]. eapply rtc_l; [by apply step_informer|done].
Qed.

(** A replica whose warm-up has not failed can still become ready. *)
Lemma can_become_ready st : reachable st → (∀ err, warming st ≠ Failed err) →
  ∃ st', rtc step st st' ∧ ready st' = true ∧ webhookStarted st' = true.
Proof.
  intros Hr Hnf.
  assert (Hgo : ∀ rest st0, warming st0 = Warming rest →
    ∃ st', rtc step st0 st' ∧ ready st' = true ∧ webhookStarted st' = true).
  { intros rest st0 Hw.
    destruct (start_informers_steps (λ _, None) (λ _, "") rest (start_webhook st0) Hw)
      as (st' & Hrun & _ & Hready & Hweb).
    exists st'. split_and!; [eapply rtc_l; [apply step_webhook|done]| |done].
    apply Hready. clear. by induction rest. }
  apply warm_inv_reachable in Hr. unfold warm_inv in Hr.
  destruct (warming st) as [|rest| |err] eqn:Hw.
  - destruct (Hgo objects (with_warming (Warming objects) st)) as (st' & Hrun & ?); [done|].
    exists st'. split; [|done]. eapply rtc_l; [by apply step_begin|done].
  - eauto.
  - exists (start_webhook st). split_and!; [apply rtc_once, step_webhook|apply Hr|done].
  - by destruct (Hnf err).
Qed.
End machine.

(** ** Probes *)

(** The answer of one check, and of the readyz endpoint, which runs all that are registered. *)
Definition check_ok (st : replica) (c : Checker) : bool :=
  match c with
  | Ping => true
  | WarmerCheck =>
      bool_decide (Check_ready {| Warmer_objects := warmed_kinds; Warmer_ready := ready st |} = None)
  | WebhookStarted => webhookStarted st
  end.
Definition readyz_checks (tr : list event) : list Checker :=
  omap (λ e, match e with AddReadyzCheck _ c => Some c | _ => None end) tr.
Definition readyz_ok (tr : list event) (st : replica) : bool :=
  forallb (check_ok st) (readyz_checks tr).


(** The objects of the warm-up among the runnables of the manager. *)
Definition warmed_by (tr : list event) : list GVK :=
  tr ≫= λ e, match e with AddRunnable (RunWarmer w) => Warmer_objects w | _ => [] end.

(** ** The handler's reads *)

(** What the handler's two readers answer while there are informers for the kinds [cached]:
    [Reader] is the cached client, which answers as in [synced] for a kind with an informer
    and in any way, [cold], for one without; [APIReader] asks the API server. *)
Definition cached_reads (cached : list GVK) (synced cold : ClusterAPI) : ClusterAPI :=
  let reader (kind : GVK) := if decide (kind ∈ cached) then synced else cold in
  {| IsNotFound := @IsNotFound synced;
     Get_Namespace := @Get_Namespace (reader (core_kind "Namespace"));
     Get_ServiceAccount := @Get_ServiceAccount (reader (core_kind "ServiceAccount"));
     List_OIDCShims := @List_OIDCShims (reader (GroupVersion, "OIDCShim"));
     List_ClusterOIDCShims := @List_ClusterOIDCShims (reader (GroupVersion, "ClusterOIDCShim"));
     Get_ConfigMap := @Get_ConfigMap synced |}.

Lemma cached_reads_warm cached synced cold :
  (∀ k, k ∈ warmed_kinds → k ∈ cached) → cached_reads cached synced cold = synced.
Proof.
  intros Hall. unfold cached_reads.
  rewrite !decide_True by (apply Hall; unfold warmed_kinds; set_solver). by destruct synced.
Qed.

Section probes.
Context `{Runtime} `{UnicodeTables} `{TextTemplate} `{LabelSelectors} `{PodCodec}.

Lemma readyz_checks_wiring f o ws ms :
  readyz_checks (wiring f o ws ms) = [WarmerCheck; WebhookStarted; Ping].
Proof.
  unfold wiring, manager_calls, watcher_call, watcher_runnable.
  by destruct (0 <? len (webhookCertPath f))%Z, (0 <? len (metricsCertPath f))%Z.
Qed.

Lemma warmed_by_wiring f o ws ms : warmed_by (wiring f o ws ms) = warmed_kinds.
Proof.
  unfold wiring, manager_calls, watcher_call, watcher_runnable.
  by destruct (0 <? len (webhookCertPath f))%Z, (0 <? len (metricsCertPath f))%Z.
Qed.

Lemma warmed_by_started getenv args r w' :
  main getenv args start_world = Some (r, w') → StartManager ∈ w_trace w' →
  warmed_by (w_trace w') = warmed_kinds.
Proof.
  intros Hrun Hst. destruct (started_trace _ _ _ _ Hrun Hst) as (f & o & ws & ms & _ & -> & _).
  apply warmed_by_wiring.
Qed.

Lemma readyz_ok_started getenv args r w' st :
  main getenv args start_world = Some (r, w') → StartManager ∈ w_trace w' →
  readyz_ok (w_trace w') st = true ↔ ready st = true ∧ webhookStarted st = true.
Proof.
  intros Hrun Hst. destruct (started_trace _ _ _ _ Hrun Hst) as (f & o & ws & ms & _ & -> & _).
  unfold readyz_ok. rewrite readyz_checks_wiring. simpl. unfold Check_ready. simpl.
  destruct (ready st), (webhookStarted st); simpl; naive_solver.
Qed.

(** C23. A replica that reports ready can serve: whatever the interleaving of warm-up, webhook
    server, reads and probes, when the readyz endpoint of a started process answers ok, the
    webhook server runs and no read of the handler meets a kind without an informer: every
    request is answered as with a synced cache, whatever a read of a cold kind would give.  It
    stays so, and a replica whose warm-up has not failed can always become ready. *)
Theorem ready_replica_can_serve getenv args r w' st :
  main getenv args start_world = Some (r, w') → StartManager ∈ w_trace w' →
  reachable (warmed_by (w_trace w')) st →
  (readyz_ok (w_trace w') st = true →
     webhookStarted st = true
     ∧ (∀ synced cold o req,
          Handle (H2 := cached_reads (informers st) synced cold) o req = Handle (H2 := synced) o req)
     ∧ ∀ st', step (warmed_by (w_trace w')) st st' → readyz_ok (w_trace w') st' = true)
  ∧ ((∀ err, warming st ≠ Failed err) →
     ∃ st', rtc (step (warmed_by (w_trace w'))) st st' ∧ readyz_ok (w_trace w') st' = true).
Proof.
  intros Hrun Hst. rewrite (warmed_by_started _ _ _ _ Hrun Hst). intros Hreach. split.
  - intros [Hready Hweb]%(readyz_ok_started _ _ _ _ _ Hrun Hst). split_and!; [done| |].
    + intros synced cold o req. by rewrite cached_reads_warm by by apply ready_informers.
    + intros st' (Hr & Hw & _)%step_monotone.
      apply (readyz_ok_started _ _ _ _ _ Hrun Hst). auto.
  - intros Hnf. destruct (can_become_ready _ _ Hreach Hnf) as (st' & Hrun' & ? & ?).
    exists st'. split; [done|]. by apply (readyz_ok_started _ _ _ _ _ Hrun Hst).
Qed.
End probes.

(** A replica after its warm-up, with its server running. *)
Definition warmed_replica : replica :=
  {| informers := reverse warmed_kinds; warming := Warmed; ready := true; webhookStarted := true |}.

Lemma warmed_replica_reachable : reachable warmed_kinds warmed_replica.
Proof.
  unfold reachable. eapply rtc_l; [by apply step_begin|].
  do 4 (eapply rtc_l; [by eapply step_informer|]). eapply rtc_l; [by apply step_done|].
  apply rtc_once, step_webhook.
Qed.

(** The sample request, served by that replica with reads of cold kinds that time out. *)
Lemma ready_replica_can_serve_witness :
  @Handle ascii_tables core_templates match_labels_only
    (cached_reads (informers warmed_replica) sample_cluster broken_cluster) sample_codec
    Options_Defaults sample_request
  = PatchResponseFromRaw "{raw}" "{}" [].
Proof.
  destruct (@ready_replica_can_serve accepting ascii_tables core_templates match_labels_only
    sample_codec (λ _, "") sample_args (Ok ()) (world_of accepting) warmed_replica) as [Hok _].
  - apply accepting_run.
  - apply (list_elem_of_lookup_2 _ 15). vm_compute. reflexivity.
  - assert (E : warmed_by (w_trace (world_of accepting)) = warmed_kinds)
      by (vm_compute; reflexivity).
    rewrite E. apply warmed_replica_reachable.
  - destruct Hok as (_ & -> & _); vm_compute; reflexivity.
Defined.
