(* ===== verification/Validation.v ===== *)
(** * Static validation of a shim (src/internal/controller/shim_reconcile.go)

    [validateShim] reports on the Ready condition what the webhook would trip over at
    admission time.  The theorems state what it accepts and relate it to [BuildPlan]. *)

From S2P Require Import Prelude GoStd GoStdFacts Kube Api SpiffeHelper Template GoTemplate Params Selection Plan Mutate.

Definition validationAudience : string := "validate".
Definition validationAgentAddress : string := "/spiffe-workload-api/spire-agent.sock".
Definition maxShimNameLength : Z := 46.

Section validation.
Context `{UnicodeTables} `{TextTemplate} `{LabelSelectors}.

Definition validateName (shimName : string) : option error :=
  if (maxShimNameLength <? len shimName)%Z then
    Some (errorString ("metadata.name: " +:+ Quote shimName +:+ " is " +:+ Itoa (len shimName)
                       +:+ " characters, at most " +:+ Itoa maxShimNameLength
                       +:+ " are allowed (it is embedded in container and volume names)"))
  else None.

Definition known_keys (spec : OIDCShimSpec) : gset string :=
  list_to_set (builtinKeys ++ (Param_Name <$> Spec_Parameters spec)).

(** The closure [check] of [validateTemplates]: the problems of one templated field. *)
Definition check_template (known : gset string) (field tmpl : string) : list error :=
  match ReferencedKeys tmpl with
  | Err err => [wrapError (field +:+ ": invalid template: ") err]
  | Ok keys =>
      (λ key, errorString (field +:+ ": template references " +:+ Quote key
                           +:+ ", which is not a builtin or a parameter of this shim"))
        <$> filter (λ key, key ∉ known) keys
  end.

(** The templated fields of a spec with the names they are reported under. *)
Definition template_fields (spec : OIDCShimSpec) : list (string * string) :=
  [("spec.audience", Audience spec)]
  ++ imap (λ i a, ("spec.extraAudiences[" +:+ Itoa (Z.of_nat i) +:+ "]", a)) (ExtraAudiences spec)
  ++ ((λ e, ("spec.inject.env[" +:+ EnvSpec_Name e +:+ "]", EnvSpec_Value e))
        <$> Inject_Env (Inject spec))
  ++ ((λ f, ("spec.inject.files[" +:+ File_Path f +:+ "]", File_Content f))
        <$> Inject_Files (Inject spec)).

Definition validateTemplates (spec : OIDCShimSpec) : list error :=
  template_fields spec ≫= λ ft, check_template (known_keys spec) ft.1 ft.2.

Definition validateToken (shimName : string) (token : TokenSpec) : option error :=
  let resolved := ResolveToken shimName token in
  match SpiffeHelper.Render
          {| AgentAddress := validationAgentAddress;
             CertDir := Token_MountPath resolved;
             JWTAudience := validationAudience;
             JWTExtraAudiences := [];
             JWTSVIDFileName := Token_FileName resolved;
             JWTSVIDFileMode := Token_FileMode resolved |} with
  | Ok _ => None
  | Err err => Some (wrapError "spec.token: " err)
  end.

Definition file_problems (tokenMountPath : string) (seen : gset string) (file : FileSpec)
    : list error :=
  let field := "spec.inject.files[" +:+ File_Path file +:+ "]: " in
  let mode := or_default (File_Mode file) defaultFileMode in
  (if negb (ModePattern mode)
   then [errorString (field +:+ "mode " +:+ Quote mode +:+ " is not a valid octal mode")] else [])
  ++ (if decide (File_Path file ∈ seen) then
        if String.eqb (File_Path file) tokenMountPath
        then [errorString (field +:+ "path collides with the token mountPath "
                           +:+ Quote tokenMountPath)]
        else [errorString (field +:+ "duplicate path")]
      else [])
  ++ (if HasPrefix (File_Path file) (tokenMountPath +:+ "/")
      then [errorString (field +:+ "path is under the token mountPath " +:+ Quote tokenMountPath
                         +:+ ", which is mounted read-only")] else []).

Fixpoint validate_files (tokenMountPath : string) (seen : gset string) (files : list FileSpec)
    : list error :=
  match files with
  | [] => []
  | file :: rest =>
      file_problems tokenMountPath seen file
      ++ validate_files tokenMountPath ({[File_Path file]} ∪ seen) rest
  end.
Definition validateFiles (files : list FileSpec) (tokenMountPath : string) : list error :=
  validate_files tokenMountPath {[tokenMountPath]} files.

Definition validateHelper (helper : option HelperSpec) : option error :=
  match helper with
  | None => None
  | Some h =>
      if String.eqb (Helper_ImagePullPolicy h) "" then None
      else if existsb (String.eqb (Helper_ImagePullPolicy h)) [PullAlways; PullIfNotPresent; PullNever]
      then None
      else Some (errorString ("spec.helper.imagePullPolicy: " +:+ Quote (Helper_ImagePullPolicy h)
                              +:+ " must be one of Always, IfNotPresent or Never"))
  end.

Definition validateShim (spec : OIDCShimSpec) (shimName : string) : option error :=
  errors_Join
    [validateName shimName;
     Params.Validate (Spec_Parameters spec);
     Selection.Validate (Selection spec);
     validateToken shimName (Spec_Token spec);
     validateHelper (Helper spec);
     errors_Join (Some <$> validateTemplates spec);
     errors_Join (Some <$> validateFiles (Inject_Files (Inject spec))
                             (Token_MountPath (ResolveToken shimName (Spec_Token spec))))].

(** ** What validation accepts *)

Definition templates_of (spec : OIDCShimSpec) : list string := (template_fields spec).*2.

(** An octal number of three digits, with or without a leading zero. *)
Definition octal_mode (mode : string) : Prop :=
  ∃ a b c : ascii,
    Forall (λ d, d ∈ ["0"; "1"; "2"; "3"; "4"; "5"; "6"; "7"]%char) [a; b; c]
    ∧ (mode = String a (String b (String c ""))
       ∨ mode = String "0" (String a (String b (String c "")))).

(** Exactly one of the five sources of a parameter is set. *)
Inductive one_source (src : ParameterSource) : Prop :=
| only_static : is_Some (Static src) → Annotation src = "" → Label src = "" →
    ConfigMapKeyRef src = None → Template src = "" → one_source src
| only_annotation : Static src = None → Annotation src ≠ "" → Label src = "" →
    ConfigMapKeyRef src = None → Template src = "" → one_source src
| only_label : Static src = None → Annotation src = "" → Label src ≠ "" →
    ConfigMapKeyRef src = None → Template src = "" → one_source src
| only_config_map : Static src = None → Annotation src = "" → Label src = "" →
    is_Some (ConfigMapKeyRef src) → Template src = "" → one_source src
| only_template : Static src = None → Annotation src = "" → Label src = "" →
    ConfigMapKeyRef src = None → Template src ≠ "" → one_source src.

Definition builtin_names : list string :=
  ["podNamespace"; "serviceAccountName"; "shimName"; "tokenDir"; "tokenPath"].

(** A key a template of the spec may name. *)
Definition known_name (spec : OIDCShimSpec) (k : string) : Prop :=
  k ∈ builtin_names ∨ ∃ p, p ∈ Spec_Parameters spec ∧ Param_Name p = k.

(** Where the token is mounted. *)
Definition token_directory (spec : OIDCShimSpec) (shimName : string) : string :=
  if String.eqb (TokenSpec_MountPath (Spec_Token spec)) ""
  then path_Join ["/var/run/secrets/oidcshim"; shimName]
  else TokenSpec_MountPath (Spec_Token spec).

(** The rules, field by field of the spec. *)
Record shim_valid (spec : OIDCShimSpec) (shimName : string) : Prop := {
  sv_name : (len shimName ≤ 46)%Z;
  sv_param_names : NoDup (Param_Name <$> Spec_Parameters spec);
  sv_params : ∀ i p, Spec_Parameters spec !! i = Some p →
    (Param_Name p ∉ builtin_names) ∧ one_source (ValueFrom p)
    ∧ (Template (ValueFrom p) ≠ "" → template_names (λ k, k ∈ builtin_names
         ∨ ∃ j q, j < i ∧ Spec_Parameters spec !! j = Some q ∧ Param_Name q = k)
         (Template (ValueFrom p)));
  sv_selection : selectors_valid (Selection spec);
  sv_token : TokenSpec_FileMode (Spec_Token spec) = ""
             ∨ octal_mode (TokenSpec_FileMode (Spec_Token spec));
  sv_policy : ∀ h, Helper spec = Some h →
    Helper_ImagePullPolicy h ∈ [""; "Always"; "IfNotPresent"; "Never"];
  sv_audience : template_names (known_name spec) (Audience spec);
  sv_extra : ∀ a, a ∈ ExtraAudiences spec → template_names (known_name spec) a;
  sv_env : ∀ e, e ∈ Inject_Env (Inject spec) → template_names (known_name spec) (EnvSpec_Value e);
  sv_content : ∀ f, f ∈ Inject_Files (Inject spec) →
    template_names (known_name spec) (File_Content f);
  sv_modes : ∀ f, f ∈ Inject_Files (Inject spec) → File_Mode f = "" ∨ octal_mode (File_Mode f);
  sv_outside : ∀ f rest, f ∈ Inject_Files (Inject spec) →
    File_Path f ≠ token_directory spec shimName +:+ "/" +:+ rest;
  sv_paths : NoDup (token_directory spec shimName :: (File_Path <$> Inject_Files (Inject spec))) }.

(** The same in terms of the checks. *)
Record shim_checked (spec : OIDCShimSpec) (shimName : string) : Prop := {
  sc_name : (len shimName ≤ 46)%Z;
  sc_params : params_wf (Spec_Parameters spec);
  sc_selection : selectors_valid (Selection spec);
  sc_token : ModePattern (Token_FileMode (ResolveToken shimName (Spec_Token spec))) = true;
  sc_policy : ∀ h, Helper spec = Some h →
    Helper_ImagePullPolicy h ∈ [""; PullAlways; PullIfNotPresent; PullNever];
  sc_templates : ∀ tmpl, tmpl ∈ templates_of spec →
    template_ok (λ k, k ∈ builtinKeys ∨ k ∈ (Param_Name <$> Spec_Parameters spec)) tmpl;
  sc_modes : ∀ f, f ∈ Inject_Files (Inject spec) →
    ModePattern (or_default (File_Mode f) defaultFileMode) = true;
  sc_outside : ∀ f, f ∈ Inject_Files (Inject spec) →
    HasPrefix (File_Path f)
      (Token_MountPath (ResolveToken shimName (Spec_Token spec)) +:+ "/") = false;
  sc_paths : NoDup (Token_MountPath (ResolveToken shimName (Spec_Token spec))
                    :: (File_Path <$> Inject_Files (Inject spec))) }.

Lemma or_default_ne v d : d ≠ "" → or_default v d ≠ "".
Proof. unfold or_default. by destruct (String.eqb_spec v ""). Qed.

Lemma validateToken_None shimName token :
  validateToken shimName token = None ↔
  ModePattern (Token_FileMode (ResolveToken shimName token)) = true.
Proof.
  unfold validateToken. set (tok := ResolveToken shimName token).
  assert (Token_MountPath tok ≠ "" ∧ Token_FileName tok ≠ "" ∧ Token_FileMode tok ≠ "")
    as (? & ? & ?).
  { unfold tok, ResolveToken. simpl. split_and!; by apply or_default_ne. }
  destruct (SpiffeHelper.Render _) as [text|e] eqn:Hr.
  - apply Render_Ok_iff in Hr as [(_ & _ & _ & _ & Hm) _]. simpl in Hm. naive_solver.
  - split; [done|]. intros Hm.
    assert (is_Ok (@Err error string e)) as [? ?]; [|done].
    rewrite <- Hr. eexists. apply Render_Ok_iff. split; [|done]. by split_and!; auto.
Qed.

Lemma validateHelper_None helper :
  validateHelper helper = None ↔
  ∀ h, helper = Some h → Helper_ImagePullPolicy h ∈ [""; PullAlways; PullIfNotPresent; PullNever].
Proof.
  unfold validateHelper. destruct helper as [h|]; [|split; [by intros _ ?|done]].
  destruct (String.eqb_spec (Helper_ImagePullPolicy h) "") as [E|E].
  { split; [|done]. intros _ ? [= <-]. rewrite E. left. }
  pose proof (existsb_str_eqb (Helper_ImagePullPolicy h) [PullAlways; PullIfNotPresent; PullNever])
    as Hx.
  destruct (existsb _ _).
  - split; [|done]. intros _ ? [= <-]. right. by apply Hx.
  - split; [done|]. intros Hall. specialize (Hall h eq_refl).
    apply elem_of_cons in Hall as [?|?%Hx]; done.
Qed.

Lemma check_template_nil spec field tmpl :
  check_template (known_keys spec) field tmpl = [] ↔
  template_ok (λ k, k ∈ builtinKeys ∨ k ∈ (Param_Name <$> Spec_Parameters spec)) tmpl.
Proof.
  unfold check_template, template_ok. destruct (ReferencedKeys tmpl) as [keys|e].
  - rewrite fmap_nil_iff, filter_nil_iff. unfold known_keys.
    setoid_rewrite elem_of_list_to_set. setoid_rewrite elem_of_app. split.
    + intros Hall. exists keys. split; [done|]. intros k Hk. apply dec_stable. by apply Hall.
    + intros (keys' & [= <-] & Hall) k Hk Hn. by apply Hn, Hall.
  - split; [done|]. by intros (? & ? & _).
Qed.

Lemma bind_nil {A B} (f : A → list B) l : l ≫= f = [] ↔ ∀ x, x ∈ l → f x = [].
Proof.
  induction l as [|a l IH]; simpl; [split; [by intros _ ? ?%elem_of_nil|done]|]. split.
  - intros [Ha Hl]%app_eq_nil x [->|Hx]%elem_of_cons; [done|]. by apply IH.
  - intros Hall. rewrite Hall by left. simpl. apply IH. intros x Hx. apply Hall. by right.
Qed.

Lemma validateTemplates_nil spec :
  validateTemplates spec = [] ↔
  ∀ tmpl, tmpl ∈ templates_of spec →
    template_ok (λ k, k ∈ builtinKeys ∨ k ∈ (Param_Name <$> Spec_Parameters spec)) tmpl.
Proof.
  unfold validateTemplates, templates_of. rewrite bind_nil. split.
  - intros Hall tmpl (ft & -> & Hft)%list_elem_of_fmap. eapply check_template_nil. by apply Hall.
  - intros Hall ft Hft. apply check_template_nil. apply Hall. by apply list_elem_of_fmap_2.
Qed.

Lemma file_problems_nil tokenMountPath seen f :
  file_problems tokenMountPath seen f = [] ↔
  ModePattern (or_default (File_Mode f) defaultFileMode) = true
  ∧ (File_Path f ∉ seen)
  ∧ HasPrefix (File_Path f) (tokenMountPath +:+ "/") = false.
Proof.
  unfold file_problems.
  destruct (ModePattern _); simpl; [|naive_solver].
  case_decide; [destruct (String.eqb _ _); naive_solver|].
  destruct (HasPrefix _ _); simpl; naive_solver.
Qed.

Lemma validate_files_nil tokenMountPath files : ∀ seen,
  validate_files tokenMountPath seen files = [] ↔
  (∀ f, f ∈ files → ModePattern (or_default (File_Mode f) defaultFileMode) = true)
  ∧ (∀ f, f ∈ files → HasPrefix (File_Path f) (tokenMountPath +:+ "/") = false)
  ∧ NoDup (File_Path <$> files) ∧ (∀ f, f ∈ files → (File_Path f ∉ seen)).
Proof.
  induction files as [|f files IH]; intros seen; simpl.
  { split; [|done]. intros _. split_and!; [by intros ? ?%elem_of_nil..|constructor|].
    by intros ? ?%elem_of_nil. }
  assert (Happ : ∀ (a b : list error), a ++ b = [] ↔ a = [] ∧ b = []).
  { intros [|? ?] ?; naive_solver. }
  rewrite Happ, file_problems_nil, IH, NoDup_cons. split.
  - intros ((Hm & Hs & Hp) & Hms & Hps & Hnd & Hse). split_and!.
    + by intros g [->|]%elem_of_cons; auto.
    + by intros g [->|]%elem_of_cons; auto.
    + intros (g & E & Hg)%list_elem_of_fmap. apply (Hse g Hg). rewrite <- E. set_solver.
    + done.
    + intros g [->|Hg]%elem_of_cons; [done|]. specialize (Hse g Hg). set_solver.
  - intros (Hm & Hp & [Hf Hnd] & Hs). split_and!; try (apply Hm || apply Hp || apply Hs; by left).
    + intros g Hg. apply Hm. by right.
    + intros g Hg. apply Hp. by right.
    + done.
    + intros g Hg. rewrite not_elem_of_union, not_elem_of_singleton. split.
      * intros E. apply Hf. rewrite <- E. by apply list_elem_of_fmap_2.
      * apply Hs. by right.
Qed.

Lemma validateShim_checked spec shimName :
  validateShim spec shimName = None ↔ shim_checked spec shimName.
Proof.
  unfold validateShim. rewrite errors_Join_None.
  assert (Hn : validateName shimName = None ↔ (len shimName ≤ 46)%Z).
  { unfold validateName, maxShimNameLength. destruct (Z.ltb_spec 46 (len shimName)); naive_solver lia. }
  assert (Hs : Selection.Validate (Selection spec) = None ↔ selectors_valid (Selection spec)).
  { rewrite <- compile_Ok_iff. unfold Selection.Validate.
    destruct (compile _); split; try done; [by eexists|by intros [? ?]]. }
  setoid_rewrite elem_of_cons. setoid_rewrite elem_of_cons. setoid_rewrite elem_of_cons.
  setoid_rewrite elem_of_cons. setoid_rewrite elem_of_cons. setoid_rewrite elem_of_cons.
  setoid_rewrite list_elem_of_singleton.
  transitivity (validateName shimName = None ∧ Params.Validate (Spec_Parameters spec) = None
    ∧ Selection.Validate (Selection spec) = None ∧ validateToken shimName (Spec_Token spec) = None
    ∧ validateHelper (Helper spec) = None ∧ validateTemplates spec = []
    ∧ validateFiles (Inject_Files (Inject spec))
        (Token_MountPath (ResolveToken shimName (Spec_Token spec))) = []).
  - rewrite <- !errors_Join_somes. naive_solver.
  - rewrite Hn, Validate_None_iff, Hs, validateToken_None, validateHelper_None,
      validateTemplates_nil. unfold validateFiles. rewrite validate_files_nil. split.
    + intros (? & ? & ? & ? & ? & ? & ? & ? & ? & Hseen). split; try done.
      apply NoDup_cons. split; [|done]. intros (f & E & Hf)%list_elem_of_fmap.
      apply (Hseen f Hf). rewrite <- E. by apply elem_of_singleton.
    + intros [? ? ? ? ? ? ? ? [Htp ?]%NoDup_cons]. split_and!; try done.
      intros f Hf E%elem_of_singleton. apply Htp. rewrite <- E. by apply list_elem_of_fmap_2.
Qed.

Lemma templates_of_spec spec tmpl :
  tmpl ∈ templates_of spec ↔
  tmpl = Audience spec ∨ tmpl ∈ ExtraAudiences spec
  ∨ tmpl ∈ (EnvSpec_Value <$> Inject_Env (Inject spec))
  ∨ tmpl ∈ (File_Content <$> Inject_Files (Inject spec)).
Proof.
  unfold templates_of, template_fields. rewrite !fmap_app, !elem_of_app, <- !list_fmap_compose.
  rewrite fmap_imap. cbn [fmap list_fmap snd].
  replace (imap (λ n, snd ∘ _) (ExtraAudiences spec)) with (ExtraAudiences spec).
  - rewrite list_elem_of_singleton. done.
  - apply list_eq. intros i. rewrite list_lookup_imap.
    by destruct (ExtraAudiences spec !! i).
Qed.

(** ** The checks are the rules *)

Lemma octal_mode_spec mode : ModePattern mode = true ↔ octal_mode mode.
Proof.
  assert (Hd : ∀ d, is_octal_digit d = true
    ↔ d ∈ ["0"; "1"; "2"; "3"; "4"; "5"; "6"; "7"]%char).
  { intros d. rewrite !elem_of_cons, elem_of_nil. split.
    - by destruct d as [[] [] [] [] [] [] [] []]; vm_compute; intros; tauto || discriminate.
    - by intros [->|[->|[->|[->|[->|[->|[->|[->|[]]]]]]]]]. }
  unfold octal_mode. setoid_rewrite Forall_cons. setoid_rewrite Forall_cons.
  setoid_rewrite Forall_singleton. setoid_rewrite <- Hd. split.
  - destruct mode as [|a [|b [|c [|d [|]]]]]; cbn [ModePattern]; try done;
      rewrite !andb_true_iff, ?Ascii.eqb_eq; intros Hm.
    + exists a, b, c. split; [tauto|by left].
    + exists b, c, d. split; [tauto|]. right. f_equal. tauto.
  - intros (a & b & c & (Ha & Hb & Hc) & [-> | ->]); cbn [ModePattern]; by rewrite Ha, Hb, Hc.
Qed.

Lemma octal_default mode dflt :
  ModePattern dflt = true →
  ModePattern (or_default mode dflt) = true ↔ mode = "" ∨ octal_mode mode.
Proof.
  intros Hd. unfold or_default. destruct (String.eqb_spec mode "") as [->|Hne]; simpl.
  - naive_solver.
  - rewrite octal_mode_spec. naive_solver.
Qed.

Lemma one_source_spec src : countSources src = 1 ↔ one_source src.
Proof.
  unfold countSources.
  destruct (Static src) eqn:E1, (String.eqb_spec (Annotation src) ""),
    (String.eqb_spec (Label src) ""), (ConfigMapKeyRef src) eqn:E4,
    (String.eqb_spec (Template src) ""); cbn;
  (split; [intros Hc; try discriminate Hc; eauto using one_source
          |intros []; done || (exfalso; unfold is_Some in *; naive_solver)]).
Qed.

Lemma template_ok_names known tmpl : template_ok known tmpl ↔ template_names known tmpl.
Proof. unfold template_ok. by rewrite template_names_keys. Qed.

Lemma params_wf_rules ps :
  params_wf ps ↔ NoDup (Param_Name <$> ps) ∧ ∀ i p, ps !! i = Some p →
    (Param_Name p ∉ builtin_names) ∧ one_source (ValueFrom p)
    ∧ (Template (ValueFrom p) ≠ "" → template_names (λ k, k ∈ builtin_names
         ∨ ∃ j q, j < i ∧ ps !! j = Some q ∧ Param_Name q = k) (Template (ValueFrom p))).
Proof.
  unfold params_wf. setoid_rewrite one_source_spec. setoid_rewrite template_ok_names. done.
Qed.

Lemma known_name_spec spec tmpl :
  template_ok (λ k, k ∈ builtinKeys ∨ k ∈ (Param_Name <$> Spec_Parameters spec)) tmpl
  ↔ template_names (known_name spec) tmpl.
Proof.
  rewrite <- template_ok_names. unfold template_ok, known_name.
  setoid_rewrite list_elem_of_fmap. split; intros (keys & Hk & Hall); exists keys;
    (split; [done|]); intros k Hin; destruct (Hall k Hin) as [?|(p & ? & ?)];
    [by left|right; by exists p|by left|right; by exists p].
Qed.

Lemma HasPrefix_false_iff s p : HasPrefix s p = false ↔ ∀ rest, s ≠ p +:+ rest.
Proof.
  rewrite <- not_true_iff_false. unfold HasPrefix. split.
  - intros Hn rest ->. apply Hn. induction p as [|c p IH]; simpl; [by destruct rest|].
    destruct (ascii_dec c c); [|done]. apply IH. intros Hp. by apply Hn; simpl; destruct (ascii_dec c c).
  - intros Hall Hp. revert s Hall Hp. induction p as [|c p IH]; intros s Hall Hp.
    + by apply (Hall s).
    + destruct s as [|d s]; [done|]. simpl in Hp. destruct (ascii_dec c d) as [->|]; [|done].
      apply (IH s); [|done]. intros rest ->. by apply (Hall rest).
Qed.

Lemma shim_checked_valid spec shimName : shim_checked spec shimName ↔ shim_valid spec shimName.
Proof.
  assert (Hdir : Token_MountPath (ResolveToken shimName (Spec_Token spec))
                 = token_directory spec shimName) by done.
  assert (Hout : (∀ f, f ∈ Inject_Files (Inject spec) →
      HasPrefix (File_Path f) (token_directory spec shimName +:+ "/") = false)
    ↔ ∀ f rest, f ∈ Inject_Files (Inject spec) →
        File_Path f ≠ token_directory spec shimName +:+ "/" +:+ rest).
  { setoid_rewrite HasPrefix_false_iff. setoid_rewrite string_app_assoc. naive_solver. }
  split.
  - intros [Hn Hp Hs Ht Hh Htm Hm Ho Hd]. apply params_wf_rules in Hp as [Hpn Hpr].
    rewrite Hdir in Ho, Hd. setoid_rewrite known_name_spec in Htm.
    setoid_rewrite templates_of_spec in Htm. setoid_rewrite octal_default in Hm; [|done].
    apply octal_default in Ht; [|done].
    split; try done; [by apply Htm; auto| | | |by apply Hout].
    + intros a Ha. apply Htm. auto.
    + intros e He. apply Htm. right. right. left. by apply list_elem_of_fmap_2.
    + intros f Hf. apply Htm. right. right. right. by apply list_elem_of_fmap_2.
  - intros [Hn Hpn Hpr Hs Ht Hh Ha Hx He Hc Hm Ho Hd]. split; rewrite ?Hdir; try done.
    + by apply params_wf_rules.
    + by apply octal_default.
    + intros tmpl [->|[?|[(e & -> & ?)%list_elem_of_fmap|(f & -> & ?)%list_elem_of_fmap]]]%templates_of_spec;
        apply known_name_spec; auto.
    + intros f Hf. apply octal_default; auto.
    + by apply Hout.
Qed.

Lemma validateShim_None spec shimName :
  validateShim spec shimName = None ↔ shim_valid spec shimName.
Proof. by rewrite validateShim_checked, shim_checked_valid. Qed.

(** C24. A shim passes validation exactly when: its name has at most 46 bytes; its parameters
    have distinct names, none of a builtin, exactly one source each, and templates that parse
    and mention only builtins and earlier parameters; its selectors convert; the token file
    mode and the modes of the files are unset or three octal digits after an optional zero;
    the pull policy is unset or one of the three; the audience, every extra audience, every
    variable and the content of every file parse as templates and mention (other than through
    a variable) only builtins and parameters; and the paths of the files are distinct, differ
    from the token directory and are not below it. *)
Theorem validate_shim_iff spec shimName :
  validateShim spec shimName = None ↔ shim_valid spec shimName.
Proof. apply validateShim_None. Qed.

(** Names derived from a name that passes fit the limits of the API server: containers,
    volumes, and the name part of labels and annotations have at most 63 characters. *)
Theorem derived_names_fit shimName :
  validateName shimName = None →
  ∀ n, n ∈ [initContainerName shimName; refreshContainerName shimName; configVolumeName shimName;
            defaultTokenVolumePrefix +:+ shimName; "shim-" +:+ shimName; "helper-conf-" +:+ shimName] →
    (len n ≤ 63)%Z.
Proof.
  unfold validateName, maxShimNameLength. destruct (Z.ltb_spec 46 (len shimName)) as [?|Hl]; [done|].
  intros _ n Hn. unfold len in Hl.
  assert (Hp : ∀ pre, (String.length pre ≤ 17)%nat → (len (pre +:+ shimName) ≤ 63)%Z).
  { intros pre Hpre. unfold len. rewrite string_app_length. lia. }
  repeat (apply elem_of_cons in Hn as [->|Hn]; [apply Hp; vm_compute; lia|]).
  by apply elem_of_nil in Hn.
Qed.

End validation.

Lemma derived_names_fit_witness : (len (refreshContainerName "gcp") ≤ 63)%Z.
Proof.
  apply (@derived_names_fit ascii_tables "gcp"); [vm_compute; reflexivity|]. right. left.
Defined.

(** ** Validated shims build *)

Section builds.
Context `{UnicodeTables} `{TextTemplate} `{LabelSelectors}.

(** The engine renders the template whenever the fields its tree mentions have values: nothing
    else in it can fail, such as a key read through a variable, an index out of range or a
    template that is not defined. *)
Definition key_safe (tmpl : string) : Prop :=
  ∀ name (values : gmap string string),
    template_names (λ k, is_Some (values !! k)) tmpl → is_Ok (Template.Render name tmpl values).

(** The templated fields of a spec. *)
Definition templated (spec : OIDCShimSpec) (tmpl : string) : Prop :=
  tmpl = Audience spec ∨ tmpl ∈ ExtraAudiences spec
  ∨ tmpl ∈ (EnvSpec_Value <$> Inject_Env (Inject spec))
  ∨ tmpl ∈ (File_Content <$> Inject_Files (Inject spec)).

Lemma resolved_keys inp values k :
  Resolve inp = Ok values →
  k ∈ builtinKeys ∨ k ∈ (Param_Name <$> In_Parameters inp) → is_Some (values !! k).
Proof.
  intros Hr Hk. apply elem_of_dom. unfold Resolve in Hr.
  rewrite (resolve_loop_dom _ _ _ _ Hr), builtin_values_dom, elem_of_union, !elem_of_list_to_set.
  done.
Qed.

(** Every templated field of a valid shim renders. *)
Lemma valid_renders spec shimName inp values name tmpl :
  shim_valid spec shimName → In_Parameters inp = Spec_Parameters spec →
  Resolve inp = Ok values → templated spec tmpl → key_safe tmpl →
  is_Ok (Template.Render name tmpl values).
Proof.
  intros Hv Hp Hr Ht Hs. apply Hs. apply template_names_keys.
  assert (Hnames : template_names (known_name spec) tmpl).
  { destruct Ht as [->|[?|[(e & -> & ?)%list_elem_of_fmap|(f & -> & ?)%list_elem_of_fmap]]];
      [by apply (sv_audience _ _ Hv)|by apply (sv_extra _ _ Hv)|by apply (sv_env _ _ Hv)
      |by apply (sv_content _ _ Hv)]. }
  apply template_names_keys in Hnames as (keys & Hk & Hall). exists keys. split; [done|].
  intros k Hin. apply (resolved_keys inp); [done|]. rewrite Hp.
  destruct (Hall k Hin) as [?|(q & ? & <-)]; [by left|right; by apply list_elem_of_fmap_2].
Qed.

Lemma mapM_result_from_is_Ok {E A B} (f : nat → A → result E B) l : ∀ i,
  (∀ j x, x ∈ l → is_Ok (f j x)) → is_Ok (mapM_result_from i f l).
Proof.
  induction l as [|x l IH]; intros i Hall; simpl; [by eexists|].
  destruct (Hall i x) as [y Hy]; [left|]. rewrite Hy. simpl.
  destruct (IH (S i)) as [ys Hys]; [intros j z Hz; apply Hall; by right|].
  rewrite Hys. simpl. by eexists.
Qed.

Lemma build_files_is_Ok name tok values files : ∀ seen i,
  (∀ f, f ∈ files → is_Ok (Template.Render "file" (File_Content f) values)) →
  (∀ f, f ∈ files → ModePattern (or_default (File_Mode f) defaultFileMode) = true) →
  (∀ f, f ∈ files → HasPrefix (File_Path f) (Token_MountPath tok +:+ "/") = false) →
  NoDup (File_Path <$> files) → (∀ f, f ∈ files → (File_Path f ∉ seen)) →
  is_Ok (build_files name tok values seen i files).
Proof.
  induction files as [|f files IH]; intros seen i Hr Hm Hp Hnd Hs; simpl; [by eexists|].
  apply NoDup_cons in Hnd as [Hf Hnd].
  assert (Hb : is_Ok (build_file name tok values seen i f)).
  { unfold build_file. destruct (Hr f) as [content ->]; [left|]. simpl.
    rewrite decide_False by (apply Hs; left). rewrite Hp by left.
    destruct (ModePattern_parses _ (Hm f ltac:(left))) as (v & Hv & _).
    unfold parseFileMode. rewrite Hv. simpl. by eexists. }
  destruct Hb as [r ->]. simpl.
  destruct (IH ({[File_Path f]} ∪ seen) (S i)) as [rs ->].
  - intros g Hg. apply Hr. by right.
  - intros g Hg. apply Hm. by right.
  - intros g Hg. apply Hp. by right.
  - done.
  - intros g Hg. rewrite not_elem_of_union, not_elem_of_singleton. split.
    + intros E. apply Hf. rewrite <- E. by apply list_elem_of_fmap_2.
    + apply Hs. by right.
  - simpl. by eexists.
Qed.

Lemma Clean_ne p : Clean p ≠ "".
Proof.
  unfold Clean. destruct (IsAbs p); [done|].
  destruct (String.eqb_spec (Join (reverse (foldl (clean_step false) [] (Split p "/"))) "/") "");
    done.
Qed.

Lemma path_Join_ne a b : b ≠ "" → path_Join [a; b] ≠ "".
Proof.
  intros Hb. unfold path_Join. destruct a; [destruct b; [done|]|]; apply Clean_ne.
Qed.

(** The helper configuration of a valid token renders for a non-empty audience. *)
Lemma valid_helper_conf spec shimName mountPath file audience extra :
  shim_valid spec shimName → file ≠ "" → audience ≠ "" →
  is_Ok (spiffeHelperConf mountPath file (ResolveToken shimName (Spec_Token spec)) audience extra).
Proof.
  intros Hv Hf Ha. eexists. apply Render_Ok_iff. split; [|done].
  split_and!; simpl; [by apply path_Join_ne|by apply or_default_ne|done|by apply or_default_ne|].
  right. apply octal_default; [done|]. apply (sv_token _ _ Hv).
Qed.

(** The effective socket file of a shim. *)
Definition socket_file (spec : OIDCShimSpec) (d : Defaults) : string :=
  spiffe_override spec SPIFFE_SocketFile (D_SocketFile d).

Lemma valid_shim_builds shim inp values d e :
  shim_valid (ShimSpec shim) (GetName shim) →
  (∀ tmpl, templated (ShimSpec shim) tmpl → key_safe tmpl) →
  In_Parameters inp = Spec_Parameters (ShimSpec shim) → Resolve inp = Ok values →
  socket_file (ShimSpec shim) d ≠ "" →
  BuildPlan shim values (ResolveToken (GetName shim) (Spec_Token (ShimSpec shim))) d = Err e →
  Template.Render "audience" (Audience (ShimSpec shim)) values = Ok ""
  ∨ ∃ bytes, (0 < D_MaxRenderedBytes d < bytes)%Z
    ∧ e = errorString (("injection: shim " +:+ Quote (GetName shim) +:+ ": ")
                       +:+ "rendered content is " +:+ Itoa bytes +:+ " bytes, exceeds the "
                       +:+ Itoa (D_MaxRenderedBytes d) +:+ " byte limit").
Proof.
  intros Hval Hsimple Hinp Hres Hsock Hb.
  assert (Hren : ∀ name tmpl, templated (ShimSpec shim) tmpl →
    is_Ok (Template.Render name tmpl values)).
  { intros name tmpl Ht. eapply valid_renders; try done. by apply Hsimple. }
  apply shim_checked_valid in Hval as Hchk.
  unfold BuildPlan in Hb. cbv zeta in Hb.
  destruct (Hren "audience" (Audience (ShimSpec shim))) as [aud Haud]; [by left|].
  destruct (String.eqb_spec aud "") as [->|Hne]; [by left|right].
  rewrite Haud in Hb. cbn [result_map_err result_bind] in Hb.
  match type of Hb with result_bind ?m _ = _ => assert (is_Ok m) as [extra Hx] end.
  { apply mapM_result_from_is_Ok. intros j a Ha. destruct (Hren "extraAudience" a) as [x ->];
      [by right; left|by eexists]. }
  rewrite Hx in Hb. cbn [result_bind] in Hb.
  match type of Hb with result_bind ?m _ = _ => assert (is_Ok m) as [env Henv] end.
  { apply mapM_result_from_is_Ok. intros j v Hv. destruct (Hren "env" (EnvSpec_Value v)) as [x ->].
    - right. right. left. by apply list_elem_of_fmap_2.
    - by eexists. }
  rewrite Henv in Hb. cbn [result_bind] in Hb.
  match type of Hb with result_bind ?m _ = _ => assert (is_Ok m) as [files Hfiles] end.
  { pose proof (sc_paths _ _ Hchk) as [Htp Hnd]%NoDup_cons. apply build_files_is_Ok; [| | |done|].
    - intros f Hf. apply Hren. right. right. right. by apply list_elem_of_fmap_2.
    - apply (sc_modes _ _ Hchk).
    - apply (sc_outside _ _ Hchk).
    - intros f Hf E%elem_of_singleton. apply Htp. rewrite <- E. by apply list_elem_of_fmap_2. }
  rewrite Hfiles in Hb. cbn [result_bind] in Hb.
  match type of Hb with context [spiffeHelperConf ?a ?b _ ?c ?e] =>
    destruct (valid_helper_conf (ShimSpec shim) (GetName shim) a b c e Hval Hsock Hne) as [conf Hc] end.
  rewrite Hc in Hb. cbn [result_map_err result_bind] in Hb.
  destruct (_ && _) eqn:Hsz; [|done]. injection Hb as <-.
  apply andb_true_iff in Hsz as [?%Z.ltb_lt ?%Z.ltb_lt].
  eexists. split; [split; eassumption|reflexivity].
Qed.

(** C15. A shim that passes validation is not skipped for a static reason.  For any template
    engine, a shim whose templates can fail only for a mentioned field without a value
    ([key_safe]), whose parameters resolved and whose socket file is not empty: building its
    plan can only fail because the rendered audience is empty or the rendered content exceeds
    the size limit. *)
Theorem validated_shim_builds shim inp values d e :
  validateShim (ShimSpec shim) (GetName shim) = None →
  (∀ tmpl, templated (ShimSpec shim) tmpl → key_safe tmpl) →
  In_Parameters inp = Spec_Parameters (ShimSpec shim) → Resolve inp = Ok values →
  socket_file (ShimSpec shim) d ≠ "" →
  BuildPlan shim values (ResolveToken (GetName shim) (Spec_Token (ShimSpec shim))) d = Err e →
  Template.Render "audience" (Audience (ShimSpec shim)) values = Ok ""
  ∨ ∃ bytes, (0 < D_MaxRenderedBytes d < bytes)%Z
    ∧ e = errorString (("injection: shim " +:+ Quote (GetName shim) +:+ ": ")
                       +:+ "rendered content is " +:+ Itoa bytes +:+ " bytes, exceeds the "
                       +:+ Itoa (D_MaxRenderedBytes d) +:+ " byte limit").
Proof. intros Hv%validateShim_None. by apply valid_shim_builds. Qed.

End builds.

(** Templates of text and field references are safe in the core engine. *)
Lemma simple_key_safe tmpl : simple_template tmpl = true → @key_safe core_templates tmpl.
Proof.
  intros Hs name values (keys & Hk & Hall)%template_names_keys. by eapply render_simple_ok.
Qed.

(** ** Concrete shims *)

Definition no_labels : LabelSelectors :=
  {| Selector := unit; LabelSelectorAsSelector := λ _, Ok tt; Selector_Matches := λ _ _, true |}.

(** The sample shim with a cap of ten bytes. *)
Definition small_defaults : Defaults :=
  {| D_HelperImage := D_HelperImage sample_defaults;
     D_HelperImagePullPolicy := D_HelperImagePullPolicy sample_defaults;
     D_CSIDriver := D_CSIDriver sample_defaults;
     D_SocketMountPath := D_SocketMountPath sample_defaults;
     D_SocketFile := D_SocketFile sample_defaults; D_MaxRenderedBytes := 10 |}.

Lemma sample_templates tmpl : templated sample_spec tmpl → @key_safe core_templates tmpl.
Proof.
  assert (Hall : Forall (λ tmpl, simple_template tmpl = true) (templates_of sample_spec))
    by (apply (bool_decide_unpack _); vm_compute; exact I).
  rewrite Forall_forall in Hall. intros Ht. apply simple_key_safe, Hall, templates_of_spec, Ht.
Qed.

Lemma validated_shim_builds_witness :
  @Template.Render core_templates "audience" (Audience sample_spec) sample_values = Ok ""
  ∨ ∃ bytes, (0 < 10 < bytes)%Z.
Proof.
  edestruct (@validated_shim_builds ascii_tables core_templates no_labels sample_shim sample_input sample_values
    small_defaults) as [Hl|(bytes & Hb & _)].
  - vm_compute. reflexivity.
  - apply sample_templates.
  - reflexivity.
  - vm_compute. reflexivity.
  - discriminate.
  - vm_compute. reflexivity.
  - left. exact Hl.
  - right. exists bytes. exact Hb.
Defined.

(** Validation and [BuildPlan] do not apply the same rule to file modes: a mode outside the
    pattern is reported as invalid and still injected, and a mode of eleven digits becomes a
    negative number. *)
Example mode_rules_differ :
  (∃ f, @validateFiles ascii_tables [f] "/t" ≠ []
     ∧ is_Ok (@build_file ascii_tables core_templates "gcp" sample_token sample_values
                {[Token_MountPath sample_token]} 0 f))
  ∧ @parseFileMode ascii_tables "37777777777" = Ok (-1)%Z.
Proof.
  split; [|vm_compute; reflexivity].
  exists {| File_Path := "/etc/app/key.json"; File_Content := "x"; File_Mode := "7777" |}.
  split; [vm_compute; discriminate|]. eexists. vm_compute. reflexivity.
Qed.

(** A name with a dot is a valid object name and passes, and gives a container name that is
    not a DNS label. *)
Example dotted_name_passes :
  @validateName ascii_tables "my.shim" = None
  ∧ ContainsByte (initContainerName "my.shim") "."%char = true.
Proof. split; reflexivity. Qed.

(** A key read through the root variable is not among the referenced keys, so a template that
    names an undefined parameter that way passes and fails to render. *)
Example root_variable_reference_passes :
  check_template (H := ascii_tables) (H0 := core_templates) ∅ "spec.audience" "{{ $.missing }}" = []
  ∧ ¬ is_Ok (@Template.Render core_templates "audience" "{{ $.missing }}" ∅).
Proof. split; [vm_compute; reflexivity|]. intros [v Hv]. vm_compute in Hv. discriminate Hv. Qed.
