(* ===== verification/Reconcile.v ===== *)
(** * The status controllers (src/internal/controller)

    [reconcileShim] validates a shim, writes the Ready condition and the number of pods that
    carry the shim's label, and asks to be called again.  The client, the pod list and
    [meta.SetStatusCondition] are library code. *)

From S2P Require Import Prelude GoStd GoStdFacts Kube Api SpiffeHelper Template GoTemplate Params Selection Plan Mutate MutateFacts Injection Validation.

(** ** The library interfaces *)

Record ListOptions := {
  LO_MatchingLabels : string * string;
  LO_Limit : Z;
  LO_InNamespace : option string;
  LO_ResourceVersion : string;
  LO_Continue : string }.

Record PodList := { PL_Items : list Pod; PL_Continue : string }.

(** The uncached reader and the status client. *)
Class StatusClient := {
  List_Pods : ListOptions → result error PodList;
  Status_Update : Shim → option error;
  Get_OIDCShim : string → string → result error OIDCShim;
  Get_ClusterOIDCShim : string → result error ClusterOIDCShim;
  Client_IsNotFound : error → bool }.

(** [meta.SetStatusCondition], with what its documentation promises: the condition of that
    type takes the given status, reason, message and generation, the others stay, and setting
    a condition that is already there changes nothing. *)
Definition find_condition (cs : list Condition) (type : string) : option Condition :=
  head (filter (λ c, Cond_Type c = type) cs).

Class ConditionsLib := {
  SetStatusCondition : list Condition → Condition → list Condition;
  SetStatusCondition_sets : ∀ cs c, ∃ c',
    find_condition (SetStatusCondition cs c) (Cond_Type c) = Some c'
    ∧ Cond_Status c' = Cond_Status c ∧ Cond_Reason c' = Cond_Reason c
    ∧ Cond_Message c' = Cond_Message c
    ∧ Cond_ObservedGeneration c' = Cond_ObservedGeneration c;
  SetStatusCondition_frame : ∀ cs c type, type ≠ Cond_Type c →
    find_condition (SetStatusCondition cs c) type = find_condition cs type;
  SetStatusCondition_idem : ∀ cs c,
    SetStatusCondition (SetStatusCondition cs c) c = SetStatusCondition cs c }.

Definition requeueInterval : Z := 5 * 60.
Definition podListPageSize : Z := 500.

Section reconcile.
Context `{UnicodeTables} `{TextTemplate} `{LabelSelectors} `{StatusClient} `{ConditionsLib}.

(** ** countMatchedPods *)

(** The label the count selects on. *)
Definition matching_label (shim : Shim) : string * string :=
  (ShimLabelKey (GetName shim),
   if IsClusterScoped shim then ShimLabelValueCluster else ShimLabelValueNamespaced).

Definition page_options (shim : Shim) (continueToken : string) : ListOptions :=
  {| LO_MatchingLabels := matching_label shim;
     LO_Limit := podListPageSize;
     LO_InNamespace := if negb (IsClusterScoped shim) then Some (GetNamespace shim) else None;
     LO_ResourceVersion := if String.eqb continueToken "" then "0" else "";
     LO_Continue := continueToken |}.

(** The loop over the pages, for at most [fuel] requests; [None] is running out of them. *)
Fixpoint count_loop (fuel : nat) (shim : Shim) (count : Z) (continueToken : string)
    : option (result error Z) :=
  match fuel with
  | 0 => None
  | S fuel' =>
      match List_Pods (page_options shim continueToken) with
      | Err err => Some (Err (wrapError ("listing pods of " +:+ ShimKey shim +:+ ": ") err))
      | Ok pods =>
          let count := (count + Z.of_nat (length (PL_Items pods)))%Z in
          if String.eqb (PL_Continue pods) "" then Some (Ok (int32 count))
          else count_loop fuel' shim count (PL_Continue pods)
      end
  end.
Definition countMatchedPods (fuel : nat) (shim : Shim) : option (result error Z) :=
  count_loop fuel shim 0 "".

(** ** reconcileShim *)

(** [ctrl.Result], the error, and the object passed to [Status().Update], if any. *)
Record Outcome := {
  Out_RequeueAfter : Z;
  Out_Error : option error;
  Out_Update : option Shim }.

Definition ready_condition (shim : Shim) : Condition :=
  match validateShim (ShimSpec shim) (GetName shim) with
  | None =>
      {| Cond_Type := ConditionReady; Cond_Status := ConditionTrue; Cond_Reason := ReasonValid;
         Cond_Message := ""; Cond_ObservedGeneration := GetGeneration shim;
         Cond_LastTransitionTime := 0 |}
  | Some err =>
      {| Cond_Type := ConditionReady; Cond_Status := ConditionFalse;
         Cond_Reason := ReasonInvalidSpec; Cond_Message := Error err;
         Cond_ObservedGeneration := GetGeneration shim; Cond_LastTransitionTime := 0 |}
  end.

(** The status after the call's assignments, given the outcome of the count. *)
Definition new_status (shim : Shim) (counted : result error Z) : OIDCShimStatus :=
  {| Conditions := SetStatusCondition (Conditions (ShimStatus shim)) (ready_condition shim);
     ObservedGeneration := GetGeneration shim;
     MatchedPods := match counted with
                    | Ok matched => Some matched
                    | Err _ => MatchedPods (ShimStatus shim)
                    end |}.

(** The end of the call: write the object [shim'] when its status changed, then report. *)
Definition reconcile_finish (shim shim' : Shim) (counted : result error Z) (changed : bool)
    : Outcome :=
  let update := if changed then Some shim' else None in
  match (if changed then Status_Update shim' else None) with
  | Some err =>
      {| Out_RequeueAfter := 0;
         Out_Error := Some (wrapError ("updating status of " +:+ ShimKey shim +:+ ": ") err);
         Out_Update := update |}
  | None =>
      match counted with
      | Err err => {| Out_RequeueAfter := 0; Out_Error := Some err; Out_Update := update |}
      | Ok _ => {| Out_RequeueAfter := requeueInterval; Out_Error := None; Out_Update := update |}
      end
  end.

Definition reconcileShim (fuel : nat) (shim : Shim) : option Outcome :=
  match countMatchedPods fuel shim with
  | None => None
  | Some counted =>
      let status := new_status shim counted in
      let changed := negb (bool_decide (ShimStatus shim = status)) in
      Some (reconcile_finish shim (set_ShimStatus status shim) counted changed)
  end.

(** The body of [Reconcile] once the object was read; a missing one is done. *)
Definition reconcile_read (fuel : nat) (read : result error Shim) : option Outcome :=
  match read with
  | Err err =>
      Some {| Out_RequeueAfter := 0;
              Out_Error := if Client_IsNotFound err then None else Some err;
              Out_Update := None |}
  | Ok shim => reconcileShim fuel shim
  end.

Definition read_OIDCShim (namespace name : string) : result error Shim :=
  let! s := Get_OIDCShim namespace name in Ok (ShimNamespaced s).
Definition read_ClusterOIDCShim (name : string) : result error Shim :=
  let! s := Get_ClusterOIDCShim name in Ok (ShimCluster s).

(** [Reconcile] of the two controllers. *)
Definition OIDCShim_Reconcile (fuel : nat) (namespace name : string) : option Outcome :=
  reconcile_read fuel (read_OIDCShim namespace name).
Definition ClusterOIDCShim_Reconcile (fuel : nat) (name : string) : option Outcome :=
  reconcile_read fuel (read_ClusterOIDCShim name).

(** ** The count *)

(** The pages the server hands out from a continue token on. *)
Inductive pages (shim : Shim) : string → list PodList → Prop :=
| pages_last tok p :
    List_Pods (page_options shim tok) = Ok p → PL_Continue p = "" → pages shim tok [p]
| pages_more tok p ps :
    List_Pods (page_options shim tok) = Ok p → PL_Continue p ≠ "" →
    pages shim (PL_Continue p) ps → pages shim tok (p :: ps).

Definition pods_on (ps : list PodList) : list Pod := ps ≫= PL_Items.

Lemma count_loop_pages shim tok ps : pages shim tok ps → ∀ fuel count,
  (length ps ≤ fuel)%nat →
  count_loop fuel shim count tok = Some (Ok (int32 (count + Z.of_nat (length (pods_on ps))))).
Proof.
  induction 1 as [tok p Hl Hc|tok p ps Hl Hc Hps IH]; intros [|fuel] count Hf; simpl in *; try lia.
  - rewrite Hl, Hc. simpl. unfold pods_on. simpl. by rewrite app_nil_r.
  - rewrite Hl. apply String.eqb_neq in Hc. rewrite Hc, IH by lia.
    unfold pods_on. simpl. rewrite length_app. do 3 f_equal. lia.
Qed.

(** C33. The count reads every page once and ends: however the server cuts its list into
    pages, as many requests as there are pages suffice, and the result is the number of pods
    on them, exactly as long as it fits an int32. *)
Theorem count_matched_pods_pages fuel shim ps :
  pages shim "" ps → (length ps ≤ fuel)%nat →
  countMatchedPods fuel shim = Some (Ok (int32 (Z.of_nat (length (pods_on ps)))))
  ∧ ((Z.of_nat (length (pods_on ps)) < 2 ^ 31)%Z →
     countMatchedPods fuel shim = Some (Ok (Z.of_nat (length (pods_on ps))))).
Proof.
  intros Hp Hf. unfold countMatchedPods. rewrite (count_loop_pages _ _ _ Hp) by done.
  split; [done|]. intros Hlt. do 2 f_equal. unfold int32, to_signed.
  rewrite Z.mod_small; lia.
Qed.

(** The controller counts the pods the webhook injected: a pod to which a plan of the
    shim was applied carries exactly the label the count selects on. *)
Theorem count_selects_injected shim values tok d plan pod plans :
  BuildPlan shim values tok d = Ok plan → plan ∈ (apply_pod pod plans).1.2 →
  Pod_Labels (apply_pod pod plans).1.1 !! (matching_label shim).1
  = Some (matching_label shim).2.
Proof.
  intros (Hn & _ & Hc & _)%BuildPlan_Ok Hin. apply apply_installed, in_label in Hin.
  rewrite Hn, Hc in Hin. exact Hin.
Qed.

(** ** The status *)

Lemma set_ShimStatus_frame st shim :
  GetName (set_ShimStatus st shim) = GetName shim
  ∧ GetNamespace (set_ShimStatus st shim) = GetNamespace shim
  ∧ GetGeneration (set_ShimStatus st shim) = GetGeneration shim
  ∧ ShimSpec (set_ShimStatus st shim) = ShimSpec shim
  ∧ IsClusterScoped (set_ShimStatus st shim) = IsClusterScoped shim
  ∧ ShimKey (set_ShimStatus st shim) = ShimKey shim
  ∧ ShimStatus (set_ShimStatus st shim) = st.
Proof. by destruct shim. Qed.

(** The stored object after the call, when the update succeeds. *)
Definition stored (shim : Shim) (out : Outcome) : Shim :=
  match Out_Update out with Some shim' => shim' | None => shim end.

Lemma reconcileShim_stored fuel shim out :
  reconcileShim fuel shim = Some out →
  ∃ counted, countMatchedPods fuel shim = Some counted
    ∧ stored shim out = set_ShimStatus (new_status shim counted) shim
    ∧ (Out_Update out = None ↔ ShimStatus shim = new_status shim counted).
Proof.
  unfold reconcileShim, reconcile_finish, stored. destruct (countMatchedPods fuel shim) as [counted|]; [|done].
  intros Hout. exists counted. split; [done|].
  destruct (bool_decide (ShimStatus shim = new_status shim counted)) eqn:Hb; simpl in Hout.
  - apply bool_decide_eq_true in Hb.
    assert (Hu : Out_Update out = None) by (by destruct counted; simplify_eq).
    rewrite Hu. split; [|done]. rewrite <- Hb. by destruct shim as [[]|[]].
  - apply bool_decide_eq_false in Hb.
    assert (Hu : Out_Update out = Some (set_ShimStatus (new_status shim counted) shim)).
    { by destruct (Status_Update _); [simplify_eq|destruct counted; simplify_eq]. }
    rewrite Hu. done.
Qed.

(** What a Ready condition says of the shim it is stored with. *)
Definition ready_tells (shim : Shim) (status : OIDCShimStatus) : Prop :=
  ∃ c, find_condition (Conditions status) ConditionReady = Some c
    ∧ Cond_ObservedGeneration c = GetGeneration shim
    ∧ (Cond_Status c = ConditionTrue ↔ shim_valid (ShimSpec shim) (GetName shim))
    ∧ (∀ err, validateShim (ShimSpec shim) (GetName shim) = Some err →
         Cond_Status c = ConditionFalse ∧ Cond_Reason c = ReasonInvalidSpec
         ∧ Cond_Message c = Error err).

Lemma new_status_ready shim counted : ready_tells shim (new_status shim counted).
Proof.
  assert (Hty : Cond_Type (ready_condition shim) = ConditionReady).
  { unfold ready_condition. by destruct (validateShim _ _). }
  destruct (SetStatusCondition_sets (Conditions (ShimStatus shim)) (ready_condition shim))
    as (c & Hf & Hcs & Hcr & Hcm & Hcg). rewrite Hty in Hf. exists c. split; [done|].
  pose proof (validateShim_None (ShimSpec shim) (GetName shim)) as Hv.
  unfold ready_condition in *.
  destruct (validateShim _ _) as [err|]; simpl in *; rewrite Hcs, Hcr, Hcm, Hcg.
  - split_and!; [done| |naive_solver]. split; [done|]. intros ?%Hv. done.
  - split_and!; [done| |done]. split; [|done]. intros _. by apply Hv.
Qed.

(** C30. The Ready condition tells the truth about the spec: after a reconciliation the stored
    status has a Ready condition that is True exactly when the shim is valid, carries the
    problems found otherwise, and is marked with the generation it was computed for; the spec
    and the other conditions are untouched. *)
Theorem reconcile_ready_iff fuel shim out :
  reconcileShim fuel shim = Some out →
  let shim' := stored shim out in
  ShimSpec shim' = ShimSpec shim
  ∧ ObservedGeneration (ShimStatus shim') = GetGeneration shim
  ∧ ready_tells shim (ShimStatus shim')
  ∧ (∀ type, type ≠ ConditionReady →
       find_condition (Conditions (ShimStatus shim')) type
       = find_condition (Conditions (ShimStatus shim)) type).
Proof.
  intros (counted & _ & -> & _)%reconcileShim_stored.
  destruct (set_ShimStatus_frame (new_status shim counted) shim) as (_ & _ & _ & Hs & _ & _ & Hst).
  cbv zeta. rewrite Hs, Hst. split_and!; [done|done|apply new_status_ready|].
  intros type Hne. apply SetStatusCondition_frame. unfold ready_condition.
  by destruct (validateShim _ _).
Qed.

(** C31. Reconciliation converges: reconciling the object just stored, with the same answers
    from the server, writes nothing. *)
Theorem reconcile_idempotent fuel shim out out' :
  reconcileShim fuel shim = Some out → reconcileShim fuel (stored shim out) = Some out' →
  Out_Update out' = None.
Proof.
  intros (counted & Hc & -> & _)%reconcileShim_stored Hagain.
  set (shim' := set_ShimStatus _ _) in *.
  destruct (set_ShimStatus_frame (new_status shim counted) shim) as (Hn & Hns & Hg & Hs & Hcl & Hk & Hst).
  fold shim' in Hn, Hns, Hg, Hs, Hcl, Hk, Hst.
  apply reconcileShim_stored in Hagain as (counted' & Hc' & _ & Hupd). apply Hupd.
  assert (Hcount : ∀ f n tok, count_loop f shim' n tok = count_loop f shim n tok).
  { induction f as [|f IH]; intros n tok; simpl; [done|].
    assert (page_options shim' tok = page_options shim tok) as ->
      by (unfold page_options, matching_label; by rewrite Hn, Hns, Hcl).
    destruct (List_Pods _) as [p|]; [|by rewrite Hk]. by destruct (String.eqb _ _). }
  assert (counted' = counted) as -> by (unfold countMatchedPods in *; congruence).
  rewrite Hst. unfold new_status at 2. rewrite Hst, Hg. unfold new_status. cbn [Conditions MatchedPods].
  assert (Hready : ready_condition shim' = ready_condition shim)
    by (unfold ready_condition; by rewrite Hs, Hn, Hg).
  rewrite Hready, SetStatusCondition_idem. by destruct counted.
Qed.

(** C32. Outcomes: a missing object is not an error and nothing is written; a failing count
    still stores the validation result, keeps the previous count and is returned so that the
    call is retried; otherwise the call is repeated after the interval. *)
Theorem reconcile_outcomes fuel run read :
  (∃ namespace name, run = OIDCShim_Reconcile fuel namespace name
                     ∧ read = read_OIDCShim namespace name)
  ∨ (∃ name, run = ClusterOIDCShim_Reconcile fuel name ∧ read = read_ClusterOIDCShim name) →
  (∀ err, read = Err err → Client_IsNotFound err = true →
     run = Some {| Out_RequeueAfter := 0; Out_Error := None; Out_Update := None |})
  ∧ (∀ shim err, read = Ok shim →
       countMatchedPods fuel shim = Some (Err err) → (∀ s, Status_Update s = None) →
       ∃ out, run = Some out ∧ Out_Error out = Some err
         ∧ MatchedPods (ShimStatus (stored shim out)) = MatchedPods (ShimStatus shim)
         ∧ ∃ c, find_condition (Conditions (ShimStatus (stored shim out))) ConditionReady = Some c
             ∧ Cond_Status c = Cond_Status (ready_condition shim))
  ∧ (∀ shim n, read = Ok shim →
       countMatchedPods fuel shim = Some (Ok n) → (∀ s, Status_Update s = None) →
       ∃ out, run = Some out ∧ Out_Error out = None
         ∧ Out_RequeueAfter out = requeueInterval
         ∧ MatchedPods (ShimStatus (stored shim out)) = Some n).
Proof.
  intros Hrun. assert (run = reconcile_read fuel read) as -> by naive_solver. clear Hrun.
  unfold reconcile_read. split_and!.
  - intros err -> Hnf. by rewrite Hnf.
  - intros shim err -> Hc Hu.
    assert (∃ out, reconcileShim fuel shim = Some out ∧ Out_Error out = Some err) as (out & Ho & He).
    { unfold reconcileShim, reconcile_finish. rewrite Hc, Hu. destruct (negb _); eauto. }
    exists out. split_and!; [done|done| |];
      apply reconcileShim_stored in Ho as (counted & Hc' & -> & _);
      (replace counted with (@Err error Z err) by congruence);
      destruct (set_ShimStatus_frame (new_status shim (Err err)) shim) as (_ & _ & _ & _ & _ & _ & ->);
      [done|].
    destruct (SetStatusCondition_sets (Conditions (ShimStatus shim)) (ready_condition shim))
      as (c & Hf & Hcs & _). exists c. split; [|done]. simpl. rewrite <- Hf. f_equal.
    unfold ready_condition. by destruct (validateShim _ _).
  - intros shim n -> Hc Hu.
    assert (∃ out, reconcileShim fuel shim = Some out ∧ Out_Error out = None
      ∧ Out_RequeueAfter out = requeueInterval) as (out & Ho & He & Hr).
    { unfold reconcileShim, reconcile_finish. rewrite Hc, Hu. destruct (negb _); eauto. }
    exists out. split_and!; [done|done|done|].
    apply reconcileShim_stored in Ho as (counted & Hc' & -> & _).
    replace counted with (@Ok error Z n) by congruence.
    by destruct (set_ShimStatus_frame (new_status shim (Ok n)) shim) as (_ & _ & _ & _ & _ & _ & ->).
Qed.

End reconcile.

(** ** A concrete condition list and server *)

Definition merge_condition (c x : Condition) : Condition :=
  if decide (Cond_Type x = Cond_Type c) then
    {| Cond_Type := Cond_Type c; Cond_Status := Cond_Status c;
       Cond_ObservedGeneration := Cond_ObservedGeneration c;
       Cond_LastTransitionTime :=
         if decide (Cond_Status x = Cond_Status c) then Cond_LastTransitionTime x
         else Cond_LastTransitionTime c;
       Cond_Reason := Cond_Reason c; Cond_Message := Cond_Message c |}
  else x.
Definition set_condition (cs : list Condition) (c : Condition) : list Condition :=
  if decide (Cond_Type c ∈ (Cond_Type <$> cs)) then merge_condition c <$> cs else cs ++ [c].

Lemma merge_condition_type c x : Cond_Type (merge_condition c x) = Cond_Type x.
Proof. unfold merge_condition. by case_decide. Qed.

Lemma merge_condition_idem c x : merge_condition c (merge_condition c x) = merge_condition c x.
Proof.
  unfold merge_condition. destruct (decide (Cond_Type x = Cond_Type c)); simpl.
  - destruct (decide (Cond_Type c = Cond_Type c)); [|done]. simpl.
    by destruct (decide (Cond_Status c = Cond_Status c)).
  - by rewrite decide_False.
Qed.

Lemma filter_merge type c (cs : list Condition) :
  filter (λ x, Cond_Type x = type) (merge_condition c <$> cs)
  = merge_condition c <$> filter (λ x, Cond_Type x = type) cs.
Proof.
  induction cs as [|x cs IH]; [done|]. rewrite fmap_cons, !filter_cons, merge_condition_type.
  case_decide; by rewrite IH.
Qed.

Lemma merge_condition_other type c (cs : list Condition) : type ≠ Cond_Type c →
  merge_condition c <$> filter (λ x, Cond_Type x = type) cs = filter (λ x, Cond_Type x = type) cs.
Proof.
  intros Hne. rewrite <- (list_fmap_id (filter _ cs)) at 2. apply list_fmap_ext. intros i x Hx.
  apply list_elem_of_lookup_2, list_elem_of_filter in Hx as [Hx _].
  unfold merge_condition. by rewrite decide_False by congruence.
Qed.

Definition simple_conditions : ConditionsLib.
Proof.
  refine {| SetStatusCondition := set_condition |}; unfold set_condition, find_condition.
  - intros cs c. case_decide as Hin.
    + rewrite filter_merge.
      destruct (filter (λ x, Cond_Type x = Cond_Type c) cs) as [|x l] eqn:Hf.
      { apply list_elem_of_fmap in Hin as (x & Hx & Hin). exfalso.
        by apply (filter_nil_not_elem_of _ _ x Hf). }
      assert (Hx : Cond_Type x = Cond_Type c).
      { assert (Hxin : x ∈ filter (λ x, Cond_Type x = Cond_Type c) cs) by (rewrite Hf; left).
        by apply list_elem_of_filter in Hxin as [? _]. }
      simpl. eexists. split; [done|]. unfold merge_condition. by rewrite decide_True.
    + rewrite filter_app, (proj2 (filter_nil_iff _ cs)).
      * simpl. rewrite filter_cons_True by done. simpl. by exists c.
      * intros x Hx E. apply Hin. rewrite <- E. by apply list_elem_of_fmap_2.
  - intros cs c type Hne. case_decide.
    + by rewrite filter_merge, merge_condition_other.
    + rewrite filter_app, filter_cons_False by congruence. by rewrite filter_nil, app_nil_r.
  - intros cs c. destruct (decide (Cond_Type c ∈ Cond_Type <$> cs)) as [Hin|Hin].
    + rewrite decide_True.
      * rewrite <- list_fmap_compose. apply list_fmap_ext. intros i x _. apply merge_condition_idem.
      * rewrite <- list_fmap_compose.
        rewrite (list_fmap_ext (Cond_Type ∘ merge_condition c) Cond_Type cs); [done|].
        intros i x _. apply merge_condition_type.
    + rewrite decide_True by (rewrite fmap_app, elem_of_app; right; left).
      rewrite fmap_app. f_equal.
      * rewrite <- (list_fmap_id cs) at 2. apply list_fmap_ext. intros i x Hx.
        unfold merge_condition. rewrite decide_False; [done|]. intros E. apply Hin.
        rewrite <- E. by eapply list_elem_of_fmap_2, list_elem_of_lookup_2.
      * simpl. unfold merge_condition. rewrite decide_True by done. rewrite decide_True by done.
        by destruct c.
Defined.

(** A server with three pods of the shim on two pages. *)
Definition paged_client : StatusClient :=
  {| List_Pods := λ opts,
       if String.eqb (LO_Continue opts) ""
       then Ok {| PL_Items := [sample_pod ∅; sample_pod ∅]; PL_Continue := "next" |}
       else Ok {| PL_Items := [sample_pod ∅]; PL_Continue := "" |};
     Status_Update := λ _, None;
     Get_OIDCShim := λ _ _, match sample_shim with
                            | ShimNamespaced s => Ok s
                            | ShimCluster _ => Err (errorString "not found")
                            end;
     Get_ClusterOIDCShim := λ _, Err (errorString "not found");
     Client_IsNotFound := λ _, false |}.

Lemma count_matched_pods_pages_witness :
  @countMatchedPods paged_client 2 sample_shim = Some (Ok 3%Z).
Proof.
  apply (@count_matched_pods_pages paged_client 2 sample_shim
    [ {| PL_Items := [sample_pod ∅; sample_pod ∅]; PL_Continue := "next" |};
      {| PL_Items := [sample_pod ∅]; PL_Continue := "" |} ]).
  - eapply pages_more; [reflexivity|discriminate|]. apply pages_last; reflexivity.
  - reflexivity.
  - reflexivity.
Defined.

Lemma count_selects_injected_witness :
  Pod_Labels (@apply_pod ascii_tables (sample_pod ∅) [sample_plan]).1.1
    !! ShimLabelKey "gcp" = Some "namespaced".
Proof.
  apply (@count_selects_injected ascii_tables core_templates sample_shim sample_values sample_token
           sample_defaults sample_plan (sample_pod ∅) [sample_plan]).
  - apply sample_plan_built.
  - vm_compute. left.
Defined.

Abbreviation sample_reconcile shim :=
  (@reconcileShim ascii_tables core_templates no_labels paged_client simple_conditions 2 shim).

Definition sample_outcome : Outcome :=
  match sample_reconcile sample_shim with
  | Some out => out
  | None => {| Out_RequeueAfter := 0; Out_Error := None; Out_Update := None |}
  end.

Lemma reconcile_ready_iff_witness :
  ObservedGeneration (ShimStatus (stored sample_shim sample_outcome)) = 1%Z.
Proof.
  apply (@reconcile_ready_iff ascii_tables core_templates no_labels paged_client simple_conditions
           2 sample_shim sample_outcome). vm_compute. reflexivity.
Defined.

Lemma reconcile_idempotent_witness :
  ∃ out', sample_reconcile (stored sample_shim sample_outcome) = Some out' ∧ Out_Update out' = None.
Proof.
  eexists. split; [vm_compute; reflexivity|].
  eapply (@reconcile_idempotent ascii_tables core_templates no_labels paged_client simple_conditions
           2 sample_shim sample_outcome); vm_compute; reflexivity.
Defined.

Lemma reconcile_outcomes_witness :
  ∃ out, @OIDCShim_Reconcile ascii_tables core_templates no_labels paged_client simple_conditions
           2 "my-app" "gcp" = Some out ∧ Out_Error out = None ∧ Out_RequeueAfter out = requeueInterval
         ∧ MatchedPods (ShimStatus (stored sample_shim out)) = Some 3%Z.
Proof.
  eapply (@reconcile_outcomes ascii_tables core_templates no_labels paged_client simple_conditions 2
           _ (@read_OIDCShim paged_client "my-app" "gcp"));
    [left; exists "my-app", "gcp"; split; reflexivity|reflexivity..].
Defined.
