(* ===== verification/ReconcileHeap.v ===== *)
(** * Reconciliation on memory (src/internal/controller/shim_reconcile.go)

    [Reconcile.reconcileShim] treats the shim as a value.  The code holds a pointer: it keeps
    [before := status.DeepCopy()], changes the status in place ([meta.SetStatusCondition]
    writes into the array of conditions), and writes the object only when [before] differs
    from what the status is by then.  Here the same steps run on memory.  The class
    [ShimObject] is the interface [Shim] as the call uses it; [reconcile_cached_refines] shows
    that on a deep copy of an informer's object the steps give the outcome of the value model
    and leave the informer's memory alone. *)

From S2P Require Import Prelude GoStd GoStdFacts Kube Api GoHeap DeepCopy SpiffeHelper Template GoTemplate Params Selection Plan Validation Reconcile.

(** ** The interface *)

(** A shim in memory: its status, the rest of it, and its [DeepCopyInto], which copies the
    conditions into memory that nothing else of the copy refers to. *)
Class ShimObject `{LibCopies} (T : Type) `{Storable cell T, GoZero T} := {
  mem_status : T → OIDCShimStatus_mem;
  mem_set_status : OIDCShimStatus_mem → T → T;
  view_rest : heap cell → T → option (OIDCShimStatus → Shim);
  mem_DeepCopyInto : T → go cell T;
  mem_status_set : ∀ st m, mem_status (mem_set_status st m) = st;
  view_rest_set : ∀ h st m, view_rest h (mem_set_status st m) = view_rest h m;
  view_rest_mono : ∀ h h' m b, h ⊆ h' → view_rest h m = Some b → view_rest h' m = Some b;
  view_rest_status : ∀ h m b st st', view_rest h m = Some b →
    ShimStatus (b st) = st ∧ set_ShimStatus st' (b st) = b st';
  mem_DeepCopyInto_ok : ∀ h m b cs mp,
    view_rest h m = Some b → view h (m_Conditions (mem_status m)) = Some cs →
    view h (m_MatchedPods (mem_status m)) = Some mp →
    adds h (mem_DeepCopyInto m) (λ m' hn, ∃ hc hr, hn = hc ∪ hr ∧ hc ##ₘ hr
      ∧ view hc (m_Conditions (mem_status m')) = Some cs
      ∧ view hr (m_MatchedPods (mem_status m')) = Some mp
      ∧ m_ObservedGeneration (mem_status m') = m_ObservedGeneration (mem_status m)
      ∧ view_rest hr m' = Some b) }.

(** [meta.SetStatusCondition] on memory, with its documented effect: it works on the memory of
    the list it is given and on new memory. *)
Class ConditionsMem `{LibCopies} `{ConditionsLib} := {
  SetStatusCondition_mem : slice Condition_mem → Condition → go cell (slice Condition_mem);
  SetStatusCondition_mem_ok : ∀ h hf s cs c,
    view h s = Some cs → h ##ₘ hf →
    ∃ s' h', SetStatusCondition_mem s c (h ∪ hf) = Some (s', h' ∪ hf) ∧ h' ##ₘ hf
      ∧ view h' s' = Some (SetStatusCondition cs c) }.

Definition with_Conditions `{LibLayouts} (s : slice Condition_mem) (st : OIDCShimStatus_mem)
    : OIDCShimStatus_mem :=
  {| m_Conditions := s; m_ObservedGeneration := m_ObservedGeneration st;
     m_MatchedPods := m_MatchedPods st |}.
Definition with_ObservedGeneration `{LibLayouts} (g : Z) (st : OIDCShimStatus_mem)
    : OIDCShimStatus_mem :=
  {| m_Conditions := m_Conditions st; m_ObservedGeneration := g;
     m_MatchedPods := m_MatchedPods st |}.
Definition with_MatchedPods `{LibLayouts} (p : ptr Z) (st : OIDCShimStatus_mem)
    : OIDCShimStatus_mem :=
  {| m_Conditions := m_Conditions st; m_ObservedGeneration := m_ObservedGeneration st;
     m_MatchedPods := p |}.

(** ** The steps *)

Section steps.
Context `{UnicodeTables} `{TextTemplate} `{LabelSelectors} `{StatusClient}.
Context `{ConditionsMem} `{Storable cell T, GoZero T, !ShimObject T}.
Implicit Types h : heap cell.

(** Reads and writes through the pointer [shim.ShimStatus()] into the object at [l]. *)
Definition get_status (l : loc) : go cell OIDCShimStatus_mem :=
  reads (λ h, m ← lookup_cell h l; Some (mem_status (m : T))).
Definition set_status (l : loc) (f : OIDCShimStatus_mem → OIDCShimStatus_mem) : go cell () :=
  m ← load l; store l (mem_set_status (f (mem_status m)) (m : T)).

(** The value of the object, for the calls that only read it. *)
Definition view_shim h (m : T) : option Shim :=
  b ← view_rest h m; st ← view h (mem_status m); Some (b st).
Definition read_shim (l : loc) : go cell Shim :=
  reads (λ h, m ← lookup_cell h l; view_shim h m).

Definition reconcileShim_mem (fuel : nat) (l : loc) : go cell (option Outcome) :=
  before ← copy_ref OIDCShimStatus_DeepCopyInto (get_status l);
  shim ← read_shim l;
  status ← get_status l;
  conditions ← SetStatusCondition_mem (m_Conditions status) (ready_condition shim);
  _ ← set_status l (with_Conditions conditions);
  _ ← set_status l (with_ObservedGeneration (GetGeneration shim));
  match countMatchedPods fuel shim with
  | None => mret None
  | Some counted =>
      _ ← match counted with
          | Ok matched => p ← alloc matched; set_status l (with_MatchedPods (Ptr p))
          | Err _ => mret ()
          end;
      before ← reads (λ h, view h before);
      shim' ← read_shim l;
      let changed := negb (bool_decide (before = Some (ShimStatus shim'))) in
      mret (Some (reconcile_finish shim shim' counted changed))
  end.

(** [Reconcile] of either controller, given what the informer's cache answers: an error, or the
    object it holds, of which the client's [Get] hands out a deep copy. *)
Definition reconcile_cached (fuel : nat) (cached : result error (ptr T)) : go cell (option Outcome) :=
  match cached with
  | Err err => mret (reconcile_read fuel (Err err))
  | Ok p =>
      p' ← copy_ptr mem_DeepCopyInto p;
      match p' with
      | nil_ptr => panic
      | Ptr l => reconcileShim_mem fuel l
      end
  end.

(** What the cache's answer denotes. *)
Definition cached_value h (cached : result error (ptr T)) (read : result error Shim) : Prop :=
  match cached, read with
  | Ok (Ptr p), Ok shim => ∃ m : T, lookup_cell h p = Some m ∧ view_shim h m = Some shim
  | Err err, Err err' => err = err'
  | _, _ => False
  end.
End steps.

(** ** The two kinds implement the interface *)

Section objects.
Context `{LibCopies}.
Implicit Types h : heap cell.

Lemma OIDCShimStatus_DeepCopyInto_parts h st cs mp :
  view h (m_Conditions st) = Some cs → view h (m_MatchedPods st) = Some mp →
  adds h (OIDCShimStatus_DeepCopyInto st) (λ st' hn, ∃ hc hr, hn = hc ∪ hr ∧ hc ##ₘ hr
    ∧ view hc (m_Conditions st') = Some cs ∧ view hr (m_MatchedPods st') = Some mp
    ∧ m_ObservedGeneration st' = m_ObservedGeneration st).
Proof.
  intros Hcs Hmp. unfold OIDCShimStatus_DeepCopyInto.
  eapply adds_copy; [apply copy_slice_deep_copies, Condition_DeepCopyInto_ok|exact Hcs|done|].
  intros s hc Hdc Hvc.
  eapply adds_copy; [apply copy_ptr_deep_copies, copy_plain_deep_copies|exact Hmp|sub_union|].
  intros p hr Hdr Hvr. apply adds_ret. exists hc, hr. rewrite (right_id_L ∅ (∪)).
  split_and!; try done. disjoint_parts.
Qed.

(** What both kinds do after their metadata: copy a spec with [c], then the status. *)
Lemma copy_object_parts {M A B} `{!View cell M A} (c : M → go cell M) h meta spec st vm vs cs mp
    (build : ObjectMeta_mem → M → OIDCShimStatus_mem → B) (P : B → heap cell → Prop) :
  deep_copies c → view h meta = Some vm → view h spec = Some vs →
  view h (m_Conditions st) = Some cs → view h (m_MatchedPods st) = Some mp →
  (∀ meta' spec' st' hc hr, hc ##ₘ hr → view hr meta' = Some vm → view hr spec' = Some vs →
     view hc (m_Conditions st') = Some cs → view hr (m_MatchedPods st') = Some mp →
     m_ObservedGeneration st' = m_ObservedGeneration st → P (build meta' spec' st') (hc ∪ hr)) →
  adds h (meta' ← ObjectMeta_DeepCopyInto meta; spec' ← c spec;
          st' ← OIDCShimStatus_DeepCopyInto st; mret (build meta' spec' st')) P.
Proof.
  intros Hc Hm Hs Hcs Hmp HP.
  eapply adds_copy; [apply ObjectMeta_DeepCopyInto_ok|exact Hm|done|]. intros meta' h1 Hd1 Hm'.
  eapply adds_copy; [exact Hc|exact Hs|sub_union|]. intros spec' h2 Hd2 Hs'.
  eapply adds_bind.
  { apply OIDCShimStatus_DeepCopyInto_parts; (eapply view_mono; [|eassumption]); sub_union. }
  intros st' hn Hdn (hc & hr & -> & Hd & Hvc & Hvr & Hg). apply adds_ret.
  rewrite (right_id_L ∅ (∪)).
  rewrite (heap_union_swap h2), (heap_union_swap h1) by disjoint_parts.
  apply HP; [disjoint_parts|..|exact Hvc| |exact Hg];
    (eapply view_mono; [|eassumption]); sub_union.
Qed.

#[global] Instance OIDCShim_object : ShimObject OIDCShim_mem.
Proof.
  refine {| mem_status := n_Status;
            mem_set_status st m := {| n_TypeMeta := n_TypeMeta m; n_ObjectMeta := n_ObjectMeta m;
                                      n_Spec := n_Spec m; n_Status := st |};
            view_rest h m := meta ← view h (n_ObjectMeta m); spec ← view h (n_Spec m);
                             Some (λ st, ShimNamespaced (Build_OIDCShim meta spec st));
            mem_DeepCopyInto := OIDCShim_DeepCopyInto |}; [done|done|struct_mono| |].
  - intros h m b st st' Hv. inv_reads Hv. by injection Hv as <-.
  - intros h m b cs mp Hv Hcs Hmp. inv_reads Hv. injection Hv as <-.
    apply (copy_object_parts OIDCShimSpec_DeepCopyInto h _ _ _ a a0 cs mp
             (Build_OIDCShim_mem (n_TypeMeta m))); [apply OIDCShimSpec_DeepCopyInto_ok|done..|].
    intros. exists hc, hr. simpl. split_and!; try done. by simplify_option_eq.
Defined.

#[global] Instance ClusterOIDCShim_object : ShimObject ClusterOIDCShim_mem.
Proof.
  refine {| mem_status := c_Status;
            mem_set_status st m := {| c_TypeMeta := c_TypeMeta m; c_ObjectMeta := c_ObjectMeta m;
                                      c_Spec := c_Spec m; c_Status := st |};
            view_rest h m := meta ← view h (c_ObjectMeta m); spec ← view h (c_Spec m);
                             Some (λ st, ShimCluster (Build_ClusterOIDCShim meta spec st));
            mem_DeepCopyInto := ClusterOIDCShim_DeepCopyInto |}; [done|done|struct_mono| |].
  - intros h m b st st' Hv. inv_reads Hv. by injection Hv as <-.
  - intros h m b cs mp Hv Hcs Hmp. inv_reads Hv. injection Hv as <-.
    apply (copy_object_parts ClusterOIDCShimSpec_DeepCopyInto h _ _ _ a a0 cs mp
             (Build_ClusterOIDCShim_mem (c_TypeMeta m)));
      [apply ClusterOIDCShimSpec_DeepCopyInto_ok|done..|].
    intros. exists hc, hr. simpl. split_and!; try done. by simplify_option_eq.
Defined.
End objects.

(** ** The steps refine the value model *)

Section refinement.
Context `{UnicodeTables} `{TextTemplate} `{LabelSelectors} `{StatusClient}.
Context `{ConditionsMem} `{Storable cell T, GoZero T, !ShimObject T}.
Implicit Types h : heap cell.

(** The object [m] lies at [l]; its conditions are in [hc], which nothing else refers to; all
    the rest is in [hf]. *)
Record holds h (l : loc) (m : T) (hc hf : heap cell) cs g mp (b : OIDCShimStatus → Shim) : Prop := {
  ho_heap : h = <[l := to_cell m]> (hc ∪ hf);
  ho_disj : hc ##ₘ hf;
  ho_hc : hc !! l = None;
  ho_hf : hf !! l = None;
  ho_cs : view hc (m_Conditions (mem_status m)) = Some cs;
  ho_g : m_ObservedGeneration (mem_status m) = g;
  ho_mp : view hf (m_MatchedPods (mem_status m)) = Some mp;
  ho_rest : view_rest hf m = Some b }.

Lemma holds_hc h l m hc hf cs g mp b : holds h l m hc hf cs g mp b → hc ⊆ h.
Proof.
  intros []. subst h. etrans; [apply map_union_subseteq_l|]. apply insert_subseteq.
  by apply lookup_union_None.
Qed.
Lemma holds_hf h l m hc hf cs g mp b : holds h l m hc hf cs g mp b → hf ⊆ h.
Proof.
  intros []. subst h. etrans; [by apply map_union_subseteq_r|]. apply insert_subseteq.
  by apply lookup_union_None.
Qed.

Lemma holds_cell h l m hc hf cs g mp b : holds h l m hc hf cs g mp b → lookup_cell h l = Some m.
Proof. intros []. subst h. apply lookup_cell_insert. Qed.

Lemma holds_status h l m hc hf cs g mp b : holds h l m hc hf cs g mp b →
  view h (mem_status m) = Some (Build_OIDCShimStatus cs g mp).
Proof.
  intros Ho. unfold view, View_OIDCShimStatus at 1. unfold view_OIDCShimStatus.
  rewrite (view_mono hc h _ _ (holds_hc _ _ _ _ _ _ _ _ _ Ho) (ho_cs _ _ _ _ _ _ _ _ _ Ho)). simpl.
  rewrite (view_mono hf h _ _ (holds_hf _ _ _ _ _ _ _ _ _ Ho) (ho_mp _ _ _ _ _ _ _ _ _ Ho)). simpl.
  by rewrite (ho_g _ _ _ _ _ _ _ _ _ Ho).
Qed.

Lemma holds_view h l m hc hf cs g mp b : holds h l m hc hf cs g mp b →
  view_shim h m = Some (b (Build_OIDCShimStatus cs g mp)).
Proof.
  intros Ho. unfold view_shim.
  rewrite (view_rest_mono hf h _ _ (holds_hf _ _ _ _ _ _ _ _ _ Ho) (ho_rest _ _ _ _ _ _ _ _ _ Ho)).
  simpl. by rewrite (holds_status _ _ _ _ _ _ _ _ _ Ho).
Qed.

Lemma get_status_step h l m hc hf cs g mp b h' : holds h l m hc hf cs g mp b → h ⊆ h' →
  get_status l h' = Some (mem_status m, h').
Proof.
  intros Ho Hsub. apply reads_step.
  by rewrite (lookup_cell_weaken _ _ _ _ (holds_cell _ _ _ _ _ _ _ _ _ Ho) Hsub).
Qed.

Lemma read_shim_step h l m hc hf cs g mp b : holds h l m hc hf cs g mp b →
  read_shim l h = Some (b (Build_OIDCShimStatus cs g mp), h).
Proof.
  intros Ho. apply reads_step. rewrite (holds_cell _ _ _ _ _ _ _ _ _ Ho). simpl.
  by apply holds_view in Ho.
Qed.

(** Cells added elsewhere belong to the rest. *)
Lemma holds_add h l m hc hf cs g mp b hn : holds h l m hc hf cs g mp b → h ##ₘ hn →
  holds (h ∪ hn) l m hc (hf ∪ hn) cs g mp b.
Proof.
  intros [-> Hd Hc Hf Hcs Hg Hmp Hr] Hdn.
  apply map_disjoint_insert_l in Hdn as [Hl Hdn].
  assert (hf ⊆ hf ∪ hn) by apply map_union_subseteq_l.
  split; [by rewrite <- insert_union_l, (assoc_L (∪))|disjoint_parts|done| |done|done| |].
  - by apply lookup_union_None.
  - by eapply view_mono.
  - by eapply view_rest_mono.
Qed.

Lemma set_status_step (m : T) l (hr : heap cell) f :
  set_status l f (<[l := to_cell m]> hr)
  = Some ((), <[l := to_cell (mem_set_status (f (mem_status m)) m)]> hr).
Proof.
  unfold set_status. rewrite (go_bind_step _ _ _ _ _ (load_step _ _ _ (lookup_cell_insert _ _ _))).
  rewrite (store_step _ _ _ _ (lookup_cell_insert _ _ _)). by rewrite insert_insert_eq.
Qed.

Lemma holds_set (m : T) l hc hf st cs g mp b :
  hc ##ₘ hf → hc !! l = None → hf !! l = None → view hc (m_Conditions st) = Some cs →
  m_ObservedGeneration st = g → view hf (m_MatchedPods st) = Some mp →
  view_rest hf m = Some b →
  holds (<[l := to_cell (mem_set_status st m)]> (hc ∪ hf)) l (mem_set_status st m)
    hc hf cs g mp b.
Proof.
  intros. split; [done|done|done|done|by rewrite mem_status_set..|by rewrite view_rest_set].
Qed.

(** The three writes to the status. *)
Lemma set_conditions_step h l m hc hf cs g mp b c : holds h l m hc hf cs g mp b →
  ∃ s' h1 h' m' hc', SetStatusCondition_mem (m_Conditions (mem_status m)) c h = Some (s', h1)
    ∧ set_status l (with_Conditions s') h1 = Some ((), h')
    ∧ holds h' l m' hc' hf (SetStatusCondition cs c) g mp b.
Proof.
  intros [-> Hd Hc Hf Hcs Hg Hmp Hr].
  assert (Hdl : hc ##ₘ <[l := to_cell m]> hf) by by apply map_disjoint_insert_r_2.
  destruct (SetStatusCondition_mem_ok hc _ _ cs c Hcs Hdl) as (s' & hc' & Hrun & Hd' & Hcs').
  rewrite <- insert_union_r in Hrun by done.
  apply map_disjoint_insert_r in Hd' as [Hl Hd'].
  rewrite <- insert_union_r in Hrun by done.
  eexists s', _, _, _, hc'. split; [exact Hrun|]. split; [apply set_status_step|].
  by apply holds_set.
Qed.

Lemma set_generation_step h l m hc hf cs g mp b g' : holds h l m hc hf cs g mp b →
  ∃ h' m', set_status l (with_ObservedGeneration g') h = Some ((), h')
    ∧ holds h' l m' hc hf cs g' mp b.
Proof.
  intros [-> Hd Hc Hf Hcs Hg Hmp Hr]. do 2 eexists. split; [apply set_status_step|].
  by apply holds_set.
Qed.

Lemma set_matched_step h l m hc hf cs g mp b (n : Z) : holds h l m hc hf cs g mp b →
  ∃ h' m' hf', (p ← alloc n; set_status l (with_MatchedPods (Ptr p))) h = Some ((), h')
    ∧ hf ⊆ hf' ∧ holds h' l m' hc hf' cs g (Some n) b.
Proof.
  intros Ho. destruct (alloc_step n h) as (lp & Hlp & Ha).
  rewrite (go_bind_step _ _ _ _ _ Ha).
  assert (h ##ₘ {[lp := to_cell n]}) as Hd by by apply map_disjoint_singleton_r_2.
  apply (holds_add _ _ _ _ _ _ _ _ _ _ Ho) in Hd.
  rewrite <- insert_union_singleton_r in Hd by done.
  destruct Hd as [Hh Hd Hc Hf Hcs Hg Hmp Hr]. rewrite Hh.
  do 3 eexists. split_and!; [apply set_status_step|apply map_union_subseteq_l|].
  apply holds_set; [done|done|done|done|done| |done]. apply view_Ptr. exists n, n. split_and!; [done| |done].
  unfold lookup_cell. rewrite lookup_union_r, lookup_singleton_eq; [apply of_to_cell|].
  destruct Ho as [-> _ _ _ _ _ _ _]. apply lookup_insert_None in Hlp as [Hlp _].
  by apply lookup_union_None in Hlp as [_ ?].
Qed.

(** The step after the count. *)
Lemma set_counted_step h l m hc hf cs g mp b (counted : result error Z) : holds h l m hc hf cs g mp b →
  ∃ h' m' hf',
    (match counted with
     | Ok matched => p ← alloc matched; set_status l (with_MatchedPods (Ptr p))
     | Err _ => mret ()
     end : go cell ()) h = Some ((), h')
    ∧ hf ⊆ hf'
    ∧ holds h' l m' hc hf' cs g (match counted with Ok n => Some n | Err _ => mp end) b.
Proof.
  intros Ho. destruct counted as [n|e]; [by eapply set_matched_step|].
  exists h, m, hf. done.
Qed.

(** What the value model does with the status the steps arrive at. *)
Lemma reconcile_finish_value fuel b st counted st' :
  (∀ x y, ShimStatus (b x) = x ∧ set_ShimStatus y (b x) = b y) →
  st' = new_status (b st) counted → countMatchedPods fuel (b st) = Some counted →
  reconcileShim fuel (b st)
  = Some (reconcile_finish (b st) (b st') counted
            (negb (bool_decide (Some st = Some (ShimStatus (b st'))))))
  ∧ ∀ out, reconcileShim fuel (b st) = Some out → stored (b st) out = b st'.
Proof.
  intros Hb -> Hc. split.
  - unfold reconcileShim. rewrite Hc. cbv zeta.
    rewrite (proj2 (Hb st _)), (proj1 (Hb st st)), (proj1 (Hb (new_status _ _) st)).
    do 3 f_equal. apply bool_decide_ext. split; congruence.
  - intros out (counted' & Hc' & -> & _)%reconcileShim_stored.
    assert (counted' = counted) as -> by congruence. by apply Hb.
Qed.

(** The object in memory after the call is the one the value model stores. *)
Lemma reconcileShim_mem_refines fuel h l m hc hf cs g mp b :
  holds h l m hc hf cs g mp b →
  let shim := b (Build_OIDCShimStatus cs g mp) in
  ∃ h', reconcileShim_mem fuel l h = Some (reconcileShim fuel shim, h') ∧ hf ⊆ h'
    ∧ ∀ out, reconcileShim fuel shim = Some out →
        ∃ m', lookup_cell h' l = Some m' ∧ view_shim h' m' = Some (stored shim out).
Proof.
  intros Ho shim. set (st := Build_OIDCShimStatus cs g mp) in *.
  assert (Hb : ∀ x y, ShimStatus (b x) = x ∧ set_ShimStatus y (b x) = b y).
  { intros x y. eapply view_rest_status. apply (ho_rest _ _ _ _ _ _ _ _ _ Ho). }
  destruct (copy_ref_deep_copies OIDCShimStatus_DeepCopyInto (get_status l) h (mem_status m) st)
    as (before & hb & Hbefore & Hd & Hvb);
    [apply OIDCShimStatus_DeepCopyInto_ok|eauto using get_status_step|by eapply holds_status|].
  pose proof (holds_add _ _ _ _ _ _ _ _ _ _ Ho Hd) as Ho1.
  destruct (set_conditions_step _ _ _ _ _ _ _ _ _ (ready_condition shim) Ho1)
    as (s' & h1 & h2 & m2 & hc2 & Hset & Hst & Ho2).
  destruct (set_generation_step _ _ _ _ _ _ _ _ _ (GetGeneration shim) Ho2) as (h3 & m3 & Hgen & Ho3).
  unfold reconcileShim_mem. rewrite (go_bind_step _ _ _ _ _ Hbefore).
  rewrite (go_bind_step _ _ _ _ _ (read_shim_step _ _ _ _ _ _ _ _ _ Ho1)).
  rewrite (go_bind_step _ _ _ _ _ (get_status_step _ _ _ _ _ _ _ _ _ _ Ho1 (reflexivity _))).
  fold st shim. rewrite (go_bind_step _ _ _ _ _ Hset), (go_bind_step _ _ _ _ _ Hst),
    (go_bind_step _ _ _ _ _ Hgen).
  assert (Hhf : hf ⊆ hf ∪ hb) by apply map_union_subseteq_l.
  destruct (countMatchedPods fuel shim) as [counted|] eqn:Hcount.
  2: { unfold reconcileShim. rewrite Hcount. exists h3.
       split_and!; [done|etrans; [exact Hhf|by eapply holds_hf]|done]. }
  destruct (set_counted_step _ _ _ _ _ _ _ _ _ counted Ho3) as (h4 & m4 & hf4 & Hcnt & Hsub & Ho4).
  assert (Hsub4 : hf ∪ hb ⊆ h4) by (etrans; [exact Hsub|by eapply holds_hf]).
  destruct (reconcile_finish_value fuel b st counted _ Hb eq_refl Hcount) as [Hvalue Hstored].
  assert (Hnew : Build_OIDCShimStatus (SetStatusCondition cs (ready_condition shim))
            (GetGeneration shim) (match counted with Ok n => Some n | Err _ => mp end)
          = new_status shim counted).
  { unfold new_status. assert (ShimStatus shim = st) as -> by apply (Hb st st). by destruct counted. }
  exists h4. rewrite (go_bind_step _ _ _ _ _ Hcnt), (go_bind_step _ _ _ (Some st) h4).
  2: { apply reads_step. eapply view_mono; [|exact Hvb]. etrans; [|exact Hsub4].
       apply map_union_subseteq_r. eapply map_disjoint_weaken_l; [exact Hd|by eapply holds_hf]. }
  rewrite (go_bind_step _ _ _ _ _ (read_shim_step _ _ _ _ _ _ _ _ _ Ho4)), Hnew.
  split_and!; [exact (f_equal (λ o, Some (o, h4)) (eq_sym Hvalue))|by etrans|]. intros out Hout. exists m4. split; [by eapply holds_cell|].
  erewrite holds_view by exact Ho4. rewrite Hnew. f_equal. symmetry. by apply Hstored.
Qed.
(** A deep copy of an object has the shape the steps need. *)
Lemma deep_copy_holds h p (m : T) shim :
  lookup_cell h p = Some m → view_shim h m = Some shim →
  adds h (copy_ptr mem_DeepCopyInto (Ptr p)) (λ p' hn, ∃ l m' hc hr cs g mp b,
    p' = Ptr l ∧ holds hn l m' hc hr cs g mp b ∧ shim = b (Build_OIDCShimStatus cs g mp)).
Proof.
  intros Hm (b & Hb & (st & Hst & [= <-])%bind_Some)%bind_Some.
  unfold view, View_OIDCShimStatus at 1 in Hst. unfold view_OIDCShimStatus in Hst.
  inv_reads Hst. injection Hst as <-. eapply adds_weaken.
  - apply (copy_ref_adds mem_DeepCopyInto (load p) h m).
    + intros h' Hsub. apply load_step. by eapply lookup_cell_weaken.
    + intros h' Hsub.
      apply mem_DeepCopyInto_ok; [by eapply view_rest_mono|by eapply view_mono..].
  - intros p' hn (l & m' & hn' & -> & -> & Hl & hc & hr & -> & Hd & Hc & Hmp & Hg & Hr).
    apply lookup_union_None in Hl as [? ?].
    exists l, m', hc, hr, a, (m_ObservedGeneration (mem_status m)), a0, b. done.
Qed.

(** The call on a copy of the object at [p]. *)
Lemma reconcile_copy_refines fuel h p (m : T) shim :
  lookup_cell h p = Some m → view_shim h m = Some shim →
  ∃ h', reconcile_cached fuel (Ok (Ptr p)) h = Some (reconcileShim fuel shim, h') ∧ h ⊆ h'
    ∧ view_shim h' m = Some shim
    ∧ ∀ out, reconcileShim fuel shim = Some out →
        ∃ l m', h !! l = None ∧ lookup_cell h' l = Some m'
          ∧ view_shim h' m' = Some (stored shim out).
Proof.
  intros Hm Hv. destruct (deep_copy_holds _ _ _ _ Hm Hv) as
    (p' & hn & Hcopy & Hd & l & m' & hc & hr & cs & g & mp & b & -> & Ho & ->).
  unfold reconcile_cached. rewrite (go_bind_step _ _ _ _ _ Hcopy).
  assert (Hl : h !! l = None).
  { destruct (lookup_cell_dom _ _ _ (holds_cell _ _ _ _ _ _ _ _ _ Ho)).
    by eapply map_disjoint_Some_r. }
  apply map_disjoint_sym in Hd. pose proof (holds_add _ _ _ _ _ _ _ _ _ _ Ho Hd) as Ho1.
  rewrite (map_union_comm hn h) in Ho1 by done.
  destruct (reconcileShim_mem_refines fuel _ _ _ _ _ _ _ _ _ Ho1) as (h' & Hrun & Hsub & Hout).
  assert (Hh : h ⊆ h').
  { etrans; [|exact Hsub]. apply map_union_subseteq_r. eapply map_disjoint_weaken_l; [exact Hd|].
    by eapply holds_hf. }
  exists h'. split_and!; [exact Hrun|exact Hh| |].
  - apply bind_Some in Hv as (b0 & Hb0 & (st & Hst & Heq)%bind_Some). unfold view_shim.
    rewrite (view_rest_mono _ _ _ _ Hh Hb0). simpl. by rewrite (view_mono _ _ _ _ Hh Hst).
  - intros out Ho2. destruct (Hout out Ho2) as (m2 & ? & ?). eauto.
Qed.

(** C18. Working in place on a copy refines the value model: [Reconcile] on a deep copy of what an
    informer holds ends as it does on the object's value (the comparison with the status
    before, the write and the errors included), leaves the object it wrote in memory, and
    changes no cell of the memory there was before: the informer still holds the object as it
    was. *)
Theorem reconcile_cached_refines fuel h cached read :
  cached_value h cached read →
  ∃ h', reconcile_cached fuel cached h = Some (reconcile_read fuel read, h') ∧ h ⊆ h'
    ∧ cached_value h' cached read
    ∧ ∀ shim out, read = Ok shim → reconcileShim fuel shim = Some out →
        ∃ l m', h !! l = None ∧ lookup_cell h' l = Some m'
          ∧ view_shim h' m' = Some (stored shim out).
Proof.
  destruct cached as [[|p]|err], read as [shim|err']; simpl; try done.
  - intros (m & Hm & Hv).
    destruct (reconcile_copy_refines fuel h p m shim Hm Hv) as (h' & Hrun & Hsub & Hv' & Hout).
    exists h'. split_and!; [exact Hrun|done| |intros ? out [= <-]; eauto].
    exists m. eauto using lookup_cell_weaken.
  - intros ->. exists h. split_and!; done.
Qed.
End refinement.

(** ** A concrete condition list in memory *)

Section flat_conditions.
Local Existing Instances flat_layouts flat_copies simple_conditions.

Definition cond_array : Storable (@cell flat_layouts) (list Condition) := @Condition_array flat_layouts.
Definition cond_view : View (@cell flat_layouts) Condition Condition := view_plain.
Local Existing Instances cond_array cond_view.

(** Overwrites the conditions of that type in the array it is given; a new one goes to a new
    array. *)
Definition set_condition_mem (s : slice Condition) (c : Condition) : go (@cell flat_layouts) (slice Condition) :=
  xs ← reads (λ h, slice_elems h s);
  match s with
  | Slice arr off n _ =>
      if decide (Cond_Type c ∈ (Cond_Type <$> xs)) then
        a ← load arr;
        _ ← store arr
              (take off a ++ (merge_condition c <$> xs) ++ drop (off + n) a);
        mret s
      else arr ← alloc (xs ++ [c]);
           mret (Slice arr 0 (length (xs ++ [c])) (length (xs ++ [c])))
  | nil_slice =>
      arr ← alloc (xs ++ [c]);
      mret (Slice arr 0 (length (xs ++ [c])) (length (xs ++ [c])))
  end.

Lemma view_conditions (h : heap (@cell flat_layouts)) (s : slice Condition) cs :
  view h s = Some cs ↔
  slice_elems h s = Some cs.
Proof.
  unfold view, View_slice, view_slice. split.
  - intros (xs & -> & Hxs)%bind_Some.
    change (mapM (@view (@cell flat_layouts) Condition Condition view_plain h) xs = Some cs) in Hxs.
    by rewrite mapM_view_plain in Hxs.
  - intros ->. simpl.
    change (mapM (@view (@cell flat_layouts) Condition Condition view_plain h) cs = Some cs).
    apply mapM_view_plain.
Qed.

(** Appending the condition in a new array. *)
Lemma append_condition_ok (h hf : heap (@cell flat_layouts)) (xs : list Condition) : h ##ₘ hf →
  ∃ s' h', (arr ← alloc xs; mret (Slice arr 0 (length xs) (length xs))) (h ∪ hf)
           = Some (s', h' ∪ hf) ∧ h' ##ₘ hf ∧ slice_elems h' s' = Some xs.
Proof.
  intros Hd. destruct (alloc_step xs (h ∪ hf)) as (l & Hl & Ha).
  apply lookup_union_None in Hl as [Hl Hlf].
  exists (Slice l 0 (length xs) (length xs)), (<[l := to_cell xs]> h).
  rewrite (go_bind_step _ _ _ _ _ Ha), <- insert_union_l. split_and!; [done| |].
  - by apply map_disjoint_insert_l_2.
  - apply slice_elems_whole, lookup_cell_insert.
Qed.

Definition flat_conditions : ConditionsMem.
Proof.
  refine {| SetStatusCondition_mem := set_condition_mem |}.
  intros h hf s cs c Hv%view_conditions Hd. setoid_rewrite view_conditions.
  assert (Hv' := slice_elems_weaken _ _ _ _ Hv (map_union_subseteq_l h hf)).
  unfold set_condition_mem. rewrite (go_bind_step _ _ _ _ _ (reads_step _ _ _ Hv')).
  simpl SetStatusCondition. unfold set_condition.
  destruct s as [|arr off n k].
  { injection Hv as <-. rewrite decide_False by (intros []%elem_of_nil).
    by apply (append_condition_ok h hf ([] ++ [c])). }
  case_decide as Hin; [|by apply append_condition_ok].
  simpl in Hv. apply bind_Some in Hv as (a & Ha & Hif). case_bool_decide as Hlen; [|done].
  injection Hif as <-.
  assert (Ha' := lookup_cell_weaken _ _ _ _ Ha (map_union_subseteq_l h hf)).
  rewrite (go_bind_step _ _ _ _ _ (load_step _ _ _ Ha')).
  rewrite (go_bind_step _ _ _ _ _ (store_step _ _ _ _ Ha')), insert_union_l.
  do 2 eexists. split_and!; [done| |].
  - destruct (lookup_cell_dom _ _ _ Ha). apply map_disjoint_insert_l_2; [|done].
    by eapply map_disjoint_Some_l.
  - cbn [slice_elems]. rewrite lookup_cell_insert. cbn [mbind option_bind].
    rewrite bool_decide_true
      by (rewrite !length_app, length_fmap, !length_take, !length_drop; lia).
    f_equal. rewrite drop_app_ge by (rewrite length_take; lia).
    rewrite length_take, Nat.min_l by lia. rewrite Nat.sub_diag, drop_0.
    rewrite take_app_le by (rewrite length_fmap, length_take, length_drop; lia).
    apply take_ge. rewrite length_fmap, length_take, length_drop. lia.
Defined.
Local Existing Instance flat_conditions.

Definition cached_shim : Shim := ShimNamespaced stored_value.2.
Abbreviation cached_run :=
  (@reconcile_cached ascii_tables core_templates no_labels paged_client flat_layouts flat_copies
     simple_conditions flat_conditions OIDCShim_mem OIDCShim_cell OIDCShim_zero OIDCShim_object
     2 (Ok (Ptr 1)) cache_heap).
Abbreviation value_run :=
  (@reconcileShim ascii_tables core_templates no_labels paged_client simple_conditions 2 cached_shim).

Lemma cached_shim_view :
  view_shim cache_heap (stored_shim : OIDCShim_mem) = Some cached_shim.
Proof. vm_compute. reflexivity. Qed.

Lemma reconcile_cached_refines_witness : ∃ h', cached_run = Some (value_run, h') ∧ cache_heap ⊆ h'.
Proof.
  destruct (@reconcile_cached_refines ascii_tables core_templates no_labels paged_client
              flat_layouts flat_copies simple_conditions flat_conditions OIDCShim_mem
              OIDCShim_cell OIDCShim_zero OIDCShim_object 2 cache_heap (Ok (Ptr 1)) (Ok cached_shim))
    as (h' & Hrun & Hsub & _).
  - exists stored_shim. split; [vm_compute; reflexivity|apply cached_shim_view].
  - exists h'. split; [exact Hrun|exact Hsub].
Defined.

(** The steps run: the stale condition, overwritten in place, is seen to have changed. *)
Lemma cached_run_updates :
  match cached_run with
  | Some (Some out, _) => Out_Update out ≠ None ∧ Out_Error out = None
  | _ => False
  end.
Proof. vm_compute. split; [discriminate|reflexivity]. Qed.
End flat_conditions.
