(* ===== verification/CountHeap.v ===== *)
(** * The pod list's options on memory (src/internal/controller/shim_reconcile.go)

    [Reconcile.page_options] gives the options of one request as a record.  The code keeps a
    slice [base] of options and builds each request's slice from it: [make] with room for one
    more, [copy], [append].  Appending to [base] itself would let the requests share an array.
    Here the loop runs on memory; [count_mem_refines] shows that every request gets the options
    of the value model, so that the count is that of [Reconcile.countMatchedPods]. *)

From iris.proofmode Require Import proofmode.
From S2P Require Import Prelude GoStd GoStdFacts GoHeap HeapLogic Kube Api SpiffeHelper Template GoTemplate Params Selection Plan Mutate MutateFacts Injection Validation Reconcile.

(** ** Options *)

(** The values of the interface [client.ListOption] the code builds, and the nil interface. *)
Inductive ListOption :=
| NilOption
| MatchingLabels (label : string * string)
| Limit (n : Z)
| InNamespace (namespace : string)
| RawResourceVersion (version : string)
| Continue (token : string).

(** The field an option stands for, set in a request. *)
Definition set_option (opts : ListOptions) (o : ListOption) : ListOptions :=
  match o with
  | NilOption => opts
  | MatchingLabels label =>
      {| LO_MatchingLabels := label; LO_Limit := LO_Limit opts;
         LO_InNamespace := LO_InNamespace opts; LO_ResourceVersion := LO_ResourceVersion opts;
         LO_Continue := LO_Continue opts |}
  | Limit n =>
      {| LO_MatchingLabels := LO_MatchingLabels opts; LO_Limit := n;
         LO_InNamespace := LO_InNamespace opts; LO_ResourceVersion := LO_ResourceVersion opts;
         LO_Continue := LO_Continue opts |}
  | InNamespace namespace =>
      {| LO_MatchingLabels := LO_MatchingLabels opts; LO_Limit := LO_Limit opts;
         LO_InNamespace := Some namespace; LO_ResourceVersion := LO_ResourceVersion opts;
         LO_Continue := LO_Continue opts |}
  | RawResourceVersion version =>
      {| LO_MatchingLabels := LO_MatchingLabels opts; LO_Limit := LO_Limit opts;
         LO_InNamespace := LO_InNamespace opts; LO_ResourceVersion := version;
         LO_Continue := LO_Continue opts |}
  | Continue token =>
      {| LO_MatchingLabels := LO_MatchingLabels opts; LO_Limit := LO_Limit opts;
         LO_InNamespace := LO_InNamespace opts; LO_ResourceVersion := LO_ResourceVersion opts;
         LO_Continue := token |}
  end.

(** How [reader.List(ctx, pods, options...)] reads its options is library code: a request
    without options is the zero request, and each option sets its field after those before
    it. *)
Class ListOptionsLib := {
  ApplyOptions : list ListOption → ListOptions;
  ApplyOptions_nil : ApplyOptions []
    = {| LO_MatchingLabels := ("", ""); LO_Limit := 0; LO_InNamespace := None;
         LO_ResourceVersion := ""; LO_Continue := "" |};
  ApplyOptions_snoc opts o : ApplyOptions (opts ++ [o]) = set_option (ApplyOptions opts) o }.

Abbreviation option_cell := (list ListOption) (only parsing).
#[export] Instance Storable_options : Storable option_cell (list ListOption).
Proof. by exists (λ x, x) Some. Defined.
#[export] Instance GoZero_ListOption : GoZero ListOption := NilOption.

Section count.
Context `{StatusClient} `{ListOptionsLib} (growcap : nat → nat).

(** ** The loop *)

Definition base_options (shim : Shim) : go option_cell (slice ListOption) :=
  let literal := [MatchingLabels (matching_label shim); Limit podListPageSize] in
  arr ← alloc literal;
  let base := Slice arr 0 (length literal) (length literal) in
  if negb (IsClusterScoped shim) then append growcap base (InNamespace (GetNamespace shim))
  else mret base.

(** The slice of one request. *)
Definition request_options (base : slice ListOption) (continueToken : string)
    : go option_cell (slice ListOption) :=
  options ← make_cap (slice_len base) (slice_len base + 1);
  _ ← builtin_copy options base;
  if String.eqb continueToken "" then append growcap options (RawResourceVersion "0")
  else append growcap options (Continue continueToken).

Fixpoint count_loop_mem (fuel : nat) (shim : Shim) (base : slice ListOption) (count : Z)
    (continueToken : string) : go option_cell (option (result error Z)) :=
  match fuel with
  | 0 => mret None
  | S fuel' =>
      options ← request_options base continueToken;
      opts ← reads (λ h, slice_elems h options);
      match List_Pods (ApplyOptions opts) with
      | Err err => mret (Some (Err (wrapError ("listing pods of " +:+ ShimKey shim +:+ ": ") err)))
      | Ok pods =>
          let count := (count + Z.of_nat (length (PL_Items pods)))%Z in
          if String.eqb (PL_Continue pods) "" then mret (Some (Ok (int32 count)))
          else count_loop_mem fuel' shim base count (PL_Continue pods)
      end
  end.

Definition countMatchedPods_mem (fuel : nat) (shim : Shim)
    : go option_cell (option (result error Z)) :=
  base ← base_options shim; count_loop_mem fuel shim base 0 "".

(** ** Refinement *)

(** The options every request starts from. *)
Definition base_list (shim : Shim) : list ListOption :=
  [MatchingLabels (matching_label shim); Limit podListPageSize]
  ++ (if negb (IsClusterScoped shim) then [InNamespace (GetNamespace shim)] else []).
Definition page_option (continueToken : string) : ListOption :=
  if String.eqb continueToken "" then RawResourceVersion "0" else Continue continueToken.

Lemma request_is_page_options shim tok :
  ApplyOptions (base_list shim ++ [page_option tok]) = page_options shim tok.
Proof.
  rw ApplyOptions_snoc /base_list /page_option /page_options.
  assert (ApplyOptions ([] ++ [MatchingLabels (matching_label shim)] ++ [Limit podListPageSize])
          = set_option (set_option (ApplyOptions []) (MatchingLabels (matching_label shim)))
              (Limit podListPageSize)) as Hbase.
  { by rw app_assoc !ApplyOptions_snoc. }
  destruct (String.eqb tok "") eqn:Ht; [apply String.eqb_eq in Ht as ->|];
    destruct (IsClusterScoped shim); simpl in *;
    rw ?(ApplyOptions_snoc [_; _]) Hbase ApplyOptions_nil //.
Qed.

Lemma wp_base_options shim Φ :
  (∀ s, s ↦∗ base_list shim -∗ Φ s) ⊢ wp (base_options shim) Φ.
Proof.
  iIntros "HΦ". iApply wp_bind. iApply wp_alloc. iIntros (l) "Hl".
  set (literal := [_; _]).
  iAssert (Slice l 0 (length literal) (length literal) ↦∗ literal)%I with "[Hl]" as "Hs".
  { iApply slice_at_new. by rw Nat.sub_diag app_nil_r. }
  rw /base_list. destruct (negb _).
  - iApply (wp_append with "Hs"). iIntros (s) "Hs". by iApply "HΦ".
  - iApply wp_ret. rw app_nil_r. by iApply "HΦ".
Qed.

(** A request gets a slice of its own, and [base] stays as it is. *)
Lemma wp_request_options base xs tok Φ :
  base ↦∗ xs -∗
  (∀ s, s ↦∗ (xs ++ [page_option tok]) -∗ base ↦∗ xs -∗ Φ s) -∗
  wp (request_options base tok) Φ.
Proof.
  iIntros "Hb HΦ". iDestruct (slice_at_len with "Hb") as %Hlen.
  iApply wp_bind. iApply wp_make_cap; [lia|]. iIntros (s) "Hs".
  iApply wp_bind. iApply (wp_builtin_copy with "Hs Hb"); [by rw length_replicate|].
  iIntros "Hs Hb". rw /page_option.
  destruct (String.eqb tok ""); iApply (wp_append with "Hs"); iIntros (s') "Hs";
    iApply ("HΦ" with "Hs Hb").
Qed.

Lemma wp_count_loop fuel shim base count tok Φ :
  base ↦∗ base_list shim -∗ Φ (count_loop fuel shim count tok) -∗
  wp (count_loop_mem fuel shim base count tok) Φ.
Proof.
  revert count tok. induction fuel as [|fuel IH]; iIntros (count tok) "Hb HΦ".
  { by iApply wp_ret. }
  simpl. iApply wp_bind. iApply (wp_request_options with "Hb"). iIntros (s) "Hs Hb".
  iApply wp_bind. iApply (wp_elems with "Hs"). iIntros "_".
  rw request_is_page_options. destruct (List_Pods _) as [pods|err]; [|by iApply wp_ret].
  destruct (String.eqb _ _); [by iApply wp_ret|]. by iApply (IH with "Hb").
Qed.

(** C34. The requests do not disturb each other: whatever capacities [append] picks and however
    many pages there are, each request of the loop on memory is made with exactly the label,
    limit, namespace and page options of the value model, nothing panics, and the count or
    error is that of the value model; memory that existed before is left alone. *)
Theorem count_mem_refines fuel shim h :
  ∃ hn, countMatchedPods_mem fuel shim h = Some (countMatchedPods fuel shim, hn ∪ h) ∧ hn ##ₘ h.
Proof.
  destruct (wp_run (countMatchedPods_mem fuel shim) emp%I
    (λ r, ⌜r = countMatchedPods fuel shim⌝)%I ∅ h)
    as (r & hn & Hrun & Hd & Hr); [|done|apply map_disjoint_empty_l|].
  { iIntros "_". iApply wp_bind. iApply wp_base_options. iIntros (s) "Hs".
    by iApply (wp_count_loop with "Hs"). }
  rw left_id_L in Hrun. exists hn. by rw Hrun Hr.
Qed.
End count.

(** The options read one after the other. *)
Definition options_in_order : ListOptionsLib.
Proof.
  refine {| ApplyOptions := foldl set_option
    {| LO_MatchingLabels := ("", ""); LO_Limit := 0; LO_InNamespace := None;
       LO_ResourceVersion := ""; LO_Continue := "" |} |}; [done|].
  intros opts o. by rw foldl_app.
Defined.

(** The sample server, two pages, on memory. *)
Lemma count_mem_refines_witness : ∃ hn,
  @countMatchedPods_mem paged_client options_in_order (λ n, n + 3)%nat 2 sample_shim ∅
  = Some (Some (Ok 3%Z), hn ∪ ∅).
Proof.
  destruct (@count_mem_refines paged_client options_in_order (λ n, n + 3)%nat 2 sample_shim ∅)
    as (hn & -> & _).
  exists hn. reflexivity.
Defined.
