(* ===== verification/ControllerLoop.v ===== *)
(** * The controller in the cluster (src/internal/controller, SetupWithManager and Reconcile)

    [Reconcile.v] follows one call of [Reconcile].  Here the calls run in a cluster: the API
    server holds the shim, an informer's cache follows it through a watch and may lag behind, a
    work queue decides when [Reconcile] runs, and a call may overlap with edits of the shim.
    [loop_step] is one event of that system; the moves of the API server and of controller-runtime
    are their documented behaviour:

    - an edit of the spec raises the generation; the status is written through its
      subresource, which touches nothing else; every write gets a new resource version, and an
      update whose object carries an old one is rejected with a conflict;
    - a watch delivers the changes in order, though several may be folded into one;
    - a key is queued once however often it is added, and is not handed out while a call for it
      runs; a call that fails or asks for it is repeated later;
    - the process may end at any time; the next one starts from what is stored.

    The theorems hold for every interleaving, with any answers to the pod lists and any other
    failures of the writes.  Only the controller writes the status. *)

From S2P Require Import Prelude GoStd GoStdFacts Kube Api SpiffeHelper Template GoTemplate Params Selection Plan Mutate MutateFacts Injection GoHeap DeepCopy Startup Validation Reconcile.

(** ** The cluster's state *)

(** A stored object and its resource version. *)
Record Obj := { O_version : nat; O_shim : Shim }.

Record World := {
  W_server : option Obj;            (** what the API server stores *)
  W_clock : nat;                    (** the last resource version it gave out *)
  W_feed : list (option Obj);       (** changes the watch has yet to deliver; [None] a deletion *)
  W_cache : option Obj;             (** the informer's copy *)
  W_queued : bool;                  (** the key is in the work queue *)
  W_timer : bool;                   (** the key is to be added again later *)
  W_running : option (option Obj)   (** the object the running call read *) }.

(** A change of the stored object, announced on the watch. *)
Definition write (o : option Shim) (w : World) : World :=
  let obj := (λ s, {| O_version := S (W_clock w); O_shim := s |}) <$> o in
  {| W_server := obj; W_clock := S (W_clock w); W_feed := W_feed w ++ [obj];
     W_cache := W_cache w; W_queued := W_queued w; W_timer := W_timer w;
     W_running := W_running w |}.

(** Whether the controller of a shim's kind is set up with [GenerationChangedPredicate]. *)
Definition predicate_of (s : Shim) : bool :=
  Ctl_GenerationChanged (if IsClusterScoped s then ClusterOIDCShim_controller
                         else OIDCShim_controller).

(** The events that queue the key: creations and deletions, and updates unless the predicate
    finds the generation unchanged. *)
Definition passes (old new : option Obj) : bool :=
  match old, new with
  | Some o, Some o' =>
      negb (predicate_of (O_shim o')
            && (GetGeneration (O_shim o) =? GetGeneration (O_shim o'))%Z)
  | None, None => false
  | _, _ => true
  end.

Definition deliver (ev : option Obj) (rest : list (option Obj)) (w : World) : World :=
  {| W_server := W_server w; W_clock := W_clock w; W_feed := rest; W_cache := ev;
     W_queued := W_queued w || passes (W_cache w) ev; W_timer := W_timer w;
     W_running := W_running w |}.

Definition fold_feed (feed : list (option Obj)) (w : World) : World :=
  {| W_server := W_server w; W_clock := W_clock w; W_feed := feed; W_cache := W_cache w;
     W_queued := W_queued w; W_timer := W_timer w; W_running := W_running w |}.

Definition fire (w : World) : World :=
  {| W_server := W_server w; W_clock := W_clock w; W_feed := W_feed w; W_cache := W_cache w;
     W_queued := true; W_timer := false; W_running := W_running w |}.

(** A worker takes the key and [Reconcile] reads the object from the cache. *)
Definition start (w : World) : World :=
  {| W_server := W_server w; W_clock := W_clock w; W_feed := W_feed w; W_cache := W_cache w;
     W_queued := false; W_timer := W_timer w; W_running := Some (W_cache w) |}.

Definition not_found : error := errorString "not found".
Definition conflict : error := errorString "the object has been modified".

(** A failure of the write other than a conflict, and whether the server had applied the write
    before the answer was lost. *)
Record Fault := { F_error : error; F_applied : bool }.

(** The object read is the one stored. *)
Definition current (w : World) (read : option Obj) : bool :=
  bool_decide (O_version <$> W_server w = O_version <$> read).

(** What the call's clients answer: [pods] the pod lists; the write fails by a fault or a
    conflict. *)
Definition client_at (w : World) (read : option Obj)
    (pods : ListOptions → result error PodList) (fault : option Fault) : StatusClient :=
  {| List_Pods := pods;
     Status_Update := λ _,
       match fault with
       | Some f => Some (F_error f)
       | None => if current w read then None else Some conflict
       end;
     Get_OIDCShim := λ _ _,
       match read with
       | Some {| O_shim := ShimNamespaced s |} => Ok s | _ => Err not_found
       end;
     Get_ClusterOIDCShim := λ _,
       match read with Some {| O_shim := ShimCluster s |} => Ok s | _ => Err not_found end;
     Client_IsNotFound := λ err, bool_decide (Error err = Error not_found) |}.

Definition read_result (read : option Obj) : result error Shim :=
  match read with Some o => Ok (O_shim o) | None => Err not_found end.

(** The server applies a status write the call made. *)
Definition applies (w : World) (read : option Obj) (fault : option Fault) : bool :=
  current w read && match fault with Some f => F_applied f | None => true end.
Definition write_status (applied : bool) (out : Outcome) (w : World) : World :=
  match Out_Update out, W_server w with
  | Some shim', Some o =>
      if applied then write (Some (set_ShimStatus (ShimStatus shim') (O_shim o))) w else w
  | _, _ => w
  end.

(** The call is over; it is repeated when it failed or asked for it. *)
Definition finish (out : Outcome) (w : World) : World :=
  let again := match Out_Error out with
               | Some _ => true
               | None => bool_decide (0 < Out_RequeueAfter out)%Z
               end in
  {| W_server := W_server w; W_clock := W_clock w; W_feed := W_feed w; W_cache := W_cache w;
     W_queued := W_queued w; W_timer := W_timer w || again; W_running := None |}.

(** The process ends, or another replica takes over: the queue, the timers and a running call
    are lost, and the new informer lists what is stored. *)
Definition restart (w : World) : World :=
  {| W_server := W_server w; W_clock := W_clock w;
     W_feed := match W_server w with Some o => [Some o] | None => [] end; W_cache := None;
     W_queued := false; W_timer := false; W_running := None |}.

(** An edit of the spec, and of nothing else but the generation. *)
Definition edit_of (s s' : Shim) : Prop :=
  GetName s' = GetName s ∧ GetNamespace s' = GetNamespace s
  ∧ IsClusterScoped s' = IsClusterScoped s ∧ GetGeneration s' = (GetGeneration s + 1)%Z
  ∧ ShimStatus s' = ShimStatus s.

Definition fresh_shim (s : Shim) : Prop :=
  GetGeneration s = 1%Z
  ∧ ShimStatus s = {| Conditions := []; ObservedGeneration := 0; MatchedPods := None |}.

Section loop.
Context `{UnicodeTables} `{TextTemplate} `{LabelSelectors} `{ConditionsLib}.

(** The running call, with the clients it was given. *)
Definition run_reconcile (c : StatusClient) (fuel : nat) (read : option Obj) : option Outcome :=
  reconcile_read fuel (read_result read).

(** It is [Reconcile] of the controller of the object's kind, for whatever key. *)
Lemma run_reconcile_namespaced (c : StatusClient) fuel read namespace name :
  (∃ w pods fault, c = client_at w read pods fault) →
  (∀ o, read = Some o → IsClusterScoped (O_shim o) = false) →
  OIDCShim_Reconcile fuel namespace name = run_reconcile c fuel read.
Proof.
  intros (w & pods & fault & ->) Hk. destruct read as [[v [s|s]]|]; [done| |done].
  by specialize (Hk _ eq_refl).
Qed.
Lemma run_reconcile_cluster (c : StatusClient) fuel read name :
  (∃ w pods fault, c = client_at w read pods fault) →
  (∀ o, read = Some o → IsClusterScoped (O_shim o) = true) →
  ClusterOIDCShim_Reconcile fuel name = run_reconcile c fuel read.
Proof.
  intros (w & pods & fault & ->) Hk. destruct read as [[v [s|s]]|]; [|done|done].
  by specialize (Hk _ eq_refl).
Qed.

(** The users' moves. *)
Inductive user_step : World → World → Prop :=
| user_create w s : W_server w = None → fresh_shim s → user_step w (write (Some s) w)
| user_edit w o s : W_server w = Some o → edit_of (O_shim o) s → user_step w (write (Some s) w)
| user_touch w o : W_server w = Some o → user_step w (write (Some (O_shim o)) w)
| user_delete w o : W_server w = Some o → user_step w (write None w).

(** The system's moves. *)
Inductive system_step : World → World → Prop :=
| system_deliver w ev rest : W_feed w = ev :: rest → system_step w (deliver ev rest w)
| system_fold w l ev ev' r :
    W_feed w = l ++ ev :: ev' :: r → system_step w (fold_feed (l ++ ev' :: r) w)
| system_fire w : W_timer w = true → system_step w (fire w)
| system_start w : W_queued w = true → W_running w = None → system_step w (start w)
| system_restart w : system_step w (restart w)
| system_finish w read pods fault fuel out :
    W_running w = Some read →
    run_reconcile (client_at w read pods fault) fuel read = Some out →
    system_step w (finish out (write_status (applies w read fault) out w)).

Definition loop_step (w w' : World) : Prop := user_step w w' ∨ system_step w w'.

(** An empty cluster. *)
Definition init : World :=
  {| W_server := None; W_clock := 0; W_feed := []; W_cache := None; W_queued := false;
     W_timer := false; W_running := None |}.

Definition cluster_reachable (w : World) : Prop := rtc loop_step init w.

(** ** What a call does *)

(** The status is no newer than the spec, and when it is for the current spec the Ready
    condition tells the truth about it. *)
Definition status_ok (s : Shim) : Prop :=
  (ObservedGeneration (ShimStatus s) ≤ GetGeneration s)%Z
  ∧ (ObservedGeneration (ShimStatus s) = GetGeneration s → ready_tells s (ShimStatus s)).

(** The call's outcome: the status it computed is for the object it read, it is written unless
    it is there already, and the call is repeated. *)
Lemma reconcile_call (c : StatusClient) fuel o out :
  run_reconcile c fuel (Some o) = Some out →
  ∃ counted, let st := new_status (O_shim o) counted in
    (Out_Update out = None → ShimStatus (O_shim o) = st)
    ∧ (∀ shim', Out_Update out = Some shim' → shim' = set_ShimStatus st (O_shim o))
    ∧ (is_Some (Out_Error out) ∨ (0 < Out_RequeueAfter out)%Z).
Proof.
  unfold run_reconcile. simpl. intros Hrec.
  pose proof Hrec as (counted & Hc & Hst & Hnone)%reconcileShim_stored.
  exists counted. cbv zeta. split_and!.
  - by apply Hnone.
  - intros shim' Hu. unfold stored in Hst. by rewrite Hu in Hst.
  - unfold reconcileShim, reconcile_finish in Hrec. rewrite Hc in Hrec.
    injection Hrec as <-. case_match; [left; by eexists|].
    destruct counted; [right; simpl; unfold requeueInterval; lia|left; by eexists].
Qed.

(** ** The invariant *)

(** An object someone still holds is not from the future, and is the stored one if it carries
    its version. *)
Definition known (w : World) (o : Obj) : Prop :=
  (O_version o ≤ W_clock w)%nat
  ∧ (∀ s, W_server w = Some s → O_version o = O_version s → o = s).
Definition held (w : World) (o : Obj) : Prop :=
  W_cache w = Some o ∨ Some o ∈ W_feed w ∨ W_running w = Some (Some o).

Record Inv (w : World) : Prop := {
  inv_server o : W_server w = Some o → (O_version o ≤ W_clock w)%nat ∧ status_ok (O_shim o);
  inv_held o : held w o → known w o;
  inv_feed : last (W_cache w :: W_feed w) = Some (W_server w);
  inv_scheduled o : W_cache w = Some o →
    W_queued w = true ∨ W_timer w = true ∨ ∃ r, W_running w = Some (Some r) }.

Lemma inv_init : Inv init.
Proof. split; simpl; [done| |done|done]. intros o [?|[?%elem_of_nil|?]]; done. Qed.

(** Every write the invariant allows. *)
Lemma inv_write w so : Inv w → (∀ s, so = Some s → status_ok s) → Inv (write so w).
Proof.
  intros [Hs Hh Hf Hq] Hso. split.
  - simpl. intros o (s & -> & ->)%fmap_Some. simpl. eauto.
  - intros o Ho. split; simpl.
    + destruct Ho as [Hc|[Hc|Hc]]; simpl in Hc.
      * destruct (Hh o); [by left|lia].
      * apply elem_of_app in Hc as [Hc|Hc%list_elem_of_singleton].
        -- destruct (Hh o); [by right; left|lia].
        -- symmetry in Hc. apply fmap_Some in Hc as (s & _ & ->). simpl. lia.
      * destruct (Hh o); [by right; right|lia].
    + intros s' (s & -> & ->)%fmap_Some. simpl. intros Hv.
      assert (Hheld : held w o → False) by (intros Hw; destruct (Hh o Hw); lia).
      destruct Ho as [Hc|[Hc|Hc]]; simpl in Hc.
      * destruct Hheld. by left.
      * apply elem_of_app in Hc as [Hc|Hc%list_elem_of_singleton]; [|by injection Hc].
        destruct Hheld. by right; left.
      * destruct Hheld. by right; right.
  - simpl. by rewrite app_comm_cons, last_snoc.
  - exact Hq.
Qed.

Lemma inv_user w w' : Inv w → user_step w w' → Inv w'.
Proof.
  intros HI Hst. revert HI.
  destruct Hst as [w0 s _ [Hg Hst]|w0 o s Ho (_ & _ & _ & Hg & Hst)|w0 o Ho|w0 o Ho];
    intros HI; (apply inv_write; [done|]); intros s' [= <-].
  - unfold status_ok. rewrite Hg, Hst. simpl. split; [lia|discriminate].
  - apply (inv_server _ HI) in Ho as [_ [Hle _]]. unfold status_ok. rewrite Hg, Hst. split; lia.
  - by apply (inv_server _ HI) in Ho as [_ ?].
Qed.

Lemma new_status_ok s counted : status_ok (set_ShimStatus (new_status s counted) s).
Proof.
  pose proof (new_status_ready s counted) as Hr.
  destruct (set_ShimStatus_frame (new_status s counted) s) as (Hn & _ & Hg & Hs & _ & _ & Hst).
  unfold status_ok, ready_tells in *. rewrite Hn, Hg, Hs, Hst. done.
Qed.

(** The status a call writes goes on top of the very object the call read. *)
Lemma write_status_cases w read pods fault fuel out : Inv w →
  W_running w = Some read → run_reconcile (client_at w read pods fault) fuel read = Some out →
  let w' := write_status (applies w read fault) out w in
  w' = w ∨ ∃ o counted, read = Some o ∧ W_server w = Some o
    ∧ w' = write (Some (set_ShimStatus (new_status (O_shim o) counted) (O_shim o))) w.
Proof.
  intros HI Hrun Hcall. cbv zeta. unfold write_status.
  destruct (Out_Update out) as [shim'|] eqn:Hu; [|by left].
  destruct (W_server w) as [s|] eqn:Hs; [|by left].
  destruct (applies w read fault) eqn:Hap; [|by left]. right.
  apply andb_true_iff in Hap as [Hcur _]. apply bool_decide_eq_true in Hcur. rewrite Hs in Hcur.
  destruct read as [o|]; [|discriminate Hcur].
  assert (o = s) as ->.
  { apply (inv_held _ HI o); [by right; right|done|simpl in Hcur; congruence]. }
  apply reconcile_call in Hcall as (counted & _ & Hst & _). apply Hst in Hu as ->.
  exists s, counted. split_and!; [done..|].
  by destruct (set_ShimStatus_frame (new_status (O_shim s) counted) (O_shim s))
    as (_ & _ & _ & _ & _ & _ & ->).
Qed.

Lemma inv_finish w read out (c : StatusClient) fuel :
  Inv w → W_running w = Some read → run_reconcile c fuel read = Some out → Inv (finish out w).
Proof.
  intros [Hs Hh Hf Hq] Hrun Hcall. split; [exact Hs| |exact Hf|].
  - intros o [Ho|[Ho|Ho]]; [apply (Hh o); by left|apply (Hh o); by right; left|done].
  - simpl. intros o Ho. destruct (Hq o Ho) as [->|[->|(r & Hr)]]; [by left|by right; left|].
    right; left. assert (read = Some r) as -> by congruence.
    apply reconcile_call in Hcall as (counted & _ & _ & Hagain). apply orb_true_iff. right.
    destruct Hagain as [[err ->]|Hpos]; [done|]. destruct (Out_Error out); [done|].
    by apply bool_decide_eq_true.
Qed.

Lemma last_fold {A} (x : A) l y z r : last (x :: l ++ y :: z :: r) = last (x :: l ++ z :: r).
Proof.
  rewrite !app_comm_cons. generalize (x :: l). intros k.
  rewrite !last_app. done.
Qed.

Lemma inv_system w w' : Inv w → system_step w w' → Inv w'.
Proof.
  intros HI Hst. revert HI.
  destruct Hst as [w0 ev rest Hfeed|w0 l ev ev' r Hfeed|w0 Ht|w0 Hq Hr|w0
                  |w0 read pods fault fuel out Hrun Hcall];
    intros HI.
  - destruct HI as [Hs Hh Hf Hq]. split; [exact Hs| | |].
    + intros o [Ho|[Ho|Ho]]; apply (Hh o); simpl in *.
      * right; left. rewrite Hfeed, Ho. left.
      * right; left. rewrite Hfeed. by right.
      * by right; right.
    + simpl. rewrite <- Hf, Hfeed. done.
    + simpl. intros o ->. destruct (W_cache w0) as [o0|] eqn:Hc; simpl.
      * destruct (Hq o0 eq_refl) as [->|[->|?]]; auto.
      * left. apply orb_true_r.
  - destruct HI as [Hs Hh Hf Hq]. split; [exact Hs| | |exact Hq].
    + intros o [Ho|[Ho|Ho]]; apply (Hh o); simpl in *; [by left| |by right; right].
      right; left. rewrite Hfeed. set_solver.
    + simpl. rewrite <- Hf, Hfeed. symmetry. apply last_fold.
  - destruct HI as [Hs Hh Hf Hq]. split; [exact Hs|exact Hh|exact Hf|]. by left.
  - destruct HI as [Hs Hh Hf Hq']. split; [exact Hs| |exact Hf|].
    + intros o [Ho|[Ho|Ho]]; apply (Hh o); simpl in *; [by left|by right; left|left; congruence].
    + simpl. intros o Ho. right; right. exists o. by rewrite Ho.
  - destruct HI as [Hs Hh Hf Hq]. split; [exact Hs| | |done].
    + intros o [Ho|[Ho|Ho]]; simpl in Ho; try done.
      destruct (W_server w0) as [o0|] eqn:Ho0; [|by apply elem_of_nil in Ho].
      apply list_elem_of_singleton in Ho as [= ->]. split; [by apply (Hs o0)|].
      simpl. rewrite Ho0. by intros s [= <-].
    + simpl. by destruct (W_server w0).
  - destruct (write_status_cases _ _ _ _ _ _ HI Hrun Hcall) as [->|(o & counted & -> & Ho & ->)].
    + by eapply inv_finish.
    + eapply inv_finish; [|exact Hrun|exact Hcall].
      apply inv_write; [done|]. intros s [= <-]. apply new_status_ok.
Qed.

Lemma reachable_inv w : cluster_reachable w → Inv w.
Proof.
  unfold cluster_reachable. intros Hr. pose proof inv_init as HI. revert HI.
  induction Hr as [w|w1 w2 w3 [Hst|Hst] _ IH]; intros HI; [done|..]; apply IH.
  - by eapply inv_user.
  - by eapply inv_system.
Qed.

(** ** Truthful status *)

(** C11. No interleaving of edits, deletions, cache lag, conflicts, failures and restarts makes
    the status lie: whenever the stored status claims to be for the stored generation, its Ready
    condition is there, is marked with that generation, is True exactly when the stored spec
    is valid and carries the problems found otherwise; it never claims a later generation. *)
Theorem status_truthful w o :
  cluster_reachable w → W_server w = Some o →
  (ObservedGeneration (ShimStatus (O_shim o)) ≤ GetGeneration (O_shim o))%Z
  ∧ (ObservedGeneration (ShimStatus (O_shim o)) = GetGeneration (O_shim o) →
     ready_tells (O_shim o) (ShimStatus (O_shim o))).
Proof. intros HI%reachable_inv Ho. by apply (inv_server _ HI). Qed.

(** ** Convergence *)

(** The stored status is for the stored spec. *)
Definition settled (w : World) : Prop :=
  ∀ o, W_server w = Some o →
    ObservedGeneration (ShimStatus (O_shim o)) = GetGeneration (O_shim o).

(** The system's moves keep the object and its spec. *)
Definition same_spec (w w' : World) : Prop :=
  match W_server w, W_server w' with
  | Some o, Some o' => ShimSpec (O_shim o') = ShimSpec (O_shim o)
                       ∧ GetGeneration (O_shim o') = GetGeneration (O_shim o)
                       ∧ GetName (O_shim o') = GetName (O_shim o)
  | None, None => True
  | _, _ => False
  end.
#[local] Instance same_spec_preorder : PreOrder same_spec.
Proof.
  split.
  - intros w. unfold same_spec. by destruct (W_server w).
  - intros w1 w2 w3. unfold same_spec.
    destruct (W_server w1), (W_server w2), (W_server w3); naive_solver congruence.
Qed.

Lemma system_step_keeps w w' : Inv w → system_step w w' →
  same_spec w w' ∧ (settled w → settled w').
Proof.
  intros HI Hst. revert HI.
  destruct Hst as [w0 ev rest Hfeed|w0 l ev ev' r Hfeed|w0 Ht|w0 Hq Hr|w0
                  |w0 read pods fault fuel out Hrun Hcall];
    intros HI; try (split; [by change (same_spec w0 w0)|done]).
  destruct (write_status_cases _ _ _ _ _ _ HI Hrun Hcall) as [->|(o & counted & -> & Ho & ->)].
  { split; [by change (same_spec w0 w0)|done]. }
  destruct (set_ShimStatus_frame (new_status (O_shim o) counted) (O_shim o))
    as (Hn & _ & Hg & Hs & _ & _ & Hstat).
  split.
  - unfold same_spec. simpl. by rewrite Ho, Hn, Hg, Hs.
  - intros _ o' [= <-]. simpl. by rewrite Hg, Hstat.
Qed.

Lemma system_keeps w w' : Inv w → rtc system_step w w' →
  Inv w' ∧ same_spec w w' ∧ (settled w → settled w').
Proof.
  intros HI Hr. revert HI. induction Hr as [w|w1 w2 w3 Hst _ IH]; intros HI; [done|].
  destruct (system_step_keeps _ _ HI Hst) as [Hss Hse].
  destruct IH as (HI' & Hss' & Hse'); [by eapply inv_system|]. split_and!; [done|by etrans|auto].
Qed.

(** A pod list that is empty, for the schedules below. *)
Definition no_pods (_ : ListOptions) : result error PodList :=
  Ok {| PL_Items := []; PL_Continue := "" |}.

Lemma call_returns w read fault : ∃ out,
  run_reconcile (client_at w read no_pods fault) 1 read = Some out.
Proof. destruct read as [o|]; by eexists. Qed.

(** A running call can end. *)
Lemma drain_running w : ∃ w', rtc system_step w w' ∧ W_running w' = None.
Proof.
  destruct (W_running w) as [read|] eqn:Hrun; [|by exists w].
  destruct (call_returns w read None) as [out Hout].
  eexists. split; [eapply rtc_once, system_finish; [exact Hrun|exact Hout]|done].
Qed.

(** The watch can deliver everything. *)
Lemma drain_feed w : ∃ w', rtc system_step w w' ∧ W_feed w' = [] ∧ W_running w' = W_running w.
Proof.
  remember (W_feed w) as feed eqn:Hfeed. revert w Hfeed.
  induction feed as [|ev rest IH]; intros w Hfeed; [by exists w|].
  destruct (IH (deliver ev rest w) eq_refl) as (w' & Hr & Hf & Hrun).
  exists w'. split_and!; [|done|by rewrite Hrun].
  eapply rtc_l; [apply system_deliver; done|done].
Qed.

(** A scheduled key can be queued. *)
Lemma drain_timer w : W_queued w = true ∨ W_timer w = true →
  ∃ w', rtc system_step w w' ∧ W_queued w' = true ∧ W_cache w' = W_cache w
    ∧ W_server w' = W_server w ∧ W_running w' = W_running w.
Proof.
  intros [Hq|Ht]; [by exists w|]. exists (fire w).
  split; [by apply rtc_once, system_fire|done].
Qed.

(** A call on the object that is stored settles it, whatever the pod lists answer. *)
Lemma call_settles w o pods fuel out : W_server w = Some o →
  run_reconcile (client_at w (Some o) pods None) fuel (Some o) = Some out →
  settled (finish out (write_status (applies w (Some o) None) out w)).
Proof.
  intros Ho Hout. destruct (reconcile_call _ _ _ _ Hout) as (counted & Hnone & Hsome & _).
  destruct (set_ShimStatus_frame (new_status (O_shim o) counted) (O_shim o))
    as (_ & _ & Hg & _ & _ & _ & Hst).
  assert (applies w (Some o) None = true) as ->.
  { unfold applies, current. rewrite Ho. by rewrite bool_decide_true. }
  intros o' Ho'. unfold finish, write_status in Ho'. simpl in Ho'. rewrite Ho in Ho'.
  destruct (Out_Update out) as [shim'|].
  - rewrite (Hsome shim' eq_refl), Hst in Ho'. injection Ho' as <-. simpl. by rewrite Hst, Hg.
  - rewrite Ho in Ho'. injection Ho' as <-. by rewrite Hnone.
Qed.

Lemma can_settle w : Inv w → ∃ w', rtc system_step w w' ∧ settled w'.
Proof.
  intros HI. destruct (drain_running w) as (w1 & Hr1 & Hn1).
  destruct (drain_feed w1) as (w2 & Hr2 & Hf2 & Hn2).
  assert (Hr : rtc system_step w w2) by (by etrans).
  destruct (system_keeps _ _ HI Hr) as (HI2 & _ & _).
  pose proof (inv_feed _ HI2) as Hcache. rewrite Hf2 in Hcache. injection Hcache as Hcache.
  destruct (W_server w2) as [o|] eqn:Ho; [|exists w2; split; [done|]; by intros o ?; simplify_eq].
  destruct (drain_timer w2) as (w3 & Hr3 & Hq3 & Hc3 & Hs3 & Hn3).
  { destruct (inv_scheduled _ HI2 o Hcache) as [?|[?|(r & Hrun)]]; [by left|by right|congruence]. }
  destruct (call_returns (start w3) (Some o) None) as [out Hout].
  exists (finish out (write_status (applies (start w3) (Some o) None) out (start w3))).
  split; [|eapply call_settles; [simpl; congruence|exact Hout]]. etrans; [exact Hr|]. etrans; [exact Hr3|].
  eapply rtc_l; [apply system_start; [done|congruence]|]. apply rtc_once.
  apply (system_finish (start w3) (Some o) no_pods None 1); [simpl; congruence|exact Hout].
Qed.

(** C12. The loop never gets stuck on an outdated status: from every state the cluster can get
    into, the system's own moves, without any edit, can bring it to a state whose status is
    for the stored spec, and once there every further move of the system keeps it there and
    keeps the spec; in particular no spec change is ever lost, though updates that do not
    change the generation are filtered out.  It takes one call: every call that read the
    stored object settles it unless its write fails, also when the pods cannot be counted. *)
Theorem loop_settles w :
  cluster_reachable w →
  (∃ w', rtc system_step w w' ∧ same_spec w w' ∧ settled w'
     ∧ ∀ w'', rtc system_step w' w'' → same_spec w w'' ∧ settled w'')
  ∧ (∀ o pods fuel out, W_server w = Some o → W_running w = Some (Some o) →
       run_reconcile (client_at w (Some o) pods None) fuel (Some o) = Some out →
       settled (finish out (write_status (applies w (Some o) None) out w))).
Proof.
  intros HI%reachable_inv. split; [|intros o pods fuel out Ho _; by apply call_settles].
  destruct (can_settle w HI) as (w' & Hr & Hset).
  destruct (system_keeps _ _ HI Hr) as (HI' & Hss & _).
  exists w'. split_and!; [done..|]. intros w'' Hr'.
  destruct (system_keeps _ _ HI' Hr') as (_ & Hss' & Hse). split; [by etrans|auto].
Qed.
End loop.

(** ** A concrete run *)

Definition sample_created : World := write (Some sample_shim) init.
Definition sample_delivered : World :=
  deliver (W_server sample_created) [] sample_created.
Definition sample_started : World := start sample_delivered.
Definition sample_call (ls : LabelSelectors) : option Outcome :=
  @run_reconcile ascii_tables core_templates ls simple_conditions
    (client_at sample_started (W_cache sample_started) no_pods None) 1 (W_cache sample_started).
Definition sample_finished (ls : LabelSelectors) : World :=
  match sample_call ls with
  | Some out => finish out (write_status true out sample_started)
  | None => sample_started
  end.

Lemma sample_reachable (ls : LabelSelectors) :
  @cluster_reachable ascii_tables core_templates ls simple_conditions (sample_finished ls).
Proof.
  apply (rtc_l _ _ sample_created); [left; apply user_create; [|split]; reflexivity|].
  apply (rtc_l _ _ sample_delivered); [right; apply system_deliver; reflexivity|].
  apply (rtc_l _ _ sample_started); [right; apply system_start; reflexivity|].
  eapply rtc_once. right.
  exact (@system_finish ascii_tables core_templates ls simple_conditions sample_started
           (W_cache sample_started) no_pods None 1
           (default {| Out_RequeueAfter := 0; Out_Error := None; Out_Update := None |} (sample_call ls))
           eq_refl ltac:(vm_compute; reflexivity)).
Defined.

Definition sample_stored (ls : LabelSelectors) : Obj :=
  {| O_version := 2; O_shim := match W_server (sample_finished ls) with
                               | Some o => O_shim o | None => sample_shim end |}.

Lemma status_truthful_witness :
  @ready_tells ascii_tables core_templates no_labels (O_shim (sample_stored no_labels))
    (ShimStatus (O_shim (sample_stored no_labels))).
Proof.
  apply (@status_truthful ascii_tables core_templates no_labels simple_conditions (sample_finished no_labels)
           (sample_stored no_labels) (sample_reachable no_labels)); vm_compute; reflexivity.
Defined.

Lemma loop_settles_witness :
  ∃ w', rtc (@system_step ascii_tables core_templates no_labels simple_conditions)
          (sample_finished no_labels) w'
        ∧ settled w'.
Proof.
  destruct (@loop_settles ascii_tables core_templates no_labels simple_conditions
              (sample_finished no_labels) (sample_reachable no_labels)) as [(w' & Hr & _ & Hs & _) _].
  exists w'. split; [exact Hr|exact Hs].
Defined.
