(* ===== verification/TestUtils.v ===== *)
(** * The end-to-end test utilities (src/test/utils/utils.go)

    These helpers run commands, read the environment and rewrite files.  A program is a tree of
    calls to the host ([io]); what the host answers, and the state it keeps, is a parameter
    ([host]), so that a theorem about every host covers every failure.  [run] gives the result,
    the calls made in order, and the host's state at the end. *)

From S2P Require Import Prelude GoStd GoStdFacts Api.

(** ** strings and bufio *)

Fixpoint str_take (n : nat) (s : string) : string :=
  match n, s with S n', String c s' => String c (str_take n' s') | _, _ => "" end.
Fixpoint str_drop (n : nat) (s : string) : string :=
  match n, s with S n', String _ s' => str_drop n' s' | _, _ => s end.

(** [strings.Index]; [None] is -1. *)
Fixpoint Index (s sub : string) : option nat :=
  if String.prefix sub s then Some 0
  else match s with EmptyString => None | String _ s' => S <$> Index s' sub end.
Definition Contains (s sub : string) : bool := bool_decide (is_Some (Index s sub)).
Definition TrimPrefix (s pre : string) : string :=
  if HasPrefix s pre then str_drop (String.length pre) s else s.

(** [strings.ReplaceAll(s, old, new)] for a non-empty [old]: after a match, [skip] bytes of it
    are left to pass over. *)
Fixpoint replace_from (skip : nat) (s old new : string) : string :=
  match s with
  | EmptyString => ""
  | String c s' =>
      match skip with
      | S skip' => replace_from skip' s' old new
      | 0 => if String.prefix old s then new +:+ replace_from (String.length old - 1) s' old new
             else String c (replace_from 0 s' old new)
      end
  end.
Definition ReplaceAll (s old new : string) : string := replace_from 0 s old new.

(** The tokens of a [bufio.Scanner] over a string: the lines, without a final empty one, a
    carriage return before the line break dropped, up to the first line that does not fit the
    scanner's buffer. *)
Definition MaxScanTokenSize : Z := 64 * 1024.
Fixpoint dropCR (s : string) : string :=
  match s with
  | EmptyString => ""
  | String c EmptyString => if Ascii.eqb c "013"%char then "" else s
  | String c s' => String c (dropCR s')
  end.
Fixpoint fitting (lines : list string) : list string :=
  match lines with
  | [] => []
  | l :: rest => if (len l <? MaxScanTokenSize)%Z then dropCR l :: fitting rest else []
  end.
Definition scan_lines (s : string) : list string :=
  let pieces := Split s "010"%char in
  fitting (if bool_decide (last pieces = Some "") then removelast pieces else pieces).

(** ** Programs that call the host *)

Inductive host_call :=
| Getwd
| Chdir (dir : string)
| Environ
| LookupEnv (key : string)
| CombinedOutput (dir : string) (env args : list string)
| CreateTemp (dir pattern : string)
| CloseFile (path : string)
| RemoveFile (path : string)
| ReadFile (name : string)
| WriteFile (name content : string) (mode : Z)
| GinkgoWrite (text : string).

Definition answer (c : host_call) : Type :=
  match c with
  | Getwd => string * option error
  | Environ => list string
  | LookupEnv _ => option string
  | CombinedOutput _ _ _ => string * option error
  | CreateTemp _ _ | ReadFile _ => result error string
  | Chdir _ | CloseFile _ | RemoveFile _ | WriteFile _ _ _ => option error
  | GinkgoWrite _ => ()
  end.

Inductive io (A : Type) :=
| Done (a : A)
| Ask (c : host_call) (k : answer c → io A).
Arguments Done {A} a.
Arguments Ask {A} c k.

Fixpoint io_bind {A B} (k : A → io B) (p : io A) : io B :=
  match p with Done a => k a | Ask c k' => Ask c (λ a, io_bind k (k' a)) end.
#[export] Instance io_MRet : MRet io := @Done.
#[export] Instance io_MBind : MBind io := @io_bind.
Definition ask (c : host_call) : io (answer c) := Ask c Done.

Definition host (W : Type) : Type := ∀ c : host_call, W → answer c * W.

Fixpoint run {A W} (h : host W) (p : io A) (w : W) : A * list host_call * W :=
  match p with
  | Done a => (a, [], w)
  | Ask c k =>
      let '(a, w1) := h c w in
      let '(r, calls, w2) := run h (k a) w1 in (r, c :: calls, w2)
  end.

(** ** utils.go *)

(** [os.IsNotExist] is library code. *)
Class FileErrors := { IsNotExist : error → bool }.

Definition prometheusOperatorVersion : string := "v0.77.1".
Definition prometheusOperatorURL (version : string) : string :=
  "https://github.com/prometheus-operator/prometheus-operator/releases/download/" +:+ version
  +:+ "/bundle.yaml".
Definition certmanagerVersion : string := "v1.16.3".
Definition certmanagerURL (version : string) : string :=
  "https://github.com/cert-manager/cert-manager/releases/download/" +:+ version
  +:+ "/cert-manager.yaml".

Definition GetNonEmptyLines (output : string) : list string :=
  filter (λ element, element ≠ "") (Split output "010"%char).

Definition GetProjectDir : io (string * option error) :=
  '(wd, err) ← ask Getwd;
  match err with
  | Some err => mret (wd, Some (wrapError "failed to get current working directory: " err))
  | None => mret (ReplaceAll wd "/test/e2e" "", None)
  end.

Definition warnError (err : error) : io () :=
  ask (GinkgoWrite ("warning: " +:+ Error err +:+ newline)).

Section utils.
Context `{UnicodeTables} `{FileErrors}.

(** [Run(exec.Command(args...))] *)
Definition Run (args : list string) : io (string * option error) :=
  '(dir, _) ← GetProjectDir;
  err ← ask (Chdir dir);
  _ ← match err with
      | Some err => ask (GinkgoWrite ("chdir dir: " +:+ Quote (Error err) +:+ newline))
      | None => mret ()
      end;
  environ ← ask Environ;
  let env := environ ++ ["GO111MODULE=on"] in
  let command := Join args " " in
  _ ← ask (GinkgoWrite ("running: " +:+ Quote command +:+ newline));
  '(output, err) ← ask (CombinedOutput dir env args);
  match err with
  | Some err =>
      mret (output, Some (wrapError (Quote command +:+ " failed with error " +:+ Quote output
                                     +:+ ": ") err))
  | None => mret (output, None)
  end.

Definition InstallPrometheusOperator : io (option error) :=
  '(_, err) ← Run ["kubectl"; "create"; "-f"; prometheusOperatorURL prometheusOperatorVersion];
  mret err.

(** The two uninstall helpers only warn. *)
Definition delete_bundle (url : string) : io () :=
  '(_, err) ← Run ["kubectl"; "delete"; "-f"; url];
  match err with Some err => warnError err | None => mret () end.
Definition UninstallPrometheusOperator : io () :=
  delete_bundle (prometheusOperatorURL prometheusOperatorVersion).
Definition UninstallCertManager : io () := delete_bundle (certmanagerURL certmanagerVersion).

(** Some line of the output names one of the CRDs. *)
Definition any_crd (crds lines : list string) : bool :=
  existsb (λ crd, existsb (λ line, Contains line crd) lines) crds.

Definition IsPrometheusCRDsInstalled : io bool :=
  '(output, err) ← Run ["kubectl"; "get"; "crds"; "-o"; "custom-columns=NAME:.metadata.name"];
  match err with
  | Some _ => mret false
  | None => mret (any_crd ["prometheuses.monitoring.coreos.com";
                           "prometheusrules.monitoring.coreos.com";
                           "prometheusagents.monitoring.coreos.com"] (GetNonEmptyLines output))
  end.

Definition InstallCertManager : io (option error) :=
  '(_, err) ← Run ["kubectl"; "apply"; "-f"; certmanagerURL certmanagerVersion];
  match err with
  | Some err => mret (Some err)
  | None =>
      '(_, err) ← Run ["kubectl"; "wait"; "deployment.apps/cert-manager-webhook";
                       "--for"; "condition=Available"; "--namespace"; "cert-manager";
                       "--timeout"; "5m"];
      mret err
  end.

Definition IsCertManagerCRDsInstalled : io bool :=
  '(output, err) ← Run ["kubectl"; "get"; "crds"];
  match err with
  | Some _ => mret false
  | None => mret (any_crd ["certificates.cert-manager.io"; "issuers.cert-manager.io";
                           "clusterissuers.cert-manager.io";
                           "certificaterequests.cert-manager.io"; "orders.acme.cert-manager.io";
                           "challenges.acme.cert-manager.io"] (GetNonEmptyLines output))
  end.

Definition env_or (key dflt : string) : io string :=
  v ← ask (LookupEnv key);
  mret (match v with Some v => if String.eqb v "" then dflt else v | None => dflt end).

(** The two commands of [LoadImageToKindClusterWithName]. *)
Definition save_and_load (name containerTool cluster archivePath : string) : io (option error) :=
  '(_, err) ← Run [containerTool; "save"; name; "-o"; archivePath];
  match err with
  | Some err => mret (Some (wrapError ("failed to save image " +:+ Quote name +:+ " with "
                                       +:+ Quote containerTool +:+ ": ") err))
  | None =>
      '(_, err) ← Run ["kind"; "load"; "image-archive"; archivePath; "--name"; cluster];
      match err with
      | Some err => mret (Some (wrapError ("failed to load image archive into kind cluster "
                                           +:+ Quote cluster +:+ ": ") err))
      | None => mret None
      end
  end.

(** The deferred removal. *)
Definition remove_archive (archivePath : string) : io () :=
  err ← ask (RemoveFile archivePath);
  match err with
  | Some err => if negb (IsNotExist err) then warnError err else mret ()
  | None => mret ()
  end.

Definition close_failed (archivePath : string) (err : error) : error :=
  wrapError ("failed to close temporary image archive " +:+ Quote archivePath +:+ ": ") err.

Definition LoadImageToKindClusterWithName (name : string) : io (option error) :=
  cluster ← env_or "KIND_CLUSTER" "kind";
  containerTool ← env_or "CONTAINER_TOOL" "docker";
  archive ← ask (CreateTemp "" "kind-image-archive-*.tar");
  match (archive : result error string) with
  | Err err => mret (Some (wrapError "failed to create temporary image archive: " err))
  | Ok archivePath =>
      err ← ask (CloseFile archivePath);
      match (err : option error) with
      | Some err => mret (Some (close_failed archivePath err))
      | None =>
          r ← save_and_load name containerTool cluster archivePath;
          _ ← remove_archive archivePath;
          mret r
      end
  end.

Definition UncommentCode (filename target pre : string) : io (option error) :=
  content ← ask (ReadFile filename);
  match (content : result error string) with
  | Err err => mret (Some (wrapError ("failed to read file " +:+ Quote filename +:+ ": ") err))
  | Ok content =>
      match Index content target with
      | None => mret (Some (errorString ("unable to find the code " +:+ Quote target
                                         +:+ " to be uncomment")))
      | Some idx =>
          match scan_lines target with
          | [] => mret None
          | lines =>
              let out := str_take idx content
                         +:+ Join ((λ line, TrimPrefix line pre) <$> lines) newline
                         +:+ str_drop (idx + String.length target) content in
              err ← ask (WriteFile filename out 420);
              match (err : option error) with
              | Some err =>
                  mret (Some (wrapError ("failed to write file " +:+ Quote filename +:+ ": ") err))
              | None => mret None
              end
          end
      end
  end.
End utils.

(** ** Substrings *)

Lemma prefix_spec p s : String.prefix p s = true ↔ ∃ b, s = p +:+ b.
Proof.
  revert s. induction p as [|c p IH]; intros s.
  - split; [intros _; by exists s|]. intros _. by destruct s.
  - destruct s as [|d s]; [split; [done|by intros [b ?]]|]. cbn [String.prefix].
    destruct (ascii_dec c d) as [->|Hne].
    + rewrite IH. split; intros [b Hb]; exists b; by simplify_eq/=.
    + split; [done|]. intros [b Hb]. by simplify_eq/=.
Qed.

Lemma Index_None s sub : Index s sub = None ↔ ∀ a b, s ≠ a +:+ sub +:+ b.
Proof.
  induction s as [|c s IH]; cbn [Index]; destruct (String.prefix sub _) eqn:Hp.
  - apply prefix_spec in Hp as [b Hb]. split; [done|]. intros H. by destruct (H "" b).
  - split; [|done]. intros _ [|d a] b Hb; [|done].
    apply not_true_iff_false in Hp. apply Hp, prefix_spec. by exists b.
  - apply prefix_spec in Hp as [b Hb]. split; [done|]. intros H. by destruct (H "" b).
  - rewrite fmap_None, IH. apply not_true_iff_false in Hp. split.
    + intros H [|d a] b Hb; [apply Hp, prefix_spec; by exists b|]. simplify_eq/=. by apply (H a b).
    + intros H a b ->. by apply (H (String c a) b).
Qed.

(** [a] is what comes before the first occurrence of [sub] in [a ++ sub ++ b]. *)
Definition first_occurrence (a sub b : string) : Prop :=
  ∀ a' b', a +:+ sub +:+ b = a' +:+ sub +:+ b' → (String.length a ≤ String.length a')%nat.

Lemma Index_first a sub b :
  first_occurrence a sub b → Index (a +:+ sub +:+ b) sub = Some (String.length a).
Proof.
  induction a as [|c a IH]; intros Hf.
  - assert (Hp : String.prefix sub (sub +:+ b) = true) by (apply prefix_spec; by exists b).
    simpl. destruct (sub +:+ b); cbn [Index]; by rewrite Hp.
  - change (String c a +:+ sub +:+ b) with (String c (a +:+ sub +:+ b)) in *. cbn [Index].
    destruct (String.prefix sub _) eqn:Hp.
    + apply prefix_spec in Hp as [b' Hb']. specialize (Hf "" b' Hb'). simpl in Hf. lia.
    + rewrite IH; [done|]. intros a' b' E. specialize (Hf (String c a') b').
      simpl in Hf. rewrite E in Hf. specialize (Hf eq_refl). lia.
Qed.

Lemma str_take_app a s : str_take (String.length a) (a +:+ s) = a.
Proof. induction a as [|c a IH]; simpl; [by destruct s|]. by rewrite IH. Qed.
Lemma str_drop_app a s : str_drop (String.length a) (a +:+ s) = s.
Proof. induction a as [|c a IH]; simpl; [by destruct s|]. done. Qed.

(** ** Lines *)

(** Lines a scanner gives back as they are. *)
Definition code_lines (lines : list string) : Prop :=
  lines ≠ [] ∧ last lines ≠ Some ""
  ∧ ∀ l, l ∈ lines → ContainsByte l "010"%char = false ∧ dropCR l = l
                      ∧ (len l < MaxScanTokenSize)%Z.

Lemma scan_lines_code lines : code_lines lines → scan_lines (Join lines newline) = lines.
Proof.
  intros (Hne & Hlast & Hl). unfold scan_lines, newline.
  rewrite Split_Join by (done || naive_solver). rewrite bool_decide_false by done.
  clear Hne Hlast. induction lines as [|l lines IH]; [done|]. simpl.
  destruct (Hl l) as (_ & Hcr & Hlen); [left|]. apply Z.ltb_lt in Hlen.
  rewrite Hlen, Hcr, IH; [done|]. intros l' Hl'. apply Hl. by right.
Qed.

Lemma Join_snoc_empty lines :
  lines ≠ [] → Join (lines ++ [""]) newline = Join lines newline +:+ newline.
Proof.
  induction lines as [|l [|m lines] IH]; [done|done|]. intros _.
  change (Join ((l :: m :: lines) ++ [""]) newline)
    with (l +:+ newline +:+ Join ((m :: lines) ++ [""]) newline).
  rewrite IH by done. change (Join (l :: m :: lines) newline)
    with (l +:+ newline +:+ Join (m :: lines) newline). by rewrite <- !string_app_assoc.
Qed.

(** A line break at the end does not make another line. *)
Lemma scan_lines_terminated lines :
  code_lines lines → scan_lines (Join lines newline +:+ newline) = lines.
Proof.
  intros Hcl. rewrite <- (scan_lines_code _ Hcl) at 2. destruct Hcl as (Hne & Hlast & Hl).
  rewrite <- Join_snoc_empty by done. unfold scan_lines, newline.
  rewrite Split_Join; [|by destruct lines|].
  2: { intros l [?|Hin]%elem_of_app; [by apply Hl|]. by apply list_elem_of_singleton in Hin as ->. }
  rewrite Split_Join by (done || naive_solver).
  rewrite last_snoc, bool_decide_true, removelast_last, bool_decide_false by done. done.
Qed.

(** The lines of a command's output are read back, and nothing that contains a line break or
    is empty is ever returned. *)
Theorem non_empty_lines_spec output :
  (∀ l, l ∈ GetNonEmptyLines output → l ≠ "" ∧ ContainsByte l "010"%char = false)
  ∧ (∀ lines, (∀ l, l ∈ lines → ContainsByte l "010"%char = false) →
       output = Join lines newline → GetNonEmptyLines output = filter (λ l, l ≠ "") lines).
Proof.
  unfold GetNonEmptyLines. split.
  - intros l (Hne & Hl)%list_elem_of_filter. split; [done|]. by eapply Split_sep_free.
  - intros lines Hl ->. destruct (decide (lines = [])) as [->|Hne]; [done|].
    unfold newline. by rewrite Split_Join.
Qed.

(** ** UncommentCode *)

(** Run a program up to the answer of its next call. *)
Ltac run_step := unfold ask, mret, io_MRet, mbind, io_MBind; cbn [io_bind run].
Tactic Notation "run_step" "in" hyp(H) :=
  unfold ask, mret, io_MRet, mbind, io_MBind in H; cbn [io_bind run] in H.

Section theorems.
Context `{UnicodeTables} `{FileErrors} {W : Type} (h : host W).
Implicit Types w : W.

Lemma run_bind {A B} (p : io A) (k : A → io B) w :
  run h (p ≫= k) w
  = let '(a, calls, w1) := run h p w in
    let '(b, calls', w2) := run h (k a) w1 in (b, calls ++ calls', w2).
Proof.
  revert w. induction p as [a|c k' IH]; intros w; simpl.
  - by destruct (run h (k a) w) as [[b calls] w2].
  - destruct (h c w) as [a w1]. unfold mbind, io_MBind in IH. rewrite IH.
    destruct (run h (k' a) w1) as [[x calls] w2]. by destruct (run h (k x) w2) as [[b calls'] w3].
Qed.

(** C39. [UncommentCode] on every host that can read the file.  When the file does not contain the
    target, nothing is written and an error is returned.  For a target of lines ([code_lines]:
    at least one, the last not empty, none ending in a carriage return or as long as the
    scanner's buffer), the file is written once, with the comment prefix removed from the lines
    of the first occurrence of the target and every byte outside it as it was, and the call
    fails exactly when the write does; a line break that ends the target is dropped.  For an
    empty target nothing is written and the call succeeds. *)
Theorem uncomment_code_spec w w1 filename target pre content :
  h (ReadFile filename) w = (Ok content, w1) →
  let '(r, calls, _) := run h (UncommentCode filename target pre) w in
  ((∀ a b, content ≠ a +:+ target +:+ b) → calls = [ReadFile filename] ∧ is_Some r)
  ∧ (∀ a b lines,
       content = a +:+ target +:+ b → first_occurrence a target b → code_lines lines →
       target = Join lines newline ∨ target = Join lines newline +:+ newline →
       let new := a +:+ Join ((λ l, TrimPrefix l pre) <$> lines) newline +:+ b in
       calls = [ReadFile filename; WriteFile filename new 420]
       ∧ (r = None ↔ (h (WriteFile filename new 420) w1).1 = None))
  ∧ (target = "" → calls = [ReadFile filename] ∧ r = None).
Proof.
  intros Hread. unfold UncommentCode. run_step. rewrite Hread.
  destruct (run _ _ w1) as [[r calls] w'] eqn:Hrun. cbv beta iota. split_and!.
  - intros Hnot%Index_None. rewrite Hnot in Hrun. injection Hrun as <- <- _.
    split; [done|]. by eexists.
  - intros a b lines -> Hfirst Hlines Htarget.
    assert (Hscan : scan_lines target = lines).
    { destruct Htarget as [-> | ->]; [by apply scan_lines_code|by apply scan_lines_terminated]. }
    set (new := a +:+ Join _ newline +:+ b).
    rewrite (Index_first _ _ _ Hfirst), Hscan, str_take_app in Hrun.
    rewrite <- string_app_assoc, <- string_app_length, str_drop_app in Hrun.
    assert (Hne : lines ≠ []) by apply Hlines. clear Hlines Hscan Htarget Hfirst Hread.
    destruct lines as [|l lines]; [done|]. fold new in Hrun.
    run_step in Hrun.
    destruct (h (WriteFile filename new 420) w1) as [[err|] w2]; injection Hrun as <- <- _;
      (split; [done|]; by split).
  - intros ->. assert (Hi : Index content "" = Some 0) by (by destruct content).
    rewrite Hi in Hrun. by injection Hrun as <- <- _.
Qed.

(** ** LoadImageToKindClusterWithName *)

Definition is_command (c : host_call) : bool :=
  match c with CombinedOutput _ _ _ => true | _ => false end.
Definition command_args (c : host_call) : list string :=
  match c with CombinedOutput _ _ args => args | _ => [] end.

(** The commands a run executed, in order. *)
Definition commands (calls : list host_call) : list (list string) :=
  command_args <$> filter (λ c, is_command c = true) calls.

Lemma commands_app l k : commands (l ++ k) = commands l ++ commands k.
Proof. unfold commands. by rewrite filter_app, fmap_app. Qed.

(** Calls that execute nothing and leave the files alone. *)
Definition quiet (c : host_call) : bool :=
  match c with
  | CombinedOutput _ _ _ | CloseFile _ | RemoveFile _ | CreateTemp _ _ | WriteFile _ _ _ => false
  | _ => true
  end.

Lemma quiet_commands calls : forallb quiet calls = true → commands calls = [].
Proof.
  unfold commands. induction calls as [|c calls IH]; [done|]. cbn [forallb].
  intros [Hc Hcs]%andb_true_iff. rewrite filter_cons_False by (by destruct c). by apply IH.
Qed.

Lemma run_GetProjectDir w : ∃ r w', run h GetProjectDir w = (r, [Getwd], w').
Proof. unfold GetProjectDir. run_step. destruct (h Getwd w) as [[wd [err|]] w1]; eauto. Qed.

(** [Run] executes its command exactly once, and is quiet before. *)
Lemma run_Run args w : ∃ output err calls dir env w',
  run h (Run args) w = (output, err, calls ++ [CombinedOutput dir env args], w')
  ∧ forallb quiet calls = true.
Proof.
  unfold Run. rewrite run_bind. destruct (run_GetProjectDir w) as ([dir e] & w1 & ->).
  run_step. destruct (h (Chdir dir) w1) as [[err|] w2]; run_step;
    [destruct (h (GinkgoWrite _) w2) as [[] w3]|rename w2 into w3];
    destruct (h Environ w3) as [environ w4]; destruct (h (GinkgoWrite _) w4) as [[] w5];
    destruct (h (CombinedOutput _ _ _) w5) as [[output [err'|]] w6]; run_step;
    first [by eexists _, _, [_; _; _; _; _], _, _, _ | by eexists _, _, [_; _; _; _], _, _, _].
Qed.

Definition save_args (tool name path : string) : list string := [tool; "save"; name; "-o"; path].
Definition load_args (path cluster : string) : list string :=
  ["kind"; "load"; "image-archive"; path; "--name"; cluster].

(** The export, and the import when the export succeeded; no file is closed or removed. *)
Lemma run_save_and_load name tool cluster path w : ∃ r calls w',
  run h (save_and_load name tool cluster path) w = (r, calls, w')
  ∧ forallb (λ c, quiet c || is_command c) calls = true
  ∧ (commands calls = [save_args tool name path] ∧ is_Some r
     ∨ commands calls = [save_args tool name path; load_args path cluster]).
Proof.
  unfold save_and_load. rewrite run_bind.
  destruct (run_Run (save_args tool name path) w) as (o1 & e1 & c1 & d1 & n1 & w1 & Hr1 & Hq1).
  unfold save_args in Hr1 at 1. rewrite Hr1. fold (save_args tool name path). clear Hr1.
  assert (Hw : ∀ c, forallb quiet c = true → forallb (λ c, quiet c || is_command c) c = true).
  { induction c as [|x c IH]; [done|]. simpl. intros [-> Hc]%andb_true_iff. by rewrite IH. }
  destruct e1 as [err|].
  - eexists _, _, _. split; [reflexivity|]. rewrite app_nil_r. split.
    + rewrite forallb_app. apply andb_true_iff. split; [by apply Hw|done].
    + left. rewrite commands_app, quiet_commands by done. split; [done|by eexists].
  - rewrite run_bind.
    destruct (run_Run (load_args path cluster) w1) as (o2 & e2 & c2 & d2 & n2 & w2 & Hr2 & Hq2).
    unfold load_args in Hr2 at 1. rewrite Hr2. fold (load_args path cluster). clear Hr2.
    assert (∃ r, ∀ k, (let '(b, calls', w3) := run h (match e2 with
        | Some err => mret (Some (wrapError ("failed to load image archive into kind cluster "
                                           +:+ Quote cluster +:+ ": ") err))
        | None => mret None end) w2 in (b, k ++ calls', w3)) = (r : option error, k, w2)) as [r Hr].
    { destruct e2; eexists; intros k; cbn [run mret io_MRet]; by rewrite app_nil_r. }
    rewrite Hr. eexists _, _, _. split; [reflexivity|]. split.
    + rewrite !forallb_app, (Hw c1), (Hw c2) by done. done.
    + right. by rewrite !commands_app, (quiet_commands c1), (quiet_commands c2).
Qed.

Lemma run_remove_archive path w : ∃ post w',
  run h (remove_archive path) w = ((), RemoveFile path :: post, w')
  ∧ forallb quiet post = true.
Proof.
  unfold remove_archive, warnError. run_step.
  destruct (h (RemoveFile path) w) as [[err|] w1]; run_step; [|by eexists [], _].
  destruct (negb (IsNotExist err)); run_step; [|by eexists [], _].
  destruct (h (GinkgoWrite _) w1) as [[] w2]. by eexists [_], _.
Qed.

(** What a program executes: [commands_of p w] are the commands of the run of [p] from [w]. *)
Definition result_of {A} (p : io A) w : A := (run h p w).1.1.
Definition commands_of {A} (p : io A) w : list (list string) := commands (run h p w).1.2.

(** A program that continues after [Run]: its commands follow the one that was run. *)
Lemma commands_Run_bind {A} args (k : string * option error → io A) w : ∃ x w',
  commands_of (Run args ≫= k) w = args :: commands_of (k x) w'
  ∧ result_of (Run args ≫= k) w = result_of (k x) w'.
Proof.
  destruct (run_Run args w) as (o & e & c & d & n & w1 & Hr & Hq). exists (o, e), w1.
  unfold commands_of, result_of. rewrite run_bind, Hr.
  destruct (run h (k (o, e)) w1) as [[b calls] w2]. cbn [fst snd].
  by rewrite !commands_app, quiet_commands.
Qed.

(** The installation waits for the webhook only after the bundle was applied, and reports the
    failure of the first; every other helper executes its command once. *)
Theorem cluster_commands w :
  (commands_of InstallCertManager w
     = [["kubectl"; "apply"; "-f"; certmanagerURL certmanagerVersion]]
   ∧ is_Some (result_of InstallCertManager w)
   ∨ commands_of InstallCertManager w
     = [["kubectl"; "apply"; "-f"; certmanagerURL certmanagerVersion];
        ["kubectl"; "wait"; "deployment.apps/cert-manager-webhook"; "--for";
         "condition=Available"; "--namespace"; "cert-manager"; "--timeout"; "5m"]])
  ∧ commands_of InstallPrometheusOperator w
    = [["kubectl"; "create"; "-f"; prometheusOperatorURL prometheusOperatorVersion]]
  ∧ (∀ url, commands_of (delete_bundle url) w = [["kubectl"; "delete"; "-f"; url]])
  ∧ commands_of IsCertManagerCRDsInstalled w = [["kubectl"; "get"; "crds"]].
Proof.
  split_and!.
  - unfold InstallCertManager.
    edestruct (commands_Run_bind (A := option error)) as ([o [e|]] & w1 & -> & ->);
      [by left; split; [|eexists]|].
    right. by edestruct (commands_Run_bind (A := option error)) as ([o2 e2] & w2 & -> & _).
  - unfold InstallPrometheusOperator.
    by edestruct (commands_Run_bind (A := option error)) as ([o e] & w1 & -> & _).
  - intros url. unfold delete_bundle, warnError.
    edestruct (commands_Run_bind (A := unit)) as ([o [e|]] & w1 & -> & _); [|done].
    unfold commands_of. run_step. by destruct (h (GinkgoWrite _) w1).
  - unfold IsCertManagerCRDsInstalled.
    by edestruct (commands_Run_bind (A := bool)) as ([o [e|]] & w1 & -> & _).
Qed.

Lemma run_env_or key dflt w : ∃ v w',
  run h (env_or key dflt) w = (v, [LookupEnv key], w') ∧ (dflt ≠ "" → v ≠ "").
Proof.
  unfold env_or. run_step. destruct (h (LookupEnv key) w) as [[v|] w1]; [|by eexists _, _].
  eexists _, _. split; [done|]. by destruct (String.eqb_spec v "").
Qed.

(** C38. [LoadImageToKindClusterWithName] on every host makes its calls in one of three ways.
    Without a temporary archive it fails at once; when the archive cannot be closed it fails
    too, and the archive is not removed; otherwise the archive is removed after the commands,
    whatever they answered, and nothing but a warning follows: the commands are the export
    alone, with an error returned, or the export and then the import of the same archive.  The
    tool and the cluster are never empty. *)
Theorem load_image_cleanup name w :
  let '(r, calls, _) := run h (LoadImageToKindClusterWithName name) w in
  let opening := [LookupEnv "KIND_CLUSTER"; LookupEnv "CONTAINER_TOOL";
                  CreateTemp "" "kind-image-archive-*.tar"] in
  (calls = opening ∧ is_Some r)
  ∨ (∃ path err, calls = opening ++ [CloseFile path] ∧ r = Some (close_failed path err))
  ∨ (∃ path tool cluster used post,
       calls = opening ++ [CloseFile path] ++ used ++ [RemoveFile path] ++ post
       ∧ forallb (λ c, quiet c || is_command c) used = true ∧ forallb quiet post = true
       ∧ tool ≠ "" ∧ cluster ≠ ""
       ∧ (commands used = [save_args tool name path] ∧ is_Some r
          ∨ commands used = [save_args tool name path; load_args path cluster])).
Proof.
  unfold LoadImageToKindClusterWithName. rewrite run_bind.
  destruct (run_env_or "KIND_CLUSTER" "kind" w) as (cluster & w1 & -> & Hcluster).
  rewrite run_bind.
  destruct (run_env_or "CONTAINER_TOOL" "docker" w1) as (tool & w2 & -> & Htool).
  run_step. destruct (h (CreateTemp _ _) w2) as [[path|err] w3]; run_step;
    [|left; by split; [|eexists]].
  destruct (h (CloseFile path) w3) as [[err|] w4]; run_step; [right; left; by eexists _, _|].
  rewrite (run_bind (save_and_load _ _ _ _)).
  destruct (run_save_and_load name tool cluster path w4) as (r & used & w5 & -> & Hused & Hcmds).
  rewrite (run_bind (remove_archive _)).
  destruct (run_remove_archive path w5) as (post & w6 & -> & Hpost).
  run_step. right; right. exists path, tool, cluster, used, post. rewrite app_nil_r. eauto 10.
Qed.
End theorems.

(** ** A host *)

(** A disk with files, on which every command answers [output] and every other call succeeds. *)
Definition file_host (output : string) : host (gmap string string) := λ c,
  match c return gmap string string → answer c * gmap string string with
  | Getwd => λ w, (("/src/test/e2e", None), w)
  | Environ => λ w, ([], w)
  | LookupEnv _ => λ w, (None, w)
  | CombinedOutput _ _ _ => λ w, ((output, None), w)
  | CreateTemp _ _ => λ w, (Ok "/tmp/archive.tar", <["/tmp/archive.tar" := ""]> w)
  | ReadFile name => λ w,
      (match w !! name with Some s => Ok s | None => Err (errorString "no file") end, w)
  | WriteFile name s _ => λ w, (None, <[name := s]> w)
  | RemoveFile name => λ w, (None, delete name w)
  | Chdir _ | CloseFile _ => λ w, (None, w)
  | GinkgoWrite _ => λ w, ((), w)
  end.

Definition sample_lines : list string := ["#- a"; "#- b"].
Definition sample_yaml : string :=
  Join ["resources:"; "#- a"; "#- b"; "end"; "#- a"; "#- b"; ""] newline.
Definition sample_disk : gmap string string := {["k.yaml" := sample_yaml]}.

(** The witness: only the first of the two occurrences is uncommented. *)
Lemma uncomment_code_spec_witness :
  let '(r, calls, w) := run (file_host "") (UncommentCode (H := ascii_tables) "k.yaml"
                              (Join sample_lines newline) "#") sample_disk in
  ((∀ a b, sample_yaml ≠ a +:+ Join sample_lines newline +:+ b) →
   calls = [ReadFile "k.yaml"] ∧ is_Some r)
  ∧ calls = [ReadFile "k.yaml";
             WriteFile "k.yaml" (Join ["resources:"; "- a"; "- b"; "end"; "#- a"; "#- b"; ""]
                                   newline) 420]
  ∧ r = None.
Proof.
  pose proof (uncomment_code_spec (H := ascii_tables) (file_host "") sample_disk sample_disk
                "k.yaml" (Join sample_lines newline) "#" sample_yaml eq_refl) as Hspec.
  destruct (run _ _ _) as [[r calls] w]. destruct Hspec as (Hnot & Hfound & _). split; [exact Hnot|].
  destruct (Hfound ("resources:" +:+ newline)
              (newline +:+ Join ["end"; "#- a"; "#- b"; ""] newline) sample_lines)
    as [Hcalls Hr].
  - reflexivity.
  - intros a' b' E. destruct (decide (String.length a' < 11)%nat) as [Hlt|Hge];
      [exfalso|simpl; lia].
    do 11 (destruct a' as [|? a']; [by simplify_eq/=|]). simpl in Hlt. lia.
  - split; [done|]. split; [done|]. intros l Hl. unfold sample_lines in Hl. set_unfold in Hl.
    by destruct_or! Hl; subst; vm_compute.
  - left. reflexivity.
  - split; [exact Hcalls|]. by apply Hr.
Defined.

(** A target that ends in a line break loses it, so its last line and the line after it are
    joined; an empty target succeeds and writes nothing. *)
Example uncomment_drops_final_newline :
  (run (file_host "") (UncommentCode (H := ascii_tables) "f" ("#a" +:+ newline) "#")
     {["f" := Join ["#a"; "b"] newline]}).2 = {["f" := "ab"]}.
Proof. vm_compute. reflexivity. Qed.
Example uncomment_empty_target :
  (run (file_host "") (UncommentCode (H := ascii_tables) "f" "" "#") {["f" := "#a"]}).1
  = (None, [ReadFile "f"]).
Proof. vm_compute. reflexivity. Qed.

(** A listing with a header and a CRD; the archive is gone after a load. *)
Example sample_crds :
  (run (file_host (Join ["NAME  CREATED"; "issuers.cert-manager.io  2026-01-01"; ""] newline))
     (IsCertManagerCRDsInstalled (H := ascii_tables)) ∅).1.1 = true.
Proof. vm_compute. reflexivity. Qed.
Example sample_load :
  (run (file_host "") (LoadImageToKindClusterWithName (H := ascii_tables)
                         (H0 := {| IsNotExist _ := false |}) "img") ∅).2 = ∅.
Proof. vm_compute. reflexivity. Qed.
