(* ===== verification/System.v ===== *)
(** * The webhook and the controller together

    What a Ready condition means for admission, and what the defaults guarantee. *)

From S2P Require Import Prelude GoStd GoStdFacts Kube Api Config SpiffeHelper Template GoTemplate Params Selection Plan Mutate MutateFacts Injection Webhook Validation Reconcile ControllerLoop.

(** ** Default token paths *)

(** A name that is one path element. *)
Record path_element (name : string) : Prop := {
  pe_slash : ContainsByte name "/"%char = false;
  pe_empty : name ≠ "";
  pe_dot : name ≠ ".";
  pe_dotdot : name ≠ ".." }.

Lemma default_mount_path name :
  path_element name →
  path_Join [defaultTokenMountRoot; name] = defaultTokenMountRoot +:+ "/" +:+ name.
Proof.
  intros [Hs He Hd Hdd]. unfold path_Join, defaultTokenMountRoot. cbn [drop_empty Join].
  assert (Hsplit : Split ("/var/run/secrets/oidcshim" +:+ "/" +:+ name) "/"
    = [""; "var"; "run"; "secrets"; "oidcshim"; name]).
  { cbn. rewrite Split_free by done. done. }
  unfold Clean. rewrite Hsplit. cbn [foldl].
  apply String.eqb_neq in He, Hd, Hdd.
  unfold clean_step. rewrite He, Hd, Hdd. done.
Qed.

(** ** Shims that leave the token location to the defaults *)

(** What the defaults need to keep a pod valid: the token volume and directory are not
    overridden, the shim's name is a path element, its containers are distinct, the socket is
    mounted somewhere else, and no application container is named like a helper. *)
Record default_shim (o : Options) (pod : Pod) (shim : Shim) : Prop := {
  ds_volume : TokenSpec_VolumeName (Spec_Token (ShimSpec shim)) = "";
  ds_mount : TokenSpec_MountPath (Spec_Token (ShimSpec shim)) = "";
  ds_name : path_element (GetName shim);
  ds_containers : NoDup (Inject_Containers (Inject (ShimSpec shim)));
  ds_socket : spiffe_override (ShimSpec shim) SPIFFE_SocketMountPath (SpiffeSocketMountPath o)
              ∉ [defaultTokenMountRoot +:+ "/" +:+ GetName shim; configMountPath];
  ds_fresh : ∀ c, c ∈ Pod_Containers pod →
    C_Name c ≠ initContainerName (GetName shim) ∧ C_Name c ≠ refreshContainerName (GetName shim) }.

Section system.
Context `{UnicodeTables} `{TextTemplate} `{LabelSelectors} `{ClusterAPI} `{PodCodec}.

Lemma BuildPlan_socket shim values tok d plan :
  BuildPlan shim values tok d = Ok plan →
  Plan_SocketMountPath plan = spiffe_override (ShimSpec shim) SPIFFE_SocketMountPath (D_SocketMountPath d).
Proof.
  unfold BuildPlan. cbv zeta. intros Hb.
  repeat (apply result_bind_Ok in Hb as (? & _ & Hb)).
  destruct (_ && _); [done|]. by injection Hb as <-.
Qed.

Lemma default_plan_ok o namespace t shim plan pod :
  default_shim o pod shim → NoDup (containersFromAnnotation pod) →
  plan_justified o namespace t shim plan → plan_ok pod plan.
Proof.
  intros [Hv Hm Hn Hc Hs Hf] Hann [_ (values & _ & Hb)].
  set (tok := ResolveToken _ _) in Hb.
  assert (Hvol : Token_VolumeName tok = defaultTokenVolumePrefix +:+ GetName shim).
  { unfold tok, ResolveToken. simpl. by rewrite Hv. }
  assert (Hmp : Token_MountPath tok = defaultTokenMountRoot +:+ "/" +:+ GetName shim).
  { unfold tok, ResolveToken. simpl. rewrite Hm. by apply default_mount_path. }
  pose proof (BuildPlan_socket _ _ _ _ _ Hb) as Hsock. simpl in Hsock.
  destruct (BuildPlan_Ok _ _ _ _ _ Hb) as (Hname & _ & _ & Htok & Hcon & Hfiles & _).
  apply build_files_Ok in Hfiles as (_ & Hnd & Hseen).
  split.
  - unfold mountPaths. rewrite Htok. apply NoDup_cons. split; [|done].
    intros (r & Heq & Hr)%list_elem_of_fmap. apply (Hseen r Hr). by apply elem_of_singleton.
  - rewrite Htok, Hvol, Hname.
    repeat (apply NoDup_cons; split;
      [intros Hin; repeat (apply elem_of_cons in Hin as [Hin|Hin]; [discriminate Hin|]);
       by apply elem_of_nil in Hin|]). constructor.
  - rewrite Hsock, Htok, Hmp. apply NoDup_cons. split; [done|]. apply NoDup_cons. split.
    + by intros ?%list_elem_of_singleton.
    + apply NoDup_singleton.
  - unfold requested_names. rewrite Hcon. by destruct (containersFromAnnotation pod).
  - intros c Hcin. rewrite Hname. by apply Hf.
Qed.

(** C17. With the default token location a patch never breaks a pod.  Take a patch for a valid
    pod whose containers annotation names no container twice, where every shim listed for the
    namespace satisfies [default_shim]: the pod the response encodes is the one [Apply] makes
    of the decoded pod and the plans of those shims, and its volume names, container names and
    mount paths are distinct and its mounts all have a volume. *)
Theorem default_shims_keep_pod_valid o req original current warnings pod shims :
  Handle o req = PatchResponseFromRaw original current warnings →
  Decode req = Ok pod → listShims (request_namespace req pod) = Ok shims →
  valid_pod pod → NoDup (containersFromAnnotation pod) →
  (∀ shim, shim ∈ shims → default_shim o pod shim) →
  ∃ ns sa, readTarget (request_namespace req pod) pod = Ok (ns, sa)
    ∧ let t := {| T_Pod := Some pod; T_ServiceAccount := sa; T_Namespace := ns |} in
      let pod' := injected_pod pod (buildPlans o shims (request_namespace req pod) t).1 in
      Marshal pod' = Ok current ∧ valid_pod pod'.
Proof.
  intros (pod0 & ns & sa & shims0 & Hco & Hr & Hl0 & Hne & Hm & Ho)%Handle_patch Hd Hl Hv Hnd Hds.
  assert (pod0 = pod) as -> by (pose proof (co_decoded _ _ _ Hco); congruence).
  assert (shims0 = shims) as -> by congruence.
  exists ns, sa. split; [done|]. split; [exact Hm|]. apply apply_keeps_valid; [done|].
  intros plan Hin. rewrite buildPlans_eq in Hin. simpl in Hin.
  apply list_elem_of_omap in Hin as (shim & Hs & Hp%planned_justified).
  eapply default_plan_ok; [by apply Hds|done|exact Hp].
Qed.

(** ** A shim that is alone *)

(** [shim] is listed, and no other listed shim selects the target. *)
Definition only_shim (shims : list Shim) (t : Target) (shim : Shim) : Prop :=
  ∃ l r, shims = l ++ shim :: r
    ∧ ∀ s, s ∈ l ++ r → Matches (GetName s) (Selection (ShimSpec s)) t = Ok false.

Lemma only_shim_plans o namespace shims t shim plan :
  only_shim shims t shim → plan_justified o namespace t shim plan →
  (buildPlans o shims namespace t).1 = [plan].
Proof.
  intros (l & r & -> & Hno) Hp%planned_justified. rewrite buildPlans_eq. simpl.
  assert (Hnone : ∀ k, (∀ s, s ∈ k → s ∈ l ++ r) → omap (planned o namespace t) k = []).
  { intros k Hk. induction k as [|s k IH]; [done|]. simpl.
    assert (planned o namespace t s = None) as ->.
    { unfold planned, plan_for. rewrite Hno by (apply Hk; left). done. }
    apply IH. intros s' Hs'. apply Hk. by right. }
  rewrite omap_app, Hnone by set_solver. simpl. rewrite Hp, Hnone by set_solver. done.
Qed.

Lemma admitted_applied pod plan :
  already_injected pod = false → admitted (annotationBytes pod) (apply_start pod) plan →
  (apply_pod pod [plan]).1.2 = [plan].
Proof.
  intros Hi Ha%apply_step_admitted. apply (f_equal St_applied) in Ha. simpl in Ha.
  unfold apply_pod, apply_loop. rewrite Hi. simpl. by rewrite Ha.
Qed.

(** Alone, a plan that does not collide with the pod is injected. *)
Lemma only_shim_injected o req pod ns sa shims shim plan :
  let t := {| T_Pod := Some pod; T_ServiceAccount := sa; T_Namespace := ns |} in
  considered o req pod → readTarget (request_namespace req pod) pod = Ok (ns, sa) →
  listShims (request_namespace req pod) = Ok shims → (∀ pod', is_Ok (Marshal pod')) →
  only_shim shims t shim → plan_justified o (request_namespace req pod) t shim plan →
  admitted (annotationBytes pod) (apply_start pod) plan → injects req pod plan (Handle o req).
Proof.
  intros t [Hc Hd Hi Hf Hn] Hr Hl Hm Honly Hj Ha. unfold Handle.
  rewrite Hc, String.eqb_refl. cbn [negb]. rewrite Hd, Hi, Hf, Hn, Hr, Hl. fold t.
  pose proof (only_shim_plans _ _ _ _ _ _ Honly Hj) as Hplans.
  destruct (buildPlans _ _ _ _) as [plans ws]. simpl in Hplans. subst plans.
  pose proof (admitted_applied pod plan Hf Ha) as Hap.
  pose proof (apply_installed pod [plan] plan) as Hins. rewrite Hap in Hins.
  destruct (apply_pod pod [plan]) as [[pod' applied] ws']. simpl in *. subst applied.
  destruct (Hm pod') as [current Hcur]. rewrite Hcur. exists pod', current, (ws ++ ws').
  split_and!; [done..|]. apply Hins. left.
Qed.

End system.

(** ** What Ready promises *)

Section ready.
Context `{UnicodeTables} `{TextTemplate} `{LabelSelectors} `{ClusterAPI} `{PodCodec} `{ConditionsLib}.

(** The status the controller stores says that the shim is Ready. *)
Definition is_ready (shim : Shim) : Prop :=
  ∃ c, find_condition (Conditions (ShimStatus shim)) ConditionReady = Some c
       ∧ Cond_Status c = ConditionTrue.

Lemma socket_file_ne spec o : SpiffeSocketFile o ≠ "" → socket_file spec (handler_defaults o) ≠ "".
Proof.
  intros Hf. unfold socket_file, spiffe_override. simpl.
  destruct (SPIFFE spec); [by apply or_default_ne|done].
Qed.

(** The text of the error for content over the limit. *)
Definition too_large (shim : Shim) (limit bytes : Z) : error :=
  errorString (("injection: shim " +:+ Quote (GetName shim) +:+ ": ")
               +:+ "rendered content is " +:+ Itoa bytes +:+ " bytes, exceeds the "
               +:+ Itoa limit +:+ " byte limit").

Lemma valid_shim_plan o namespace t shim values audience :
  shim_valid (ShimSpec shim) (GetName shim) →
  (∀ tmpl, templated (ShimSpec shim) tmpl → key_safe tmpl) →
  Matches (GetName shim) (Selection (ShimSpec shim)) t = Ok true →
  Resolve (shim_input shim namespace t (ResolveToken (GetName shim) (Spec_Token (ShimSpec shim))))
    = Ok values →
  Template.Render "audience" (Audience (ShimSpec shim)) values = Ok audience → audience ≠ "" →
  SpiffeSocketFile o ≠ "" →
  (∃ plan, plan_justified o namespace t shim plan)
  ∨ ∃ bytes, (MaxRenderedBytes o < bytes)%Z
      ∧ plan_for o namespace t shim = Err (too_large shim (MaxRenderedBytes o) bytes).
Proof.
  intros Hv Hs Hm Hr Ha Hne Hf.
  set (tok := ResolveToken (GetName shim) (Spec_Token (ShimSpec shim))) in *.
  destruct (BuildPlan shim values tok (handler_defaults o)) as [plan|e] eqn:Hb.
  - left. exists plan. split; [done|]. exists values. done.
  - right.
    destruct (valid_shim_builds shim (shim_input shim namespace t tok) values (handler_defaults o) e)
      as [Hau|(bytes & Hby & He)]; try done.
    + by apply socket_file_ne.
    + congruence.
    + exists bytes. simpl in Hby. split; [lia|]. unfold plan_for. rewrite Hm. simpl.
      fold tok. rewrite Hr. simpl. rewrite Hb, He. done.
Qed.

(** What the webhook does with a shim that can be rendered: its content is over the limit and a
    warning says so, or it has a plan.  The plan is injected, or [Apply] skipped it and a
    warning says why; it is injected when no other shim selects the pod, the plan fits the
    pod's annotations, its containers exist and nothing on the pod collides with it. *)
Definition served (o : Options) (req : Request) (pod : Pod) (t : Target) (shims : list Shim)
    (shim : Shim) : Prop :=
  (∃ bytes, (MaxRenderedBytes o < bytes)%Z
     ∧ shim_skipped shim (too_large shim (MaxRenderedBytes o) bytes)
       ∈ response_warnings (Handle o req))
  ∨ ∃ plan, plan_justified o (request_namespace req pod) t shim plan
     ∧ (injects req pod plan (Handle o req)
        ∨ ∃ w, w ∈ response_warnings (Handle o req) ∧ skip_warning plan w)
     ∧ (only_shim shims t shim → admitted (annotationBytes pod) (apply_start pod) plan →
        injects req pod plan (Handle o req)).

Lemma valid_shim_is_served o req pod ns sa shims shim values audience :
  let t := {| T_Pod := Some pod; T_ServiceAccount := sa; T_Namespace := ns |} in
  shim_valid (ShimSpec shim) (GetName shim) →
  considered o req pod → options_ok o → (∀ pod', is_Ok (Marshal pod')) →
  readTarget (request_namespace req pod) pod = Ok (ns, sa) →
  listShims (request_namespace req pod) = Ok shims → shim ∈ shims →
  (∀ tmpl, templated (ShimSpec shim) tmpl → key_safe tmpl) →
  Matches (GetName shim) (Selection (ShimSpec shim)) t = Ok true →
  Resolve (shim_input shim (request_namespace req pod) t
             (ResolveToken (GetName shim) (Spec_Token (ShimSpec shim)))) = Ok values →
  Template.Render "audience" (Audience (ShimSpec shim)) values = Ok audience → audience ≠ "" →
  served o req pod t shims shim.
Proof.
  intros t Hv Hco Hopt Hm Hr Hl Hin Hsi Hma Hres Hau Hne.
  destruct (Handle_considered o req pod ns sa shims Hco Hr Hl Hm) as (_ & Hplan & Hwarn).
  destruct (valid_shim_plan o (request_namespace req pod) t shim values audience)
    as [[plan Hp]|(bytes & Hb & Hp)]; try done; [by destruct Hopt| |].
  - right. exists plan. split_and!; [done|by eapply Hplan|]. intros Hon Had.
    by eapply only_shim_injected.
  - left. exists bytes. split; [done|]. by apply Hwarn.
Qed.

(** C16. End to end, with the controller running beside the webhook: take any state the cluster
    can get into, whatever edits, cache lag, conflicts and failures led there, in which the
    stored shim says it is Ready for its current generation.  If the webhook sees that spec
    (an older status does not matter), the shim is listed for the pod's namespace and selects
    the pod, its templates can fail only for a mentioned field without a value, and its
    parameters resolve to a non-empty audience, then no error is left: the webhook builds its
    plan, or warns that the content exceeds the limit, and the plan is injected, for certain
    when no other shim selects the pod and it does not collide with it, or skipped with a
    warning ([served]). *)
Theorem settled_shim_is_injected w obj o req pod ns sa shims shim values audience :
  let t := {| T_Pod := Some pod; T_ServiceAccount := sa; T_Namespace := ns |} in
  cluster_reachable w → W_server w = Some obj →
  ObservedGeneration (ShimStatus (O_shim obj)) = GetGeneration (O_shim obj) →
  is_ready (O_shim obj) →
  ShimSpec shim = ShimSpec (O_shim obj) → GetName shim = GetName (O_shim obj) →
  considered o req pod → options_ok o → (∀ pod', is_Ok (Marshal pod')) →
  readTarget (request_namespace req pod) pod = Ok (ns, sa) →
  listShims (request_namespace req pod) = Ok shims → shim ∈ shims →
  (∀ tmpl, templated (ShimSpec shim) tmpl → key_safe tmpl) →
  Matches (GetName shim) (Selection (ShimSpec shim)) t = Ok true →
  Resolve (shim_input shim (request_namespace req pod) t
             (ResolveToken (GetName shim) (Spec_Token (ShimSpec shim)))) = Ok values →
  Template.Render "audience" (Audience (ShimSpec shim)) values = Ok audience → audience ≠ "" →
  served o req pod t shims shim.
Proof.
  intros t Hreach Hobj Hgen (c & Hf & Hc) Hspec Hname. apply valid_shim_is_served.
  destruct (inv_server _ (reachable_inv _ Hreach) _ Hobj) as [_ [_ Htells]].
  destruct (Htells Hgen) as (c' & Hf' & _ & Hiff & _). rewrite Hspec, Hname. apply Hiff. congruence.
Qed.

End ready.

(** ** Concrete requests *)

Lemma sample_default : default_shim Options_Defaults (sample_pod ∅) sample_shim.
Proof.
  split; try reflexivity.
  - split; [reflexivity|discriminate..].
  - constructor.
  - apply (bool_decide_unpack _). vm_compute. exact I.
  - apply Forall_forall. apply (bool_decide_unpack _). vm_compute. exact I.
Qed.

(** A codec that prints the volumes and the containers with their mounts. *)
Definition print_container (c : Container) : string :=
  C_Name c +:+ ":" +:+ Join (MountPath <$> C_VolumeMounts c) ",".
Definition listing_codec : PodCodec :=
  {| Decode := λ _, Ok (sample_pod ∅);
     Marshal := λ pod, Ok (Join (Volume_Name <$> Pod_Volumes pod) "," +:+ "|"
       +:+ Join (print_container <$> (Pod_InitContainers pod ++ Pod_Containers pod)) ";") |}.
Definition sample_listing : string :=
  "data,spiffe-workload-api,oidcshim-token-gcp,oidcshim-config-gcp|".

Lemma default_shims_keep_pod_valid_witness :
  ∃ pod' rest, @Marshal listing_codec pod' = Ok (sample_listing +:+ rest) ∧ valid_pod pod'
    ∧ C_Name <$> Pod_InitContainers pod'
      = ["oidcshim-init-gcp"; "oidcshim-refresh-gcp"; "setup"].
Proof.
  destruct (@Handle ascii_tables core_templates match_labels_only sample_cluster listing_codec
    Options_Defaults sample_request) as [| |original current warnings] eqn:E;
    [vm_compute in E; discriminate E..|].
  destruct (@default_shims_keep_pod_valid ascii_tables core_templates match_labels_only
    sample_cluster listing_codec Options_Defaults sample_request original current warnings
    (sample_pod ∅) [sample_shim] E) as (ns & sa & Hr & Hm & Hv).
  - reflexivity.
  - vm_compute. reflexivity.
  - apply (bool_decide_unpack _). vm_compute. exact I.
  - apply (bool_decide_unpack _). vm_compute. exact I.
  - intros shim ->%list_elem_of_singleton. apply sample_default.
  - vm_compute in Hr. injection Hr as <- <-.
    eexists _, _. split; [|split; [exact Hv|]]; vm_compute; reflexivity.
Defined.

Definition sample_resolved : gmap string string :=
  match @Resolve ascii_tables core_templates
          (@shim_input sample_cluster sample_shim "my-app" sample_target sample_token) with
  | Ok v => v
  | Err _ => ∅
  end.

(** The sample shim, stored as Ready and enrolled by its namespace. *)
Lemma settled_shim_is_injected_witness :
  @served ascii_tables core_templates match_labels_only sample_cluster sample_codec
    Options_Defaults sample_request (sample_pod ∅) sample_target [sample_shim] sample_shim.
Proof.
  apply (@settled_shim_is_injected ascii_tables core_templates match_labels_only sample_cluster
    sample_codec simple_conditions (sample_finished match_labels_only)
    (sample_stored match_labels_only) Options_Defaults sample_request (sample_pod ∅)
    (T_Namespace sample_target) None [sample_shim] sample_shim sample_resolved
    "//iam/projects/1/locations/global").
  - apply sample_reachable.
  - vm_compute. reflexivity.
  - vm_compute. reflexivity.
  - eexists. split; vm_compute; reflexivity.
  - vm_compute. reflexivity.
  - vm_compute. reflexivity.
  - split; vm_compute; reflexivity.
  - apply (@defaults_ok ascii_tables).
  - intros pod'. exists "{}". reflexivity.
  - vm_compute. reflexivity.
  - vm_compute. reflexivity.
  - left.
  - apply sample_templates.
  - vm_compute. reflexivity.
  - vm_compute. reflexivity.
  - vm_compute. reflexivity.
  - discriminate.
Defined.

(** ** The status of a shim does not matter to the webhook *)



Section status.
Context `{UnicodeTables} `{TextTemplate} `{LabelSelectors} `{PodCodec}.
Context (status : Shim → OIDCShimStatus) (c : ClusterAPI).




End status.

(** ** An invalid shim is injected *)

(** The sample shim with a file mode of four octal digits. *)
Definition odd_mode_shim : OIDCShim :=
  {| OIDCShim_Meta := {| Meta_Name := "gcp"; Meta_Namespace := "my-app"; Meta_Generation := 1 |};
     OIDCShim_Spec :=
       {| Provider := Provider sample_spec; Selection := Selection sample_spec;
          Spec_Parameters := sample_parameters; Audience := Audience sample_spec;
          ExtraAudiences := []; Spec_Token := Spec_Token sample_spec;
          Inject := {| Inject_Env := []; Inject_Containers := [];
                       Inject_Files := [ {| File_Path := "/etc/app/key.json"; File_Content := "x";
                                            File_Mode := "7777" |} ] |};
          SPIFFE := None; Helper := None |};
     OIDCShim_Status := sample_status |}.

Definition odd_mode_cluster : ClusterAPI :=
  {| IsNotFound := @IsNotFound sample_cluster;
     Get_Namespace := @Get_Namespace sample_cluster;
     Get_ServiceAccount := @Get_ServiceAccount sample_cluster;
     List_OIDCShims := λ _, Ok [odd_mode_shim];
     List_ClusterOIDCShims := Ok [];
     Get_ConfigMap := @Get_ConfigMap sample_cluster |}.

(** A shim whose Ready condition is False with reason InvalidSpec is injected, without a
    warning. *)
Example invalid_shim_is_injected :
  @validateShim ascii_tables core_templates match_labels_only
     (OIDCShim_Spec odd_mode_shim) "gcp" ≠ None
  ∧ @Handle ascii_tables core_templates match_labels_only odd_mode_cluster sample_codec
      Options_Defaults sample_request = PatchResponseFromRaw "{raw}" "{}" [].
Proof. split; [vm_compute; discriminate|vm_compute; reflexivity]. Qed.
